(* ===== verification/_CoqProject ===== *)
-Q . S2P
Prelude.v
Edit.v
Changeset.v
Apply.v
Cursor.v
Compose.v
Follow.v
Utf8.v
Diff.v
Fsm.v
Json.v
Base64.v
Codec.v
Wire.v
Binary.v
Store.v
RaftTypes.v
Messages.v
Server.v
Session.v
Browser.v
Rebased.v
Client.v
PageSession.v
PageSync.v
EndToEnd.v
Pages.v
Inmem.v
RaftWire.v
InmemTransport.v
Transport.v
Bolt.v
Node.v
Election.v
Logs.v
Replication.v
Append.v
Leader.v
Loops.v
Cluster.v
Runs.v
Candidate.v
Moves.v
Turns.v
ElectionSafety.v
Committed.v
ApplyLoop.v
ReplicatorLoop.v
History.v
LogSafety.v
LogSteps.v
LogEvents.v
LogAgreement.v
Checked.v
Lone.v
TestNode.v
Machine.v
Setup.v
Flags.v
Main.v
System.v
TwoLeaders.v
Deposed.v
CarefulRun.v
Stale.v
Scenarios.v
Witnesses.v
