(* ===== verification/Prelude.v ===== *)
(** * Distributed collaborative editor: verification library

    ** The program

    A cluster of Go servers keeps one text document.  A browser client edits
    its copy, sends each edit as a _changeset_ (retain, insert, delete) to the
    leader, and is told of everybody's edits.  The leader replicates the
    submission with Raft; every server feeds the committed entries to a
    document state machine, which rebases the changeset on the revisions
    committed since the client's base revision (operational transformation),
    applies it, and announces the result to its clients.

    - [internal/ot]: changesets and their algebra;
    - [internal/fsm]: the document state machine;
    - [internal/raft]: Raft, its stores and transports;
    - [internal/store]: the bbolt store;
    - [internal/server], [cmd/server]: WebSocket server and wiring;
    - [web/client.js]: the client.

    ** The files

    Operational transformation ([internal/ot]):
    - [Edit]: the specification: a changeset as a script of unit edits, with
      composition and rebasing of scripts and the proof that the two orders of
      two concurrent scripts meet;
    - [Changeset] ([changeset.go]): the data, the builders, [Validate], well
      formedness and its abstraction to scripts;
    - [Apply] ([apply.go]): [ApplyChangeset];
    - [Cursor]: the closures [peek], [consume], [addOp] that [compose.go],
      [follow.go] and [diff.go] share;
    - [Compose], [Follow], [Diff] ([compose.go], [follow.go], [diff.go]), and
      [Utf8], the rune conversions of the language [diff.go] uses.

    Bytes:
    - [Json]: the text of a JSON tree and the tree of a text, as
      [encoding/json] writes and reads it; [Base64]; [Binary]: big endian;
    - [Codec]: how Go values are encoded and decoded, a record per type, and
      the law a codec keeps;
    - [Wire] (changesets, log entries of the state machine), [RaftWire] (Raft's
      log and messages), [Messages] (the protocol with the browser): the
      codecs of the program's types.

    State machine ([internal/fsm]):
    - [Fsm]: [applyEntry] is [Apply] from the decoded entry on; the state is
      the Go struct; the goroutine that calls [onCommit] is the list of calls;
    - [Machine]: [Apply] on bytes, as an instance of the interface Raft feeds;
      the document of a replica as a function of its log.

    WebSocket server ([internal/server/websocket.go]):
    - [Server]: the table of clients, their connections in a heap with the
      send channel and its closed flag, the read loop and [broadcast] as steps
      of a world in which handlers, commits and writers interleave; what the
      handlers ask of Raft and of the state machine comes with the step;
    - [Session]: a submission from the bytes of the connection to the log.

    Browser ([web/client.js]):
    - [Browser]: the client's own [compose], [follow], [applyChangeset],
      [diffToChangeset] on sequences of code units; [Client]: the state of the page, the handlers of messages
      and of the submission timer with their [try] and [catch], and the wire;
    - [Rebased]: what [Follow] and [DiffToChangeset] keep of a changeset;
      [PageSession]: a page connected to a server, as events, the invariant,
      and that the two implementations of the algebra agree on what pages
      exchange ([browser_ot_agrees]); [PageSync]: that every event keeps it; [EndToEnd]: the
      theorems, and what becomes of them when a submission is sent again or a
      connection opened again; [Pages]: any number of pages of one server.

    Stores and Raft ([internal/raft], [internal/store]):
    - [Store] ([types.go]): the interfaces [LogStore], [StableStore] and [FSM]
      as classes, and what an implementation promises as classes of laws: a
      log store represents a list of entries numbered from 1, a write succeeds
      or changes nothing.  Raft is proved against the laws;
    - [Inmem] ([inmem.go]), [Bolt] ([boltstore.go]): the stores, which keep the
      promises.  The bbolt database under [Bolt] is a class of operations with
      its documented behaviour as laws, of which [Bolt.Mem] is an instance.
      Truncation has a class of its own ([LogStoreTruncates]): the bbolt store
      keeps that promise only if a cursor goes on after a deletion
      ([BoltResumes]), which bbolt does not document, and a database that does
      all that is documented leaves entries behind
      ([truncation_leaves_entries]);
    - [Transport] ([transport.go]): framing, both ends of a call over TCP, the
      listener; [InmemTransport] ([inmem.go]): calls between transports of one
      process as steps;
    - [RaftTypes] ([types.go], [config.go], [future.go]), [Node] ([raft.go]:
      state, persistence, [stepDown], restart), [Election] ([election.go]),
      [Replication] ([replication.go]), [Loops] ([raft.go]: [Apply], appends,
      apply loop, role loops): the definitions;
    - [Logs]: the specification of log replication on lists: [merge], Log
      Matching, coherence;
    - [Append] (the follower), [Leader] (commit rule, responses, the exchange
      with one follower), [Runs] (a node's life as a step relation, restart),
      [Candidate] (elections, taking office, the election time-out),
      [Committed] (applying, agreement of replicas), [ApplyLoop] and [ReplicatorLoop]
      (the goroutine that applies and that of a replicator, among the others):
      the theorems;
    - [TestNode], [Scenarios], [Witnesses]: concrete nodes; schedules in which
      a promise fails; each theorem with hypotheses applied where they hold.

    The cluster:
    - [Cluster]: servers (a node and the place of its main goroutine), calls in
      flight, and the function from an event to the next cluster;
    - [Moves], [Turns]: what an operation does to a node, and an event to a
      server; [ElectionSafety]: the invariant of the cluster and the theorem;
    - [History]: the argument for the safety of the logs, on the logs that the
      leaders have had; [LogSafety]: its invariant of the cluster; [LogSteps],
      [LogEvents]: that the events keep it, those that leave the logs alone and
      those that change them; [LogAgreement]: elections, and the theorems;
    - [Lone]: a cluster of one server;
    - [Checked]: runs by computation, each event checked for the conditions of
      the theorems; [CarefulRun]: such a run, to which they are applied;
      [TwoLeaders], [Deposed], [Stale]: for each race that the conditions
      exclude, a run that ends with replicas that disagree.

    The program:
    - [Setup] ([internal/server/cluster.go]): [SetupRaft] with the resources it
      opens and closes;
    - [Flags], [Main] ([cmd/server/main.go]): the settings of flags and file,
      the start, the proposal of the initial text;
    - [System]: the documents of the servers that the program starts.

    ** How the code is modelled

    Integers are [Z]; every sum at a machine type is wrapped with [int64] or
    [uint64].  Strings and byte slices are lists of bytes.  A call returns an
    [outcome]: a value, an error, a panic, or no return.  Maps are [gmap].
    Go's mutexes make each critical section atomic, so an operation is a
    function from state to state and concurrency is the order of operations;
    where a function lets go of the lock in its middle ([replicateOnce]) it is
    two operations.  Pointers that matter for aliasing (peer records, futures)
    are positions in a heap kept in the node.  What a [select] receives is a
    list of events given to the loop.  Logging is left out.  A nil slice and an
    empty one are one value, written as [null] in JSON.  The operating system
    and other packages (bbolt, sockets, files) are parameters.

    Loops that are not structural have fuel.  [consume_loop] and the Raft
    loops over a log have as much as they can use, and their lemmas show it is
    never short on a represented log; [follow_loop] has one turn per
    operation, which is exact: with that much it has returned or never will
    ([Follow_fuel_exact]); [compose_loop] has as many, which is enough on well
    formed changesets ([Compose_correct]); the loops over the bytes of a
    connection or a duration have one turn per byte.  Lexer and parser of JSON
    are automata and need none.

    ** What is proved

    - Operational transformation: [Compose] is application in sequence;
      [Follow] converges, yields valid changesets, terminates on them;
      [DiffToChangeset] is correct and minimal, and its changesets converge.
    - State machine: a submission is rebased, applied and recorded once; the
      log replays to the text; client and server converge; no submission is
      applied twice; catching up; a replica's document is what the submissions
      in its log make, and an entry reads from the log as it was written.
    - Bytes: every message of the protocol, of Raft and of the log is read as
      it was written, and what is read from any bytes is well formed.
    - Stores and transports: the bbolt store is a log and a map, and truncates
      under [BoltResumes]; a call over TCP or memory brings the node's answer
      to that request.
    - Raft node: every handler on every branch; Log Matching; the commit rule;
      elections need a majority; one vote per term; term and vote survive a
      crash at any point, if the writes of the stable store do not fail
      ([StableStoreReliable]: the code only logs a failure); committed entries reach the state machine in order
      and once, and no wake-up of the apply loop or of a replicator is lost;
      replicas agree; the exchange with a follower succeeds.
    - Cluster: whatever happens in whatever order, crashes included, no term
      has two leaders ([election_safety]); what is committed is never lost or
      replaced, leaders have it, logs match and state machines agree
      ([committed_forever], [leader_completeness], [state_machines_agree]).
      The conditions are the events that [orderly] and [careful] name: an answer
      to an old replicator does not interrupt a campaign, a new leader still
      leads when it appends its no-op, an acceptance is processed by the leader
      it was given to; integers do not run out.  Without the first, the second
      or the third the replicas diverge ([replicas_diverge],
      [deposed_leader_appends], [stale_acceptance_commits]).  The logs start
      empty and writes do not fail: a failed write is only logged by the code.
    - WebSocket server: no schedule of handlers, commits and writes makes it
      panic; a commit reaches every other client; connecting catches up; a
      submission is answered, or goes into the log as it came.
    - Browser: a page keeps up with the document through any run of typing,
      submissions, commits and messages, and comes to rest with the text of
      the server, in which everything typed is ([page_keeps_up],
      [page_settles], [broadcast_keeps_typing]); any number of pages in any
      interleaving end with one text ([pages_agree], [pages_settle]).  The
      messages arrive in the order of the commits, no submission is sent twice
      and the connection holds; what is written is ASCII without carriage
      returns (which a text area replaces), and texts stay below [MaxText],
      2^51 (a number of the browser is exact below 2^53).  Without the second
      and third a page ends with another text or deletes what nobody deleted
      ([early_ack_diverges], [reconnect_loses_typing],
      [reconnect_loses_submission], [reconnect_deletes_text]).
    - Program: a node starts exactly with settings Raft accepts, from what its
      database holds, and leaves nothing open otherwise; servers started with
      one list of peers are a cluster for which election safety holds; on
      stores without a log that keep their promises the documents of a cluster
      have one history ([documents_agree], applied to the program's servers on
      databases in memory); a server without peers leads and appends but
      commits nothing ([lone_program_commits_nothing]);
      the initial text is inserted once.
    - Where the code breaks a promise, the schedule or input that does it is
      computed: [Validate_admits_divergence], [wrapping_lengths_panic],
      [poisoned_log_panics], [Follow_zero_length_diverges],
      [reconnected_client_forgotten], [typed_non_ascii_refused],
      [empty_changeset_is_null], [backlog_never_sent], [Scenarios].

    The convergence theorems ask that no two insertions be adjacent in a
    changeset ([no_double_insert]), which every changeset built by [Compose],
    [Follow] or [DiffToChangeset] satisfies, and that lengths stay below
    [MaxDoc], 2^61 bytes, so that sums of two lengths fit an [int].

    ** What is not modelled

    Timers (a time-out or a heartbeat is an event that may come at any time),
    the sockets under the transports, pings and deadlines of a connection,
    logging, the parsing of flags, the HTTP server and its signals: these are
    calls of other packages with nothing decided between them.  Of the browser
    the DOM, the cursor's place, redirections and the generator of test input.
    The theorems on pages take the server as one state machine that commits
    what it is sent; that the replicas behind it are one state machine is what
    the theorems on the cluster show.

    Memory is taken to be enough: a changeset that declares an absurd length,
    for which [Grow] cannot allocate, is applied or refused like any other.
    The deadlines of the two ends of a call (the caller reads for 5 s, the
    handler waits 10 s for the node) are not tied to each other: a call either
    meets its answer or the end of what can be read. *)

From Stdlib Require Export ZArith Lia List.
From Stdlib Require Strings.Byte.
From stdpp Require Export base tactics list gmap strings countable numbers option sorting.

#[global] Open Scope Z_scope.

(** ** Machine integers

    Go's [int] and [int64] are 64 bit two's complement, [uint64] and [uint32]
    are unsigned.  Integers are [Z], and every addition or subtraction the
    source performs at a machine type is wrapped with one of these. *)

Definition MaxInt : Z := 9223372036854775807.
Definition MinInt : Z := -9223372036854775808.
Definition two64 : Z := 18446744073709551616.
Definition MaxUint64 : Z := 18446744073709551615.

Definition int64 (z : Z) : Z := (z + 9223372036854775808) mod two64 - 9223372036854775808.
Definition uint64 (z : Z) : Z := z mod two64.
Definition uint32 (z : Z) : Z := z mod 4294967296.

Definition is_int (z : Z) : Prop := MinInt <= z <= MaxInt.
Definition is_uint64 (z : Z) : Prop := 0 <= z <= MaxUint64.

(** ** Go strings and byte slices: sequences of bytes *)

Abbreviation bytes := (list Byte.byte).

#[export] Instance byte_eq_decision : EqDecision Byte.byte := Byte.byte_eq_dec.

#[export] Program Instance byte_countable : Countable Byte.byte :=
  inj_countable Byte.to_N Byte.of_N _.
Next Obligation. intros b. apply Byte.of_to_N. Qed.

(** [len s], Go's length of a string or slice. *)
Definition len {A} (l : list A) : Z := Z.of_nat (length l).

(** Literals in examples. *)
Definition str (s : String.string) : bytes := String.list_byte_of_string s.
Arguments str s%_string.

(** A byte as a number, and the conversion [byte(z)], which truncates. *)
Definition byteZ (b : Byte.byte) : Z := Z.of_N (Byte.to_N b).
Definition Zbyte (z : Z) : Byte.byte :=
  match Byte.of_N (Z.to_N (z mod 256)) with Some b => b | None => Byte.x00 end.

(** [s <= t] on Go strings: bytewise lexicographic. *)
Fixpoint str_leb (s t : bytes) : bool :=
  match s, t with
  | [], _ => true
  | _ :: _, [] => false
  | a :: s', b :: t' =>
      if (Byte.to_N a <? Byte.to_N b)%N then true
      else if (Byte.to_N a =? Byte.to_N b)%N then str_leb s' t'
      else false
  end.

(** [s[lo:hi]] on strings and slices; [None] is the run-time panic. *)
Definition slice {A} (s : list A) (lo hi : Z) : option (list A) :=
  if (0 <=? lo) && (lo <=? hi) && (hi <=? len s)
  then Some (take (Z.to_nat (hi - lo)) (drop (Z.to_nat lo) s))
  else None.

(** [s[i]]; [None] is the run-time panic. *)
Definition index {A} (s : list A) (i : Z) : option A :=
  if 0 <=? i then s !! Z.to_nat i else None.

(** ** Results of Go functions

    A call returns a value, returns a non-nil [error], panics, or never
    returns.  [Diverge] is only produced by the fuelled loops, and each of
    them comes with a lemma that more fuel does not change the answer. *)

Inductive outcome (E A : Type) : Type :=
| Ok (a : A)
| Err (e : E)
| Panic
| Diverge.
Arguments Ok {E A} a.
Arguments Err {E A} e.
Arguments Panic {E A}.
Arguments Diverge {E A}.

Definition obind {E A B} (m : outcome E A) (f : A -> outcome E B) : outcome E B :=
  match m with
  | Ok a => f a
  | Err e => Err e
  | Panic => Panic
  | Diverge => Diverge
  end.

Definition or_panic {E A} (o : option A) : outcome E A :=
  match o with Some a => Ok a | None => Panic end.

(** A call whose error is always nil, inside one that can fail. *)
Definition no_err {E A} (m : outcome Empty_set A) : outcome E A :=
  match m with
  | Ok a => Ok a
  | Err e => match e with end
  | Panic => Panic
  | Diverge => Diverge
  end.

Declare Scope go_scope.
Delimit Scope go_scope with go.
Notation "'let!' x ':=' m 'in' k" := (obind m (fun x => k))
  (at level 10, x pattern, m at level 100, k at level 200) : go_scope.
#[global] Open Scope go_scope.

(** * Lemmas *)

Ltac int_unfold :=
  unfold is_int, is_uint64, int64, uint64, uint32, MaxInt, MinInt, MaxUint64, two64, len in *.

Lemma int64_id z : is_int z -> int64 z = z.
Proof. int_unfold. intros H. rewrite Z.mod_small; lia. Qed.

Lemma int64_range z : is_int (int64 z).
Proof.
  int_unfold. pose proof (Z.mod_pos_bound (z + 9223372036854775808) 18446744073709551616).
  lia.
Qed.

(** Wrapping keeps the residue modulo 2^64. *)
Lemma int64_cong z : exists k, int64 z = z + k * two64.
Proof.
  int_unfold. exists (- ((z + 9223372036854775808) / 18446744073709551616)).
  pose proof (Z.div_mod (z + 9223372036854775808) 18446744073709551616). lia.
Qed.

Lemma int64_cong_eq a k : int64 (a + k * two64) = int64 a.
Proof.
  unfold int64, two64. f_equal.
  replace (a + k * 18446744073709551616 + 9223372036854775808)
    with (a + 9223372036854775808 + k * 18446744073709551616) by lia.
  apply Z_mod_plus_full.
Qed.

Lemma int64_add_l a b : int64 (int64 a + b) = int64 (a + b).
Proof.
  destruct (int64_cong a) as [k ->].
  replace (a + k * two64 + b) with (a + b + k * two64) by lia. apply int64_cong_eq.
Qed.

Lemma int64_add_r a b : int64 (a + int64 b) = int64 (a + b).
Proof. rewrite Z.add_comm, int64_add_l. f_equal. lia. Qed.

Lemma uint64_id z : is_uint64 z -> uint64 z = z.
Proof. int_unfold. intros H. rewrite Z.mod_small; lia. Qed.

Lemma uint64_range z : is_uint64 (uint64 z).
Proof.
  int_unfold. pose proof (Z.mod_pos_bound z 18446744073709551616). lia.
Qed.

Lemma byteZ_Zbyte z : byteZ (Zbyte z) = z mod 256.
Proof.
  pose proof (Z.mod_pos_bound z 256). unfold byteZ, Zbyte.
  destruct (Byte.of_N (Z.to_N (z mod 256))) as [b|] eqn:E.
  - apply Byte.to_of_N in E. rewrite E. lia.
  - apply Byte.of_N_None_iff in E. lia.
Qed.

Lemma byteZ_small z : 0 <= z < 256 -> byteZ (Zbyte z) = z.
Proof. intros. rewrite byteZ_Zbyte. by apply Z.mod_small. Qed.

Lemma Zbyte_byteZ b : Zbyte (byteZ b) = b.
Proof.
  unfold byteZ, Zbyte. pose proof (Byte.to_N_bounded b).
  rewrite Z.mod_small, N2Z.id, Byte.of_to_N by lia. done.
Qed.

Lemma byteZ_range b : 0 <= byteZ b < 256.
Proof. unfold byteZ. pose proof (Byte.to_N_bounded b). lia. Qed.

Lemma byteZ_inj a b : byteZ a = byteZ b -> a = b.
Proof. intros H. rewrite <-(Zbyte_byteZ a), H. apply Zbyte_byteZ. Qed.

Lemma len_nonneg {A} (l : list A) : 0 <= len l.
Proof. unfold len. lia. Qed.

Lemma len_app {A} (l k : list A) : len (l ++ k) = len l + len k.
Proof. unfold len. rewrite length_app. lia. Qed.

Lemma len_nil {A} : len (@nil A) = 0.
Proof. done. Qed.

Lemma len_cons {A} (x : A) l : len (x :: l) = 1 + len l.
Proof. unfold len. cbn [length]. lia. Qed.

Lemma len_zero {A} (l : list A) : len l = 0 -> l = [].
Proof. destruct l; [done|]. rewrite len_cons. pose proof (len_nonneg l). lia. Qed.

Create Rewrite HintDb len.
#[export] Hint Rewrite @len_app @len_nil @len_cons : len.

Lemma slice_ok {A} (s : list A) lo hi :
  0 <= lo -> lo <= hi -> hi <= len s ->
  slice s lo hi = Some (take (Z.to_nat (hi - lo)) (drop (Z.to_nat lo) s)).
Proof. intros. unfold slice. rewrite !(proj2 (Z.leb_le _ _)) by lia. done. Qed.

Lemma slice_Some {A} (s : list A) lo hi t :
  slice s lo hi = Some t ->
  0 <= lo <= hi /\ hi <= len s /\ t = take (Z.to_nat (hi - lo)) (drop (Z.to_nat lo) s).
Proof. unfold slice. case_match eqn:E; [|done]. intros [= <-]. split_and!; [lia..|done]. Qed.

Lemma slice_panic {A} (s : list A) lo hi :
  lo < 0 \/ hi < lo \/ len s < hi -> slice s lo hi = None.
Proof. unfold slice. intros. case_match eqn:E; [lia|done]. Qed.

Lemma slice_mid {A} (p q r : list A) :
  slice (p ++ q ++ r) (len p) (len (p ++ q)) = Some q.
Proof.
  pose proof (len_nonneg p). pose proof (len_nonneg q). pose proof (len_nonneg r).
  rewrite slice_ok by (autorewrite with len; lia). f_equal.
  replace (len (p ++ q) - len p) with (len q) by (autorewrite with len; lia).
  unfold len. rewrite !Nat2Z.id, drop_app_length. apply take_app_length.
Qed.

(** A list splits at any position within it. *)
Lemma split_at {A} (l : list A) n :
  0 <= n -> n <= len l -> exists p q, l = p ++ q /\ len p = n.
Proof.
  intros. exists (take (Z.to_nat n) l), (drop (Z.to_nat n) l).
  rewrite take_drop. split; [done|]. unfold len in *. rewrite length_take. lia.
Qed.

Lemma to_nat_len {A} (l : list A) : Z.to_nat (len l) = length l.
Proof. unfold len. apply Nat2Z.id. Qed.

Lemma index_neg {A} (s : list A) i : i < 0 -> index s i = None.
Proof. intros. unfold index. by rewrite (proj2 (Z.leb_gt 0 i)). Qed.

Lemma index_nat {A} (s : list A) i : index s (Z.of_nat i) = s !! i.
Proof. unfold index. rewrite (proj2 (Z.leb_le 0 _)), Nat2Z.id by lia. done. Qed.

Lemma index_mid {A} (p : list A) x q : index (p ++ x :: q) (len p) = Some x.
Proof. unfold len. rewrite index_nat. by apply list_lookup_middle. Qed.

(** The order on strings is total and antisymmetric: the tie break of the
    operational transformation is decided the same way on every replica. *)
Lemma str_leb_cons a s b t :
  str_leb (a :: s) (b :: t) =
    match (Byte.to_N a ?= Byte.to_N b)%N with
    | Lt => true
    | Eq => str_leb s t
    | Gt => false
    end.
Proof.
  simpl. unfold N.ltb. rewrite N.eqb_compare. by destruct (N.compare _ _).
Qed.

Lemma str_leb_total s t : str_leb s t = false -> str_leb t s = true.
Proof.
  revert t; induction s as [|a s IH]; intros [|b t]; try done.
  rewrite !str_leb_cons, (N.compare_antisym (Byte.to_N a)).
  destruct (N.compare _ _); simpl; auto.
Qed.

Lemma str_leb_antisym s t : str_leb s t = true -> str_leb t s = true -> s = t.
Proof.
  revert t; induction s as [|a s IH]; intros [|b t]; try done.
  rewrite !str_leb_cons, (N.compare_antisym (Byte.to_N a)).
  destruct (N.compare_spec (Byte.to_N a) (Byte.to_N b)) as [E|E|E]; simpl; try done.
  intros. f_equal; [|auto].
  pose proof (Byte.of_to_N a). pose proof (Byte.of_to_N b). congruence.
Qed.

Lemma str_leb_refl s : str_leb s s = true.
Proof. induction s as [|a s IH]; simpl; [done|]. rewrite N.ltb_irrefl, N.eqb_refl. done. Qed.

Lemma obind_Ok {E A B} (m : outcome E A) (f : A -> outcome E B) b :
  obind m f = Ok b -> exists a, m = Ok a /\ f a = Ok b.
Proof. destruct m; simpl; try done. eauto. Qed.

(** Opens the computations that have returned. *)
Ltac opened :=
  repeat match goal with
    | H : obind _ _ = Ok _ |- _ => apply obind_Ok in H as (? & ? & H)
    | H : Ok _ = Ok _ |- _ => injection H; clear H; intros; subst
    | H : (match ?x with _ => _ end) = Ok _ |- _ => destruct x eqn:?
    | H : (if ?x then _ else _) = Ok _ |- _ => destruct x eqn:?
    end;
  try discriminate.

Lemma forallb_Forall {A} (f : A -> bool) l : forallb f l = true <-> Forall (fun x => f x = true) l.
Proof. induction l as [|x l IH]; simpl; [by split|]. by rewrite andb_true_iff, IH, Forall_cons. Qed.
