(* ===== verification/Edit.v ===== *)
(** * Edit scripts: the abstract meaning of changesets

    The specification layer of the operational transformation.  A [script]
    says what happens to every single byte of the document; [uapply],
    [ucompose] and [ufollow] are the reference definitions that the run-length
    encoded, cursor based code of [internal/ot] is proved to implement.  The
    algebra of the transformation (composition law, convergence) is proved
    here, once, without cursors, fuel or machine integers. *)

From S2P Require Import Prelude.

(** ** Scripts *)

Inductive uop : Type :=
| Keep
| Drop
| Put (c : Byte.byte).

Abbreviation script := (list uop).

#[export] Instance uop_eq_decision : EqDecision uop.
Proof. solve_decision. Defined.

(** Bytes of the old document a script consumes, of the new one it makes. *)
Fixpoint src (u : script) : nat :=
  match u with
  | [] => 0
  | Put _ :: u => src u
  | _ :: u => S (src u)
  end.

Fixpoint dst (u : script) : nat :=
  match u with
  | [] => 0
  | Drop :: u => dst u
  | _ :: u => S (dst u)
  end.

(** Bytes a script inserts. *)
Fixpoint nput (u : script) : nat :=
  match u with
  | [] => 0
  | Put _ :: u => S (nput u)
  | _ :: u => nput u
  end.

Fixpoint uapply (u : script) (d : bytes) : bytes :=
  match u, d with
  | [], _ => []
  | Put c :: u, _ => c :: uapply u d
  | Keep :: u, c :: d => c :: uapply u d
  | Drop :: u, _ :: d => uapply u d
  | _ :: u, [] => uapply u []
  end.

(** Runs. *)
Definition keeps (n : nat) : script := replicate n Keep.
Definition drops (n : nat) : script := replicate n Drop.
Definition puts (s : bytes) : script := map Put s.

(** ** Composition: first [a], then [b]. *)
Fixpoint ucompose (a : script) : script -> script :=
  fix go (b : script) : script :=
    match b with
    | Put c :: b' => Put c :: go b'
    | _ =>
        match a, b with
        | Drop :: a', _ => Drop :: ucompose a' b
        | Keep :: a', Keep :: b' => Keep :: ucompose a' b'
        | Keep :: a', Drop :: b' => Drop :: ucompose a' b'
        | Put c :: a', Keep :: b' => Put c :: ucompose a' b'
        | Put c :: a', Drop :: b' => ucompose a' b'
        | _, _ => []
        end
    end.

(** ** Transformation

    Insertions stay whole while a changeset is transformed, because the tie
    break compares them whole: the inputs of [ufollow] are lists of atoms. *)

Inductive atom : Type :=
| AKeep
| ADrop
| APut (s : bytes).

Definition flat1 (x : atom) : script :=
  match x with AKeep => [Keep] | ADrop => [Drop] | APut s => puts s end.

Definition flat (a : list atom) : script := mjoin (map flat1 a).

(** [ufollow a b] is the script that does [b]'s work on the document [a]
    has already changed. *)
Fixpoint ufollow (a : list atom) : list atom -> script :=
  fix go (b : list atom) : script :=
    match a, b with
    | APut s :: a', APut t :: b' =>
        if str_leb s t then keeps (length s) ++ ufollow a' b else puts t ++ go b'
    | APut s :: a', _ => keeps (length s) ++ ufollow a' b
    | _, APut t :: b' => puts t ++ go b'
    | AKeep :: a', AKeep :: b' => Keep :: ufollow a' b'
    | AKeep :: a', ADrop :: b' => Drop :: ufollow a' b'
    | ADrop :: a', _ :: b' => ufollow a' b'
    | _, _ => []
    end.

(** No insertion directly after another one. *)
Fixpoint separated (a : list atom) : Prop :=
  match a with
  | APut _ :: APut _ :: _ => False
  | _ :: a' => separated a'
  | [] => True
  end.

(** * Lemmas *)

(** ** Sizes *)

Lemma src_app u v : src (u ++ v) = (src u + src v)%nat.
Proof. induction u as [|[]]; simpl; lia. Qed.

Lemma dst_app u v : dst (u ++ v) = (dst u + dst v)%nat.
Proof. induction u as [|[]]; simpl; lia. Qed.

Lemma src_keeps n : src (keeps n) = n.
Proof. induction n; simpl; [done|]. f_equal. done. Qed.
Lemma dst_keeps n : dst (keeps n) = n.
Proof. induction n; simpl; [done|]. f_equal. done. Qed.
Lemma src_drops n : src (drops n) = n.
Proof. induction n; simpl; [done|]. f_equal. done. Qed.
Lemma dst_drops n : dst (drops n) = 0%nat.
Proof. induction n; simpl; done. Qed.
Lemma src_puts s : src (puts s) = 0%nat.
Proof. induction s; simpl; done. Qed.
Lemma dst_puts s : dst (puts s) = length s.
Proof. induction s; simpl; [done|]. f_equal. done. Qed.

Lemma nput_app u v : nput (u ++ v) = (nput u + nput v)%nat.
Proof. induction u as [|[]]; simpl; lia. Qed.
Lemma nput_keeps n : nput (keeps n) = 0%nat.
Proof. induction n; simpl; done. Qed.
Lemma nput_drops n : nput (drops n) = 0%nat.
Proof. induction n; simpl; done. Qed.
Lemma nput_puts s : nput (puts s) = length s.
Proof. induction s; simpl; [done|]. f_equal. done. Qed.

Lemma dst_src_nput u : (nput u <= dst u <= src u + nput u)%nat.
Proof. induction u as [|[]]; simpl; lia. Qed.

Create Rewrite HintDb script.
#[export] Hint Rewrite src_app dst_app src_keeps dst_keeps src_drops dst_drops
  src_puts dst_puts nput_app nput_keeps nput_drops nput_puts length_app : script.

Ltac script_simpl := autorewrite with script in *; cbn [src dst nput length flat1] in *; autorewrite with script in *.

(** ** Applying scripts *)

Lemma uapply_app u v d e :
  src u = length d -> uapply (u ++ v) (d ++ e) = uapply u d ++ uapply v e.
Proof.
  revert d; induction u as [|[] u IH]; intros d; simpl.
  - intros H. destruct d; done.
  - destruct d; [done|]. intros [= H]. simpl. f_equal. auto.
  - destruct d; [done|]. intros [= H]. simpl. auto.
  - intros H. destruct d as [|x d]; simpl; f_equal; [by apply (IH [])|by apply (IH (x :: d))].
Qed.

Lemma uapply_puts s v e : uapply (puts s ++ v) e = s ++ uapply v e.
Proof. change e with ([] ++ e) at 1. rewrite uapply_app; [|by rewrite src_puts].
  f_equal. by induction s; simpl; f_equal. Qed.

Lemma uapply_keeps d v e :
  uapply (keeps (length d) ++ v) (d ++ e) = d ++ uapply v e.
Proof.
  rewrite uapply_app by apply src_keeps. f_equal.
  by induction d; simpl; f_equal.
Qed.

Lemma uapply_drops d v e :
  uapply (drops (length d) ++ v) (d ++ e) = uapply v e.
Proof. induction d; simpl; auto. Qed.

Lemma uapply_length u d : src u = length d -> length (uapply u d) = dst u.
Proof.
  revert d; induction u as [|[] u IH]; intros [|x d]; simpl; try done; intros; f_equal; auto.
Qed.

Lemma uapply_all_keeps d : uapply (keeps (length d)) d = d.
Proof.
  pose proof (uapply_keeps d [] []) as H. by rewrite !app_nil_r in H.
Qed.

(** ** Composition *)

#[global] Arguments ucompose : simpl never.

Lemma ucompose_put a c b : ucompose a (Put c :: b) = Put c :: ucompose a b.
Proof. by destruct a. Qed.

Lemma ucompose_drop a b :
  (forall c b', b <> Put c :: b') -> ucompose (Drop :: a) b = Drop :: ucompose a b.
Proof. destruct b as [|[]]; try done. intros H. by destruct (H c b). Qed.
Lemma ucompose_keep_keep a b : ucompose (Keep :: a) (Keep :: b) = Keep :: ucompose a b.
Proof. done. Qed.
Lemma ucompose_keep_drop a b : ucompose (Keep :: a) (Drop :: b) = Drop :: ucompose a b.
Proof. done. Qed.
Lemma ucompose_put_keep c a b : ucompose (Put c :: a) (Keep :: b) = Put c :: ucompose a b.
Proof. done. Qed.
Lemma ucompose_put_drop c a b : ucompose (Put c :: a) (Drop :: b) = ucompose a b.
Proof. done. Qed.

#[export] Hint Rewrite ucompose_put ucompose_keep_keep ucompose_keep_drop
  ucompose_put_keep ucompose_put_drop : script.
#[export] Hint Rewrite ucompose_drop using done : script.

(** Induction along the way [ucompose] consumes two scripts that fit. *)
Lemma ucompose_ind (P : script -> script -> Prop) :
  P [] [] ->
  (forall a b c, dst a = src b -> P a b -> P a (Put c :: b)) ->
  (forall a b, (forall c b', b <> Put c :: b') -> dst a = src b -> P a b -> P (Drop :: a) b) ->
  (forall a b, dst a = src b -> P a b -> P (Keep :: a) (Keep :: b)) ->
  (forall a b, dst a = src b -> P a b -> P (Keep :: a) (Drop :: b)) ->
  (forall a b c, dst a = src b -> P a b -> P (Put c :: a) (Keep :: b)) ->
  (forall a b c, dst a = src b -> P a b -> P (Put c :: a) (Drop :: b)) ->
  forall a b, dst a = src b -> P a b.
Proof.
  intros Hnil Hput Hdrop Hkk Hkd Hpk Hpd a.
  induction a as [|x a IHa]; intros b; induction b as [|y b IHb]; simpl; intros Hd; auto.
  - destruct y; [done..|]. auto.
  - destruct x; [done| |done]. auto.
  - destruct y; [| |by auto]; destruct x; simpl in *; auto; injection Hd; auto.
Qed.

Lemma ucompose_src_dst a b :
  dst a = src b -> src (ucompose a b) = src a /\ dst (ucompose a b) = dst b.
Proof.
  revert a b. apply ucompose_ind; [done|..]; intros; destruct_and?;
    autorewrite with script; simpl; auto.
Qed.

(** The composition law: one pass over the document is worth the two. *)
Lemma ucompose_correct a b d :
  src a = length d -> dst a = src b ->
  uapply (ucompose a b) d = uapply b (uapply a d).
Proof.
  intros Hs Hd. revert a b Hd d Hs.
  refine (ucompose_ind _ _ _ _ _ _ _ _); intros; autorewrite with script;
    try (destruct d as [|x d]; [done|]); simpl in *;
    match goal with
    | IH : forall d, _ = length d -> _ |- _ => by rewrite IH by (done || lia)
    | _ => done
    end.
Qed.

(** ** Transformation *)

#[global] Arguments ufollow : simpl never.

Definition is_put (a : list atom) : bool :=
  match a with APut _ :: _ => true | _ => false end.

Lemma ufollow_put_put s t a b :
  ufollow (APut s :: a) (APut t :: b) =
    if str_leb s t then keeps (length s) ++ ufollow a (APut t :: b)
    else puts t ++ ufollow (APut s :: a) b.
Proof. done. Qed.
Lemma ufollow_put_l s a b :
  is_put b = false -> ufollow (APut s :: a) b = keeps (length s) ++ ufollow a b.
Proof. by destruct b as [|[]]. Qed.
Lemma ufollow_put_r t a b :
  is_put a = false -> ufollow a (APut t :: b) = puts t ++ ufollow a b.
Proof. by destruct a as [|[]]. Qed.
Lemma ufollow_keep_keep a b : ufollow (AKeep :: a) (AKeep :: b) = Keep :: ufollow a b.
Proof. done. Qed.
Lemma ufollow_keep_drop a b : ufollow (AKeep :: a) (ADrop :: b) = Drop :: ufollow a b.
Proof. done. Qed.
Lemma ufollow_drop_keep a b : ufollow (ADrop :: a) (AKeep :: b) = ufollow a b.
Proof. done. Qed.
Lemma ufollow_drop_drop a b : ufollow (ADrop :: a) (ADrop :: b) = ufollow a b.
Proof. done. Qed.

#[export] Hint Rewrite ufollow_keep_keep ufollow_keep_drop ufollow_drop_keep
  ufollow_drop_drop : script.
#[export] Hint Rewrite ufollow_put_l ufollow_put_r using done : script.

Lemma flat_cons x a : flat (x :: a) = flat1 x ++ flat a.
Proof. done. Qed.

Lemma flat_nil : flat [] = [].
Proof. done. Qed.

Lemma flat_app a b : flat (a ++ b) = flat a ++ flat b.
Proof. unfold flat. rewrite map_app. apply join_app. Qed.

#[export] Hint Rewrite flat_nil flat_cons flat_app : script.
#[global] Arguments flat : simpl never.

(** Induction along the way [ufollow] consumes two changesets of the same
    document. *)
Lemma ufollow_ind (P : list atom -> list atom -> Prop) :
  P [] [] ->
  (forall s t a b, str_leb s t = true -> P a (APut t :: b) -> P (APut s :: a) (APut t :: b)) ->
  (forall s t a b, str_leb s t = false -> P (APut s :: a) b -> P (APut s :: a) (APut t :: b)) ->
  (forall s a b, is_put b = false -> P a b -> P (APut s :: a) b) ->
  (forall t a b, is_put a = false -> P a b -> P a (APut t :: b)) ->
  (forall a b, P a b -> P (AKeep :: a) (AKeep :: b)) ->
  (forall a b, P a b -> P (AKeep :: a) (ADrop :: b)) ->
  (forall a b, P a b -> P (ADrop :: a) (AKeep :: b)) ->
  (forall a b, P a b -> P (ADrop :: a) (ADrop :: b)) ->
  forall a b, src (flat a) = src (flat b) -> P a b.
Proof.
  intros Hn Hle Hgt Hl Hr H1 H2 H3 H4 a.
  induction a as [|x a IHa]; intros b; induction b as [|y b IHb]; intros Hs; auto.
  - destruct y; script_simpl; [done..|]. apply Hr; [done|]. apply IHb. script_simpl. lia.
  - destruct x; script_simpl; [done..|]. apply Hl; [done|]. apply IHa. done.
  - destruct x as [| |s], y as [| |t]; script_simpl; auto; try (apply Hr; [done|]; by apply IHb).
    destruct (str_leb s t) eqn:E; [apply Hle|apply Hgt]; auto; apply IHa. script_simpl. done.
Qed.

(** What the transformed script consumes and produces. *)
Lemma ufollow_src a b :
  src (flat a) = src (flat b) -> src (ufollow a b) = dst (flat a).
Proof.
  revert a b. apply ufollow_ind; [done|..]; intros; rewrite ?ufollow_put_put, ?H;
    script_simpl; simpl; lia.
Qed.

Lemma ufollow_nput a b :
  src (flat a) = src (flat b) -> nput (ufollow a b) = nput (flat b).
Proof.
  revert a b. apply ufollow_ind; [done|..]; intros; rewrite ?ufollow_put_put, ?H;
    script_simpl; simpl; lia.
Qed.

Lemma ufollow_dst a b :
  src (flat a) = src (flat b) ->
  (dst (ufollow a b) <= dst (flat a) + dst (flat b))%nat.
Proof.
  revert a b. apply ufollow_ind; [done|..]; intros; rewrite ?ufollow_put_put, ?H;
    script_simpl; simpl; lia.
Qed.

Lemma uapply_flat_put s a d : uapply (flat (APut s :: a)) d = s ++ uapply (flat a) d.
Proof. rewrite flat_cons. apply uapply_puts. Qed.

Lemma separated_cons x a : separated (x :: a) -> separated a.
Proof. destruct x, a as [|[]]; simpl; tauto. Qed.

Lemma separated_put s a : separated (APut s :: a) -> is_put a = false.
Proof. by destruct a as [|[]]. Qed.

#[export] Hint Resolve separated_cons separated_put : core.

(** Convergence: both orders of two concurrent changesets give the same
    document, provided neither inserts twice at one place. *)
Definition merge_ab (a b : list atom) (d : bytes) : bytes :=
  uapply (ufollow a b) (uapply (flat a) d).

Lemma merge_put_l s a b d :
  is_put b = false ->
  merge_ab (APut s :: a) b d = s ++ merge_ab a b d /\
  merge_ab b (APut s :: a) d = s ++ merge_ab b a d.
Proof.
  intros Hp. unfold merge_ab. rewrite uapply_flat_put, ufollow_put_l, ufollow_put_r by done.
  by rewrite uapply_keeps, uapply_puts.
Qed.

Lemma merge_put_put s t a b d :
  merge_ab (APut s :: a) (APut t :: b) d =
    if str_leb s t then s ++ merge_ab a (APut t :: b) d
    else t ++ merge_ab (APut s :: a) b d.
Proof.
  unfold merge_ab. rewrite ufollow_put_put. destruct (str_leb s t).
  - by rewrite uapply_flat_put, uapply_keeps.
  - by rewrite uapply_puts.
Qed.

Lemma ufollow_converges a b d :
  src (flat a) = length d -> src (flat b) = length d ->
  separated a -> separated b ->
  merge_ab a b d = merge_ab b a d.
Proof.
  remember (length a + length b)%nat as n eqn:Hn.
  revert a b d Hn. induction (lt_wf n) as [n _ IH]. intros a b d -> Ha Hb Sa Sb.
  assert (forall a' b' d', (length a' + length b' < length a + length b)%nat ->
    src (flat a') = length d' -> src (flat b') = length d' -> separated a' -> separated b' ->
    merge_ab a' b' d' = merge_ab b' a' d') as IH' by (intros; by eapply IH).
  clear IH.
  destruct (is_put a) eqn:Pa, (is_put b) eqn:Pb.
  - destruct a as [|[| |s] a], b as [|[| |t] b]; try done. script_simpl.
    rewrite !merge_put_put.
    destruct (str_leb s t) eqn:E1, (str_leb t s) eqn:E2.
    + pose proof (str_leb_antisym _ _ E1 E2) as ->.
      rewrite (proj2 (merge_put_l _ _ _ _ (separated_put _ _ Sa))).
      rewrite (proj2 (merge_put_l _ _ _ _ (separated_put _ _ Sb))).
      f_equal. f_equal. apply IH'; eauto; simpl; lia.
    + f_equal. apply IH'; script_simpl; eauto; simpl; lia.
    + f_equal. apply IH'; script_simpl; eauto; simpl; lia.
    + apply str_leb_total in E1. congruence.
  - destruct a as [|[| |s] a]; try done. destruct (merge_put_l s a b d Pb) as [-> ->].
    f_equal. apply IH'; script_simpl; eauto; simpl; lia.
  - destruct b as [|[| |s] b]; try done. destruct (merge_put_l s b a d Pa) as [-> ->].
    f_equal. apply IH'; script_simpl; eauto; simpl; lia.
  - destruct a as [|[| |s] a], b as [|[| |t] b]; try done;
      destruct d as [|x d]; try done; script_simpl; unfold merge_ab; script_simpl;
      cbn [uapply]; first [apply (IH' a b d)|f_equal; apply (IH' a b d)]; eauto; simpl; lia.
Qed.
