(* ===== verification/Changeset.v ===== *)
(** * Changesets ([internal/ot/changeset.go])

    The data of the operational transformation and the constructors and
    checks on it, followed by the facts that relate a changeset to the edit
    scripts of [Edit]. *)

From S2P Require Import Prelude Edit.

(** ** Data *)

(** [type OpType string]: the three constants, or any other string a JSON
    message carries. *)
Inductive OpType : Type :=
| OpRetain
| OpInsert
| OpDelete
| OpOther (t : bytes).

#[export] Instance OpType_eq_decision : EqDecision OpType.
Proof. solve_decision. Defined.

Record Op : Type := mkOp {
  op_Type : OpType;
  op_Len : Z;
  op_Chars : bytes
}.

#[export] Instance Op_eq_decision : EqDecision Op.
Proof. solve_decision. Defined.

Record Changeset : Type := mkChangeset {
  cs_OldLen : Z;
  cs_NewLen : Z;
  cs_Ops : list Op
}.

#[export] Instance Changeset_eq_decision : EqDecision Changeset.
Proof. solve_decision. Defined.

(** Composite literals with the other fields zero. *)
Definition Retain (n : Z) : Op := mkOp OpRetain n [].
Definition Insert (s : bytes) : Op := mkOp OpInsert 0 s.
Definition Delete (n : Z) : Op := mkOp OpDelete n [].

(** ** Constructors *)

Definition Identity (n : Z) : Changeset :=
  if n =? 0 then mkChangeset 0 0 [] else mkChangeset n n [Retain n].

Definition IsIdentity (c : Changeset) : bool :=
  if negb (cs_OldLen c =? cs_NewLen c) then false
  else if (cs_OldLen c =? 0) && (len (cs_Ops c) =? 0) then true
  else match cs_Ops c with
       | [o] => bool_decide (op_Type o = OpRetain) && (op_Len o =? cs_OldLen c)
       | _ => false
       end.

Definition TextToChangeset (text : bytes) : Changeset :=
  let n := len text in
  if n =? 0 then mkChangeset 0 0 [] else mkChangeset 0 n [Insert text].

Definition MakeInsert (oldLen pos : Z) (text : bytes) : Changeset :=
  let ops := if 0 <? pos then [Retain pos] else [] in
  let ops := ops ++ [Insert text] in
  let tail := int64 (oldLen - pos) in
  let ops := if 0 <? tail then ops ++ [Retain tail] else ops in
  mkChangeset oldLen (int64 (oldLen + len text)) ops.

Definition MakeDelete (oldLen pos count : Z) : Changeset :=
  let ops := if 0 <? pos then [Retain pos] else [] in
  let ops := ops ++ [Delete count] in
  let tail := int64 (int64 (oldLen - pos) - count) in
  let ops := if 0 <? tail then ops ++ [Retain tail] else ops in
  mkChangeset oldLen (int64 (oldLen - count)) ops.

(** ** Validation *)

Inductive ValidateErr : Type :=
| RetainLenNotPositive (n : Z)
| InsertCharsEmpty
| DeleteLenNotPositive (n : Z)
| UnknownOpType (t : bytes)
| OpsConsume (consumed oldLen : Z)
| OpsProduce (produced newLen : Z).

(** The loop over [c.Ops] with its two counters. *)
Fixpoint validate_ops (ops : list Op) (sourceConsumed newLen : Z)
    : outcome ValidateErr (Z * Z) :=
  match ops with
  | [] => Ok (sourceConsumed, newLen)
  | op :: ops =>
      match op_Type op with
      | OpRetain =>
          if op_Len op <=? 0 then Err (RetainLenNotPositive (op_Len op))
          else validate_ops ops (int64 (sourceConsumed + op_Len op)) (int64 (newLen + op_Len op))
      | OpInsert =>
          if len (op_Chars op) =? 0 then Err InsertCharsEmpty
          else validate_ops ops sourceConsumed (int64 (newLen + len (op_Chars op)))
      | OpDelete =>
          if op_Len op <=? 0 then Err (DeleteLenNotPositive (op_Len op))
          else validate_ops ops (int64 (sourceConsumed + op_Len op)) newLen
      | OpOther t => Err (UnknownOpType t)
      end
  end.

(** [Validate]; [Ok tt] is the nil error. *)
Definition Validate (c : Changeset) : outcome ValidateErr unit :=
  let! (sourceConsumed, newLen) := validate_ops (cs_Ops c) 0 0 in
  if negb (sourceConsumed =? cs_OldLen c) then Err (OpsConsume sourceConsumed (cs_OldLen c))
  else if negb (newLen =? cs_NewLen c) then Err (OpsProduce newLen (cs_NewLen c))
  else Ok tt.

(** ** Meaning *)

(** Source bytes an operation consumes and result bytes it makes, without
    wrap-around. *)
Definition op_src (o : Op) : Z :=
  match op_Type o with OpRetain | OpDelete => op_Len o | _ => 0 end.

Definition op_dst (o : Op) : Z :=
  match op_Type o with OpRetain => op_Len o | OpInsert => len (op_Chars o) | _ => 0 end.

Fixpoint ops_src (ops : list Op) : Z :=
  match ops with [] => 0 | o :: ops => op_src o + ops_src ops end.

Fixpoint ops_dst (ops : list Op) : Z :=
  match ops with [] => 0 | o :: ops => op_dst o + ops_dst ops end.

(** An operation as [Validate] wants it. *)
Definition wf_op (o : Op) : Prop :=
  match op_Type o with
  | OpRetain | OpDelete => 0 < op_Len o
  | OpInsert => op_Chars o <> []
  | OpOther _ => False
  end.

#[export] Instance wf_op_decision o : Decision (wf_op o).
Proof. unfold wf_op. destruct (op_Type o); apply _. Defined.

Abbreviation wf_ops := (Forall wf_op).

(** A changeset whose lengths are what they say, in the range of [int]. *)
Record wf_cs (c : Changeset) : Prop := {
  wf_cs_ops : wf_ops (cs_Ops c);
  wf_cs_old : cs_OldLen c = ops_src (cs_Ops c);
  wf_cs_new : cs_NewLen c = ops_dst (cs_Ops c);
  wf_cs_old_int : cs_OldLen c <= MaxInt;
  wf_cs_new_int : cs_NewLen c <= MaxInt
}.

Definition atoms1 (o : Op) : list atom :=
  match op_Type o with
  | OpRetain => replicate (Z.to_nat (op_Len o)) AKeep
  | OpInsert => [APut (op_Chars o)]
  | OpDelete => replicate (Z.to_nat (op_Len o)) ADrop
  | OpOther _ => []
  end.

Fixpoint atoms (ops : list Op) : list atom :=
  match ops with [] => [] | o :: ops => atoms1 o ++ atoms ops end.

(** The edit script a list of operations stands for. *)
Definition uops (ops : list Op) : script := flat (atoms ops).

(** Bytes a changeset inserts. *)
Definition inserted (c : Changeset) : Z := Z.of_nat (nput (uops (cs_Ops c))).

(** No two neighbouring operations of the same type. *)
Fixpoint canonical (ops : list Op) : Prop :=
  match ops with
  | o :: ((o' :: _) as ops') => op_Type o <> op_Type o' /\ canonical ops'
  | _ => True
  end.

(** No insertion directly after another one: what the convergence theorem
    asks of its inputs, and less than [canonical]. *)
Fixpoint no_double_insert (ops : list Op) : Prop :=
  match ops with
  | o :: ((o' :: _) as ops') =>
      ~ (op_Type o = OpInsert /\ op_Type o' = OpInsert) /\ no_double_insert ops'
  | _ => True
  end.

(** * Lemmas *)

Lemma op_src_nonneg o : wf_op o -> 0 <= op_src o.
Proof. unfold wf_op, op_src. destruct (op_Type o); lia. Qed.

Lemma op_dst_nonneg o : wf_op o -> 0 <= op_dst o.
Proof. unfold wf_op, op_dst. pose proof (len_nonneg (op_Chars o)). destruct (op_Type o); lia. Qed.

Lemma ops_src_nonneg ops : wf_ops ops -> 0 <= ops_src ops.
Proof. induction 1 as [|o ops Ho]; simpl; [lia|]. pose proof (op_src_nonneg _ Ho). lia. Qed.

Lemma ops_dst_nonneg ops : wf_ops ops -> 0 <= ops_dst ops.
Proof. induction 1 as [|o ops Ho]; simpl; [lia|]. pose proof (op_dst_nonneg _ Ho). lia. Qed.

Lemma ops_src_app a b : ops_src (a ++ b) = ops_src a + ops_src b.
Proof. induction a; simpl; lia. Qed.

Lemma ops_dst_app a b : ops_dst (a ++ b) = ops_dst a + ops_dst b.
Proof. induction a; simpl; lia. Qed.

(** ** The script of a list of operations *)

Lemma atoms_app a b : atoms (a ++ b) = atoms a ++ atoms b.
Proof. induction a; simpl; [done|]. rewrite IHa. by rewrite app_assoc. Qed.

Lemma uops_app a b : uops (a ++ b) = uops a ++ uops b.
Proof. unfold uops. by rewrite atoms_app, flat_app. Qed.

Definition uop1 (o : Op) : script := flat (atoms1 o).

Lemma uops_cons o ops : uops (o :: ops) = uop1 o ++ uops ops.
Proof. unfold uops. simpl. apply flat_app. Qed.

Lemma flat_keeps n : flat (replicate n AKeep) = keeps n.
Proof. induction n; [done|]. simpl. rewrite flat_cons, IHn. done. Qed.

Lemma flat_drops n : flat (replicate n ADrop) = drops n.
Proof. induction n; [done|]. simpl. rewrite flat_cons, IHn. done. Qed.

Lemma flat_put s : flat [APut s] = puts s.
Proof. rewrite flat_cons, flat_nil. apply app_nil_r. Qed.

Lemma uop1_alt o :
  uop1 o = match op_Type o with
           | OpRetain => keeps (Z.to_nat (op_Len o))
           | OpInsert => puts (op_Chars o)
           | OpDelete => drops (Z.to_nat (op_Len o))
           | OpOther _ => []
           end.
Proof.
  unfold uop1, atoms1. destruct (op_Type o); auto using flat_keeps, flat_drops, flat_put.
Qed.

Lemma src_uops ops : wf_ops ops -> Z.of_nat (src (uops ops)) = ops_src ops.
Proof.
  induction 1 as [|o ops Ho _ IH]; [done|]. rewrite uops_cons, uop1_alt. simpl.
  unfold wf_op, op_src in *. destruct (op_Type o); script_simpl; lia.
Qed.

Lemma dst_uops ops : wf_ops ops -> Z.of_nat (dst (uops ops)) = ops_dst ops.
Proof.
  induction 1 as [|o ops Ho _ IH]; [done|]. rewrite uops_cons, uop1_alt. simpl.
  unfold wf_op, op_dst, len in *. destruct (op_Type o); script_simpl; lia.
Qed.

(** Separation of the operations is separation of their atoms. *)
Lemma separated_replicate x n a :
  is_put [x] = false -> separated a -> separated (replicate n x ++ a).
Proof. intros Hx Ha. induction n; [done|]. simpl. destruct x; done. Qed.

Lemma no_double_insert_cons o ops : no_double_insert (o :: ops) -> no_double_insert ops.
Proof. destruct ops; simpl; [done|]. tauto. Qed.

Lemma separated_atoms ops : wf_ops ops -> no_double_insert ops -> separated (atoms ops).
Proof.
  induction 1 as [|o ops Ho Hops IH]; [done|]. intros Hd.
  specialize (IH (no_double_insert_cons _ _ Hd)). simpl. unfold atoms1.
  destruct (op_Type o) eqn:E; [by apply separated_replicate| |by apply separated_replicate|done].
  assert (is_put (atoms ops) = false) as Hp.
  { destruct Hops as [|o' ops' Ho' _]; [done|]. destruct Hd as [Hd _].
    simpl. unfold atoms1, wf_op in *. destruct (op_Type o') eqn:E'; try done.
    - destruct (Z.to_nat (op_Len o')) eqn:E2; [lia|done].
    - tauto.
    - destruct (Z.to_nat (op_Len o')) eqn:E2; [lia|done]. }
  simpl. destruct (atoms ops) as [|[]]; done.
Qed.

Lemma canonical_no_double_insert ops : canonical ops -> no_double_insert ops.
Proof.
  induction ops as [|o [|o' ops] IH]; [done..|]. intros [Ho Hc]. split; [|auto].
  intros [? ?]. congruence.
Qed.

(** ** Validation *)

Lemma validate_ops_spec ops s n s' n' :
  is_int s -> is_int n ->
  validate_ops ops s n = Ok (s', n') <->
  wf_ops ops /\ s' = int64 (s + ops_src ops) /\ n' = int64 (n + ops_dst ops).
Proof.
  revert s n. induction ops as [|o ops IH]; intros s n Hs Hn; simpl.
  - rewrite !Z.add_0_r, !int64_id by done. split; [intros [= -> ->]; auto|].
    intros (_ & -> & ->). done.
  - rewrite Forall_cons. unfold wf_op at 1, op_src at 1, op_dst at 1.
    destruct (op_Type o).
    + destruct (Z.leb_spec (op_Len o) 0); [split; [done|lia]|].
      rewrite IH, !int64_add_l, !Z.add_assoc by auto using int64_range. tauto.
    + destruct (Z.eqb_spec (len (op_Chars o)) 0) as [E|E].
      * split; [done|]. intros [[Hne _] _]. by apply len_zero in E.
      * rewrite IH, !int64_add_l, !Z.add_assoc, Z.add_0_r by auto using int64_range.
        assert (op_Chars o <> []) by (intros Hc; by rewrite Hc in E). tauto.
    + destruct (Z.leb_spec (op_Len o) 0); [split; [done|lia]|].
      rewrite IH, !int64_add_l, !Z.add_assoc, Z.add_0_r by auto using int64_range. tauto.
    + split; [done|]. tauto.
Qed.

(** [Validate] accepts exactly the changesets whose operations are well
    formed and whose lengths agree with the operations modulo 2^64. *)
Lemma Validate_iff c :
  Validate c = Ok tt <->
  wf_ops (cs_Ops c) /\ cs_OldLen c = int64 (ops_src (cs_Ops c)) /\
  cs_NewLen c = int64 (ops_dst (cs_Ops c)).
Proof.
  assert (is_int 0) as H0 by (int_unfold; lia).
  pose proof (validate_ops_spec (cs_Ops c) 0 0) as Hspec.
  assert (wf_ops (cs_Ops c) ->
    validate_ops (cs_Ops c) 0 0 = Ok (int64 (ops_src (cs_Ops c)), int64 (ops_dst (cs_Ops c))))
    as Hok by (intros; by apply Hspec).
  unfold Validate. split.
  - intros ([s n] & E & Hc)%obind_Ok. apply Hspec in E as (Hwf & -> & ->); [|done..].
    rewrite !Z.add_0_l in Hc. repeat case_match; try done. split_and!; [done|lia..].
  - intros (Hwf & -> & ->). rewrite Hok by done. simpl. by rewrite !Z.eqb_refl.
Qed.

Lemma wf_cs_Validate c : wf_cs c -> Validate c = Ok tt.
Proof.
  intros [Hwf Ho Hn ??]. apply Validate_iff.
  pose proof (ops_src_nonneg _ Hwf). pose proof (ops_dst_nonneg _ Hwf).
  rewrite !int64_id; [auto|int_unfold; lia..].
Qed.

Lemma validate_ops_total ops a b :
  (exists x, validate_ops ops a b = Ok x) \/ exists e, validate_ops ops a b = Err e.
Proof.
  revert a b. induction ops as [|o ops IH]; intros a b; simpl; [by left; eexists|].
  destruct (op_Type o); try (by right; eexists); destruct (_ <=? _) || destruct (_ =? _);
    try (by right; eexists); apply IH.
Qed.

Lemma Validate_total c : Validate c = Ok tt \/ exists e, Validate c = Err e.
Proof.
  unfold Validate. destruct (validate_ops_total (cs_Ops c) 0 0) as [[[a b] ->]|[e ->]]; simpl;
    [|by right; eexists].
  destruct (negb _); [by right; eexists|]. destruct (negb _); [by right; eexists|by left].
Qed.

Lemma Validate_wf_cs c :
  Validate c = Ok tt -> ops_src (cs_Ops c) <= MaxInt -> ops_dst (cs_Ops c) <= MaxInt ->
  wf_cs c.
Proof.
  intros (Hwf & Ho & Hn)%Validate_iff ??.
  pose proof (ops_src_nonneg _ Hwf). pose proof (ops_dst_nonneg _ Hwf).
  rewrite int64_id in Ho, Hn by (int_unfold; lia).
  split; auto; lia.
Qed.

(** Well-formedness of a concrete changeset. *)
Ltac wf_by_compute := apply Validate_wf_cs; [reflexivity|vm_compute; discriminate|vm_compute; discriminate].
