(* ===== verification/Apply.v ===== *)
(** * Applying a changeset to a text ([internal/ot/apply.go]) *)

From S2P Require Import Prelude Edit Changeset.

Inductive ApplyErr : Type :=
| LengthMismatch (oldLen textLen : Z)
| RetainExceeds (n pos textLen : Z)
| DeleteExceeds (n pos textLen : Z)
| ApplyUnknownOp (t : bytes)
| NotConsumed (pos textLen : Z).

(** The loop over [c.Ops]: [srcPos] and the string built so far. *)
Fixpoint apply_ops (text : bytes) (ops : list Op) (srcPos : Z) (result : bytes)
    : outcome ApplyErr (Z * bytes) :=
  match ops with
  | [] => Ok (srcPos, result)
  | op :: ops =>
      let stop := int64 (srcPos + op_Len op) in
      match op_Type op with
      | OpRetain =>
          if len text <? stop then Err (RetainExceeds (op_Len op) srcPos (len text))
          else let! piece := or_panic (slice text srcPos stop) in
               apply_ops text ops stop (result ++ piece)
      | OpInsert => apply_ops text ops srcPos (result ++ op_Chars op)
      | OpDelete =>
          if len text <? stop then Err (DeleteExceeds (op_Len op) srcPos (len text))
          else apply_ops text ops stop result
      | OpOther t => Err (ApplyUnknownOp t)
      end
  end.

(** [result.Grow(c.NewLen)] panics on a negative argument; that it also does
    when there is not the memory for a large one is left out. *)
Definition ApplyChangeset (text : bytes) (c : Changeset) : outcome ApplyErr bytes :=
  if negb (cs_OldLen c =? len text) then Err (LengthMismatch (cs_OldLen c) (len text))
  else if cs_NewLen c <? 0 then Panic
  else
    let! (srcPos, result) := apply_ops text (cs_Ops c) 0 [] in
    if negb (srcPos =? len text) then Err (NotConsumed srcPos (len text))
    else Ok result.

(** * Lemmas *)

(** On the rest of the text after [pre], operations that fit produce what
    their script says and move the position by what they consume. *)
Lemma apply_ops_fit pre rest ops result :
  wf_ops ops -> len (pre ++ rest) <= MaxInt -> ops_src ops <= len rest ->
  apply_ops (pre ++ rest) ops (len pre) result =
    Ok (len pre + ops_src ops, result ++ uapply (uops ops) rest).
Proof.
  intros Hwf. revert pre rest result.
  induction Hwf as [|o ops Ho Hops IH]; intros pre rest result Hmax Hfit; simpl.
  { by rewrite app_nil_r, Z.add_0_r. }
  pose proof (ops_src_nonneg _ Hops) as Hn. pose proof (len_nonneg pre) as Hpre.
  simpl in Hfit. rewrite uops_cons, uop1_alt. unfold wf_op, op_src in *.
  autorewrite with len in Hmax.
  destruct (op_Type o) eqn:Ht; [..|done].
  - destruct (split_at rest (op_Len o)) as (p & q & -> & Hp); [lia..|].
    rewrite <-Hp in *. autorewrite with len in Hmax, Hfit. pose proof (len_nonneg q) as Hq.
    rewrite int64_id, <-(len_app pre p) by (int_unfold; lia).
    destruct (Z.ltb_spec (len (pre ++ p ++ q)) (len (pre ++ p))) as [Hlt|_];
      [autorewrite with len in Hlt; lia|].
    rewrite slice_mid. simpl. rewrite app_assoc, IH by (autorewrite with len; lia).
    rewrite to_nat_len, uapply_keeps, <-app_assoc. autorewrite with len. do 2 f_equal. lia.
  - rewrite IH by (autorewrite with len; lia). rewrite uapply_puts, <-app_assoc. do 2 f_equal.
  - destruct (split_at rest (op_Len o)) as (p & q & -> & Hp); [lia..|].
    rewrite <-Hp in *. autorewrite with len in Hmax, Hfit. pose proof (len_nonneg q) as Hq.
    rewrite int64_id, <-(len_app pre p) by (int_unfold; lia).
    destruct (Z.ltb_spec (len (pre ++ p ++ q)) (len (pre ++ p))) as [Hlt|_];
      [autorewrite with len in Hlt; lia|].
    rewrite app_assoc, IH by (autorewrite with len; lia).
    rewrite to_nat_len, uapply_drops. autorewrite with len. do 2 f_equal. lia.
Qed.

(** Operations that want more than the rest of the text are refused. *)
Lemma apply_ops_too_long pre rest ops result :
  wf_ops ops -> ops_src ops <= MaxInt - len (pre ++ rest) -> len rest < ops_src ops ->
  exists e, apply_ops (pre ++ rest) ops (len pre) result = Err e.
Proof.
  intros Hwf. revert pre rest result.
  induction Hwf as [|o ops Ho Hops IH]; intros pre rest result Hmax Hfit; simpl in *.
  { pose proof (len_nonneg rest). lia. }
  pose proof (ops_src_nonneg _ Hops) as Hn. pose proof (len_nonneg pre) as Hpre.
  pose proof (len_nonneg rest) as Hrest.
  unfold wf_op, op_src in *. autorewrite with len in Hmax.
  destruct (op_Type o) eqn:Ht; [..|done].
  - rewrite int64_id by (int_unfold; lia).
    destruct (Z.ltb_spec (len (pre ++ rest)) (len pre + op_Len o)) as [Hlt|Hge]; [eauto|].
    autorewrite with len in Hge.
    destruct (split_at rest (op_Len o)) as (p & q & -> & Hp); [lia..|].
    rewrite <-Hp, <-(len_app pre p) in *. rewrite slice_mid. simpl. rewrite app_assoc.
    apply IH; autorewrite with len in *; lia.
  - apply IH; autorewrite with len in *; lia.
  - rewrite int64_id by (int_unfold; lia).
    destruct (Z.ltb_spec (len (pre ++ rest)) (len pre + op_Len o)) as [Hlt|Hge]; [eauto|].
    autorewrite with len in Hge.
    destruct (split_at rest (op_Len o)) as (p & q & -> & Hp); [lia..|].
    rewrite <-Hp, <-(len_app pre p) in *. rewrite app_assoc.
    apply IH; autorewrite with len in *; lia.
Qed.

Lemma ApplyChangeset_ok text c :
  wf_ops (cs_Ops c) -> cs_OldLen c = len text -> ops_src (cs_Ops c) = len text ->
  0 <= cs_NewLen c -> len text <= MaxInt ->
  ApplyChangeset text c = Ok (uapply (uops (cs_Ops c)) text).
Proof.
  intros Hwf Ho Hs Hn Hm. unfold ApplyChangeset.
  rewrite Ho, Z.eqb_refl, (proj2 (Z.ltb_ge _ _)) by done. cbn [negb].
  pose proof (apply_ops_fit [] text (cs_Ops c) [] Hwf) as E.
  rewrite !app_nil_l, !len_nil in E. rewrite E by lia. simpl.
  by rewrite Hs, Z.eqb_refl.
Qed.

(** The same from [wf_cs]. *)
Lemma ApplyChangeset_wf text c :
  wf_cs c -> cs_OldLen c = len text ->
  ApplyChangeset text c = Ok (uapply (uops (cs_Ops c)) text).
Proof.
  intros [Hwf Ho Hn ??] Hlen. pose proof (ops_dst_nonneg _ Hwf).
  apply ApplyChangeset_ok; auto; lia.
Qed.

Lemma len_uapply c text :
  wf_cs c -> cs_OldLen c = len text -> len (uapply (uops (cs_Ops c)) text) = cs_NewLen c.
Proof.
  intros [Hwf Ho Hn ??] Hlen. unfold len in *.
  pose proof (src_uops _ Hwf). pose proof (dst_uops _ Hwf).
  rewrite uapply_length by lia. lia.
Qed.
