(* ===== verification/Cursor.v ===== *)
(** * Cursors over operations (the closures shared by [internal/ot/compose.go],
    [internal/ot/follow.go] and [internal/ot/diff.go])

    [Compose] and [Follow] declare the same local type [opSlice] and the same
    closures [peek] and [consume]; [Compose] and [DiffToChangeset] declare the
    same [addOp].  They are modelled once.  [rest] is the abstraction used by
    the proofs: the operations a cursor has not consumed yet. *)

From S2P Require Import Prelude Edit Changeset.

(** ** Code *)

Record opSlice : Type := mkSlice {
  sl_ops : list Op;
  sl_pos : nat;
  sl_off : Z
}.

Definition newSlice (ops : list Op) : opSlice := mkSlice ops 0 0.

(** [peek]: [op] without its first [off] bytes.  [off] never exceeds the
    operation ([consume_off]), so the slice expression cannot panic. *)
Definition trim (off : Z) (op : Op) : Op :=
  if decide (op_Type op = OpInsert)
  then mkOp (op_Type op) (op_Len op) (drop (Z.to_nat off) (op_Chars op))
  else mkOp (op_Type op) (int64 (op_Len op - off)) (op_Chars op).

Definition peek (s : opSlice) : option Op :=
  match sl_ops s !! sl_pos s with
  | None => None
  | Some op => Some (trim (sl_off s) op)
  end.

(** [ok && op.Type == OpInsert] and [ok && op.Type == OpDelete]. *)
Definition insert_of (o : option Op) : option bytes :=
  match o with
  | Some op => if decide (op_Type op = OpInsert) then Some (op_Chars op) else None
  | None => None
  end.

Definition delete_of (o : option Op) : option Z :=
  match o with
  | Some op => if decide (op_Type op = OpDelete) then Some (op_Len op) else None
  | None => None
  end.

(** Length of an operation as [consume] and [Compose] take it. *)
Definition op_size (op : Op) : Z :=
  if decide (op_Type op = OpInsert) then len (op_Chars op) else op_Len op.

(** [consume]: every turn of the loop that does not end it moves [pos]
    forward, so the fuel is the number of operations left. *)
Fixpoint consume_loop (fuel : nat) (s : opSlice) (n : Z) : opSlice :=
  match fuel with
  | O => s
  | S fuel =>
      if 0 <? n then
        match sl_ops s !! sl_pos s with
        | None => s
        | Some op =>
            let rem := int64 (op_size op - sl_off s) in
            if rem <=? n
            then consume_loop fuel (mkSlice (sl_ops s) (S (sl_pos s)) 0) (int64 (n - rem))
            else mkSlice (sl_ops s) (sl_pos s) (int64 (sl_off s + n))
        end
      else s
  end.

Definition consume (s : opSlice) (n : Z) : opSlice :=
  consume_loop (S (length (sl_ops s) - sl_pos s)) s n.

(** [addOp]: extend the last operation when it has the same type, append
    otherwise.  [last] is a pointer into the slice: the update is in place. *)
Definition addOp (ops : list Op) (op : Op) : list Op :=
  match last ops with
  | Some l =>
      if decide (op_Type l = op_Type op) then
        match op_Type op with
        | OpRetain | OpDelete =>
            <[(length ops - 1)%nat := mkOp (op_Type l) (int64 (op_Len l + op_Len op)) (op_Chars l)]> ops
        | OpInsert =>
            <[(length ops - 1)%nat := mkOp (op_Type l) (op_Len l) (op_Chars l ++ op_Chars op)]> ops
        | OpOther _ => ops ++ [op]
        end
      else ops ++ [op]
  | None => ops ++ [op]
  end.

Lemma insert_of_Some o chars :
  insert_of o = Some chars -> exists op, o = Some op /\ op_Type op = OpInsert /\ op_Chars op = chars.
Proof. destruct o; simpl; [|done]. case_decide; [|done]. intros [= <-]. eauto. Qed.

Lemma insert_of_None op : insert_of (Some op) = None -> op_Type op <> OpInsert.
Proof. simpl. by case_decide. Qed.

Lemma delete_of_Some o n :
  delete_of o = Some n -> exists op, o = Some op /\ op_Type op = OpDelete /\ op_Len op = n.
Proof. destruct o; simpl; [|done]. case_decide; [|done]. intros [= <-]. eauto. Qed.

Lemma delete_of_None op : delete_of (Some op) = None -> op_Type op <> OpDelete.
Proof. simpl. by case_decide. Qed.

Lemma head_Some {A} (l : list A) x : head l = Some x -> exists t, l = x :: t.
Proof. destruct l; [done|]. intros [= ->]. eauto. Qed.

(** ** [consume] *)

Lemma consume_loop_fuel fuel fuel' s n :
  (length (sl_ops s) - sl_pos s < fuel)%nat -> (fuel <= fuel')%nat ->
  consume_loop fuel' s n = consume_loop fuel s n.
Proof.
  revert fuel' s n. induction fuel as [|fuel IH]; intros [|fuel'] s n Hf Hle; try lia; simpl.
  destruct (0 <? n); [|done]. destruct (sl_ops s !! sl_pos s) eqn:E; [|done].
  apply lookup_lt_Some in E. case_match; [|done]. apply IH; simpl; lia.
Qed.

(** Nothing to consume: nothing happens.  This is what makes a zero length
    operation a standstill for the loops of [Compose] and [Follow]. *)
Lemma consume_nonpos s n : n <= 0 -> consume s n = s.
Proof. intros. unfold consume. simpl. by rewrite (proj2 (Z.ltb_ge 0 n)). Qed.

(** The operations not yet consumed. *)
Definition rest (s : opSlice) : list Op :=
  match drop (sl_pos s) (sl_ops s) with
  | [] => []
  | op :: ops => trim (sl_off s) op :: ops
  end.

Lemma peek_rest s : peek s = head (rest s).
Proof.
  unfold peek, rest. rewrite <-(Nat.add_0_r (sl_pos s)) at 1. rewrite <-lookup_drop.
  by destruct (drop (sl_pos s) (sl_ops s)).
Qed.

(** Operations whose size is a positive [int]. *)
Definition sized (o : Op) : Prop := wf_op o /\ op_size o <= MaxInt.

Lemma sized_size o : sized o -> 0 < op_size o <= MaxInt.
Proof.
  intros (Hwf & Hs). unfold wf_op, op_size in *.
  case_decide as E; [rewrite E in Hwf|destruct (op_Type o); done].
  split; [|done]. pose proof (len_nonneg (op_Chars o)).
  assert (len (op_Chars o) <> 0); [|lia]. intros Hz. by apply len_zero in Hz.
Qed.

Lemma trim_0 op : sized op -> trim 0 op = op.
Proof.
  intros Hs. pose proof (sized_size _ Hs). unfold trim, op_size in *.
  destruct op as [t n c]; simpl in *. case_decide; simpl.
  - by rewrite drop_0.
  - rewrite Z.sub_0_r, int64_id; [done|int_unfold; lia].
Qed.

Record cur_ok (s : opSlice) : Prop := {
  cur_sized : Forall sized (drop (sl_pos s) (sl_ops s));
  cur_off : match drop (sl_pos s) (sl_ops s) with
            | [] => sl_off s = 0
            | op :: _ => 0 <= sl_off s < op_size op
            end
}.

Lemma cur_ok_new ops : Forall sized ops -> cur_ok (newSlice ops).
Proof.
  intros H. split; [done|]. simpl. rewrite drop_0. destruct H as [|o ops Ho _]; [done|].
  apply sized_size in Ho. lia.
Qed.

Lemma rest_new ops : Forall sized ops -> rest (newSlice ops) = ops.
Proof.
  intros H. unfold rest. simpl. rewrite drop_0. destruct H as [|o ops ? _]; [done|].
  by rewrite trim_0.
Qed.

Lemma trim_type off o : op_Type (trim off o) = op_Type o.
Proof. unfold trim. by case_decide. Qed.

Lemma trim_size off o :
  sized o -> 0 <= off < op_size o -> op_size (trim off o) = op_size o - off.
Proof.
  intros Ho Hoff. pose proof (sized_size _ Ho). unfold op_size, trim in *.
  case_decide; simpl; case_decide; try done.
  - unfold len in *. rewrite length_drop. lia.
  - apply int64_id. int_unfold; lia.
Qed.

Lemma trim_sized off o : sized o -> 0 <= off < op_size o -> sized (trim off o).
Proof.
  intros Ho Hoff. pose proof (sized_size _ Ho) as Hs. pose proof (trim_size _ _ Ho Hoff) as Ht.
  destruct Ho as (Hwf & Hm). split; [|lia].
  unfold wf_op in *. rewrite trim_type. unfold op_size in *. rewrite trim_type in Ht.
    destruct (op_Type o) eqn:E; simpl in *; try lia. intros Hn. rewrite Hn, len_nil in Ht. lia.
Qed.

Lemma rest_sized s : cur_ok s -> Forall sized (rest s).
Proof.
  intros [Hs Ho]. unfold rest. destruct (drop _ _); [done|].
  apply Forall_cons in Hs as [? ?]. constructor; [|done]. by apply trim_sized.
Qed.

(** A cursor gives up the first [n] bytes of its first operation. *)
Lemma consume_spec s o t n :
  cur_ok s -> rest s = o :: t -> 0 < n <= op_size o ->
  cur_ok (consume s n) /\
  rest (consume s n) = if n =? op_size o then t else trim n o :: t.
Proof.
  intros Hok Hr Hn. pose proof (rest_sized _ Hok) as Hrs. destruct Hok as [Hs Ho].
  unfold rest in Hr, Hrs. destruct (drop (sl_pos s) (sl_ops s)) as [|o1 ops] eqn:Ed; [done|].
  simplify_eq. apply Forall_cons in Hs as [Hs1 Hs]. apply Forall_cons in Hrs as [Hrs _].
  rewrite trim_size in * by done. pose proof (sized_size _ Hs1) as Hsz.
  assert (sl_ops s !! sl_pos s = Some o1) as Hl.
  { rewrite <-(Nat.add_0_r (sl_pos s)), <-lookup_drop, Ed. done. }
  assert (drop (S (sl_pos s)) (sl_ops s) = t) as Ed'.
  { rewrite <-Nat.add_1_r, <-drop_drop, Ed. done. }
  unfold consume. simpl. rewrite (proj2 (Z.ltb_lt 0 n)), Hl by lia.
  rewrite (int64_id (op_size o1 - _)) by (int_unfold; lia).
  destruct (Z.leb_spec (op_size o1 - sl_off s) n) as [Hge|Hlt].
  - replace n with (op_size o1 - sl_off s) by lia. rewrite Z.eqb_refl, Z.sub_diag.
    assert (forall f, consume_loop f (mkSlice (sl_ops s) (S (sl_pos s)) 0) (int64 0) =
      mkSlice (sl_ops s) (S (sl_pos s)) 0) as -> by (by intros []).
    unfold rest; simpl; rewrite Ed'. split.
    + split; simpl; rewrite Ed'; [done|]. destruct Hs as [|o2 ? Ho2 _]; [done|].
      apply sized_size in Ho2. lia.
    + destruct Hs as [|o2 ? ? _]; [done|]. by rewrite trim_0.
  - rewrite (proj2 (Z.eqb_neq n _)) by lia. rewrite int64_id by (int_unfold; lia).
    split; [split; simpl; rewrite Ed; [auto|lia]|].
    unfold rest; simpl. rewrite Ed. f_equal. unfold trim. case_decide as Et; simpl.
    + rewrite decide_True by done. f_equal. rewrite drop_drop. f_equal. lia.
    + rewrite decide_False by done. f_equal.
      replace (op_Len o1 - (sl_off s + n)) with (op_Len o1 - sl_off s + - n) by lia.
      by rewrite <-int64_add_l.
Qed.

(** The offset stays inside the operation it points to, whatever the
    operations are. *)
Definition off_ok (s : opSlice) : Prop :=
  match sl_ops s !! sl_pos s with
  | Some op => sl_off s = 0 \/ 0 < sl_off s < op_size op
  | None => True
  end.

Lemma consume_off s n :
  (forall op, In op (sl_ops s) -> is_int (op_size op)) ->
  off_ok s -> is_int n -> off_ok (consume s n).
Proof.
  unfold consume. generalize (S (length (sl_ops s) - sl_pos s)) as fuel.
  intros fuel. revert s n. induction fuel as [|fuel IH]; intros s n Hops Hok Hn; simpl; [done|].
  destruct (Z.ltb_spec 0 n); [|done]. destruct (sl_ops s !! sl_pos s) as [op|] eqn:E; [|done].
  case_match eqn:Hc.
  - apply IH; simpl; auto using int64_range.
    unfold off_ok; simpl. case_match; auto.
  - unfold off_ok in *; simpl. rewrite E in *.
    assert (is_int (op_size op)) by (apply Hops; apply list_elem_of_In; by eapply list_elem_of_lookup_2).
    right. destruct Hok as [Hz|Hoff].
    + rewrite Hz in *. rewrite Z.sub_0_r, int64_id in Hc by done. rewrite Z.add_0_l, int64_id by done. lia.
    + rewrite int64_id in Hc by (int_unfold; lia). rewrite int64_id by (int_unfold; lia). lia.
Qed.

(** ** [addOp] *)

Lemma addOp_snoc init l op :
  addOp (init ++ [l]) op =
    if decide (op_Type l = op_Type op) then
      match op_Type op with
      | OpRetain | OpDelete =>
          init ++ [mkOp (op_Type l) (int64 (op_Len l + op_Len op)) (op_Chars l)]
      | OpInsert => init ++ [mkOp (op_Type l) (op_Len l) (op_Chars l ++ op_Chars op)]
      | OpOther _ => (init ++ [l]) ++ [op]
      end
    else (init ++ [l]) ++ [op].
Proof.
  unfold addOp. rewrite last_snoc, length_app. simpl.
  replace (length init + 1 - 1)%nat with (length init + 0)%nat by lia.
  case_decide; [|done]. destruct (op_Type op); rewrite ?insert_app_r; done.
Qed.

Lemma canonical_snoc_same init l l' :
  op_Type l' = op_Type l -> canonical (init ++ [l]) -> canonical (init ++ [l']).
Proof.
  intros Ht. induction init as [|o [|o' init] IH]; simpl; [done|..].
  - rewrite Ht. tauto.
  - intros [? ?]. split; [done|]. by apply IH.
Qed.

Lemma canonical_snoc_new init l o :
  op_Type l <> op_Type o -> canonical (init ++ [l]) -> canonical ((init ++ [l]) ++ [o]).
Proof.
  intros Ht. induction init as [|o1 [|o2 init] IH]; simpl; [tauto|tauto|].
  intros [? ?]. split; [done|]. by apply IH.
Qed.

Lemma keeps_add m n : 0 <= m -> 0 <= n -> keeps (Z.to_nat (m + n)) = keeps (Z.to_nat m) ++ keeps (Z.to_nat n).
Proof. intros. unfold keeps. by rewrite Z2Nat.inj_add, replicate_add. Qed.

Lemma drops_add m n : 0 <= m -> 0 <= n -> drops (Z.to_nat (m + n)) = drops (Z.to_nat m) ++ drops (Z.to_nat n).
Proof. intros. unfold drops. by rewrite Z2Nat.inj_add, replicate_add. Qed.

Lemma puts_app s t : puts (s ++ t) = puts s ++ puts t.
Proof. apply map_app. Qed.

Lemma uops_snoc ops o : uops (ops ++ [o]) = uops ops ++ uop1 o.
Proof. rewrite uops_app, (uops_cons o []). by rewrite app_nil_r. Qed.

(** [addOp] appends the operation's script, and keeps the list well formed
    and without two neighbours of one type. *)
Lemma addOp_spec ops op :
  wf_ops ops -> wf_op op -> canonical ops ->
  Z.of_nat (src (uops ops) + src (uop1 op)) <= MaxInt ->
  uops (addOp ops op) = uops ops ++ uop1 op /\
  wf_ops (addOp ops op) /\ canonical (addOp ops op).
Proof.
  intros Hwf0 Hop0 Hcan0 Hmax0.
  assert (ops_src ops + op_src op <= MaxInt) as Hmax1.
  { rewrite <-(src_uops _ Hwf0).
    assert (op_src op = Z.of_nat (src (uop1 op))) as ->; [|lia].
    rewrite uop1_alt. unfold wf_op, op_src in *. destruct (op_Type op); script_simpl; lia. }
  clear Hmax0. revert Hwf0 Hop0 Hcan0 Hmax1.
  destruct ops as [|l init _] using rev_ind.
  { intros _ Hop _ _. unfold addOp. simpl. rewrite uops_cons, app_nil_r. auto. }
  rewrite addOp_snoc, ops_src_app, !Forall_app, Forall_singleton.
  intros [Hinit Hl] Hop Hcan Hmax. pose proof (ops_src_nonneg _ Hinit).
  simpl in Hmax. unfold op_src in Hmax. case_decide as Et.
  2: { rewrite uops_snoc. split_and!; auto using canonical_snoc_new. by rewrite !Forall_app, !Forall_singleton. }
  rewrite Et in Hmax. pose proof Hl as Hl'. pose proof Hop as Hop'.
  unfold wf_op in Hl', Hop'. rewrite Et in Hl'.
  destruct (op_Type op) eqn:Eo; [..|done];
    (split_and!; [|rewrite Forall_app, Forall_singleton; split; [done|]
                  |by eapply canonical_snoc_same; [|exact Hcan]]);
    rewrite ?uops_snoc, ?uop1_alt, ?Eo, ?Et; unfold wf_op; simpl; rewrite ?Et;
    rewrite ?int64_id by (int_unfold; lia); try lia.
  - by rewrite <-app_assoc, keeps_add by lia.
  - by rewrite <-app_assoc, puts_app.
  - destruct (op_Chars l); done.
  - by rewrite <-app_assoc, drops_add by lia.
Qed.

(** ** Cursors and scripts *)

(** The first [n] bytes of an operation. *)
Definition cut (n : Z) (o : Op) : Op :=
  if decide (op_Type o = OpInsert)
  then Insert (take (Z.to_nat n) (op_Chars o))
  else mkOp (op_Type o) n [].

Lemma sized_wf ops : Forall sized ops -> wf_ops ops.
Proof. intros H. eapply Forall_impl; [exact H|]. by intros o []. Qed.

Lemma rest_wf s : cur_ok s -> wf_ops (rest s).
Proof. intros. by apply sized_wf, rest_sized. Qed.

#[export] Hint Resolve rest_wf : core.

Lemma uop1_cut n o :
  sized o -> 0 < n < op_size o -> uop1 o = uop1 (cut n o) ++ uop1 (trim n o).
Proof.
  intros Ho Hn. pose proof (sized_size _ Ho). rewrite !uop1_alt. unfold cut, trim, op_size in *.
  destruct (op_Type o) eqn:E; simpl in *; rewrite ?E; simpl; try done.
  - rewrite int64_id by (int_unfold; lia).
    replace (op_Len o) with (n + (op_Len o - n)) at 1 by lia. apply keeps_add; lia.
  - by rewrite <-puts_app, take_drop.
  - rewrite int64_id by (int_unfold; lia).
    replace (op_Len o) with (n + (op_Len o - n)) at 1 by lia. apply drops_add; lia.
Qed.

Lemma uop1_cut_all o : sized o -> uop1 (cut (op_size o) o) = uop1 o.
Proof.
  intros Ho. rewrite !uop1_alt. unfold cut, op_size.
  destruct (op_Type o) eqn:E; simpl; rewrite ?E; try done.
  by rewrite to_nat_len, firstn_all.
Qed.

Lemma consume_uops s o t n :
  cur_ok s -> rest s = o :: t -> 0 < n <= op_size o ->
  cur_ok (consume s n) /\
  uops (rest s) = uop1 (cut n o) ++ uops (rest (consume s n)) /\
  (length (rest (consume s n)) + (if (n =? op_size o)%Z then 1 else 0) <= length (rest s))%nat.
Proof.
  intros Hok Hr Hn. destruct (consume_spec _ _ _ _ Hok Hr Hn) as [Hok' ->].
  pose proof (rest_sized _ Hok) as Hs. rewrite Hr in *. apply Forall_cons in Hs as [Ho _].
  rewrite uops_cons. split; [done|]. destruct (Z.eqb_spec n (op_size o)) as [->|Hne].
  - rewrite uop1_cut_all by done. split; [done|]. simpl. lia.
  - rewrite uops_cons, app_assoc, <-uop1_cut by (done || lia). split; [done|]. simpl. lia.
Qed.

(** The operations of a well formed changeset fit a cursor. *)
Lemma wf_sized ops :
  wf_ops ops ->
  ops_src ops <= MaxInt -> ops_dst ops <= MaxInt -> Forall sized ops.
Proof.
  induction 1 as [|o ops Ho Hops IH]; [done|]. intros Hs Hd. simpl in *.
  pose proof (ops_src_nonneg _ Hops). pose proof (ops_dst_nonneg _ Hops).
  pose proof (op_src_nonneg _ Ho). pose proof (op_dst_nonneg _ Ho).
  constructor; [|apply IH; (done || lia)]. split; [done|].
  unfold op_size, op_src, op_dst, wf_op in *. destruct (op_Type o) eqn:E; simpl in *; lia || done.
Qed.

Lemma cs_sized c : wf_cs c -> Forall sized (cs_Ops c).
Proof. intros []. apply wf_sized; auto; lia. Qed.

Lemma sized_insert o : sized o -> op_Type o = OpInsert -> op_size o = len (op_Chars o).
Proof. intros _ E. unfold op_size. by rewrite decide_True. Qed.

Lemma sized_length o : sized o -> op_Type o <> OpInsert -> op_size o = op_Len o.
Proof. intros _ E. unfold op_size. by rewrite decide_False. Qed.

Lemma uop1_Retain n : uop1 (Retain n) = keeps (Z.to_nat n).
Proof. by rewrite uop1_alt. Qed.
Lemma uop1_Delete n : uop1 (Delete n) = drops (Z.to_nat n).
Proof. by rewrite uop1_alt. Qed.
Lemma uop1_Insert s : uop1 (Insert s) = puts s.
Proof. by rewrite uop1_alt. Qed.
#[export] Hint Rewrite uop1_Retain uop1_Delete uop1_Insert : script.

(** The same for atoms, which never split an insertion. *)
Lemma consume_atoms s o t n :
  cur_ok s -> rest s = o :: t -> 0 < n <= op_size o ->
  (op_Type o = OpInsert -> n = op_size o) ->
  atoms (rest s) = atoms1 (cut n o) ++ atoms (rest (consume s n)).
Proof.
  intros Hok Hr Hn Hins. destruct (consume_spec _ _ _ _ Hok Hr Hn) as [_ ->].
  pose proof (rest_sized _ Hok) as Hs. rewrite Hr in *. apply Forall_cons in Hs as [Ho _].
  pose proof (sized_size _ Ho) as Hsz.
  simpl. unfold atoms1, cut, op_size in *.
  destruct (op_Type o) eqn:E; simpl in *; rewrite ?E; simpl.
  - destruct (Z.eqb_spec n (op_Len o)) as [->|Hne]; [done|]. simpl. unfold atoms1, trim.
    rewrite E; simpl. rewrite int64_id, app_assoc, <-replicate_add by (int_unfold; lia).
    do 2 f_equal. lia.
  - rewrite (Hins eq_refl), Z.eqb_refl, to_nat_len, firstn_all. done.
  - destruct (Z.eqb_spec n (op_Len o)) as [->|Hne]; [done|]. simpl. unfold atoms1, trim.
    rewrite E; simpl. rewrite int64_id, app_assoc, <-replicate_add by (int_unfold; lia).
    do 2 f_equal. lia.
  - destruct Ho as (Wo & _). unfold wf_op in Wo. by rewrite E in Wo.
Qed.
