(* ===== verification/Compose.v ===== *)
(** * Merging two changesets ([internal/ot/compose.go]) *)

From S2P Require Import Prelude Edit Changeset Apply Cursor.

(** ** Code *)

(** The main loop.  [Diverge] is running out of fuel. *)
Fixpoint compose_loop (fuel : nat) (aSlice bSlice : opSlice) (ops : list Op)
    : outcome Empty_set (list Op) :=
  match fuel with
  | O => Diverge
  | S fuel =>
      let bOp := peek bSlice in
      let aOp := peek aSlice in
      match insert_of bOp with
      | Some chars =>
          compose_loop fuel aSlice (consume bSlice (len chars)) (addOp ops (Insert chars))
      | None =>
          match delete_of aOp with
          | Some n => compose_loop fuel (consume aSlice n) bSlice (addOp ops (Delete n))
          | None =>
              match aOp, bOp with
              | Some aOp, Some bOp =>
                  let aLen := op_size aOp in
                  let bLen := op_Len bOp in
                  let n := if bLen <? aLen then bLen else aLen in
                  let! ops :=
                    match op_Type aOp, op_Type bOp with
                    | OpRetain, OpRetain => Ok (addOp ops (Retain n))
                    | OpRetain, OpDelete => Ok (addOp ops (Delete n))
                    | OpInsert, OpRetain =>
                        let! chars := or_panic (slice (op_Chars aOp) 0 n) in
                        Ok (addOp ops (Insert chars))
                    | _, _ => Ok ops
                    end in
                  compose_loop fuel (consume aSlice n) (consume bSlice n) ops
              | _, _ => Ok ops
              end
          end
      end
  end.

(** One turn per operation of either changeset, and one to leave the loop. *)
Definition compose_fuel (A B : Changeset) : nat :=
  S (length (cs_Ops A) + length (cs_Ops B)).

Definition Compose (A B : Changeset) : outcome Empty_set Changeset :=
  let! ops := compose_loop (compose_fuel A B) (newSlice (cs_Ops A)) (newSlice (cs_Ops B)) [] in
  Ok (mkChangeset (cs_OldLen A) (cs_NewLen B) ops).

(** * Lemmas *)

Lemma ucompose_nil_nil : ucompose [] [] = [].
Proof. done. Qed.

Lemma ucompose_puts s a b : ucompose a (puts s ++ b) = puts s ++ ucompose a b.
Proof. induction s; [done|]. simpl. rewrite ucompose_put. by f_equal. Qed.

Lemma ucompose_drops n a b :
  (forall c b', b <> Put c :: b') -> ucompose (drops n ++ a) b = drops n ++ ucompose a b.
Proof. intros. induction n; [done|]. simpl. rewrite ucompose_drop by done. by f_equal. Qed.

Lemma ucompose_keeps_keeps n a b :
  ucompose (keeps n ++ a) (keeps n ++ b) = keeps n ++ ucompose a b.
Proof. induction n; [done|]. simpl. rewrite ucompose_keep_keep. by f_equal. Qed.

Lemma ucompose_keeps_drops n a b :
  ucompose (keeps n ++ a) (drops n ++ b) = drops n ++ ucompose a b.
Proof. induction n; [done|]. simpl. rewrite ucompose_keep_drop. by f_equal. Qed.

Lemma ucompose_puts_keeps s a b :
  ucompose (puts s ++ a) (keeps (length s) ++ b) = puts s ++ ucompose a b.
Proof. induction s; [done|]. simpl. rewrite ucompose_put_keep. by f_equal. Qed.

Lemma ucompose_puts_drops s a b :
  ucompose (puts s ++ a) (drops (length s) ++ b) = ucompose a b.
Proof. induction s; [done|]. simpl. rewrite ucompose_put_drop. done. Qed.

Lemma uops_not_put o t :
  sized o -> op_Type o <> OpInsert -> forall c u, uops (o :: t) <> Put c :: u.
Proof.
  intros Ho Ht c u. pose proof (sized_size _ Ho). destruct Ho as (Hwf & _).
  rewrite uops_cons, uop1_alt. unfold wf_op, op_size in *.
  destruct (op_Type o); try done; simpl in *;
    destruct (Z.to_nat (op_Len o)) eqn:E; simpl; (lia || congruence).
Qed.

(** The main loop computes the composition of the two scripts. *)
Record compose_ok (a b : opSlice) (ops : list Op) (ops' : list Op) : Prop := {
  co_uops : uops ops' = uops ops ++ ucompose (uops (rest a)) (uops (rest b));
  co_wf : wf_ops ops';
  co_canonical : canonical ops'
}.

(** One turn that adds [op] and leaves the cursors at [a'] and [b']. *)
Lemma compose_step a b a' b' ops ops1 v ops' :
  uops ops1 = uops ops ++ v ->
  ucompose (uops (rest a)) (uops (rest b)) = v ++ ucompose (uops (rest a')) (uops (rest b')) ->
  compose_ok a' b' ops1 ops' -> compose_ok a b ops ops'.
Proof. intros E1 E2 [E3 ??]. split; [|done..]. by rewrite E3, E1, E2, <-app_assoc. Qed.

(** The three ways the loop goes on, as steps of [compose_loop_ok]. *)
Definition compose_goal (fuel : nat) : Prop := forall a b ops,
  cur_ok a -> cur_ok b -> wf_ops ops -> canonical ops ->
  dst (uops (rest a)) = src (uops (rest b)) ->
  Z.of_nat (src (uops ops) + src (uops (rest a))) <= MaxInt ->
  (length (rest a) + length (rest b) < fuel)%nat ->
  exists ops', compose_loop fuel a b ops = Ok ops' /\ compose_ok a b ops ops'.

Lemma compose_go fuel a b a' b' ops ops1 va vb v :
  compose_goal fuel -> cur_ok a' -> cur_ok b' ->
  uops ops1 = uops ops ++ v /\ wf_ops ops1 /\ canonical ops1 ->
  uops (rest a) = va ++ uops (rest a') -> uops (rest b) = vb ++ uops (rest b') ->
  ucompose (uops (rest a)) (uops (rest b)) = v ++ ucompose (uops (rest a')) (uops (rest b')) ->
  dst va = src vb -> src v = src va ->
  dst (uops (rest a)) = src (uops (rest b)) ->
  Z.of_nat (src (uops ops) + src (uops (rest a))) <= MaxInt ->
  (length (rest a') + length (rest b') < fuel)%nat ->
  exists ops', compose_loop fuel a' b' ops1 = Ok ops' /\ compose_ok a b ops ops'.
Proof.
  intros IH Ha Hb (E1 & Hwf & Hc) Ea Eb E Hd Hs Hfit Hmax Hf.
  destruct (IH a' b' ops1) as (ops' & -> & Hok); auto.
  - rewrite Ea, Eb in Hfit. script_simpl. lia.
  - rewrite E1. rewrite Ea in Hmax. script_simpl. lia.
  - exists ops'. split; [done|]. by eapply compose_step.
Qed.

(** Both cursors stand on an operation the two changesets share. *)
Lemma ucompose_cut ao bo n x y :
  sized ao -> sized bo -> op_Type ao <> OpDelete -> op_Type bo <> OpInsert ->
  0 < n <= op_size ao -> n <= op_size bo ->
  exists v,
    ucompose (uop1 (cut n ao) ++ x) (uop1 (cut n bo) ++ y) = v ++ ucompose x y /\
    dst (uop1 (cut n ao)) = src (uop1 (cut n bo)) /\ src v = src (uop1 (cut n ao)) /\
    v = match op_Type ao, op_Type bo with
        | OpRetain, OpRetain => uop1 (Retain n)
        | OpRetain, OpDelete => uop1 (Delete n)
        | OpInsert, OpRetain => uop1 (Insert (take (Z.to_nat n) (op_Chars ao)))
        | _, _ => []
        end.
Proof.
  intros (Wa & _) (Wb & _) Ta Tb Hn Hn'. rewrite !(uop1_alt (cut _ _)). unfold cut, wf_op, op_size in *.
  assert (op_Type ao = OpInsert -> length (take (Z.to_nat n) (op_Chars ao)) = Z.to_nat n) as Hlen.
  { intros Et. rewrite length_take. rewrite Et in Hn. unfold len in Hn. simpl in Hn. lia. }
  destruct (op_Type ao), (op_Type bo); try done; simpl; eexists; (split_and!; [..|reflexivity]);
    script_simpl; auto using ucompose_keeps_keeps, ucompose_keeps_drops.
  - rewrite <-Hlen at 2 by done. apply ucompose_puts_keeps.
  - rewrite <-Hlen at 2 by done. apply ucompose_puts_drops.
Qed.

(** [B] inserts. *)
Lemma compose_insert fuel a b ops o :
  compose_goal fuel -> cur_ok a -> cur_ok b -> wf_ops ops -> canonical ops ->
  dst (uops (rest a)) = src (uops (rest b)) ->
  Z.of_nat (src (uops ops) + src (uops (rest a))) <= MaxInt ->
  (length (rest a) + length (rest b) < S fuel)%nat ->
  head (rest b) = Some o -> op_Type o = OpInsert ->
  exists ops', compose_loop fuel a (consume b (len (op_Chars o)))
                 (addOp ops (Insert (op_Chars o))) = Ok ops' /\ compose_ok a b ops ops'.
Proof.
  intros IH Ha Hb Hwf Hc Hfit Hmax Hf [t Eb]%head_Some Et.
  pose proof (rest_sized _ Hb) as Sb. rewrite Eb in Sb. apply Forall_cons in Sb as [So _].
  pose proof (sized_size _ So) as Hsz. rewrite <-(sized_insert _ So Et).
  destruct (consume_uops b o t (op_size o)) as (Hb' & Eu & Hl); [done..|lia|].
  rewrite Z.eqb_refl in Hl. rewrite uop1_cut_all, uop1_alt, Et in Eu by done.
  eapply (compose_go _ _ _ _ _ _ _ [] (puts (op_Chars o)) (puts (op_Chars o))); try done.
  - rewrite <-uop1_Insert. apply addOp_spec; try done; [|script_simpl; lia].
    destruct So as (Wo & _). unfold wf_op in *. by rewrite Et in Wo.
  - by rewrite Eu, ucompose_puts.
  - by script_simpl.
  - by script_simpl.
  - lia.
Qed.

(** [A] deletes, and [B] does not insert. *)
Lemma compose_delete fuel a b ops o :
  compose_goal fuel -> cur_ok a -> cur_ok b -> wf_ops ops -> canonical ops ->
  dst (uops (rest a)) = src (uops (rest b)) ->
  Z.of_nat (src (uops ops) + src (uops (rest a))) <= MaxInt ->
  (length (rest a) + length (rest b) < S fuel)%nat ->
  insert_of (head (rest b)) = None ->
  head (rest a) = Some o -> op_Type o = OpDelete ->
  exists ops', compose_loop fuel (consume a (op_Len o)) b (addOp ops (Delete (op_Len o))) = Ok ops' /\
               compose_ok a b ops ops'.
Proof.
  intros IH Ha Hb Hwf Hc Hfit Hmax Hf Hni [t Ea]%head_Some Et.
  pose proof (rest_sized _ Ha) as Sa. rewrite Ea in Sa. apply Forall_cons in Sa as [So _].
  pose proof (rest_sized _ Hb) as Sb.
  pose proof (sized_size _ So) as Hsz. rewrite <-(sized_length _ So) by congruence.
  destruct (consume_uops a o t (op_size o)) as (Ha' & Eu & Hl); [done..|lia|].
  rewrite Z.eqb_refl in Hl. rewrite uop1_cut_all, uop1_alt, Et, <-(sized_length _ So) in Eu by congruence.
  set (v := drops (Z.to_nat (op_size o))) in *.
  eapply (compose_go _ _ _ _ _ _ _ v [] v); try done.
  - unfold v in *. rewrite <-uop1_Delete. apply addOp_spec; try done.
    + unfold wf_op; simpl; lia.
    + rewrite uop1_Delete. rewrite Eu in Hmax. script_simpl. lia.
  - rewrite Eu. apply ucompose_drops. destruct (rest b) as [|bo bt]; [done|].
    apply Forall_cons in Sb as [Sbo _]. apply uops_not_put; [done|]. by apply insert_of_None.
  - unfold v. by script_simpl.
  - lia.
Qed.

(** Both changesets go over the same bytes. *)
Lemma compose_both fuel a b ops ao bo n :
  compose_goal fuel -> cur_ok a -> cur_ok b -> wf_ops ops -> canonical ops ->
  dst (uops (rest a)) = src (uops (rest b)) ->
  Z.of_nat (src (uops ops) + src (uops (rest a))) <= MaxInt ->
  (length (rest a) + length (rest b) < S fuel)%nat ->
  head (rest a) = Some ao -> head (rest b) = Some bo ->
  op_Type ao <> OpDelete -> op_Type bo <> OpInsert ->
  n = Z.min (op_size ao) (op_size bo) ->
  exists ops',
    (let! ops :=
       match op_Type ao, op_Type bo with
       | OpRetain, OpRetain => Ok (addOp ops (Retain n))
       | OpRetain, OpDelete => Ok (addOp ops (Delete n))
       | OpInsert, OpRetain =>
           let! chars := or_panic (slice (op_Chars ao) 0 n) in
           Ok (addOp ops (Insert chars))
       | _, _ => Ok ops
       end in
     compose_loop fuel (consume a n) (consume b n) ops) = Ok ops' /\
    compose_ok a b ops ops'.
Proof.
  intros IH Ha Hb Hwf Hc Hfit Hmax Hf [ta Ea]%head_Some [tb Eb]%head_Some Ta Tb Hn.
  pose proof (rest_sized _ Ha) as Sa. rewrite Ea in Sa. apply Forall_cons in Sa as [Sao _].
  pose proof (rest_sized _ Hb) as Sb. rewrite Eb in Sb. apply Forall_cons in Sb as [Sbo _].
  pose proof (sized_size _ Sao) as Hsa. pose proof (sized_size _ Sbo) as Hsb.
  destruct (consume_uops a ao ta n) as (Ha' & Eua & Hla); [done..|lia|].
  destruct (consume_uops b bo tb n) as (Hb' & Eub & Hlb); [done..|lia|].
  destruct (ucompose_cut ao bo n (uops (rest (consume a n))) (uops (rest (consume b n))))
    as (v & Ev & Hd & Hs & Hv); [done..|lia|lia|]. rewrite <-Eua, <-Eub in Ev.
  assert (forall ops1, uops ops1 = uops ops ++ v /\ wf_ops ops1 /\ canonical ops1 ->
    exists ops', compose_loop fuel (consume a n) (consume b n) ops1 = Ok ops' /\ compose_ok a b ops ops') as Hgo.
  { intros ops1 H1. eapply compose_go; try done. repeat case_match; lia. }
  assert (Z.of_nat (src (uops ops) + src v) <= MaxInt) as Hmv.
  { rewrite Hs. rewrite Eua in Hmax. script_simpl. lia. }
  pose proof Sao as (Wa & _). pose proof Sbo as (Wb & _). unfold wf_op in Wa, Wb.
  assert (0 < n) as Hpos by lia.
  destruct (op_Type ao) eqn:Eta, (op_Type bo) eqn:Etb; try done; simpl; subst v.
  - by apply Hgo, addOp_spec.
  - by apply Hgo, addOp_spec.
  - rewrite sized_insert in Hsa, Hn by done.
    rewrite slice_ok by lia. simpl. rewrite Z.sub_0_r, drop_0. apply Hgo, addOp_spec; try done.
    unfold wf_op. simpl. intros Ht. apply (f_equal length) in Ht.
    rewrite length_take in Ht. unfold len in *. simpl in Ht. lia.
  - apply Hgo. by rewrite app_nil_r.
Qed.

Lemma compose_loop_ok fuel : compose_goal fuel.
Proof.
  induction fuel as [|fuel IH]; intros a b ops Ha Hb Hwf Hc Hfit Hmax Hf; [lia|].
  cbn [compose_loop]. rewrite !peek_rest.
  pose proof (rest_sized _ Ha) as Sa. pose proof (rest_sized _ Hb) as Sb.
  destruct (insert_of (head (rest b))) as [chars|] eqn:Ei.
  { apply insert_of_Some in Ei as (o & ? & ? & <-). by apply compose_insert. }
  destruct (delete_of (head (rest a))) as [n|] eqn:Ed.
  { apply delete_of_Some in Ed as (o & ? & ? & <-). by apply compose_delete. }
  destruct (head (rest a)) as [ao|] eqn:Ea, (head (rest b)) as [bo|] eqn:Eb.
  - apply insert_of_None in Ei. apply delete_of_None in Ed.
    eapply compose_both; eauto. rewrite (sized_length bo); [|..|done].
    + destruct (Z.ltb_spec (op_Len bo) (op_size ao)); lia.
    + apply head_Some in Eb as [? Eb]. rewrite Eb in Sb. by inversion Sb.
  - apply head_Some in Ea as [ta Ea]. destruct (rest b) eqn:Erb; [|done].
    rewrite Ea in *. apply Forall_cons in Sa as [Sao _]. pose proof (sized_size _ Sao) as Hs.
    rewrite uops_cons, uop1_alt in Hfit. apply delete_of_None in Ed.
    destruct Sao as (Wa & _). unfold wf_op, op_size, len in *.
    destruct (op_Type ao); try done; simpl in *; script_simpl; lia.
  - apply head_Some in Eb as [tb Eb]. destruct (rest a) eqn:Era; [|done].
    rewrite Eb in *. apply Forall_cons in Sb as [Sbo _]. pose proof (sized_size _ Sbo) as Hs.
    rewrite uops_cons, uop1_alt in Hfit. apply insert_of_None in Ei.
    destruct Sbo as (Wb & _). unfold wf_op, op_size, len in *.
    destruct (op_Type bo); try done; simpl in *; script_simpl; lia.
  - exists ops. split; [done|]. destruct (rest a) eqn:Era, (rest b) eqn:Erb; try done.
    split; [|done..]. rewrite Era, Erb. change (uops []) with (@nil uop).
    by rewrite ucompose_nil_nil, app_nil_r.
Qed.

(** [Compose] returns, for changesets that fit each other, the composition
    of their scripts. *)
Lemma Compose_spec A B :
  wf_cs A -> wf_cs B -> cs_NewLen A = cs_OldLen B ->
  exists C, Compose A B = Ok C /\ wf_cs C /\ canonical (cs_Ops C) /\
    cs_OldLen C = cs_OldLen A /\ cs_NewLen C = cs_NewLen B /\
    uops (cs_Ops C) = ucompose (uops (cs_Ops A)) (uops (cs_Ops B)).
Proof.
  intros WA WB Hfit. pose proof (cs_sized _ WA) as SA. pose proof (cs_sized _ WB) as SB.
  destruct WA as [HA Ao An AoM AnM], WB as [HB Bo Bn BoM BnM].
  pose proof (src_uops _ HA). pose proof (dst_uops _ HA).
  pose proof (src_uops _ HB). pose proof (dst_uops _ HB).
  assert (dst (uops (cs_Ops A)) = src (uops (cs_Ops B))) as Hd by lia.
  destruct (ucompose_src_dst _ _ Hd) as [Hs' Hd'].
  destruct (compose_loop_ok (compose_fuel A B) (newSlice (cs_Ops A)) (newSlice (cs_Ops B)) [])
    as (ops' & E & [Eu Hwf Hc]); rewrite ?rest_new by done; auto using cur_ok_new.
  - done.
  - change (src (uops [])) with 0%nat. lia.
  - unfold Compose. rewrite E. simpl. eexists. split; [done|]. simpl.
    rewrite !rest_new in Eu by done. change (uops []) with (@nil uop) in Eu. simpl in Eu.
    pose proof (src_uops _ Hwf). pose proof (dst_uops _ Hwf). rewrite Eu in *.
    split_and!; auto. split; simpl; auto; lia.
Qed.

(** C29: composing two changesets and applying the result once is the same as
    applying them one after the other; the composition is again a well formed
    changeset, between the right lengths, with no two neighbouring operations
    of one type. *)
Theorem Compose_correct A B d :
  wf_cs A -> wf_cs B -> cs_NewLen A = cs_OldLen B -> len d = cs_OldLen A ->
  exists C m,
    Compose A B = Ok C /\ Validate C = Ok tt /\ canonical (cs_Ops C) /\
    ApplyChangeset d A = Ok m /\
    ApplyChangeset d C = ApplyChangeset m B /\
    ApplyChangeset m B = Ok (uapply (uops (cs_Ops B)) m).
Proof.
  intros WA WB Hfit Hd. destruct (Compose_spec A B) as (C & E & WC & Hc & Ho & Hn & Hu); auto.
  exists C, (uapply (uops (cs_Ops A)) d).
  pose proof (len_uapply A d WA (eq_sym Hd)) as Hm.
  rewrite !ApplyChangeset_wf; auto; try lia. split_and!; auto using wf_cs_Validate.
  f_equal. rewrite Hu. destruct WA as [HA Ao An _ _], WB as [HB Bo Bn _ _].
  pose proof (src_uops _ HA). pose proof (dst_uops _ HA). pose proof (src_uops _ HB).
  apply ucompose_correct; unfold len in *; lia.
Qed.

Lemma Compose_correct_witness :
  let a := mkChangeset 3 4 [Retain 1; Insert (str "xy"); Delete 1; Retain 1] in
  let b := mkChangeset 4 3 [Delete 2; Retain 1; Insert (str "z"); Retain 1] in
  exists C m,
    Compose a b = Ok C /\ Validate C = Ok tt /\ canonical (cs_Ops C) /\
    ApplyChangeset (str "abc") a = Ok m /\
    ApplyChangeset (str "abc") C = ApplyChangeset m b /\
    ApplyChangeset m b = Ok (uapply (uops (cs_Ops b)) m).
Proof. intros a b. apply Compose_correct; [wf_by_compute|wf_by_compute|reflexivity|reflexivity]. Defined.
