(* ===== verification/Follow.v ===== *)
(** * Rebasing a changeset on a concurrent one ([internal/ot/follow.go]) *)

From S2P Require Import Prelude Edit Changeset Apply Cursor.

(** ** Code *)

(** The closure [addOp] of [Follow]: as in [Cursor.addOp], and it also keeps
    [result.NewLen] up to date, by the same amount whether it extends the last
    operation or appends. *)
Definition addOpLen (result : Changeset) (op : Op) : Changeset :=
  mkChangeset (cs_OldLen result)
    (match op_Type op with
     | OpRetain => int64 (cs_NewLen result + op_Len op)
     | OpInsert => int64 (cs_NewLen result + len (op_Chars op))
     | _ => cs_NewLen result
     end)
    (addOp (cs_Ops result) op).

(** The main loop.  [Diverge] is running out of fuel. *)
Fixpoint follow_loop (fuel : nat) (aSlice bSlice : opSlice) (result : Changeset)
    : outcome Empty_set Changeset :=
  match fuel with
  | O => Diverge
  | S fuel =>
      let aOp := peek aSlice in
      let bOp := peek bSlice in
      match insert_of aOp, insert_of bOp with
      | Some ac, Some bc =>
          if str_leb ac bc
          then follow_loop fuel (consume aSlice (len ac)) bSlice (addOpLen result (Retain (len ac)))
          else follow_loop fuel aSlice (consume bSlice (len bc)) (addOpLen result (Insert bc))
      | Some ac, None =>
          follow_loop fuel (consume aSlice (len ac)) bSlice (addOpLen result (Retain (len ac)))
      | None, Some bc =>
          follow_loop fuel aSlice (consume bSlice (len bc)) (addOpLen result (Insert bc))
      | None, None =>
          match aOp, bOp with
          | Some aOp, Some bOp =>
              let n := if op_Len bOp <? op_Len aOp then op_Len bOp else op_Len aOp in
              let result :=
                match op_Type aOp, op_Type bOp with
                | OpRetain, OpRetain => addOpLen result (Retain n)
                | OpRetain, OpDelete => addOpLen result (Delete n)
                | _, _ => result
                end in
              follow_loop fuel (consume aSlice n) (consume bSlice n) result
          | _, _ => Ok result
          end
      end
  end.

(** One turn per operation of either changeset, and one to leave the loop. *)
Definition follow_fuel (A B : Changeset) : nat :=
  S (length (cs_Ops A) + length (cs_Ops B)).

Definition Follow (A B : Changeset) : outcome Empty_set Changeset :=
  follow_loop (follow_fuel A B) (newSlice (cs_Ops A)) (newSlice (cs_Ops B))
    (mkChangeset (cs_NewLen A) 0 []).

(** * Lemmas *)

(** ** The fuel is enough, for any input

    A turn of the loop either uses up an operation or changes nothing but the
    result; in the second case the loop never ends. *)

Definition left_ops (s : opSlice) : nat := length (sl_ops s) - sl_pos s.

Lemma consume_loop_left fuel s n :
  sl_ops (consume_loop fuel s n) = sl_ops s /\ (left_ops (consume_loop fuel s n) <= left_ops s)%nat.
Proof.
  revert s n. induction fuel as [|fuel IH]; intros s n; simpl; [done|].
  destruct (0 <? n); [|done]. destruct (sl_ops s !! sl_pos s) eqn:E; [|done].
  apply lookup_lt_Some in E. case_match; [|split; [done|unfold left_ops; simpl; lia]].
  edestruct IH as [-> Hl]. split; [done|]. etrans; [exact Hl|]. unfold left_ops; simpl. lia.
Qed.

(** The state a cursor is in while the code runs on [int]s. *)
Definition cur_int (s : opSlice) : Prop :=
  (forall o, In o (sl_ops s) -> is_int (op_size o)) /\ off_ok s.

Lemma cur_int_new ops : (forall o, In o ops -> is_int (op_size o)) -> cur_int (newSlice ops).
Proof. intros. split; [done|]. unfold off_ok; simpl. case_match; auto. Qed.

Lemma cur_int_consume s n : cur_int s -> is_int n -> cur_int (consume s n).
Proof.
  intros [Hs Ho] Hn. split; [|by apply consume_off]. unfold consume.
  by rewrite (proj1 (consume_loop_left _ _ _)).
Qed.

Lemma peek_int s op : cur_int s -> peek s = Some op -> is_int (op_size op).
Proof.
  intros [Hs Ho] Hp. unfold peek, off_ok in *. destruct (sl_ops s !! sl_pos s) as [o|] eqn:E; [|done].
  assert (is_int (op_size o)) by (apply Hs; eapply list_elem_of_In, list_elem_of_lookup_2; eauto).
  injection Hp as <-. unfold op_size, trim in *. repeat (case_decide; simpl in *); try done.
  - unfold len in *. rewrite length_drop. int_unfold. lia.
  - apply int64_range.
Qed.

(** Consuming what [peek] shows, when it is positive, uses it up; consuming
    nothing leaves the cursor alone. *)
Lemma consume_peek_left s op n :
  cur_int s -> peek s = Some op -> 0 < n -> op_size op <= n ->
  (left_ops (consume s n) < left_ops s)%nat.
Proof.
  intros [Hops Hoff] Hp Hn Hle. unfold peek in Hp.
  destruct (sl_ops s !! sl_pos s) as [o|] eqn:E; [|done]. injection Hp as <-.
  unfold consume. simpl. rewrite (proj2 (Z.ltb_lt 0 n)), E by done.
  unfold off_ok in Hoff. rewrite E in Hoff.
  assert (is_int (op_size o)) by (apply Hops; eapply list_elem_of_In, list_elem_of_lookup_2; eauto).
  assert (op_size (trim (sl_off s) o) = int64 (op_size o - sl_off s)) as Hs.
  { unfold op_size, trim in *. repeat (case_decide; simpl in *); try done.
    unfold len in *. rewrite length_drop, int64_id by (int_unfold; lia). lia. }
  rewrite Hs in Hle. rewrite (proj2 (Z.leb_le _ _)) by done. apply lookup_lt_Some in E.
  eapply Nat.le_lt_trans; [apply consume_loop_left|]. unfold left_ops; simpl. lia.
Qed.

Lemma consume_left s n : (left_ops (consume s n) <= left_ops s)%nat.
Proof. apply consume_loop_left. Qed.

(** What one turn does depends on the cursors only. *)
Definition follow_next (a b : opSlice) : option (opSlice * opSlice * option Op) :=
  match insert_of (peek a), insert_of (peek b) with
  | Some ac, Some bc =>
      if str_leb ac bc then Some (consume a (len ac), b, Some (Retain (len ac)))
      else Some (a, consume b (len bc), Some (Insert bc))
  | Some ac, None => Some (consume a (len ac), b, Some (Retain (len ac)))
  | None, Some bc => Some (a, consume b (len bc), Some (Insert bc))
  | None, None =>
      match peek a, peek b with
      | Some aOp, Some bOp =>
          let n := if op_Len bOp <? op_Len aOp then op_Len bOp else op_Len aOp in
          Some (consume a n, consume b n,
                match op_Type aOp, op_Type bOp with
                | OpRetain, OpRetain => Some (Retain n)
                | OpRetain, OpDelete => Some (Delete n)
                | _, _ => None
                end)
      | _, _ => None
      end
  end.

Definition add_opt (result : Changeset) (o : option Op) : Changeset :=
  match o with Some op => addOpLen result op | None => result end.

Lemma follow_loop_S fuel a b result :
  follow_loop (S fuel) a b result =
    match follow_next a b with
    | Some (a', b', o) => follow_loop fuel a' b' (add_opt result o)
    | None => Ok result
    end.
Proof.
  cbn [follow_loop]. unfold follow_next.
  destruct (insert_of (peek a)), (insert_of (peek b)); try case_match; try done.
  destruct (peek b); [|done]. by destruct (op_Type o), (op_Type o0).
Qed.

Lemma follow_next_progress a b a' b' o :
  cur_int a -> cur_int b -> follow_next a b = Some (a', b', o) ->
  cur_int a' /\ cur_int b' /\
  ((a' = a /\ b' = b) \/ (left_ops a' + left_ops b' < left_ops a + left_ops b)%nat).
Proof.
  intros Ha Hb. unfold follow_next.
  assert (forall s op, cur_int s -> peek s = Some op ->
    (consume s (op_size op) = s \/ (left_ops (consume s (op_size op)) < left_ops s)%nat) /\
    cur_int (consume s (op_size op))) as Hall.
  { intros s op Hs Hp. split; [|eauto using cur_int_consume, peek_int].
    destruct (Z.leb_spec (op_size op) 0); [left; by apply consume_nonpos|].
    right. by eapply consume_peek_left. }
  assert (forall s c, cur_int s -> insert_of (peek s) = Some c ->
    (consume s (len c) = s \/ (left_ops (consume s (len c)) < left_ops s)%nat) /\
    cur_int (consume s (len c))) as Hins.
  { intros s c Hs (op & Hp & Ht & <-)%insert_of_Some.
    replace (len (op_Chars op)) with (op_size op); [by apply Hall|].
    unfold op_size. by rewrite decide_True. }
  destruct (insert_of (peek a)) as [ac|] eqn:Ea, (insert_of (peek b)) as [bc|] eqn:Eb.
  - destruct (Hins a ac) as [[Hl|Hl] Hc], (Hins b bc) as [[Hl'|Hl'] Hc']; try done;
      case_match; intros [= <- <- <-]; rewrite ?Hl, ?Hl' in *; split_and!; auto; right; lia.
  - destruct (Hins a ac) as [[Hl|Hl] Hc]; try done;
      intros [= <- <- <-]; rewrite ?Hl in *; split_and!; auto; right; lia.
  - destruct (Hins b bc) as [[Hl|Hl] Hc]; try done;
      intros [= <- <- <-]; rewrite ?Hl in *; split_and!; auto; right; lia.
  - destruct (peek a) as [ao|] eqn:Pa, (peek b) as [bo|] eqn:Pb; try done.
    apply insert_of_None in Ea, Eb.
    pose proof (peek_int _ _ Ha Pa) as Ia. pose proof (peek_int _ _ Hb Pb) as Ib.
    unfold op_size in Ia, Ib. rewrite decide_False in Ia by done. rewrite decide_False in Ib by done.
    set (n := if op_Len bo <? op_Len ao then op_Len bo else op_Len ao).
    assert (is_int n) by (unfold n; case_match; done).
    intros [= <- <- <-]. split_and!; [by apply cur_int_consume..|].
    destruct (Z.leb_spec n 0) as [Hz|Hz]; [left; by rewrite !consume_nonpos|right].
    pose proof (consume_left a n). pose proof (consume_left b n).
    destruct (Z.ltb_spec (op_Len bo) (op_Len ao)).
    + enough (left_ops (consume b n) < left_ops b)%nat by lia.
      eapply consume_peek_left; eauto. unfold op_size. by rewrite decide_False.
    + enough (left_ops (consume a n) < left_ops a)%nat by lia.
      eapply consume_peek_left; eauto. unfold op_size. by rewrite decide_False.
Qed.

(** A turn that moves neither cursor is repeated for ever. *)
Lemma follow_stuck a b o fuel result :
  follow_next a b = Some (a, b, o) -> follow_loop fuel a b result = Diverge.
Proof.
  intros H. revert result. induction fuel as [|fuel IH]; intros result; [done|].
  by rewrite follow_loop_S, H.
Qed.

Lemma follow_loop_enough fuel fuel' a b result :
  cur_int a -> cur_int b ->
  (left_ops a + left_ops b < fuel)%nat -> (left_ops a + left_ops b < fuel')%nat ->
  follow_loop fuel a b result = follow_loop fuel' a b result.
Proof.
  revert fuel' a b result. induction fuel as [|fuel IH]; intros [|fuel'] a b result Ha Hb Hf Hf'; try lia.
  rewrite !follow_loop_S. destruct (follow_next a b) as [[[a' b'] o]|] eqn:E; [|done].
  destruct (follow_next_progress _ _ _ _ _ Ha Hb E) as (Ha' & Hb' & [[-> ->]|Hl]).
  - by rewrite !(follow_stuck _ _ _ _ _ E).
  - apply IH; auto; lia.
Qed.

(** ** The loop computes [ufollow] *)

Lemma ufollow_keeps_keeps n a b :
  ufollow (replicate n AKeep ++ a) (replicate n AKeep ++ b) = keeps n ++ ufollow a b.
Proof. induction n; [done|]. simpl. rewrite ufollow_keep_keep. by f_equal. Qed.

Lemma ufollow_keeps_drops n a b :
  ufollow (replicate n AKeep ++ a) (replicate n ADrop ++ b) = drops n ++ ufollow a b.
Proof. induction n; [done|]. simpl. rewrite ufollow_keep_drop. by f_equal. Qed.

Lemma ufollow_drops_any n x a b :
  is_put [x] = false ->
  ufollow (replicate n ADrop ++ a) (replicate n x ++ b) = ufollow a b.
Proof. intros Hx. induction n; [done|]. simpl. by destruct x. Qed.

Record follow_ok (a b : opSlice) (result result' : Changeset) : Prop := {
  fo_uops : uops (cs_Ops result') =
    uops (cs_Ops result) ++ ufollow (atoms (rest a)) (atoms (rest b));
  fo_wf : wf_ops (cs_Ops result');
  fo_canonical : canonical (cs_Ops result');
  fo_old : cs_OldLen result' = cs_OldLen result;
  fo_new : cs_NewLen result' = int64 (ops_dst (cs_Ops result'))
}.

(** The part of the result the loop has built so far. *)
Record partial (result : Changeset) : Prop := {
  pt_wf : wf_ops (cs_Ops result);
  pt_canonical : canonical (cs_Ops result);
  pt_new : cs_NewLen result = int64 (ops_dst (cs_Ops result))
}.

Lemma addOpLen_spec result op :
  partial result -> wf_op op ->
  Z.of_nat (src (uops (cs_Ops result)) + src (uop1 op)) <= MaxInt ->
  partial (addOpLen result op) /\
  uops (cs_Ops (addOpLen result op)) = uops (cs_Ops result) ++ uop1 op /\
  cs_OldLen (addOpLen result op) = cs_OldLen result.
Proof.
  intros [Hwf Hc Hn] Hop Hmax.
  destruct (addOp_spec (cs_Ops result) op Hwf Hop Hc Hmax) as (Eu & Hwf' & Hc').
  split_and!; [split|..]; auto. simpl.
  pose proof (dst_uops _ Hwf'). pose proof (dst_uops _ Hwf). rewrite Eu in *.
  assert (Z.of_nat (dst (uop1 op)) = op_dst op) as Hd.
  { rewrite uop1_alt. unfold wf_op, op_dst, len in *. destruct (op_Type op); script_simpl; lia. }
  replace (ops_dst (addOp (cs_Ops result) op)) with (ops_dst (cs_Ops result) + op_dst op)
    by (script_simpl; lia).
  rewrite Hn. unfold op_dst in *. unfold wf_op in Hop. destruct (op_Type op); try done.
  - by rewrite int64_add_l.
  - by rewrite int64_add_l.
  - by rewrite Z.add_0_r.
Qed.

(** An insertion under a cursor is consumed whole. *)
Lemma insert_turn s c :
  cur_ok s -> insert_of (peek s) = Some c ->
  cur_ok (consume s (len c)) /\ atoms (rest s) = APut c :: atoms (rest (consume s (len c))) /\
  (length (rest (consume s (len c))) < length (rest s))%nat /\ c <> [].
Proof.
  intros Hok (op & Hp & Ht & <-)%insert_of_Some. rewrite peek_rest in Hp.
  apply head_Some in Hp as [t Hr]. pose proof (rest_sized _ Hok) as Hs. rewrite Hr in Hs.
  apply Forall_cons in Hs as [So _]. pose proof (sized_size _ So) as Hz.
  rewrite <-(sized_insert _ So Ht).
  destruct (consume_uops s op t (op_size op)) as (Hc & _ & Hl); [done..|lia|].
  rewrite (consume_atoms s op t (op_size op)) by (done || lia). rewrite Z.eqb_refl in Hl.
  split_and!; [done| |lia|].
  - unfold atoms1, cut. rewrite decide_True by done. simpl. f_equal.
    by rewrite (sized_insert _ So Ht), to_nat_len, firstn_all.
  - destruct So as (Wo & _). unfold wf_op in Wo. by rewrite Ht in Wo.
Qed.

Lemma no_insert_turn s :
  cur_ok s -> insert_of (peek s) = None -> is_put (atoms (rest s)) = false.
Proof.
  intros Hok Hn. rewrite peek_rest in Hn. pose proof (rest_sized _ Hok) as Hs.
  destruct (rest s) as [|o t]; [done|]. apply Forall_cons in Hs as [So _].
  apply insert_of_None in Hn. pose proof (sized_size _ So) as Hz. rewrite (sized_length _ So Hn) in Hz.
  destruct So as (Wo & _). unfold wf_op in Wo. simpl. unfold atoms1.
  destruct (op_Type o); try done; destruct (Z.to_nat (op_Len o)) eqn:E; (lia || done).
Qed.

Lemma peek_sized s op : cur_ok s -> peek s = Some op -> sized op.
Proof.
  intros Hok Hp. rewrite peek_rest in Hp. apply head_Some in Hp as [t Hr].
  pose proof (rest_sized _ Hok) as Hs. rewrite Hr in Hs. by inversion Hs.
Qed.

(** Otherwise a cursor moves over [n] bytes that are all kept or all dropped. *)
Definition kind (o : Op) : atom :=
  if decide (op_Type o = OpRetain) then AKeep else ADrop.

Lemma length_turn s op n :
  cur_ok s -> peek s = Some op -> op_Type op <> OpInsert -> 0 < n <= op_Len op ->
  cur_ok (consume s n) /\
  atoms (rest s) = replicate (Z.to_nat n) (kind op) ++ atoms (rest (consume s n)) /\
  (length (rest (consume s n)) <= length (rest s))%nat /\
  (n = op_Len op -> (length (rest (consume s n)) < length (rest s))%nat).
Proof.
  intros Hok Hp Ht Hn. rewrite peek_rest in Hp. apply head_Some in Hp as [t Hr].
  pose proof (rest_sized _ Hok) as Hs. rewrite Hr in Hs. apply Forall_cons in Hs as [So _].
  rewrite <-(sized_length _ So Ht) in *.
  destruct (consume_uops s op t n) as (Hc & _ & Hl); [done..|].
  rewrite (consume_atoms s op t n) by done. split_and!; [done| |lia|].
  - f_equal. unfold atoms1, cut, kind. rewrite decide_False by done.
    destruct So as (Wo & _). unfold wf_op in Wo. simpl. by destruct (op_Type op).
  - intros ->. rewrite Z.eqb_refl in Hl. lia.
Qed.

(** The turn is described by [follow_next]; this is what it does to the
    scripts. *)
Record turn_ok (a b a' b' : opSlice) (o : option Op) : Prop := {
  tn_follow : ufollow (atoms (rest a)) (atoms (rest b)) =
    (match o with Some op => uop1 op | None => [] end) ++
    ufollow (atoms (rest a')) (atoms (rest b'));
  tn_wf : forall op, o = Some op -> wf_op op;
  tn_a : cur_ok a';
  tn_b : cur_ok b';
  tn_fit : src (flat (atoms (rest a'))) = src (flat (atoms (rest b')));
  tn_src : (src (match o with Some op => uop1 op | None => [] end) +
            dst (flat (atoms (rest a'))) = dst (flat (atoms (rest a))))%nat;
  tn_dec : (length (rest a') + length (rest b') < length (rest a) + length (rest b))%nat
}.

Section turns.
Context (a b : opSlice) (Ha : cur_ok a) (Hb : cur_ok b).
Context (Hfit : src (flat (atoms (rest a))) = src (flat (atoms (rest b)))).

Lemma turn_a_insert c :
  insert_of (peek a) = Some c ->
  (insert_of (peek b) = None \/ exists t, insert_of (peek b) = Some t /\ str_leb c t = true) ->
  turn_ok a b (consume a (len c)) b (Some (Retain (len c))).
Proof.
  intros Hc Hother. destruct (insert_turn _ _ Ha Hc) as (Ha' & Ea & Hl & Hne).
  rewrite Ea in Hfit. script_simpl. split; rewrite ?Ea; script_simpl; auto; try lia.
  - rewrite to_nat_len. destruct Hother as [Hn|(t & Ht & Hle)].
    + rewrite ufollow_put_l; [done|]. by apply no_insert_turn.
    + destruct (insert_turn _ _ Hb Ht) as (_ & -> & _ & _). by rewrite ufollow_put_put, Hle.
  - intros op [= <-]. unfold wf_op. simpl. pose proof (len_nonneg c).
    assert (len c <> 0) by (intros ?%len_zero; done). lia.
  - rewrite to_nat_len. lia.
Qed.

Lemma turn_b_insert c :
  insert_of (peek b) = Some c ->
  (insert_of (peek a) = None \/ exists s, insert_of (peek a) = Some s /\ str_leb s c = false) ->
  turn_ok a b a (consume b (len c)) (Some (Insert c)).
Proof.
  intros Hc Hother. destruct (insert_turn _ _ Hb Hc) as (Hb' & Eb & Hl & Hne).
  rewrite Eb in Hfit. script_simpl. split; rewrite ?Eb; script_simpl; auto; try lia.
  - destruct Hother as [Hn|(t & Ht & Hle)].
    + rewrite ufollow_put_r; [done|]. by apply no_insert_turn.
    + destruct (insert_turn _ _ Ha Ht) as (_ & -> & _ & _). by rewrite ufollow_put_put, Hle.
  - by intros op [= <-].
Qed.

Lemma turn_both ao bo n :
  peek a = Some ao -> peek b = Some bo -> op_Type ao <> OpInsert -> op_Type bo <> OpInsert ->
  n = Z.min (op_Len ao) (op_Len bo) ->
  turn_ok a b (consume a n) (consume b n)
    (match op_Type ao, op_Type bo with
     | OpRetain, OpRetain => Some (Retain n)
     | OpRetain, OpDelete => Some (Delete n)
     | _, _ => None
     end).
Proof.
  intros Pa Pb Ta Tb Hn.
  destruct (peek_sized _ _ Ha Pa) as [Wa Sa]. destruct (peek_sized _ _ Hb Pb) as [Wb Sb].
  unfold wf_op in Wa, Wb.
  assert (0 < n) by (destruct (op_Type ao), (op_Type bo); try done; lia).
  destruct (length_turn a ao n) as (Ha' & Ea & La & La'); [done..|lia|].
  destruct (length_turn b bo n) as (Hb' & Eb & Lb & Lb'); [done..|lia|].
  assert (length (rest (consume a n)) + length (rest (consume b n)) <
          length (rest a) + length (rest b))%nat as Hdec.
  { destruct (Z.min_spec (op_Len ao) (op_Len bo)) as [[? Hm]|[? Hm]]; rewrite Hm in Hn;
      [specialize (La' Hn)|specialize (Lb' Hn)]; lia. }
  rewrite Ea, Eb in Hfit. unfold kind in *.
  split; rewrite ?Ea, ?Eb; auto; clear Ea Eb;
    destruct (op_Type ao), (op_Type bo); try done; simpl in *;
    rewrite ?flat_app, ?flat_keeps, ?flat_drops in *; script_simpl;
    auto using ufollow_keeps_keeps, ufollow_keeps_drops, ufollow_drops_any; try lia;
    by intros op [= <-].
Qed.
End turns.

Lemma follow_next_ok a b a' b' o :
  cur_ok a -> cur_ok b ->
  src (flat (atoms (rest a))) = src (flat (atoms (rest b))) ->
  follow_next a b = Some (a', b', o) -> turn_ok a b a' b' o.
Proof.
  intros Ha Hb Hfit. unfold follow_next.
  destruct (insert_of (peek a)) as [ac|] eqn:Ea, (insert_of (peek b)) as [bc|] eqn:Eb.
  - destruct (str_leb ac bc) eqn:El; intros [= <- <- <-];
      [apply turn_a_insert|apply turn_b_insert]; eauto.
  - intros [= <- <- <-]. apply turn_a_insert; eauto.
  - intros [= <- <- <-]. apply turn_b_insert; eauto.
  - destruct (peek a) as [ao|] eqn:Pa, (peek b) as [bo|] eqn:Pb; try done.
    apply insert_of_None in Ea, Eb. intros [= <- <- <-]. apply turn_both; auto.
    destruct (Z.ltb_spec (op_Len bo) (op_Len ao)); lia.
Qed.

(** The loop stops only when both changesets are used up. *)
Lemma follow_next_None a b :
  cur_ok a -> cur_ok b ->
  src (flat (atoms (rest a))) = src (flat (atoms (rest b))) ->
  follow_next a b = None -> rest a = [] /\ rest b = [].
Proof.
  intros Ha Hb Hfit. unfold follow_next.
  assert (forall s op t, cur_ok s -> rest s = op :: t -> insert_of (peek s) = None ->
    (0 < src (flat (atoms (rest s))))%nat) as Hpos.
  { intros s op t Hs Hr Hi. rewrite peek_rest, Hr in Hi. apply insert_of_None in Hi.
    assert (peek s = Some op) as Hp by (by rewrite peek_rest, Hr).
    pose proof (peek_sized _ _ Hs Hp) as So. rewrite Hr.
    pose proof (sized_size _ So) as Hz. rewrite (sized_length _ So Hi) in Hz.
    destruct So as (Wo & _). unfold wf_op in Wo.
    fold (uops (op :: t)). rewrite uops_cons, uop1_alt.
    destruct (op_Type op); try done; script_simpl; lia. }
  destruct (insert_of (peek a)) eqn:Ea, (insert_of (peek b)) eqn:Eb; try done;
    try (by destruct (str_leb _ _)).
  intros Hn.
  destruct (rest a) as [|ao ta] eqn:Era, (rest b) as [|bo tb] eqn:Erb; [done|..].
  - specialize (Hpos b bo tb Hb Erb Eb). rewrite Erb in Hpos. simpl in *. lia.
  - specialize (Hpos a ao ta Ha Era Ea). rewrite Era in Hpos. simpl in *. lia.
  - by rewrite !peek_rest, Era, Erb in Hn.
Qed.

Lemma follow_loop_ok fuel a b result :
  cur_ok a -> cur_ok b -> partial result ->
  src (flat (atoms (rest a))) = src (flat (atoms (rest b))) ->
  Z.of_nat (src (uops (cs_Ops result)) + dst (flat (atoms (rest a)))) <= MaxInt ->
  (length (rest a) + length (rest b) < fuel)%nat ->
  exists result', follow_loop fuel a b result = Ok result' /\ follow_ok a b result result'.
Proof.
  revert a b result. induction fuel as [|fuel IH]; intros a b result Ha Hb Hp Hfit Hmax Hf; [lia|].
  rewrite follow_loop_S. destruct (follow_next a b) as [[[a' b'] o]|] eqn:E.
  - destruct (follow_next_ok _ _ _ _ _ Ha Hb Hfit E) as [Ef Hwf Ha' Hb' Hfit' Hsrc Hdec].
    assert (partial (add_opt result o) /\
      uops (cs_Ops (add_opt result o)) =
        uops (cs_Ops result) ++ match o with Some op => uop1 op | None => [] end /\
      cs_OldLen (add_opt result o) = cs_OldLen result) as (Hp' & Eu & Eo).
    { destruct o as [op|]; simpl; [|by rewrite app_nil_r]. apply addOpLen_spec; auto. lia. }
    destruct (IH a' b' (add_opt result o)) as (result' & -> & [Fu ???]); auto.
    + rewrite Eu. script_simpl. lia.
    + lia.
    + exists result'. split; [done|]. split; auto; [|congruence].
      by rewrite Fu, Eu, Ef, app_assoc.
  - destruct (follow_next_None _ _ Ha Hb Hfit E) as [Ra Rb]. destruct Hp.
    exists result. split; [done|]. split; auto. rewrite Ra, Rb. simpl.
    change (ufollow [] []) with (@nil uop). by rewrite app_nil_r.
Qed.

(** [Follow] returns, for two changesets of one document, the transformed
    script. *)
Lemma Follow_spec A B :
  wf_cs A -> wf_cs B -> cs_OldLen A = cs_OldLen B -> cs_NewLen A + cs_NewLen B <= MaxInt ->
  exists C, Follow A B = Ok C /\ wf_cs C /\ canonical (cs_Ops C) /\
    cs_OldLen C = cs_NewLen A /\ cs_NewLen C <= cs_NewLen A + inserted B /\
    inserted C = inserted B /\
    uops (cs_Ops C) = ufollow (atoms (cs_Ops A)) (atoms (cs_Ops B)).
Proof.
  intros WA WB Hfit Hmax. pose proof (cs_sized _ WA) as SA. pose proof (cs_sized _ WB) as SB.
  destruct WA as [HA Ao An AoM AnM], WB as [HB Bo Bn BoM BnM].
  pose proof (src_uops _ HA). pose proof (dst_uops _ HA).
  pose proof (src_uops _ HB). pose proof (dst_uops _ HB).
  assert (src (flat (atoms (cs_Ops A))) = src (flat (atoms (cs_Ops B)))) as Hs by (unfold uops in *; lia).
  pose proof (ufollow_src _ _ Hs) as Hs'. pose proof (ufollow_dst _ _ Hs) as Hd'.
  pose proof (ufollow_nput _ _ Hs) as Hp'.
  pose proof (dst_src_nput (ufollow (atoms (cs_Ops A)) (atoms (cs_Ops B)))) as Hb'.
  destruct (follow_loop_ok (follow_fuel A B) (newSlice (cs_Ops A)) (newSlice (cs_Ops B))
    (mkChangeset (cs_NewLen A) 0 [])) as (C & E & [Fu Fw Fc Fo Fn]);
    rewrite ?rest_new in * by done; auto using cur_ok_new.
  - by split.
  - simpl. change (src (uops [])) with 0%nat. unfold uops in *. lia.
  - rewrite ?rest_new in Fu by done. simpl in Fu. change (uops []) with (@nil uop) in Fu. simpl in *.
    exists C. pose proof (src_uops _ Fw). pose proof (dst_uops _ Fw). rewrite Fu in *.
    fold (uops (cs_Ops A)) in *. fold (uops (cs_Ops B)) in *.
    rewrite int64_id in Fn by (int_unfold; lia). unfold inserted. rewrite Fu.
    split; [done|]. split_and!; auto; [split|..]; auto; lia.
Qed.

(** The two orders agree. *)
Lemma Follow_convergence A B d :
  wf_cs A -> wf_cs B -> no_double_insert (cs_Ops A) -> no_double_insert (cs_Ops B) ->
  len d = cs_OldLen A -> len d = cs_OldLen B -> cs_NewLen A + cs_NewLen B <= MaxInt ->
  exists fAB fBA dA dB r,
    Follow A B = Ok fAB /\ Follow B A = Ok fBA /\
    ApplyChangeset d A = Ok dA /\ ApplyChangeset d B = Ok dB /\
    ApplyChangeset dA fAB = Ok r /\ ApplyChangeset dB fBA = Ok r.
Proof.
  intros WA WB NA NB LA LB Hmax.
  destruct (Follow_spec A B) as (fAB & EAB & WAB & _ & OAB & _ & _ & UAB); auto; [congruence|].
  destruct (Follow_spec B A) as (fBA & EBA & WBA & _ & OBA & _ & _ & UBA); auto; [congruence|lia|].
  pose proof (len_uapply A d WA (eq_sym LA)) as HA.
  pose proof (len_uapply B d WB (eq_sym LB)) as HB.
  exists fAB, fBA. do 3 eexists. split_and!; try done; try (apply ApplyChangeset_wf; auto; congruence).
  rewrite ApplyChangeset_wf by congruence. f_equal. rewrite UAB, UBA.
  symmetry. apply ufollow_converges.
  - pose proof (src_uops _ (wf_cs_ops _ WA)). pose proof (wf_cs_old _ WA). unfold uops, len in *. lia.
  - pose proof (src_uops _ (wf_cs_ops _ WB)). pose proof (wf_cs_old _ WB). unfold uops, len in *. lia.
  - apply separated_atoms; [apply WA|done].
  - apply separated_atoms; [apply WB|done].
Qed.

(** ** Theorems *)

(** C10: convergence.  Two concurrent changesets of one document, neither of
    which inserts twice at one place, can be applied in either order: first
    one and then the other rebased on it gives the same text, without errors
    or panics, whichever goes first. *)
Theorem Follow_converges A B d :
  wf_cs A -> wf_cs B -> no_double_insert (cs_Ops A) -> no_double_insert (cs_Ops B) ->
  len d = cs_OldLen A -> len d = cs_OldLen B -> cs_NewLen A + cs_NewLen B <= MaxInt ->
  exists fAB fBA dA dB r,
    Follow A B = Ok fAB /\ Follow B A = Ok fBA /\
    ApplyChangeset d A = Ok dA /\ ApplyChangeset d B = Ok dB /\
    ApplyChangeset dA fAB = Ok r /\ ApplyChangeset dB fBA = Ok r.
Proof. apply Follow_convergence. Qed.

(** Two changesets of a text of three bytes. *)
Definition wit_a : Changeset := mkChangeset 3 4 [Retain 1; Insert (str "xy"); Delete 1; Retain 1].
Definition wit_b : Changeset := mkChangeset 3 3 [Delete 1; Insert (str "q"); Retain 2].

Lemma Follow_converges_witness :
  exists fAB fBA dA dB r,
    Follow wit_a wit_b = Ok fAB /\ Follow wit_b wit_a = Ok fBA /\
    ApplyChangeset (str "abc") wit_a = Ok dA /\ ApplyChangeset (str "abc") wit_b = Ok dB /\
    ApplyChangeset dA fAB = Ok r /\ ApplyChangeset dB fBA = Ok r.
Proof.
  apply Follow_converges; try wf_by_compute; try reflexivity; try (vm_compute; discriminate);
    simpl; intuition congruence.
Defined.

(** C34: the rebased changeset is a well formed changeset of the other one's
    result, with no two neighbouring operations of one type, so it can be
    applied, validated, and rebased again. *)
Theorem Follow_wf A B :
  wf_cs A -> wf_cs B -> cs_OldLen A = cs_OldLen B -> cs_NewLen A + cs_NewLen B <= MaxInt ->
  exists C, Follow A B = Ok C /\ Validate C = Ok tt /\ cs_OldLen C = cs_NewLen A /\
    canonical (cs_Ops C) /\ no_double_insert (cs_Ops C).
Proof.
  intros WA WB Hfit Hmax. destruct (Follow_spec A B) as (C & E & WC & Hc & Ho & _); auto.
  exists C. auto 10 using wf_cs_Validate, canonical_no_double_insert.
Qed.

Lemma Follow_wf_witness :
  exists C, Follow wit_a wit_b = Ok C /\ Validate C = Ok tt /\ cs_OldLen C = cs_NewLen wit_a /\
    canonical (cs_Ops C) /\ no_double_insert (cs_Ops C).
Proof. apply Follow_wf; [wf_by_compute|wf_by_compute|reflexivity|vm_compute; discriminate]. Defined.

(** C35: the loop of [Follow] needs at most one turn per operation: with that
    many turns it either has returned or never will, for any two changesets,
    valid or not. *)
Theorem Follow_fuel_exact A B fuel :
  (forall o, In o (cs_Ops A ++ cs_Ops B) -> is_int (op_size o)) ->
  (follow_fuel A B <= fuel)%nat ->
  follow_loop fuel (newSlice (cs_Ops A)) (newSlice (cs_Ops B)) (mkChangeset (cs_NewLen A) 0 []) =
    Follow A B.
Proof.
  intros Hint Hf. unfold follow_fuel in Hf. apply follow_loop_enough; unfold left_ops, follow_fuel; simpl; try lia;
    apply cur_int_new; intros o Ho; apply Hint, in_app_iff; auto.
Qed.

Lemma Follow_fuel_exact_witness :
  follow_loop 100 (newSlice (cs_Ops wit_a)) (newSlice (cs_Ops wit_b)) (mkChangeset (cs_NewLen wit_a) 0 []) =
    Follow wit_a wit_b.
Proof.
  apply Follow_fuel_exact; [|vm_compute; lia].
  simpl. intros o H. repeat (destruct H as [<-|H]; [vm_compute; split; discriminate|]). destruct H.
Defined.

(** And on a zero length operation it never does: rebasing anything on
    the empty deletion [MakeDelete] builds for [count = 0] does not return,
    which is why only validated changesets may reach it. *)
Theorem Follow_zero_length_diverges n pos fuel :
  0 < pos -> pos < n -> n <= MaxInt ->
  follow_loop fuel (newSlice (cs_Ops (MakeDelete n pos 0))) (newSlice (cs_Ops (Identity n)))
    (mkChangeset n 0 []) = Diverge.
Proof.
  intros Hp Hn Hm. unfold MakeDelete, Identity.
  rewrite (proj2 (Z.ltb_lt 0 pos)), (proj2 (Z.eqb_neq n 0)) by lia. cbn [cs_Ops app].
  rewrite Z.sub_0_r, !(int64_id (n - pos)) by (int_unfold; lia). rewrite (proj2 (Z.ltb_lt 0 (n - pos))) by lia.
  set (a := [Retain pos; Delete 0; Retain (n - pos)]). cbn [app]. fold a.
  destruct fuel as [|fuel]; [done|]. rewrite follow_loop_S.
  assert (follow_next (newSlice a) (newSlice [Retain n]) =
    Some (mkSlice a 1 0, mkSlice [Retain n] 0 pos, Some (Retain pos))) as ->.
  { unfold follow_next, peek, trim; simpl. rewrite !Z.sub_0_r, !int64_id by (int_unfold; lia).
    rewrite (proj2 (Z.ltb_ge n pos)) by lia. do 3 f_equal.
    - unfold consume, consume_loop, op_size; simpl.
      rewrite (proj2 (Z.ltb_lt 0 pos)), Z.sub_0_r, !int64_id by (int_unfold; lia).
      by rewrite Z.leb_refl, Z.sub_diag.
    - unfold consume, consume_loop, op_size; simpl.
      rewrite (proj2 (Z.ltb_lt 0 pos)), Z.sub_0_r, !int64_id by (int_unfold; lia).
      by rewrite (proj2 (Z.leb_gt n pos)). }
  apply follow_stuck with None. unfold follow_next, peek, trim; simpl.
  rewrite !int64_id by (int_unfold; lia). rewrite (proj2 (Z.ltb_ge (n - pos) (0 - 0))) by lia.
  by rewrite !consume_nonpos.
Qed.

Lemma Follow_zero_length_diverges_witness :
  follow_loop 1000 (newSlice (cs_Ops (MakeDelete 3 1 0))) (newSlice (cs_Ops (Identity 3)))
    (mkChangeset 3 0 []) = Diverge.
Proof. apply (Follow_zero_length_diverges 3 1 1000); reflexivity || (vm_compute; discriminate). Defined.

Definition twice_xb : Changeset := mkChangeset 0 2 [Insert (str "x"); Insert (str "b")].
Definition twice_xa : Changeset := mkChangeset 0 2 [Insert (str "x"); Insert (str "a")].

(** What [Validate] accepts is not enough for convergence.  Two
    changesets that insert twice at one place, both accepted by [Validate],
    rebased on each other in the two orders give two different documents. *)
Theorem Validate_admits_divergence :
  Validate twice_xb = Ok tt /\ Validate twice_xa = Ok tt /\
  (let! f := Follow twice_xb twice_xa in Ok (ApplyChangeset (str "xb") f)) = Ok (Ok (str "xbxa")) /\
  (let! f := Follow twice_xa twice_xb in Ok (ApplyChangeset (str "xa") f)) = Ok (Ok (str "xaxb")).
Proof. by vm_compute. Qed.
