(* ===== verification/Utf8.v ===== *)
(** * Strings as sequences of runes

    The conversions [[]rune(s)] and [string(r)] that [internal/ot/diff.go]
    uses, as the Go language defines them: UTF-8, with an invalid byte read as
    the replacement rune U+FFFD and an invalid rune written as it. *)

From S2P Require Import Prelude.

Definition RuneError : Z := 65533.

Definition between (lo hi x : Z) : bool := (lo <=? x) && (x <=? hi).

(** A continuation byte. *)
Definition cont (b : Byte.byte) : bool := between 128 191 (byteZ b).

(** Least and greatest second byte after the first byte [x] of a sequence of
    two, three or four bytes. *)
Definition second (x : Z) (b : Byte.byte) : bool :=
  if x =? 224 then between 160 191 (byteZ b)
  else if x =? 237 then between 128 159 (byteZ b)
  else if x =? 240 then between 144 191 (byteZ b)
  else if x =? 244 then between 128 143 (byteZ b)
  else cont b.

(** The runes of a string; [None] is a byte that is not part of a valid
    sequence. *)
Fixpoint utf8_scan (s : bytes) : list (option Z) :=
  match s with
  | [] => []
  | b0 :: s1 =>
      let x := byteZ b0 in
      if x <? 128 then Some x :: utf8_scan s1
      else if between 194 223 x then
        match s1 with
        | b1 :: s2 =>
            if second x b1
            then Some ((x - 192) * 64 + (byteZ b1 - 128)) :: utf8_scan s2
            else None :: utf8_scan s1
        | [] => [None]
        end
      else if between 224 239 x then
        match s1 with
        | b1 :: b2 :: s3 =>
            if second x b1 && cont b2
            then Some ((x - 224) * 4096 + (byteZ b1 - 128) * 64 + (byteZ b2 - 128)) :: utf8_scan s3
            else None :: utf8_scan s1
        | _ => None :: utf8_scan s1
        end
      else if between 240 244 x then
        match s1 with
        | b1 :: b2 :: b3 :: s4 =>
            if second x b1 && cont b2 && cont b3
            then Some ((x - 240) * 262144 + (byteZ b1 - 128) * 4096 +
                       (byteZ b2 - 128) * 64 + (byteZ b3 - 128)) :: utf8_scan s4
            else None :: utf8_scan s1
        | _ => None :: utf8_scan s1
        end
      else None :: utf8_scan s1
  end.

(** [[]rune(s)]. *)
Definition to_runes (s : bytes) : list Z := map (default RuneError) (utf8_scan s).

(** A Unicode scalar value. *)
Definition scalar (r : Z) : bool := between 0 55295 r || between 57344 1114111 r.

(** [string(r)]. *)
Definition of_rune (r : Z) : bytes :=
  let r := if scalar r then r else RuneError in
  if r <? 128 then [Zbyte r]
  else if r <? 2048 then [Zbyte (192 + r / 64); Zbyte (128 + r mod 64)]
  else if r <? 65536 then
    [Zbyte (224 + r / 4096); Zbyte (128 + r / 64 mod 64); Zbyte (128 + r mod 64)]
  else
    [Zbyte (240 + r / 262144); Zbyte (128 + r / 4096 mod 64);
     Zbyte (128 + r / 64 mod 64); Zbyte (128 + r mod 64)].

Definition of_runes (rs : list Z) : bytes := mjoin (map of_rune rs).

(** Valid UTF-8: the encoding of a sequence of scalar values. *)
Definition utf8_valid (s : bytes) : Prop :=
  exists rs, Forall (fun r => scalar r = true) rs /\ s = of_runes rs.

Definition is_ascii (s : bytes) : bool := forallb (fun b => byteZ b <? 128) s.

(** * Lemmas *)

Lemma of_runes_cons r rs : of_runes (r :: rs) = of_rune r ++ of_runes rs.
Proof. done. Qed.

Lemma of_runes_app a b : of_runes (a ++ b) = of_runes a ++ of_runes b.
Proof. unfold of_runes. rewrite map_app. apply join_app. Qed.

Lemma len_of_rune r : 0 < len (of_rune r) <= 4.
Proof. unfold of_rune. repeat case_match; unfold len; simpl; lia. Qed.

(** The digits of a rune in base 64. *)
Lemma digits r :
  0 <= r ->
  r = 64 * (r / 64) + r mod 64 /\ 0 <= r mod 64 < 64 /\
  r / 64 = 64 * (r / 4096) + r / 64 mod 64 /\ 0 <= r / 64 mod 64 < 64 /\
  r / 4096 = 64 * (r / 262144) + r / 4096 mod 64 /\ 0 <= r / 4096 mod 64 < 64 /\
  0 <= r / 262144.
Proof.
  intros. replace (r / 4096) with (r / 64 / 64) by (rewrite Z.div_div; [f_equal|..]; lia).
  replace (r / 262144) with (r / 64 / 64 / 64) by (rewrite !Z.div_div; [f_equal|..]; lia).
  split_and!; try (by apply Z.mod_pos_bound); try (by apply Z.div_mod).
  repeat apply Z.div_pos; done.
Qed.

(** Decide the tests of [utf8_scan] on numbers, the innermost first. *)
Ltac decide_tests :=
  repeat match goal with
  | |- context [if ?c then _ else _] =>
      lazymatch c with
      | context [if _ then _ else _] => fail
      | _ => first [replace c with true by lia|replace c with false by lia|destruct c eqn:?];
             cbv iota
      end
  end.

(** Decoding undoes encoding. *)
Lemma utf8_scan_of_rune r s :
  scalar r = true -> utf8_scan (of_rune r ++ s) = Some r :: utf8_scan s.
Proof.
  intros Hr. unfold of_rune. rewrite Hr. unfold scalar, between in Hr.
  assert (0 <= r <= 55295 \/ 57344 <= r <= 1114111) as Hr' by lia. clear Hr. rename Hr' into Hr.
  destruct (digits r) as (D0 & ? & D1 & ? & D2 & ? & ?); [lia|].
  revert D0 D1 D2.
  generalize dependent (r mod 64). generalize dependent (r / 64 mod 64).
  generalize dependent (r / 4096 mod 64). generalize dependent (r / 262144).
  generalize dependent (r / 4096). generalize dependent (r / 64).
  intros q1 q2 q3 H3 d2 H2 d1 H1 d0 H0 D0 D1 D2. clear -Hr H0 H1 H2 H3 D0 D1 D2.
  destruct (Z.ltb_spec r 128); [|destruct (Z.ltb_spec r 2048); [|destruct (Z.ltb_spec r 65536)]];
    cbn [app utf8_scan]; unfold second, cont, between; rewrite ?byteZ_small by lia;
    decide_tests; do 2 f_equal; lia.
Qed.

Lemma to_runes_of_rune r s :
  scalar r = true -> to_runes (of_rune r ++ s) = r :: to_runes s.
Proof. intros Hr. unfold to_runes. by rewrite utf8_scan_of_rune. Qed.

Lemma to_runes_of_runes rs :
  Forall (fun r => scalar r = true) rs -> to_runes (of_runes rs) = rs.
Proof.
  induction 1 as [|r rs Hr _ IH]; [done|]. rewrite of_runes_cons, to_runes_of_rune by done.
  by f_equal.
Qed.

Lemma of_runes_to_runes s : utf8_valid s -> of_runes (to_runes s) = s.
Proof. intros (rs & Hrs & ->). by rewrite to_runes_of_runes. Qed.

Lemma scalar_iff r : scalar r = true <-> 0 <= r <= 55295 \/ 57344 <= r <= 1114111.
Proof. unfold scalar, between. lia. Qed.

(** What the decoder assembles from one to four bytes is a scalar value. *)
Lemma scalar_1 x : 0 <= x < 128 -> scalar x = true.
Proof. intros. apply scalar_iff. lia. Qed.

Lemma scalar_2 x b :
  between 194 223 x = true -> second x b = true -> scalar ((x - 192) * 64 + (byteZ b - 128)) = true.
Proof.
  unfold second, cont, between. intros ? Hb. apply scalar_iff.
  assert (128 <= byteZ b <= 191) by (repeat case_match; lia). lia.
Qed.

Lemma scalar_3 x b1 b2 :
  between 224 239 x = true -> second x b1 && cont b2 = true ->
  scalar ((x - 224) * 4096 + (byteZ b1 - 128) * 64 + (byteZ b2 - 128)) = true.
Proof.
  unfold second, cont, between. intros Hx [Hb1 Hb2]%andb_prop. apply scalar_iff.
  generalize dependent (byteZ b1). generalize dependent (byteZ b2). intros z2 Hz2 z1 Hz1.
  destruct (Z.eqb_spec x 224); [lia|]. destruct (Z.eqb_spec x 237); [lia|].
  destruct (Z.eqb_spec x 240); [lia|]. destruct (Z.eqb_spec x 244); lia.
Qed.

Lemma scalar_4 x b1 b2 b3 :
  between 240 244 x = true -> second x b1 && cont b2 && cont b3 = true ->
  scalar ((x - 240) * 262144 + (byteZ b1 - 128) * 4096 +
          (byteZ b2 - 128) * 64 + (byteZ b3 - 128)) = true.
Proof.
  unfold second, cont, between. intros Hx [[Hb1 Hb2]%andb_prop Hb3]%andb_prop. apply scalar_iff.
  generalize dependent (byteZ b1). generalize dependent (byteZ b2). generalize dependent (byteZ b3).
  intros z3 Hz3 z2 Hz2 z1 Hz1. right.
  destruct (Z.eqb_spec x 224); [lia|]. destruct (Z.eqb_spec x 237); [lia|].
  destruct (Z.eqb_spec x 240); [lia|]. destruct (Z.eqb_spec x 244); lia.
Qed.

(** Strong induction on the length of a string. *)
Lemma bytes_len_ind (P : bytes -> Prop) :
  (forall s, (forall t, (length t < length s)%nat -> P t) -> P s) -> forall s, P s.
Proof. intros H. induction s as [s IH] using (induction_ltof1 _ length). by apply H. Qed.

(** What is read is a scalar value. *)
Lemma utf8_scan_scalar s : Forall (from_option (fun r => scalar r = true) True) (utf8_scan s).
Proof.
  induction s as [[|b0 s1] IH] using bytes_len_ind; [constructor|]. cbn [utf8_scan].
  pose proof (byteZ_range b0).
  assert (Forall (from_option (fun r => scalar r = true) True) (utf8_scan s1)) as IH1 by (apply IH; simpl; lia).
  destruct (Z.ltb_spec (byteZ b0) 128); [constructor; [apply scalar_1; lia|done]|].
  destruct (between 194 223 (byteZ b0)) eqn:?.
  { destruct s1 as [|b1 s2]; [by repeat constructor|].
    destruct (second (byteZ b0) b1) eqn:?; constructor; try done; [by apply scalar_2|].
    apply IH; simpl; lia. }
  destruct (between 224 239 (byteZ b0)) eqn:?.
  { destruct s1 as [|b1 [|b2 s3]]; [by constructor..|].
    destruct (second (byteZ b0) b1 && cont b2) eqn:?; constructor; try done; [by apply scalar_3|].
    apply IH; simpl; lia. }
  destruct (between 240 244 (byteZ b0)) eqn:?; [|by constructor].
  destruct s1 as [|b1 [|b2 [|b3 s4]]]; [by constructor..|].
  destruct (second (byteZ b0) b1 && cont b2 && cont b3) eqn:?; constructor; try done; [by apply scalar_4|].
  apply IH; simpl; lia.
Qed.

(** ** ASCII *)

Lemma of_rune_ascii r : scalar r = true -> r < 128 -> of_rune r = [Zbyte r].
Proof. intros Hr Hlt. unfold of_rune. rewrite Hr. by rewrite (proj2 (Z.ltb_lt _ _)). Qed.

Lemma is_ascii_app s t : is_ascii (s ++ t) = is_ascii s && is_ascii t.
Proof. apply forallb_app. Qed.

Lemma is_ascii_cons b s : is_ascii (b :: s) = (byteZ b <? 128) && is_ascii s.
Proof. done. Qed.

Lemma is_ascii_drop n s : is_ascii s = true -> is_ascii (drop n s) = true.
Proof. rewrite <-(take_drop n s) at 1. rewrite is_ascii_app. by intros [_ ?]%andb_prop. Qed.

Lemma is_ascii_take n s : is_ascii s = true -> is_ascii (take n s) = true.
Proof. rewrite <-(take_drop n s) at 1. rewrite is_ascii_app. by intros [? _]%andb_prop. Qed.

(** Each byte is a character. *)
Lemma of_runes_ascii s : is_ascii s = true -> of_runes (map byteZ s) = s.
Proof.
  induction s as [|b s IH]; [done|]. rewrite is_ascii_cons. intros [Hb Hs]%andb_prop. cbn [map].
  pose proof (byteZ_range b). rewrite of_runes_cons, IH by done.
  rewrite of_rune_ascii by (first [apply scalar_1; lia|lia]). by rewrite Zbyte_byteZ.
Qed.

Lemma scalars_ascii s : is_ascii s = true -> Forall (fun r => scalar r = true) (map byteZ s).
Proof.
  induction s as [|b s IH]; [done|]. rewrite is_ascii_cons. intros [Hb Hs]%andb_prop. cbn [map].
  pose proof (byteZ_range b). constructor; [apply scalar_1; lia|by apply IH].
Qed.

Lemma to_runes_ascii s : is_ascii s = true -> to_runes s = map byteZ s.
Proof. intros H. rewrite <-(of_runes_ascii s H) at 1. by apply to_runes_of_runes, scalars_ascii. Qed.

Lemma ascii_utf8 s : is_ascii s = true -> utf8_valid s.
Proof. intros H. exists (map byteZ s). split; [by apply scalars_ascii|by rewrite of_runes_ascii]. Qed.
