(* ===== verification/Diff.v ===== *)
(** * Difference of two texts ([internal/ot/diff.go])

    [DiffToChangeset] works on runes: a table of longest common subsequences,
    a walk back through it that records segments, and the changeset built from
    the segments.  The changeset counts bytes. *)

From S2P Require Import Prelude Edit Changeset Apply Cursor Follow Utf8.

(** ** Code *)

(** [dp[i][j]] read and written; the indices of the code are in range
    ([dims]). *)
Definition dp_get (dp : list (list Z)) (i j : nat) : Z :=
  default 0 (dp !! i ≫= fun row => row !! j).

Definition dp_set (dp : list (list Z)) (i j : nat) (v : Z) : list (list Z) :=
  alter (fun row => <[j := v]> row) i dp.

Definition rune_at (s : list Z) (i : nat) : Z := default 0 (s !! i).

(** The body of the two loops that fill the table. *)
Definition dp_cell (old nw : list Z) (dp : list (list Z)) (i j : nat) : list (list Z) :=
  if rune_at old (i - 1) =? rune_at nw (j - 1)
  then dp_set dp i j (dp_get dp (i - 1) (j - 1) + 1)
  else if dp_get dp i (j - 1) <? dp_get dp (i - 1) j
  then dp_set dp i j (dp_get dp (i - 1) j)
  else dp_set dp i j (dp_get dp i (j - 1)).

Definition dp_row (old nw : list Z) (dp : list (list Z)) (i : nat) : list (list Z) :=
  foldl (fun dp j => dp_cell old nw dp i j) dp (seq 1 (length nw)).

Definition dp_table (old nw : list Z) : list (list Z) :=
  foldl (dp_row old nw) (replicate (length old + 1) (replicate (length nw + 1) 0))
    (seq 1 (length old)).

(** Segments: the kinds are the runes '=', '+' and '-'. *)
Inductive segKind : Type := SegSame | SegNew | SegOld.

Definition seg : Type := segKind * Z.

(** The walk back; every turn lowers [i] or [j]. *)
Fixpoint backtrack (fuel : nat) (old nw : list Z) (dp : list (list Z)) (i j : nat)
    (segs : list seg) : list seg :=
  match fuel with
  | O => segs
  | S fuel =>
      if (0 <? i)%nat || (0 <? j)%nat then
        if (0 <? i)%nat && (0 <? j)%nat && (rune_at old (i - 1) =? rune_at nw (j - 1))
        then backtrack fuel old nw dp (i - 1) (j - 1) (segs ++ [(SegSame, rune_at old (i - 1))])
        else if (0 <? j)%nat && ((i =? 0)%nat || (dp_get dp (i - 1) j <=? dp_get dp i (j - 1)))
        then backtrack fuel old nw dp i (j - 1) (segs ++ [(SegNew, rune_at nw (j - 1))])
        else backtrack fuel old nw dp (i - 1) j (segs ++ [(SegOld, rune_at old (i - 1))])
      else segs
  end.

(** [for l, r := 0, len(segs)-1; l < r; l, r = l+1, r-1] swapping in place. *)
Fixpoint reverse_loop (fuel l r : nat) (segs : list seg) : list seg :=
  match fuel with
  | O => segs
  | S fuel =>
      if (l <? r)%nat then
        match segs !! l, segs !! r with
        | Some x, Some y => reverse_loop fuel (l + 1) (r - 1) (<[r := x]> (<[l := y]> segs))
        | _, _ => segs
        end
      else segs
  end.

Definition seg_op (s : seg) : Op :=
  match s with
  | (SegSame, r) => Retain (len (of_rune r))
  | (SegNew, r) => Insert (of_rune r)
  | (SegOld, r) => Delete (len (of_rune r))
  end.

Definition diff_segs (old nw : list Z) : list seg :=
  let n := length old in
  let m := length nw in
  let segs := backtrack (n + m) old nw (dp_table old nw) n m [] in
  reverse_loop (length segs) 0 (length segs - 1) segs.

Definition DiffToChangeset (oldText newText : bytes) : Changeset :=
  let segs := diff_segs (to_runes oldText) (to_runes newText) in
  mkChangeset (len oldText) (len newText) (foldl (fun ops s => addOp ops (seg_op s)) [] segs).

(** * Lemmas *)

(** ** Reversal *)

Lemma reverse_loop_rev fuel pre mid post :
  (length mid <= fuel)%nat ->
  reverse_loop fuel (length pre) (length pre + length mid - 1) (pre ++ mid ++ post) =
    pre ++ rev mid ++ post.
Proof.
  revert pre mid post. induction fuel as [|fuel IH]; intros pre mid post Hf.
  { by destruct mid; simpl in *; [|lia]. }
  simpl. destruct (Nat.ltb_spec (length pre) (length pre + length mid - 1)) as [Hlt|Hge].
  - destruct mid as [|x mid]; simpl in *; [lia|].
    destruct mid as [|y mid _] using rev_ind; simpl in *; [lia|].
    rewrite length_app in *; simpl in *.
    rewrite (lookup_app_r pre), Nat.sub_diag by lia. simpl.
    rewrite (lookup_app_r pre) by lia.
    replace (length pre + S (length mid + 1) - 1 - length pre)%nat with (S (length mid + 0)) by lia.
    simpl. rewrite <-app_assoc, lookup_app_r, Nat.add_0_r, Nat.sub_diag by lia. simpl.
    rewrite insert_app_r_alt, Nat.sub_diag by lia. simpl.
    rewrite insert_app_r_alt by lia.
    replace (length pre + S (length mid + 1) - 1 - length pre)%nat with (S (length mid + 0)) by lia.
    simpl. rewrite insert_app_r. simpl.
    specialize (IH (pre ++ [y]) mid (x :: post)). rewrite length_app in IH; simpl in IH.
    replace (length pre + S (length mid + 1) - 1 - 1)%nat with (length pre + 1 + length mid - 1)%nat by lia.
    rewrite <-!app_assoc in IH. simpl in IH. rewrite IH by lia.
    rewrite rev_app_distr. simpl. by rewrite <-!app_assoc.
  - by destruct mid as [|x [|y mid]]; simpl in *; [..|lia].
Qed.

Lemma reverse_all (segs : list seg) :
  reverse_loop (length segs) 0 (length segs - 1) segs = rev segs.
Proof.
  pose proof (reverse_loop_rev (length segs) [] segs []) as H. simpl in H.
  rewrite !app_nil_r in H. by apply H.
Qed.

(** ** The segments spell both texts *)

(** The old and the new runes of a list of segments, and the runes kept. *)
Fixpoint seg_old (segs : list seg) : list Z :=
  match segs with
  | [] => []
  | (SegNew, _) :: segs => seg_old segs
  | (_, r) :: segs => r :: seg_old segs
  end.

Fixpoint seg_new (segs : list seg) : list Z :=
  match segs with
  | [] => []
  | (SegOld, _) :: segs => seg_new segs
  | (_, r) :: segs => r :: seg_new segs
  end.

Fixpoint seg_kept (segs : list seg) : nat :=
  match segs with
  | [] => 0
  | (SegSame, _) :: segs => S (seg_kept segs)
  | _ :: segs => seg_kept segs
  end.

Lemma seg_old_app a b : seg_old (a ++ b) = seg_old a ++ seg_old b.
Proof. induction a as [|[[] ?]]; simpl; congruence. Qed.
Lemma seg_new_app a b : seg_new (a ++ b) = seg_new a ++ seg_new b.
Proof. induction a as [|[[] ?]]; simpl; congruence. Qed.
Lemma seg_kept_app a b : seg_kept (a ++ b) = (seg_kept a + seg_kept b)%nat.
Proof. induction a as [|[[] ?]]; simpl; congruence. Qed.

Lemma take_rune s i : (0 < i <= length s)%nat -> take i s = take (i - 1) s ++ [rune_at s (i - 1)].
Proof.
  intros Hi. unfold rune_at. destruct (lookup_lt_is_Some_2 s (i - 1)) as [x Hx]; [lia|].
  rewrite Hx. replace i with (S (i - 1)) at 1 by lia. by apply take_S_r.
Qed.

(** What the walk has still to record, whatever the table says. *)
Lemma backtrack_spells fuel old nw dp i j segs :
  (i <= length old)%nat -> (j <= length nw)%nat -> (i + j <= fuel)%nat ->
  exists more, backtrack fuel old nw dp i j segs = segs ++ more /\
    seg_old (rev more) = take i old /\ seg_new (rev more) = take j nw.
Proof.
  revert i j segs. induction fuel as [|fuel IH]; intros i j segs Hi Hj Hf; simpl.
  { exists []. rewrite app_nil_r. by replace i with 0%nat by lia; replace j with 0%nat by lia. }
  assert (forall i' j' x, (i' <= length old)%nat -> (j' <= length nw)%nat -> (i' + j' <= fuel)%nat ->
    take i old = take i' old ++ seg_old [x] -> take j nw = take j' nw ++ seg_new [x] ->
    exists more, backtrack fuel old nw dp i' j' (segs ++ [x]) = segs ++ more /\
      seg_old (rev more) = take i old /\ seg_new (rev more) = take j nw) as Hgo.
  { intros i' j' x Hi' Hj' Hf' -> ->.
    destruct (IH i' j' (segs ++ [x])) as (more & -> & Eo & En); [lia..|].
    exists (x :: more). rewrite <-app_assoc. split; [done|].
    simpl. by rewrite seg_old_app, seg_new_app, Eo, En. }
  clear IH.
  destruct (Nat.ltb_spec 0 i), (Nat.ltb_spec 0 j); cbn [orb andb].
  - destruct (Z.eqb_spec (rune_at old (i - 1)) (rune_at nw (j - 1))) as [He|He].
    + apply Hgo; try lia; simpl; [by apply take_rune|rewrite He; by apply take_rune].
    + case_match; apply Hgo; try lia; simpl; rewrite ?app_nil_r; auto using take_rune.
  - apply Hgo; try lia; simpl; rewrite ?app_nil_r; auto using take_rune.
  - rewrite (proj2 (Nat.eqb_eq i 0)) by lia. cbn [orb].
    apply Hgo; try lia; simpl; rewrite ?app_nil_r; auto using take_rune.
  - exists []. rewrite app_nil_r. by replace i with 0%nat by lia; replace j with 0%nat by lia.
Qed.

Lemma diff_segs_spell old nw :
  seg_old (diff_segs old nw) = old /\ seg_new (diff_segs old nw) = nw.
Proof.
  unfold diff_segs. rewrite reverse_all.
  destruct (backtrack_spells (length old + length nw) old nw (dp_table old nw)
    (length old) (length nw) []) as (more & -> & Ho & Hn); [lia..|].
  simpl. rewrite Ho, Hn. by rewrite !firstn_all.
Qed.

(** ** The changeset built from segments *)

Definition segs_script (segs : list seg) : script := mjoin (map (fun s => uop1 (seg_op s)) segs).

Lemma seg_op_wf s : wf_op (seg_op s).
Proof.
  destruct s as [k r]. pose proof (len_of_rune r) as H. destruct k; unfold wf_op; simpl; [lia| |lia].
  intros E. change (of_rune r = []) in E. rewrite E in H. unfold len in H. simpl in H. lia.
Qed.

Lemma segs_script_src segs : Z.of_nat (src (segs_script segs)) = len (of_runes (seg_old segs)).
Proof.
  induction segs as [|[[] r] segs IH]; [done|..]; unfold segs_script in *; simpl;
    rewrite uop1_alt; simpl; script_simpl; rewrite ?of_runes_cons, ?to_nat_len; autorewrite with len;
    unfold len in *; lia.
Qed.

Lemma segs_script_apply segs :
  uapply (segs_script segs) (of_runes (seg_old segs)) = of_runes (seg_new segs).
Proof.
  induction segs as [|[[] r] segs IH]; [done|..]; unfold segs_script in *; simpl;
    rewrite uop1_alt; simpl; rewrite ?of_runes_cons, ?to_nat_len.
  - rewrite uapply_keeps. by f_equal.
  - rewrite uapply_puts. by f_equal.
  - by rewrite uapply_drops.
Qed.

Lemma segs_ops ops segs :
  wf_ops ops -> canonical ops -> Z.of_nat (src (uops ops) + src (segs_script segs)) <= MaxInt ->
  let ops' := foldl (fun ops s => addOp ops (seg_op s)) ops segs in
  uops ops' = uops ops ++ segs_script segs /\ wf_ops ops' /\ canonical ops'.
Proof.
  revert ops. induction segs as [|s segs IH]; intros ops Hwf Hc Hm; simpl.
  { by rewrite app_nil_r. }
  unfold segs_script in *. simpl in *. script_simpl.
  destruct (addOp_spec ops (seg_op s)) as (E & Hwf' & Hc'); auto using seg_op_wf; [lia|].
  destruct (IH (addOp ops (seg_op s))) as (E' & ? & ?); auto.
  { rewrite E. script_simpl. lia. }
  by rewrite E', E, app_assoc.
Qed.

(** The ops of the difference turn the decoded old text into the decoded new
    one. *)
Lemma Diff_ops oldText newText :
  len (of_runes (to_runes oldText)) <= MaxInt ->
  let c := DiffToChangeset oldText newText in
  wf_ops (cs_Ops c) /\ canonical (cs_Ops c) /\
  ops_src (cs_Ops c) = len (of_runes (to_runes oldText)) /\
  ops_dst (cs_Ops c) = len (of_runes (to_runes newText)) /\
  uapply (uops (cs_Ops c)) (of_runes (to_runes oldText)) = of_runes (to_runes newText).
Proof.
  intros Hm c. unfold c, DiffToChangeset. simpl.
  destruct (diff_segs_spell (to_runes oldText) (to_runes newText)) as [Ho Hn].
  set (segs := diff_segs (to_runes oldText) (to_runes newText)) in *.
  pose proof (segs_script_src segs) as Hs. pose proof (segs_script_apply segs) as Ha.
  rewrite Ho in *. rewrite Hn in Ha.
  destruct (segs_ops [] segs) as (Eu & Hwf & Hc); [done..| |].
  { change (src (uops [])) with 0%nat. lia. }
  change (uops []) with (@nil uop) in Eu. rewrite app_nil_l in Eu. rewrite <-Eu in *.
  pose proof (src_uops _ Hwf). pose proof (dst_uops _ Hwf).
  split_and!; auto; [lia|].
  rewrite <-Ha. unfold len in *. rewrite uapply_length by lia. lia.
Qed.

Lemma Diff_wf oldText newText :
  utf8_valid oldText -> utf8_valid newText -> len oldText <= MaxInt -> len newText <= MaxInt ->
  let c := DiffToChangeset oldText newText in
  wf_cs c /\ canonical (cs_Ops c) /\ ApplyChangeset oldText c = Ok newText.
Proof.
  intros Vo Vn Mo Mn c. destruct (Diff_ops oldText newText) as (Hwf & Hc & Hs & Hd & Ha);
    rewrite ?(of_runes_to_runes _ Vo), ?(of_runes_to_runes _ Vn) in *; auto. fold c in Hwf, Hc, Hs, Hd, Ha.
  assert (wf_cs c) as WC by (split; auto).
  split_and!; auto. rewrite ApplyChangeset_wf by done. by rewrite Ha.
Qed.

(** ** The table holds longest common subsequences *)

(** Length of a longest common subsequence: the reference definition. *)
Fixpoint lcs (a : list Z) : list Z -> nat :=
  fix go (b : list Z) : nat :=
    match a, b with
    | x :: a', y :: b' => if x =? y then S (lcs a' b') else Nat.max (lcs a' b) (go b')
    | _, _ => 0%nat
    end.

#[global] Arguments lcs : simpl never.

Lemma lcs_cons x y a b :
  lcs (x :: a) (y :: b) =
    if x =? y then S (lcs a b) else Nat.max (lcs a (y :: b)) (lcs (x :: a) b).
Proof. done. Qed.
Lemma lcs_nil_l b : lcs [] b = 0%nat.
Proof. by destruct b. Qed.
Lemma lcs_nil_r a : lcs a [] = 0%nat.
Proof. by destruct a. Qed.

(** One more rune on one side adds at most one. *)
Lemma lcs_step a b :
  (forall x, lcs a b <= lcs (x :: a) b <= S (lcs a b))%nat /\
  (forall y, lcs a b <= lcs a (y :: b) <= S (lcs a b))%nat.
Proof.
  revert b. induction a as [|x' a IHa]; intros b; induction b as [|y' b IHb].
  - split; intros; rewrite ?lcs_nil_l, ?lcs_nil_r; lia.
  - destruct IHb as [IH1 IH2]. split; intros z.
    + specialize (IH1 z). rewrite lcs_cons, ?lcs_nil_l in *.
      case_match; lia.
    + rewrite !lcs_nil_l. lia.
  - destruct (IHa []) as [IH1 IH2]. split; intros z.
    + rewrite !lcs_nil_r. lia.
    + specialize (IH2 z). rewrite lcs_cons, ?lcs_nil_r in *.
      case_match; lia.
  - destruct IHb as [B1 B2]. destruct (IHa b) as [A1 A2]. destruct (IHa (y' :: b)) as [C1 C2].
    pose proof (lcs_cons x' y' a b) as E.
    split; intros z.
    + rewrite (lcs_cons z y' (x' :: a) b).
      specialize (B1 z). pose proof (B2 y'). pose proof (A2 y'). specialize (C1 x'). pose proof (A1 x').
      destruct (x' =? y'), (z =? y'); lia.
    + rewrite (lcs_cons x' z a (y' :: b)).
      specialize (C2 z). pose proof (C1 x'). pose proof (A1 x'). pose proof (A2 y'). specialize (B2 y').
      destruct (x' =? y'), (x' =? z); lia.
Qed.

(** No alignment of two texts keeps more runes. *)
Lemma seg_kept_lcs segs : (seg_kept segs <= lcs (seg_old segs) (seg_new segs))%nat.
Proof.
  induction segs as [|[[] r] segs IH]; simpl; [lia|..].
  - rewrite lcs_cons, Z.eqb_refl. lia.
  - pose proof (proj2 (lcs_step (seg_old segs) (seg_new segs)) r). lia.
  - pose proof (proj1 (lcs_step (seg_old segs) (seg_new segs)) r). lia.
Qed.

(** The table keeps its dimensions, so every access of the code is in range. *)
Definition dims (n m : nat) (dp : list (list Z)) : Prop :=
  length dp = S n /\ forall row, In row dp -> length row = S m.

Lemma dims_init n m : dims n m (replicate (n + 1) (replicate (m + 1) 0)).
Proof.
  split; [rewrite length_replicate; lia|].
  intros row Hr%list_elem_of_In%elem_of_replicate_inv. subst. rewrite length_replicate. lia.
Qed.

Lemma dims_set n m dp i j v : dims n m dp -> dims n m (dp_set dp i j v).
Proof.
  intros [Hl Hr]. unfold dp_set. split; [by rewrite length_alter|].
  intros row (k & Hk)%list_elem_of_In%list_elem_of_lookup.
  rewrite list_lookup_alter in Hk. case_decide.
  - apply fmap_Some in Hk as (row' & Hk & ->). rewrite length_insert.
    eapply Hr, list_elem_of_In, list_elem_of_lookup_2; eauto.
  - eapply Hr, list_elem_of_In, list_elem_of_lookup_2; eauto.
Qed.

Lemma dp_get_set n m dp i j v i' j' :
  dims n m dp -> (i <= n)%nat -> (j <= m)%nat ->
  dp_get (dp_set dp i j v) i' j' =
    if decide (i = i' /\ j = j') then v else dp_get dp i' j'.
Proof.
  intros [Hl Hr] Hi Hj. unfold dp_get, dp_set. rewrite list_lookup_alter.
  destruct (lookup_lt_is_Some_2 dp i) as [row Hrow]; [lia|].
  assert (length row = S m) as Hm by (apply Hr, list_elem_of_In, (list_elem_of_lookup_2 _ i); done).
  case_decide as E1; case_decide as E2.
  - destruct E2 as [-> ->]. rewrite Hrow. simpl. by rewrite list_lookup_insert_eq by lia.
  - subst i'. rewrite Hrow. simpl. rewrite list_lookup_insert_ne; [done|]. intros ->. tauto.
  - tauto.
  - done.
Qed.

Section table.
Context (old nw : list Z).
Let n := length old.
Let m := length nw.

(** What cell [i][j] should hold. *)
Definition cell (i j : nat) : Z := Z.of_nat (lcs (rev (take i old)) (rev (take j nw))).

Lemma rev_take_rune s i :
  (0 < i <= length s)%nat -> rev (take i s) = rune_at s (i - 1) :: rev (take (i - 1) s).
Proof. intros. rewrite (take_rune s i) by done. by rewrite rev_app_distr. Qed.

Lemma cell_0_l j : cell 0 j = 0.
Proof. unfold cell. simpl. by rewrite lcs_nil_l. Qed.
Lemma cell_0_r i : cell i 0 = 0.
Proof. unfold cell. simpl. by rewrite lcs_nil_r. Qed.

Lemma cell_rec i j :
  (0 < i <= n)%nat -> (0 < j <= m)%nat ->
  cell i j = if rune_at old (i - 1) =? rune_at nw (j - 1) then cell (i - 1) (j - 1) + 1
             else Z.max (cell (i - 1) j) (cell i (j - 1)).
Proof.
  intros Hi Hj. unfold cell.
  rewrite (rev_take_rune old i), (rev_take_rune nw j), lcs_cons by done.
  case_match; lia.
Qed.

(** Rows before [i], and row [i] up to column [j], are filled in. *)
Definition filled (dp : list (list Z)) (i j : nat) : Prop :=
  dims n m dp /\ (forall i', dp_get dp i' 0 = 0) /\
  forall i' j', (i' <= n)%nat -> (j' <= m)%nat -> (i' < i \/ (i' = i /\ j' <= j))%nat ->
    dp_get dp i' j' = cell i' j'.

Lemma filled_cell dp i j :
  (0 < i <= n)%nat -> (0 < j <= m)%nat ->
  filled dp i (j - 1) -> filled (dp_cell old nw dp i j) i j.
Proof.
  intros Hi Hj (Hd & H0 & Hf).
  assert (dp_cell old nw dp i j = dp_set dp i j (cell i j)) as ->.
  { unfold dp_cell. rewrite !Hf, (cell_rec i j) by (lia || done).
    case_match; [done|]. case_match; f_equal; lia. }
  split; [by apply dims_set|]. split.
  - intros i'. rewrite (dp_get_set n m) by (lia || done). case_decide; [lia|done].
  - intros i' j' Hi' Hj' Hlt. rewrite (dp_get_set n m) by (lia || done).
    case_decide as E; [by destruct E as [-> ->]|]. apply Hf; lia.
Qed.

Lemma filled_row dp i :
  (0 < i <= n)%nat -> filled dp (i - 1) m -> filled (dp_row old nw dp i) i m.
Proof.
  intros Hi (Hd & H0 & Hf). unfold dp_row. fold m.
  assert (forall k, (k <= m)%nat ->
    filled (foldl (fun dp j => dp_cell old nw dp i j) dp (seq 1 k)) i k) as H; [|by apply H].
  induction k as [|k IH]; intros Hk.
  - split_and!; auto. intros i' j' ?? [?|[-> ?]]; [apply Hf; lia|].
    replace j' with 0%nat by lia. by rewrite H0, cell_0_r.
  - rewrite seq_S, foldl_app. simpl. apply filled_cell; [done|lia|].
    replace (S k - 1)%nat with k by lia. apply IH. lia.
Qed.

Lemma filled_table : filled (dp_table old nw) n m.
Proof.
  unfold dp_table. fold n m.
  assert (forall k, (k <= n)%nat ->
    filled (foldl (dp_row old nw) (replicate (n + 1) (replicate (m + 1) 0)) (seq 1 k)) k m)
    as H; [|by apply H].
  assert (forall i j, dp_get (replicate (n + 1) (replicate (m + 1) 0)) i j = 0) as Hz.
  { intros i j. unfold dp_get. destruct (_ !! i) as [row|] eqn:E; simpl; [|done].
    apply lookup_replicate in E as [-> _].
    destruct (_ !! j) eqn:E; simpl; [|done]. by apply lookup_replicate in E as [-> _]. }
  induction k as [|k IH]; intros Hk.
  - split_and!; auto using dims_init. intros i' j' ?? Hi.
    replace i' with 0%nat by lia. by rewrite Hz, cell_0_l.
  - rewrite seq_S, foldl_app. simpl. apply filled_row; [lia|].
    replace (S k - 1)%nat with k by lia. apply IH. lia.
Qed.

(** The walk back keeps as many runes as the table promises. *)
Lemma backtrack_kept fuel i j segs :
  (i <= n)%nat -> (j <= m)%nat -> (i + j <= fuel)%nat ->
  Z.of_nat (seg_kept (backtrack fuel old nw (dp_table old nw) i j segs)) =
    Z.of_nat (seg_kept segs) + cell i j.
Proof.
  destruct filled_table as (_ & _ & Hf).
  revert i j segs. induction fuel as [|fuel IH]; intros i j segs Hi Hj Hfu; simpl.
  { replace i with 0%nat by lia. rewrite cell_0_l. lia. }
  destruct (Nat.ltb_spec 0 i), (Nat.ltb_spec 0 j); cbn [orb andb].
  - rewrite (cell_rec i j) by lia.
    destruct (Z.eqb_spec (rune_at old (i - 1)) (rune_at nw (j - 1))) as [He|He].
    + rewrite IH, seg_kept_app by lia. simpl. lia.
    + rewrite !Hf by lia. rewrite (proj2 (Nat.eqb_neq i 0)) by lia. cbn [orb].
      destruct (Z.leb_spec (cell (i - 1) j) (cell i (j - 1)));
        rewrite IH, seg_kept_app by lia; simpl; lia.
  - replace j with 0%nat by lia. rewrite IH, seg_kept_app, !cell_0_r by lia. simpl. lia.
  - replace i with 0%nat by lia. cbn [Nat.eqb orb].
    rewrite IH, seg_kept_app, !cell_0_l by lia. simpl. lia.
  - replace i with 0%nat by lia. rewrite cell_0_l. lia.
Qed.
End table.

Lemma seg_kept_rev segs : seg_kept (rev segs) = seg_kept segs.
Proof.
  induction segs as [|[[] r] segs IH]; simpl; rewrite ?seg_kept_app; simpl; [done|lia..].
Qed.

Lemma seg_old_rev segs : seg_old (rev segs) = rev (seg_old segs).
Proof. induction segs as [|[[] r] segs IH]; simpl; rewrite ?seg_old_app, ?IH; simpl; rewrite ?app_nil_r; done. Qed.
Lemma seg_new_rev segs : seg_new (rev segs) = rev (seg_new segs).
Proof. induction segs as [|[[] r] segs IH]; simpl; rewrite ?seg_new_app, ?IH; simpl; rewrite ?app_nil_r; done. Qed.

(** ** Theorems *)

(** C31: for valid UTF-8 the difference of two texts is a well formed
    changeset, with no two neighbouring operations of one type, that turns
    the first text into the second. *)
Theorem Diff_correct oldText newText :
  utf8_valid oldText -> utf8_valid newText -> len oldText <= MaxInt -> len newText <= MaxInt ->
  let c := DiffToChangeset oldText newText in
  Validate c = Ok tt /\ canonical (cs_Ops c) /\ ApplyChangeset oldText c = Ok newText.
Proof.
  intros Vo Vn Mo Mn c. destruct (Diff_wf oldText newText Vo Vn Mo Mn) as (W & Hc & Ha).
  auto using wf_cs_Validate.
Qed.

(** ASCII texts are valid UTF-8. *)
Ltac utf8_by_compute :=
  match goal with
  | |- utf8_valid ?s => exists (to_runes s); split; [apply (bool_decide_unpack _); vm_compute; exact I|vm_compute; reflexivity]
  end.

Lemma Diff_correct_witness :
  let c := DiffToChangeset (str "kitten") (str "sitting") in
  Validate c = Ok tt /\ canonical (cs_Ops c) /\ ApplyChangeset (str "kitten") c = Ok (str "sitting").
Proof.
  refine (Diff_correct (str "kitten") (str "sitting") _ _ _ _);
    [utf8_by_compute|utf8_by_compute|vm_compute; discriminate|vm_compute; discriminate].
Defined.

(** The difference is minimal: among all ways of writing the two rune
    sequences as kept, new and old segments, none keeps more runes. *)
Theorem Diff_minimal old nw segs :
  seg_old segs = old -> seg_new segs = nw -> (seg_kept segs <= seg_kept (diff_segs old nw))%nat.
Proof.
  intros <- <-. rewrite <-seg_kept_rev. etrans; [apply seg_kept_lcs|].
  unfold diff_segs. rewrite reverse_all, seg_kept_rev.
  pose proof (backtrack_kept (seg_old segs) (seg_new segs)
    (length (seg_old segs) + length (seg_new segs)) (length (seg_old segs)) (length (seg_new segs)) [])
    as H. unfold cell in H. rewrite !firstn_all in H.
  rewrite seg_old_rev, seg_new_rev. simpl in H. lia.
Qed.

Lemma Diff_minimal_witness :
  (seg_kept [(SegOld, 107%Z); (SegSame, 105%Z); (SegNew, 120%Z); (SegSame, 116%Z)] <=
   seg_kept (diff_segs [107%Z; 105%Z; 116%Z] [105%Z; 120%Z; 116%Z]))%nat.
Proof. apply Diff_minimal; reflexivity. Defined.

(** The property of the repository's fuzz test of [Follow], for all
    inputs: the changesets computed from one document and two targets
    converge. *)
Theorem Diff_Follow_converges doc targetA targetB :
  utf8_valid doc -> utf8_valid targetA -> utf8_valid targetB ->
  len doc <= MaxInt -> len targetA + len targetB <= MaxInt ->
  let A := DiffToChangeset doc targetA in
  let B := DiffToChangeset doc targetB in
  exists fAB fBA r,
    Follow A B = Ok fAB /\ Follow B A = Ok fBA /\
    ApplyChangeset targetA fAB = Ok r /\ ApplyChangeset targetB fBA = Ok r.
Proof.
  intros Vd Va Vb Md Mab A B. pose proof (len_nonneg targetA). pose proof (len_nonneg targetB).
  destruct (Diff_wf doc targetA) as (WA & CA & EA); [done..|lia|].
  destruct (Diff_wf doc targetB) as (WB & CB & EB); [done..|lia|].
  destruct (Follow_convergence A B doc) as (fAB & fBA & dA & dB & r & ?&?& E1 & E2 &?&?);
    auto using canonical_no_double_insert.
  fold A in EA. fold B in EB. rewrite EA in E1. rewrite EB in E2. injection E1 as <-. injection E2 as <-.
  by exists fAB, fBA, r.
Qed.

Lemma Diff_Follow_converges_witness :
  let A := DiffToChangeset (str "kitten") (str "mitten") in
  let B := DiffToChangeset (str "kitten") (str "sitting") in
  exists fAB fBA r,
    Follow A B = Ok fAB /\ Follow B A = Ok fBA /\
    ApplyChangeset (str "mitten") fAB = Ok r /\ ApplyChangeset (str "sitting") fBA = Ok r.
Proof.
  refine (Diff_Follow_converges (str "kitten") (str "mitten") (str "sitting") _ _ _ _ _);
    [utf8_by_compute|utf8_by_compute|utf8_by_compute|vm_compute; discriminate|vm_compute; discriminate].
Defined.

(** On a text that is not valid UTF-8 the lengths count the bytes and
    the operations the replacement runes: the result is not even a valid
    changeset. *)
Theorem Diff_invalid_utf8 :
  let c := DiffToChangeset [Zbyte 255] [] in
  cs_OldLen c = 1 /\ cs_Ops c = [Delete 3] /\
  Validate c = Err (OpsConsume 3 1) /\
  ApplyChangeset [Zbyte 255] c = Err (DeleteExceeds 3 0 1).
Proof. by vm_compute. Qed.
