(* ===== verification/Fsm.v ===== *)
(** * The document state machine ([internal/fsm/types.go], [internal/fsm/fsm.go])

    The state machine every Raft node feeds with the committed entries.  Its
    operations run under one mutex, so each is one atomic function from state
    to state. *)

From S2P Require Import Prelude Edit Changeset Apply Cursor Follow.

(** ** Data *)

Record RaftLogEntry : Type := mkEntry {
  le_ClientID : bytes;
  le_SubmissionID : Z;
  le_BaseRev : Z;
  le_Changeset : Changeset
}.

Record RevisionRecord : Type := mkRevision {
  rr_RevNumber : Z;
  rr_Changeset : Changeset;
  rr_Source : bytes
}.

Record ApplyResult : Type := mkResult {
  ar_CPrime : Changeset;
  ar_NewRev : Z;
  ar_ClientID : bytes;
  ar_IsDuplicate : bool
}.

Record DocumentStateMachine : Type := mkFsm {
  headText : bytes;
  headRev : Z;
  revisionLog : list RevisionRecord;
  clientLastSubmission : gmap bytes Z
}.

Definition NewDocumentStateMachine (initialText : bytes) : DocumentStateMachine :=
  mkFsm initialText 0 [] ∅.

(** The zero [Changeset] of a Go struct. *)
Definition zeroChangeset : Changeset := mkChangeset 0 0 [].

(** ** [Apply] *)

(** [for r := entry.BaseRev; r < fsm.headRev; r++]: rebase on one historical
    changeset per turn.  A turn at an index outside the log panics, so one
    turn per record and one more is all the fuel there is use for. *)
Fixpoint rebase_loop (fuel : nat) (log : list RevisionRecord) (r rev : Z) (C : Changeset)
    : outcome Empty_set Changeset :=
  match fuel with
  | O => Diverge
  | S fuel =>
      if r <? rev then
        let! historical := or_panic (index log r) in
        let! C := Follow (rr_Changeset historical) C in
        rebase_loop fuel log (int64 (r + 1)) rev C
      else Ok C
  end.

(** What a call of [Apply] does: the new state, the value returned to Raft
    ([None] is [nil]) and the calls of [onCommit] it spawns. *)
Record Applied : Type := mkApplied {
  ap_state : DocumentStateMachine;
  ap_response : option ApplyResult;
  ap_callbacks : list ApplyResult
}.

(** [Apply] from the decoded entry on. *)
Definition applyEntry (fsm : DocumentStateMachine) (entry : RaftLogEntry)
    : outcome Empty_set Applied :=
  let lastSub := clientLastSubmission fsm !! le_ClientID entry in
  if (match lastSub with Some last => le_SubmissionID entry <=? last | None => false end) then
    let res := mkResult zeroChangeset (headRev fsm) (le_ClientID entry) true in
    Ok (mkApplied fsm (Some res) [res])
  else
    let! C := rebase_loop (S (length (revisionLog fsm))) (revisionLog fsm)
                (le_BaseRev entry) (headRev fsm) (le_Changeset entry) in
    match ApplyChangeset (headText fsm) C with
    | Ok newText =>
        let record := mkRevision (headRev fsm) C (le_ClientID entry) in
        let fsm' := mkFsm newText (int64 (headRev fsm + 1)) (revisionLog fsm ++ [record])
                      (<[le_ClientID entry := le_SubmissionID entry]> (clientLastSubmission fsm)) in
        let result := mkResult C (headRev fsm') (le_ClientID entry) false in
        Ok (mkApplied fsm' (Some result) [result])
    | Err _ => Ok (mkApplied fsm None [])
    | Panic => Panic
    | Diverge => Diverge
    end.

(** ** Readers *)

Definition HeadText (fsm : DocumentStateMachine) : bytes := headText fsm.
Definition HeadRev (fsm : DocumentStateMachine) : Z := headRev fsm.

(** [RevisionsSince]: a copy of the tail of the log; the slice expression
    panics on a negative revision. *)
Definition RevisionsSince (fsm : DocumentStateMachine) (fromRev : Z)
    : outcome Empty_set (list RevisionRecord) :=
  if len (revisionLog fsm) <=? fromRev then Ok []
  else or_panic (slice (revisionLog fsm) fromRev (len (revisionLog fsm))).

(** ** Specification: revisions as a chain of texts *)

(** No document that the theorems are about is longer than this; it keeps
    every sum of two lengths inside [int]. *)
Definition MaxDoc : Z := 2305843009213693952.

Definition changesets (log : list RevisionRecord) : list Changeset := map rr_Changeset log.

(** The text after a list of changesets. *)
Fixpoint replay (d : bytes) (cs : list Changeset) : outcome ApplyErr bytes :=
  match cs with
  | [] => Ok d
  | c :: cs => let! d := ApplyChangeset d c in replay d cs
  end.

(** A good changeset for a text. *)
Record fits (c : Changeset) (d : bytes) : Prop := {
  fits_wf : wf_cs c;
  fits_once : no_double_insert (cs_Ops c);
  fits_len : cs_OldLen c = len d
}.

(** [cs] leads from one text to the other through texts of sane length. *)
Fixpoint chain (d : bytes) (cs : list Changeset) (d' : bytes) : Prop :=
  len d <= MaxDoc /\
  match cs with
  | [] => d = d'
  | c :: cs => fits c d /\ exists d1, ApplyChangeset d c = Ok d1 /\ chain d1 cs d'
  end.

(** The invariant: the log is numbered, and replaying it gives the text. *)
Record fsm_inv (init : bytes) (fsm : DocumentStateMachine) : Prop := {
  inv_rev : headRev fsm = len (revisionLog fsm);
  inv_number : forall i r, revisionLog fsm !! i = Some r -> rr_RevNumber r = Z.of_nat i;
  inv_chain : chain init (changesets (revisionLog fsm)) (headText fsm)
}.

(** The transformation of a changeset along a history. *)
Fixpoint follow_all (hs : list Changeset) (C : Changeset) : outcome Empty_set Changeset :=
  match hs with
  | [] => Ok C
  | h :: hs => let! C := Follow h C in follow_all hs C
  end.

(** * Lemmas *)

Lemma chain_len d cs d' : chain d cs d' -> len d <= MaxDoc /\ len d' <= MaxDoc.
Proof.
  revert d. induction cs as [|c cs IH]; intros d [Hd H]; [by subst|].
  destruct H as (_ & d1 & _ & H). split; [done|]. by eapply IH.
Qed.

Lemma chain_app d cs1 cs2 d' :
  chain d (cs1 ++ cs2) d' <-> exists d1, chain d cs1 d1 /\ chain d1 cs2 d'.
Proof.
  revert d. induction cs1 as [|c cs1 IH]; intros d; simpl.
  - split; [intros H; exists d; split; [split; [apply (chain_len _ _ _ H)|done]|done]|].
    by intros (d1 & [_ ->] & H).
  - split.
    + intros (Hd & Hf & d1 & E & (d2 & H1 & H2)%IH). exists d2. eauto 10.
    + intros (d2 & (Hd & Hf & d1 & E & H1) & H2). split_and!; auto.
      exists d1. split; [done|]. apply IH. eauto.
Qed.

Lemma chain_replay d cs d' : chain d cs d' -> replay d cs = Ok d'.
Proof.
  revert d. induction cs as [|c cs IH]; intros d [Hd H]; simpl; [by subst|].
  destruct H as (_ & d1 & -> & H). simpl. auto.
Qed.

Lemma fits_apply c d : fits c d -> ApplyChangeset d c = Ok (uapply (uops (cs_Ops c)) d).
Proof. intros []. by apply ApplyChangeset_wf. Qed.

Lemma fits_new c d r : fits c d -> ApplyChangeset d c = Ok r -> len r = cs_NewLen c.
Proof. intros Hf. rewrite (fits_apply _ _ Hf). intros [= <-]. destruct Hf. by apply len_uapply. Qed.

Lemma fits_bound c d : fits c d -> cs_NewLen c <= len d + inserted c.
Proof.
  intros [[Hwf Ho Hn _ _] _ Hl]. unfold inserted.
  pose proof (src_uops _ Hwf). pose proof (dst_uops _ Hwf). pose proof (dst_src_nput (uops (cs_Ops c))).
  lia.
Qed.

(** One step of history under a pending changeset: both sides meet. *)
Lemma follow_step h C d d1 :
  fits h d -> ApplyChangeset d h = Ok d1 -> len d1 <= MaxDoc -> fits C d -> len d <= MaxDoc ->
  inserted C <= MaxDoc ->
  exists C1 D c r,
    Follow h C = Ok C1 /\ fits C1 d1 /\ inserted C1 = inserted C /\
    Follow C h = Ok D /\ ApplyChangeset d C = Ok c /\
    ApplyChangeset c D = Ok r /\ ApplyChangeset d1 C1 = Ok r.
Proof.
  intros Hh E Hd1 HC Hd Hi.
  assert (cs_NewLen h + cs_NewLen C <= MaxInt) as Hmax.
  { pose proof (fits_new _ _ _ Hh E). pose proof (fits_bound _ _ HC). unfold MaxDoc, MaxInt in *. lia. }
  pose proof Hh as [Wh Nh Lh]. pose proof HC as [WC NC LC].
  destruct (Follow_spec h C) as (C1 & E1 & W1 & K1 & O1 & _ & I1 & _); [done|done|congruence|done|].
  destruct (Follow_convergence h C d) as (f & D & d1' & c & r & E1' & E2 & E3 & E4 & E5 & E6); auto.
  rewrite E1 in E1'. injection E1' as <-. rewrite E in E3. injection E3 as <-.
  exists C1, D, c, r. split_and!; auto.
  split; [done|by apply canonical_no_double_insert|]. rewrite O1. symmetry. by eapply fits_new.
Qed.

Lemma follow_all_chain hs C d d' :
  chain d hs d' -> fits C d -> inserted C <= MaxDoc ->
  exists C', follow_all hs C = Ok C' /\ fits C' d' /\ inserted C' = inserted C.
Proof.
  revert C d. induction hs as [|h hs IH]; intros C d [Hd Hc] HC Hi; simpl.
  { subst d'. eauto. }
  destruct Hc as (Hh & d1 & E & Hc).
  destruct (follow_step h C d d1) as (C1 & D & c & r & -> & H1 & I1 & _); auto.
  { apply (chain_len _ _ _ Hc). }
  simpl. rewrite <-I1. apply (IH C1 d1); auto. by rewrite I1.
Qed.

(** The loop of the code follows the tail of the log. *)
Lemma rebase_loop_follow_all fuel log i C :
  (length log - i < fuel)%nat -> len log <= MaxInt -> (i <= length log)%nat ->
  rebase_loop fuel log (Z.of_nat i) (len log) C = follow_all (changesets (drop i log)) C.
Proof.
  revert i C. induction fuel as [|fuel IH]; intros i C Hf Hm Hi; [lia|]. simpl.
  destruct (Z.ltb_spec (Z.of_nat i) (len log)) as [Hlt|Hge].
  - unfold len in Hlt. destruct (lookup_lt_is_Some_2 log i) as [x Hx]; [lia|].
    rewrite index_nat, Hx, (drop_S _ _ _ Hx). simpl.
    destruct (Follow (rr_Changeset x) C); simpl; try done.
    unfold len in Hm. rewrite int64_id by (int_unfold; lia).
    replace (Z.of_nat i + 1) with (Z.of_nat (S i)) by lia. apply IH; unfold len; lia.
  - rewrite drop_ge; [done|]. unfold len in Hge. lia.
Qed.

Lemma changesets_app a b : changesets (a ++ b) = changesets a ++ changesets b.
Proof. apply map_app. Qed.

(** The text at revision [r]. *)
Definition textAt (init : bytes) (fsm : DocumentStateMachine) (r : nat) (d : bytes) : Prop :=
  replay init (changesets (take r (revisionLog fsm))) = Ok d.

Lemma inv_split init fsm r :
  fsm_inv init fsm ->
  exists d, textAt init fsm r d /\ chain d (changesets (drop r (revisionLog fsm))) (headText fsm).
Proof.
  intros [_ _ Hc]. rewrite <-(take_drop r (revisionLog fsm)), changesets_app in Hc.
  apply chain_app in Hc as (d & H1 & H2). exists d. split; [by apply chain_replay|done].
Qed.

(** An entry a well behaved client sends: against the text of a revision it
    has seen, with lengths that stay inside the bound. *)
Record entry_ok (init : bytes) (fsm : DocumentStateMachine) (e : RaftLogEntry) : Prop := {
  eo_base : 0 <= le_BaseRev e <= headRev fsm;
  eo_fits : forall d, textAt init fsm (Z.to_nat (le_BaseRev e)) d -> fits (le_Changeset e) d;
  eo_size : len (headText fsm) + inserted (le_Changeset e) <= MaxDoc;
  eo_room : headRev fsm < MaxInt
}.

Definition seen (fsm : DocumentStateMachine) (e : RaftLogEntry) : Prop :=
  exists last, clientLastSubmission fsm !! le_ClientID e = Some last /\ le_SubmissionID e <= last.

Lemma not_seen_branch fsm e :
  ~ seen fsm e ->
  match clientLastSubmission fsm !! le_ClientID e with
  | Some last => le_SubmissionID e <=? last
  | None => false
  end = false.
Proof.
  intros Hn. destruct (_ !! _) as [last|] eqn:E; [|done].
  destruct (Z.leb_spec (le_SubmissionID e) last); [|done]. destruct Hn. by exists last.
Qed.

(** What a commit does. *)
Definition committed (fsm : DocumentStateMachine) (e : RaftLogEntry) (C : Changeset) (text : bytes)
    : Applied :=
  let result := mkResult C (headRev fsm + 1) (le_ClientID e) false in
  mkApplied
    (mkFsm text (headRev fsm + 1)
       (revisionLog fsm ++ [mkRevision (headRev fsm) C (le_ClientID e)])
       (<[le_ClientID e := le_SubmissionID e]> (clientLastSubmission fsm)))
    (Some result) [result].

Lemma fsm_inv_commit init fsm e C text :
  fsm_inv init fsm -> fits C (headText fsm) -> ApplyChangeset (headText fsm) C = Ok text ->
  len text <= MaxDoc -> fsm_inv init (ap_state (committed fsm e C text)).
Proof.
  intros [Hr Hn Hc] HC E Hl. split; simpl.
  - autorewrite with len. lia.
  - intros i r [Hi|[Hi Hx]]%lookup_app_Some; [by eapply Hn|].
    destruct (i - length (revisionLog fsm))%nat eqn:Ei; [|done]. injection Hx as <-. simpl.
    rewrite Hr. unfold len. lia.
  - rewrite changesets_app. apply chain_app. exists (headText fsm). split; [done|]. simpl.
    split; [apply (chain_len _ _ _ Hc)|]. eauto.
Qed.

Lemma rebase_ok init fsm e :
  fsm_inv init fsm -> entry_ok init fsm e ->
  exists C,
    rebase_loop (S (length (revisionLog fsm))) (revisionLog fsm) (le_BaseRev e) (headRev fsm)
      (le_Changeset e) = Ok C /\
    follow_all (changesets (drop (Z.to_nat (le_BaseRev e)) (revisionLog fsm))) (le_Changeset e) = Ok C /\
    fits C (headText fsm) /\ inserted C = inserted (le_Changeset e).
Proof.
  intros Hinv [Hb Hf Hs Hr]. pose proof Hinv as [Hrev _ _].
  destruct (inv_split init fsm (Z.to_nat (le_BaseRev e)) Hinv) as (d & Hd & Hc).
  pose proof (len_nonneg (headText fsm)).
  destruct (follow_all_chain _ (le_Changeset e) d _ Hc) as (C & E & HC & HI); auto; [lia|].
  exists C. split_and!; auto. rewrite Hrev in *. unfold len in Hb.
  replace (le_BaseRev e) with (Z.of_nat (Z.to_nat (le_BaseRev e))) at 1 by lia.
  rewrite rebase_loop_follow_all; [done|lia|lia|lia].
Qed.

(** An entry of a well behaved client is committed. *)
Lemma applyEntry_ok init fsm e :
  fsm_inv init fsm -> entry_ok init fsm e -> ~ seen fsm e ->
  exists C text,
    follow_all (changesets (drop (Z.to_nat (le_BaseRev e)) (revisionLog fsm))) (le_Changeset e) = Ok C /\
    ApplyChangeset (headText fsm) C = Ok text /\
    applyEntry fsm e = Ok (committed fsm e C text) /\
    fsm_inv init (ap_state (committed fsm e C text)).
Proof.
  intros Hinv He Hns. destruct (rebase_ok _ _ _ Hinv He) as (C & E & Ef & HC & HI).
  pose proof (fits_apply _ _ HC) as Ea. pose proof (fits_new _ _ _ HC Ea) as Hl.
  pose proof (fits_bound _ _ HC) as Hb. destruct He as [? _ Hs Hr].
  exists C. eexists. split_and!; [done|done|..].
  - unfold applyEntry. rewrite not_seen_branch by done. rewrite E. simpl. rewrite Ea.
    unfold committed. by rewrite int64_id by (int_unfold; lia).
  - apply fsm_inv_commit; auto. lia.
Qed.

(** An entry seen before changes nothing. *)
Lemma applyEntry_seen fsm e :
  seen fsm e ->
  let dup := mkResult zeroChangeset (headRev fsm) (le_ClientID e) true in
  applyEntry fsm e = Ok (mkApplied fsm (Some dup) [dup]).
Proof. intros (last & E & Hle). unfold applyEntry. rewrite E. by rewrite (proj2 (Z.leb_le _ _)). Qed.

(** A negative base revision is an index out of range. *)
Lemma applyEntry_negative_base fsm e :
  0 <= headRev fsm -> ~ seen fsm e -> le_BaseRev e < 0 -> applyEntry fsm e = Panic.
Proof.
  intros Hr Hns Hb. unfold applyEntry. rewrite not_seen_branch by done. cbn [rebase_loop].
  rewrite (proj2 (Z.ltb_lt _ _)) by lia. by rewrite index_neg.
Qed.

(** ** A concrete state

    The text "ab" after one insertion, and an entry of another client against
    the first revision: what the witnesses below are computed on. *)

Lemma fsm_inv_init text : len text <= MaxDoc -> fsm_inv text (NewDocumentStateMachine text).
Proof. intros H. split; [done|by intros i r E|by split]. Qed.

Definition wit_c0 : Changeset := mkChangeset 2 3 [Retain 1; Insert (str "x"); Retain 1].
Definition wit_e0 : RaftLogEntry := mkEntry (str "u1") 1 0 wit_c0.
Definition wit_fsm : DocumentStateMachine :=
  ap_state (committed (NewDocumentStateMachine (str "ab")) wit_e0 wit_c0 (str "axb")).
Definition wit_entry : RaftLogEntry :=
  mkEntry (str "u2") 1 0 (mkChangeset 2 2 [Retain 1; Delete 1; Insert (str "y")]).

Lemma wit_inv : fsm_inv (str "ab") wit_fsm.
Proof.
  apply fsm_inv_commit; [by apply fsm_inv_init| |by vm_compute|by vm_compute].
  split; [wf_by_compute|by vm_compute; intuition congruence|by vm_compute].
Qed.

Lemma wit_entry_ok : entry_ok (str "ab") wit_fsm wit_entry.
Proof.
  split; [by vm_compute| |by vm_compute|by vm_compute].
  intros d [= <-]. split; [wf_by_compute|by vm_compute; intuition congruence|by vm_compute].
Qed.

Lemma wit_not_seen : ~ seen wit_fsm wit_entry.
Proof. intros (last & E & _). by vm_compute in E. Qed.

(** ** Theorems *)

(** C11: committing.  An entry a well behaved client sends, not seen before,
    is committed: the changeset is rebased on the revisions since its base,
    applied, recorded under the next number, announced once to the callback
    and returned, and the invariant holds of the new state. *)
Theorem applyEntry_commits init fsm e :
  fsm_inv init fsm -> entry_ok init fsm e -> ~ seen fsm e ->
  exists C text,
    follow_all (changesets (drop (Z.to_nat (le_BaseRev e)) (revisionLog fsm))) (le_Changeset e) = Ok C /\
    ApplyChangeset (headText fsm) C = Ok text /\
    applyEntry fsm e = Ok (committed fsm e C text) /\
    fsm_inv init (ap_state (committed fsm e C text)).
Proof. apply applyEntry_ok. Qed.

Lemma applyEntry_commits_witness :
  exists C text,
    follow_all (changesets (drop (Z.to_nat (le_BaseRev wit_entry)) (revisionLog wit_fsm)))
      (le_Changeset wit_entry) = Ok C /\
    ApplyChangeset (headText wit_fsm) C = Ok text /\
    applyEntry wit_fsm wit_entry = Ok (committed wit_fsm wit_entry C text) /\
    fsm_inv (str "ab") (ap_state (committed wit_fsm wit_entry C text)).
Proof. exact (applyEntry_commits _ _ _ wit_inv wit_entry_ok wit_not_seen). Defined.

(** The reference client: it shows the text [text], has sent the changeset
    [X] and not seen it acknowledged, and is told of the changesets [hs]
    others have committed; it transforms each against its own and applies it
    to what it shows. *)
Fixpoint client_receive (hs : list Changeset) (X : Changeset) (text : bytes)
    : outcome ApplyErr (Changeset * bytes) :=
  match hs with
  | [] => Ok (X, text)
  | B :: hs =>
      let! D := no_err (Follow X B) in
      let! text := ApplyChangeset text D in
      let! X := no_err (Follow B X) in
      client_receive hs X text
  end.

Lemma client_receive_chain hs X d d' c :
  chain d hs d' -> fits X d -> inserted X <= MaxDoc -> ApplyChangeset d X = Ok c ->
  exists X' r, client_receive hs X c = Ok (X', r) /\ follow_all hs X = Ok X' /\
    ApplyChangeset d' X' = Ok r.
Proof.
  revert X d c. induction hs as [|h hs IH]; intros X d c [Hd Hc] HX Hi E; simpl.
  { subst d'. eauto. }
  destruct Hc as (Hh & d1 & E1 & Hc).
  destruct (follow_step h X d d1) as (X1 & D & c' & r & -> & H1 & I1 & -> & Ec & Er & Er'); auto.
  { apply (chain_len _ _ _ Hc). }
  rewrite E in Ec. injection Ec as <-. simpl. rewrite Er. simpl.
  apply (IH X1 d1); auto. by rewrite I1.
Qed.

(** Convergence of client and server.  Take a client that edited the
    text [d] of revision [BaseRev] into [d] after [Changeset].  When it is
    told of the revisions committed since, it ends with exactly the text the
    server has after committing the client's entry, and its pending changeset
    has become the one the server recorded. *)
Theorem client_server_converge init fsm e d :
  fsm_inv init fsm -> entry_ok init fsm e -> ~ seen fsm e ->
  textAt init fsm (Z.to_nat (le_BaseRev e)) d ->
  exists c C text,
    ApplyChangeset d (le_Changeset e) = Ok c /\
    applyEntry fsm e = Ok (committed fsm e C text) /\
    client_receive (changesets (drop (Z.to_nat (le_BaseRev e)) (revisionLog fsm)))
      (le_Changeset e) c = Ok (C, text).
Proof.
  intros Hinv He Hns Hd. destruct (rebase_ok _ _ _ Hinv He) as (C & E & Ef & HC & HI).
  destruct (inv_split init fsm (Z.to_nat (le_BaseRev e)) Hinv) as (d0 & Hd0 & Hc).
  unfold textAt in *. rewrite Hd in Hd0. injection Hd0 as <-.
  destruct He as [? Hfit Hs Hr]. specialize (Hfit d Hd). pose proof (len_nonneg (headText fsm)).
  destruct (client_receive_chain _ (le_Changeset e) d _ _ Hc Hfit ltac:(lia) (fits_apply _ _ Hfit))
    as (X' & r & Hrec & Hfol & Ha).
  rewrite Ef in Hfol. injection Hfol as <-.
  eexists. exists C, r. split; [by apply fits_apply|]. split; [|done].
  unfold applyEntry. rewrite not_seen_branch by done. rewrite E. simpl. rewrite Ha.
  unfold committed. by rewrite int64_id by (pose proof (inv_rev _ _ Hinv);
    pose proof (len_nonneg (revisionLog fsm)); int_unfold; lia).
Qed.

Lemma client_server_converge_witness :
  exists c C text,
    ApplyChangeset (str "ab") (le_Changeset wit_entry) = Ok c /\
    applyEntry wit_fsm wit_entry = Ok (committed wit_fsm wit_entry C text) /\
    client_receive (changesets (drop (Z.to_nat (le_BaseRev wit_entry)) (revisionLog wit_fsm)))
      (le_Changeset wit_entry) c = Ok (C, text).
Proof. exact (client_server_converge _ _ _ _ wit_inv wit_entry_ok wit_not_seen eq_refl). Defined.

(** Deduplication.  An entry whose submission number is not above the
    last committed one of its client changes nothing and is answered, and
    announced, as a duplicate at the current revision; and once an entry has
    been committed, every further copy of it is such a duplicate. *)
Theorem applyEntry_duplicate fsm e :
  let dup := mkResult zeroChangeset (headRev fsm) (le_ClientID e) true in
  (seen fsm e -> applyEntry fsm e = Ok (mkApplied fsm (Some dup) [dup])) /\
  (forall C text fsm', applyEntry fsm e = Ok (committed fsm e C text) ->
     fsm' = ap_state (committed fsm e C text) ->
     exists dup', ar_IsDuplicate dup' = true /\
       applyEntry fsm' e = Ok (mkApplied fsm' (Some dup') [dup'])).
Proof.
  intros dup. split.
  - apply applyEntry_seen.
  - intros C text fsm' _ ->. eexists. split; [|unfold applyEntry; simpl].
    2: { rewrite lookup_insert_eq, Z.leb_refl. done. }
    done.
Qed.

Lemma applyEntry_duplicate_witness :
  let dup := mkResult zeroChangeset (headRev wit_fsm) (le_ClientID wit_e0) true in
  seen wit_fsm wit_e0 /\
  applyEntry wit_fsm wit_e0 = Ok (mkApplied wit_fsm (Some dup) [dup]).
Proof.
  assert (seen wit_fsm wit_e0) as H by (exists 1; split; [reflexivity|vm_compute; discriminate]).
  split; [exact H|]. exact (proj1 (applyEntry_duplicate wit_fsm wit_e0) H).
Defined.

(** An entry for a text of another length is dropped.  Nothing is
    rebased on a base at, or beyond, the current revision, which no check
    refuses; when the length the changeset was made for is not that of the
    text, whatever else it holds, the state stays, Raft gets [nil] and the
    callback is not called, so nobody is told. *)
Theorem applyEntry_rejects fsm e :
  ~ seen fsm e -> headRev fsm <= le_BaseRev e ->
  cs_OldLen (le_Changeset e) <> len (headText fsm) ->
  applyEntry fsm e = Ok (mkApplied fsm None []).
Proof.
  intros Hns Hb Hl. unfold applyEntry. rewrite not_seen_branch by done. cbn [rebase_loop].
  rewrite (proj2 (Z.ltb_ge _ _)) by done. cbn [obind]. unfold ApplyChangeset.
  by rewrite (proj2 (Z.eqb_neq _ _)).
Qed.

Lemma applyEntry_rejects_witness :
  applyEntry wit_fsm (mkEntry (str "u3") 1 7 (mkChangeset 9 9 [Retain 9])) =
    Ok (mkApplied wit_fsm None []).
Proof.
  apply applyEntry_rejects;
    [intros (last & E & _); vm_compute in E; discriminate E|vm_compute; discriminate|vm_compute; discriminate].
Defined.

(** A run of the state machine over committed entries; the second component
    lists the entries that changed the document. *)
Definition is_commit (a : Applied) : bool :=
  match ap_response a with Some r => negb (ar_IsDuplicate r) | None => false end.

Fixpoint applyAll (fsm : DocumentStateMachine) (es : list RaftLogEntry)
    : outcome Empty_set (DocumentStateMachine * list RaftLogEntry) :=
  match es with
  | [] => Ok (fsm, [])
  | e :: es =>
      let! a := applyEntry fsm e in
      let! (fsm', cs) := applyAll (ap_state a) es in
      Ok (fsm', if is_commit a then e :: cs else cs)
  end.

(** What a call of [applyEntry] may do to the deduplication table. *)
Lemma applyEntry_cases fsm e a :
  applyEntry fsm e = Ok a ->
  (is_commit a = false /\ ap_state a = fsm) \/
  (is_commit a = true /\ ~ seen fsm e /\
   clientLastSubmission (ap_state a) =
     <[le_ClientID e := le_SubmissionID e]> (clientLastSubmission fsm)).
Proof.
  unfold applyEntry. case_match eqn:Es.
  - intros [= <-]. by left.
  - destruct (rebase_loop _ _ _ _ _) as [C|[]| |]; simpl; try done.
    destruct (ApplyChangeset _ _); try done; intros [= <-]; [right|by left].
    split_and!; [done| |done]. intros (last & E & Hle). rewrite E in Es. lia.
Qed.

Lemma applyAll_above fsm es fsm' cs id last e :
  applyAll fsm es = Ok (fsm', cs) -> clientLastSubmission fsm !! id = Some last ->
  e ∈ cs -> le_ClientID e = id -> last < le_SubmissionID e.
Proof.
  revert fsm fsm' cs last. induction es as [|e1 es IH]; intros fsm fsm' cs last H Hl Hin Hid; simpl in H.
  { injection H as _ <-. by apply elem_of_nil in Hin. }
  apply obind_Ok in H as (a & Ha & H). apply obind_Ok in H as ([f1 cs1] & H1 & H).
  injection H as _ <-.
  destruct (applyEntry_cases _ _ _ Ha) as [[Hc Es]|(Hc & Hns & Et)]; rewrite Hc in Hin.
  - rewrite Es in H1. by apply (IH _ _ _ _ H1 Hl).
  - assert (le_ClientID e1 = id -> last < le_SubmissionID e1) as Hlt.
    { intros Hid1. destruct (Z.lt_ge_cases last (le_SubmissionID e1)); [done|].
      destruct Hns. exists last. by rewrite Hid1. }
    apply elem_of_cons in Hin as [->|Hin]; [auto|].
    destruct (decide (le_ClientID e1 = id)) as [Heq|Hne].
    + specialize (Hlt Heq). etrans; [exact Hlt|].
      eapply IH; [exact H1| |done|done]. by rewrite Et, Heq, lookup_insert_eq.
    + eapply IH; [exact H1| |done|done]. by rewrite Et, lookup_insert_ne.
Qed.

(** C30: exactly once.  In any run over any entries, however often and in
    whatever order they were submitted, the entries of one client that
    changed the document have strictly increasing submission numbers: none
    is applied twice. *)
Theorem applyAll_exactly_once fsm es fsm' cs i j a b :
  applyAll fsm es = Ok (fsm', cs) ->
  cs !! i = Some a -> cs !! j = Some b -> (i < j)%nat -> le_ClientID a = le_ClientID b ->
  le_SubmissionID a < le_SubmissionID b.
Proof.
  revert fsm fsm' cs i j. induction es as [|e1 es IH]; intros fsm fsm' cs i j H Hi Hj Hij Hid; simpl in H.
  { by injection H as _ <-. }
  apply obind_Ok in H as (r & Ha & H). apply obind_Ok in H as ([f1 cs1] & H1 & H).
  injection H as _ <-.
  destruct (applyEntry_cases _ _ _ Ha) as [[Hc Es]|(Hc & Hns & Et)]; rewrite Hc in *.
  - by apply (IH _ _ _ i j H1).
  - destruct j as [|j]; [lia|]. destruct i as [|i]; simpl in *.
    + injection Hi as <-. apply (applyAll_above _ _ _ _ (le_ClientID b) _ _ H1); [|by eapply list_elem_of_lookup_2|done].
      rewrite Et, Hid. apply lookup_insert_eq.
    + eapply IH; eauto. lia.
Qed.

(** The first entry arrives twice; the client's next one once. *)
Lemma applyAll_exactly_once_witness :
  let e2 := mkEntry (str "u1") 2 1 (mkChangeset 3 2 [Delete 1; Retain 2]) in
  exists fsm' cs,
    applyAll (NewDocumentStateMachine (str "ab")) [wit_e0; wit_e0; e2; wit_e0] = Ok (fsm', cs) /\
    (le_SubmissionID wit_e0 < le_SubmissionID e2).
Proof.
  intros e2. eexists _, _. split; [vm_compute; reflexivity|].
  refine (applyAll_exactly_once (NewDocumentStateMachine (str "ab")) [wit_e0; wit_e0; e2; wit_e0]
    _ _ 0 1 wit_e0 e2 _ _ _ _ _); [vm_compute; reflexivity|reflexivity|reflexivity|lia|reflexivity].
Defined.

Lemma RevisionsSince_total fsm r : 0 <= r -> exists recs, RevisionsSince fsm r = Ok recs.
Proof.
  intros Hr. unfold RevisionsSince. destruct (Z.leb_spec (len (revisionLog fsm)) r); [by eexists|].
  rewrite slice_ok by lia. by eexists.
Qed.

Lemma RevisionsSince_ok init fsm r d :
  fsm_inv init fsm -> 0 <= r -> textAt init fsm (Z.to_nat r) d ->
  exists recs, RevisionsSince fsm r = Ok recs /\
    replay d (changesets recs) = Ok (headText fsm) /\
    forall i x, recs !! i = Some x -> rr_RevNumber x = r + Z.of_nat i.
Proof.
  intros Hinv Hr Hd. destruct (inv_split init fsm (Z.to_nat r) Hinv) as (d0 & Hd0 & Hc).
  unfold textAt in *. rewrite Hd in Hd0. injection Hd0 as <-.
  exists (drop (Z.to_nat r) (revisionLog fsm)). split_and!; [|by apply chain_replay|].
  - unfold RevisionsSince. destruct (Z.leb_spec (len (revisionLog fsm)) r) as [Hle|Hlt].
    + rewrite drop_ge; [done|]. unfold len in *. lia.
    + rewrite slice_ok by lia. simpl. rewrite take_ge; [done|]. rewrite length_drop. unfold len. lia.
  - intros i x Hx. rewrite lookup_drop in Hx. rewrite (inv_number _ _ Hinv _ _ Hx). lia.
Qed.

(** Catching up.  The records [RevisionsSince r] returns lead from the
    text at revision [r] to the current text, and are numbered from [r] on. *)
Theorem RevisionsSince_catches_up init fsm r d :
  fsm_inv init fsm -> 0 <= r -> textAt init fsm (Z.to_nat r) d ->
  exists recs, RevisionsSince fsm r = Ok recs /\
    replay d (changesets recs) = Ok (headText fsm) /\
    forall i x, recs !! i = Some x -> rr_RevNumber x = r + Z.of_nat i.
Proof. apply RevisionsSince_ok. Qed.

Lemma RevisionsSince_catches_up_witness :
  exists recs, RevisionsSince wit_fsm 0 = Ok recs /\
    replay (str "ab") (changesets recs) = Ok (headText wit_fsm) /\
    forall i x, recs !! i = Some x -> rr_RevNumber x = 0 + Z.of_nat i.
Proof.
  refine (RevisionsSince_catches_up (str "ab") wit_fsm 0 (str "ab") wit_inv _ _);
    [vm_compute; discriminate|reflexivity].
Defined.

(** A changeset whose lengths sum to 1 modulo 2^64. *)
Definition wrapping : Changeset :=
  mkChangeset 1 1 [Retain 1; Retain MaxInt; Retain MaxInt; Retain 2].

(** The sums wrap.  The sums [Validate] compares with the declared
    lengths are [int] sums: it accepts this changeset, the submission
    handler lets it through, and the state machine that applies it to a text
    of one byte panics slicing the text. *)
Theorem wrapping_lengths_panic :
  Validate wrapping = Ok tt /\
  applyEntry (NewDocumentStateMachine (str "a")) (mkEntry (str "u") 1 0 wrapping) = Panic.
Proof. split; by vm_compute. Qed.
