(* ===== verification/Json.v ===== *)
(** * JSON ([encoding/json])

    What [json.Marshal] and [json.Unmarshal] do with a document, below the
    types of the program (those are in [Codec]): the text of a tree, and the
    tree of a text.  A text is a sequence of runes: every character that
    matters is ASCII, and inside a string an invalid byte reads as U+FFFD.

    Reading is by two automata, one over the runes and one over the tokens,
    so neither needs fuel.  The parser's stack is the stack of open arrays
    and objects, which the package limits to ten thousand. *)

From Stdlib Require Import DecimalN.
From S2P Require Import Prelude Utf8.

(** ** Trees *)

Unset Elimination Schemes.

(** A number is its literal, a string the bytes it stands for. *)
Inductive json : Type :=
| JNull
| JBool (b : bool)
| JNum (lit : list Z)
| JStr (s : bytes)
| JArr (js : list json)
| JObj (ms : list (bytes * json)).

Set Elimination Schemes.

(** Induction with the elements of arrays and the members of objects. *)
Lemma json_ind (P : json -> Prop) :
  P JNull -> (forall b, P (JBool b)) -> (forall lit, P (JNum lit)) -> (forall s, P (JStr s)) ->
  (forall js, Forall P js -> P (JArr js)) ->
  (forall ms, Forall (fun m => P (snd m)) ms -> P (JObj ms)) ->
  forall j, P j.
Proof.
  intros Hnull Hbool Hnum Hstr Harr Hobj. fix IH 1. intros [|b|lit|s|js|ms];
    [exact Hnull|apply Hbool|apply Hnum|apply Hstr|apply Harr|apply Hobj].
  - induction js as [|j js IHjs]; constructor; [apply IH|exact IHjs].
  - induction ms as [|m ms IHms]; constructor; [apply IH|exact IHms].
Qed.

(** ** Writing *)

Definition ascii (s : String.string) : list Z := map byteZ (str s).
Arguments ascii s%_string.

(** A hexadecimal digit, and the escape of a code point below 65536. *)
Definition hex (d : Z) : Z := if d <? 10 then 48 + d else 87 + d.

Definition u4 (r : Z) : list Z :=
  [92; 117; hex (r / 4096); hex (r / 256 mod 16); hex (r / 16 mod 16); hex (r mod 16)].

(** What stands for one rune of a string, or for an invalid byte.  The
    characters of HTML and the two line separators are escaped too. *)
Definition escape (o : option Z) : list Z :=
  match o with
  | None => u4 RuneError
  | Some r =>
      if (r =? 34) || (r =? 92) then [92; r]
      else if r =? 8 then [92; 98]
      else if r =? 12 then [92; 102]
      else if r =? 10 then [92; 110]
      else if r =? 13 then [92; 114]
      else if r =? 9 then [92; 116]
      else if (r <? 32) || (r =? 60) || (r =? 62) || (r =? 38) || (r =? 8232) || (r =? 8233)
      then u4 r
      else [r]
  end.

Definition quote (s : bytes) : list Z := 34 :: mjoin (map escape (utf8_scan s)) ++ [34].
#[global] Arguments quote : simpl never.

Fixpoint commas (xs : list (list Z)) : list Z :=
  match xs with
  | [] => []
  | [x] => x
  | x :: xs => x ++ 44 :: commas xs
  end.

Fixpoint print (j : json) : list Z :=
  match j with
  | JNull => ascii "null"
  | JBool true => ascii "true"
  | JBool false => ascii "false"
  | JNum lit => lit
  | JStr s => quote s
  | JArr js => 91 :: commas (map print js) ++ [93]
  | JObj ms => 123 :: commas (map (fun m => quote (fst m) ++ 58 :: print (snd m)) ms) ++ [125]
  end.

Definition Marshal (j : json) : bytes := of_runes (print j).

(** ** Reading: tokens *)

Inductive token : Type :=
| TLBrace | TRBrace | TLBrack | TRBrack | TColon | TComma
| TStr (s : bytes)
| TAtom (j : json).

Definition digit (r : Z) : bool := between 48 57 r.
Definition num_char (r : Z) : bool :=
  digit r || (r =? 45) || (r =? 43) || (r =? 46) || (r =? 101) || (r =? 69).
Definition letter (r : Z) : bool := between 97 122 r.
Definition space (r : Z) : bool := (r =? 32) || (r =? 9) || (r =? 10) || (r =? 13).

Fixpoint skip_digits (rs : list Z) : list Z :=
  match rs with
  | [] => []
  | r :: rs' => if digit r then skip_digits rs' else rs
  end.

(** The grammar of numbers: sign, integer part, fraction, exponent. *)
Definition valid_exp (rs : list Z) : bool :=
  match rs with
  | [] => true
  | e :: rs =>
      ((e =? 101) || (e =? 69)) &&
      let rs := match rs with s :: rs' => if (s =? 43) || (s =? 45) then rs' else rs | [] => [] end in
      match rs with [] => false | _ => forallb digit rs end
  end.

Definition valid_frac (rs : list Z) : bool :=
  match rs with
  | p :: rs' =>
      if p =? 46 then
        match rs' with d :: rs => digit d && valid_exp (skip_digits rs) | [] => false end
      else valid_exp rs
  | [] => true
  end.

Definition valid_num (rs : list Z) : bool :=
  let rs := match rs with s :: rs' => if s =? 45 then rs' else rs | [] => [] end in
  match rs with
  | [] => false
  | d :: rs =>
      if d =? 48 then valid_frac rs
      else if digit d then valid_frac (skip_digits rs)
      else false
  end.

Definition num_token (lit : list Z) : option token :=
  if valid_num lit then Some (TAtom (JNum lit)) else None.

Definition word_token (w : list Z) : option token :=
  if bool_decide (w = ascii "null") then Some (TAtom JNull)
  else if bool_decide (w = ascii "true") then Some (TAtom (JBool true))
  else if bool_decide (w = ascii "false") then Some (TAtom (JBool false))
  else None.

(** The inside of a string: a character, or the value of a [\u] escape. *)
Inductive piece : Type :=
| Plain (r : Z)
| Unit16 (r : Z).

Definition surrogate (r : Z) : bool := between 55296 57343 r.
Definition high_surrogate (r : Z) : bool := between 55296 56319 r.
Definition low_surrogate (r : Z) : bool := between 56320 57343 r.

(** Two escapes that form a surrogate pair are one character; another
    surrogate is U+FFFD. *)
Fixpoint unquote (ps : list piece) : list Z :=
  match ps with
  | [] => []
  | Plain r :: ps => r :: unquote ps
  | Unit16 hi :: ps' =>
      match ps' with
      | Unit16 lo :: ps =>
          if high_surrogate hi && low_surrogate lo
          then ((hi - 55296) * 1024 + (lo - 56320) + 65536) :: unquote ps
          else (if surrogate hi then RuneError else hi) :: unquote ps'
      | _ => (if surrogate hi then RuneError else hi) :: unquote ps'
      end
  end.

Definition hexval (r : Z) : option Z :=
  if digit r then Some (r - 48)
  else if between 97 102 r then Some (r - 87)
  else if between 65 70 r then Some (r - 55)
  else None.

(** The character after a backslash, but for [u]. *)
Definition unescape (r : Z) : option Z :=
  if (r =? 34) || (r =? 92) || (r =? 47) then Some r
  else if r =? 98 then Some 8
  else if r =? 102 then Some 12
  else if r =? 110 then Some 10
  else if r =? 114 then Some 13
  else if r =? 116 then Some 9
  else None.

(** Where the lexer is; what it has read is kept in reverse. *)
Inductive mode : Type :=
| Between
| InStr (ps : list piece)
| Escape (ps : list piece)
| Hex (ps : list piece) (k : nat) (v : Z)
| InNum (lit : list Z)
| InWord (w : list Z).

Definition str_token (ps : list piece) : token := TStr (of_runes (unquote (rev ps))).

Fixpoint lex (m : mode) (rs : list Z) {struct rs} : option (list token) :=
  match rs with
  | [] =>
      match m with
      | Between => Some []
      | InNum lit => t ← num_token (rev lit); Some [t]
      | InWord w => t ← word_token (rev w); Some [t]
      | _ => None
      end
  | r :: rs =>
      let start (_ : unit) :=
        if space r then lex Between rs
        else if r =? 123 then cons TLBrace <$> lex Between rs
        else if r =? 125 then cons TRBrace <$> lex Between rs
        else if r =? 91 then cons TLBrack <$> lex Between rs
        else if r =? 93 then cons TRBrack <$> lex Between rs
        else if r =? 58 then cons TColon <$> lex Between rs
        else if r =? 44 then cons TComma <$> lex Between rs
        else if r =? 34 then lex (InStr []) rs
        else if num_char r then lex (InNum [r]) rs
        else if letter r then lex (InWord [r]) rs
        else None in
      match m with
      | Between => start tt
      | InStr ps =>
          if r =? 34 then cons (str_token ps) <$> lex Between rs
          else if r =? 92 then lex (Escape ps) rs
          else if r <? 32 then None
          else lex (InStr (Plain r :: ps)) rs
      | Escape ps =>
          if r =? 117 then lex (Hex ps 4 0) rs
          else c ← unescape r; lex (InStr (Plain c :: ps)) rs
      | Hex ps k v =>
          d ← hexval r;
          match k with
          | O | 1%nat => lex (InStr (Unit16 (v * 16 + d) :: ps)) rs
          | S k => lex (Hex ps k (v * 16 + d)) rs
          end
      | InNum lit =>
          if num_char r then lex (InNum (r :: lit)) rs
          else t ← num_token (rev lit); cons t <$> start tt
      | InWord w =>
          if letter r then lex (InWord (r :: w)) rs
          else t ← word_token (rev w); cons t <$> start tt
      end
  end.

(** ** Reading: trees *)

(** An open array with its elements, an open object with its members and the
    key of the current one; in reverse. *)
Inductive frame : Type :=
| FArr (js : list json)
| FObj (ms : list (bytes * json)) (key : bytes).

(** Where the parser is; the current array or object is not on the stack
    while none of its values is being read. *)
Inductive place : Type :=
| Value (stk : list frame)
| ArrStart (stk : list frame)
| ArrNext (js : list json) (stk : list frame)
| ObjStart (stk : list frame)
| ObjKey (ms : list (bytes * json)) (stk : list frame)
| ObjColon (ms : list (bytes * json)) (key : bytes) (stk : list frame)
| ObjNext (ms : list (bytes * json)) (stk : list frame)
| Done (j : json).

(** A value has been read. *)
Definition plug (j : json) (stk : list frame) : place :=
  match stk with
  | [] => Done j
  | FArr js :: stk => ArrNext (j :: js) stk
  | FObj ms key :: stk => ObjNext ((key, j) :: ms) stk
  end.

Definition maxNestingDepth : Z := 10000.

Definition begin_value (t : token) (stk : list frame) : option place :=
  match t with
  | TStr s => Some (plug (JStr s) stk)
  | TAtom j => Some (plug j stk)
  | TLBrack => if len stk <? maxNestingDepth then Some (ArrStart stk) else None
  | TLBrace => if len stk <? maxNestingDepth then Some (ObjStart stk) else None
  | _ => None
  end.

Definition step (p : place) (t : token) : option place :=
  match p, t with
  | Value stk, _ => begin_value t stk
  | ArrStart stk, TRBrack => Some (plug (JArr []) stk)
  | ArrStart stk, _ => begin_value t (FArr [] :: stk)
  | ArrNext js stk, TComma => Some (Value (FArr js :: stk))
  | ArrNext js stk, TRBrack => Some (plug (JArr (rev js)) stk)
  | ObjStart stk, TRBrace => Some (plug (JObj []) stk)
  | ObjStart stk, TStr k => Some (ObjColon [] k stk)
  | ObjKey ms stk, TStr k => Some (ObjColon ms k stk)
  | ObjColon ms k stk, TColon => Some (Value (FObj ms k :: stk))
  | ObjNext ms stk, TComma => Some (ObjKey ms stk)
  | ObjNext ms stk, TRBrace => Some (plug (JObj (rev ms)) stk)
  | _, _ => None
  end.

Fixpoint steps (p : place) (ts : list token) : option place :=
  match ts with
  | [] => Some p
  | t :: ts => p ← step p t; steps p ts
  end.

(** [json.Valid] and the tree; [None] is a syntax error. *)
Definition parse (s : bytes) : option json :=
  ts ← lex Between (to_runes s);
  match steps (Value []) ts with
  | Some (Done j) => Some j
  | _ => None
  end.

(** ** Integers *)

Fixpoint uint_runes (d : Decimal.uint) : list Z :=
  match d with
  | Decimal.Nil => []
  | Decimal.D0 d => 48 :: uint_runes d
  | Decimal.D1 d => 49 :: uint_runes d
  | Decimal.D2 d => 50 :: uint_runes d
  | Decimal.D3 d => 51 :: uint_runes d
  | Decimal.D4 d => 52 :: uint_runes d
  | Decimal.D5 d => 53 :: uint_runes d
  | Decimal.D6 d => 54 :: uint_runes d
  | Decimal.D7 d => 55 :: uint_runes d
  | Decimal.D8 d => 56 :: uint_runes d
  | Decimal.D9 d => 57 :: uint_runes d
  end.

Fixpoint runes_uint (rs : list Z) : option Decimal.uint :=
  match rs with
  | [] => Some Decimal.Nil
  | r :: rs =>
      d ← runes_uint rs;
      if r =? 48 then Some (Decimal.D0 d)
      else if r =? 49 then Some (Decimal.D1 d)
      else if r =? 50 then Some (Decimal.D2 d)
      else if r =? 51 then Some (Decimal.D3 d)
      else if r =? 52 then Some (Decimal.D4 d)
      else if r =? 53 then Some (Decimal.D5 d)
      else if r =? 54 then Some (Decimal.D6 d)
      else if r =? 55 then Some (Decimal.D7 d)
      else if r =? 56 then Some (Decimal.D8 d)
      else if r =? 57 then Some (Decimal.D9 d)
      else None
  end.

(** [strconv.Itoa], and [ParseInt] and [ParseUint] on a literal that is a
    valid number, but for the range. *)
Definition itoa (z : Z) : list Z :=
  if z <? 0 then 45 :: uint_runes (N.to_uint (Z.to_N (- z))) else uint_runes (N.to_uint (Z.to_N z)).

Definition atou (lit : list Z) : option Z :=
  d ← runes_uint lit; Some (Z.of_N (N.of_uint d)).

Definition atoi (lit : list Z) : option Z :=
  match lit with
  | s :: lit' => if s =? 45 then Z.opp <$> atou lit' else atou lit
  | [] => None
  end.

(** ** Specification *)

(** What a string becomes on the way: invalid bytes are replaced. *)
Definition coerce (s : bytes) : bytes := of_runes (to_runes s).

Fixpoint wire (j : json) : json :=
  match j with
  | JStr s => JStr (coerce s)
  | JArr js => JArr (map wire js)
  | JObj ms => JObj (map (fun m => (coerce (fst m), wire (snd m))) ms)
  | _ => j
  end.

(** Trees that can be written: literals are numbers, and the nesting stays
    below the limit inside [d] open arrays and objects. *)
Fixpoint printable (d : nat) (j : json) : Prop :=
  match j with
  | JNum lit => valid_num lit = true
  | JArr js => Z.of_nat d < maxNestingDepth /\ foldr and True (map (printable (S d)) js)
  | JObj ms => Z.of_nat d < maxNestingDepth /\ foldr and True (map (fun m => printable (S d) (snd m)) ms)
  | _ => True
  end.

(** The strings of a tree that was read are valid UTF-8. *)
Fixpoint clean (j : json) : Prop :=
  match j with
  | JStr s => utf8_valid s
  | JArr js => foldr and True (map clean js)
  | JObj ms => foldr and True (map (fun m => clean (snd m)) ms)
  | _ => True
  end.

(** The tokens of the text of a tree. *)
Fixpoint sep (xss : list (list token)) : list token :=
  match xss with
  | [] => []
  | [x] => x
  | x :: xss => x ++ TComma :: sep xss
  end.

Fixpoint tokens (j : json) : list token :=
  match j with
  | JStr s => [TStr (coerce s)]
  | JArr js => TLBrack :: sep (map tokens js) ++ [TRBrack]
  | JObj ms => TLBrace :: sep (map (fun m => TStr (coerce (fst m)) :: TColon :: tokens (snd m)) ms) ++ [TRBrace]
  | _ => [TAtom j]
  end.

(** * Lemmas *)

(** ** Strings *)

Lemma hexval_hex d : 0 <= d < 16 -> hexval (hex d) = Some d.
Proof.
  intros. unfold hexval, hex, digit, between. destruct (Z.ltb_spec d 10); repeat case_match; f_equal; lia.
Qed.

(** The four digits of a code point. *)
Lemma nibbles r :
  0 <= r < 65536 ->
  0 <= r / 4096 < 16 /\ 0 <= r / 256 mod 16 < 16 /\ 0 <= r / 16 mod 16 < 16 /\ 0 <= r mod 16 < 16 /\
  (((0 * 16 + r / 4096) * 16 + r / 256 mod 16) * 16 + r / 16 mod 16) * 16 + r mod 16 = r.
Proof.
  intros Hr. replace (r / 4096) with (r / 16 / 16 / 16) by (rewrite !Z.div_div; [f_equal|..]; lia).
  replace (r / 256) with (r / 16 / 16) by (rewrite Z.div_div; [f_equal|..]; lia).
  pose proof (Z.div_mod r 16). pose proof (Z.div_mod (r / 16) 16). pose proof (Z.div_mod (r / 16 / 16) 16).
  pose proof (Z.mod_pos_bound r 16). pose proof (Z.mod_pos_bound (r / 16) 16).
  pose proof (Z.mod_pos_bound (r / 16 / 16) 16). lia.
Qed.

Lemma lex_u4 ps r rs :
  0 <= r < 65536 -> lex (InStr ps) (u4 r ++ rs) = lex (InStr (Unit16 r :: ps)) rs.
Proof.
  intros Hr. destruct (nibbles r Hr) as (H3 & H2 & H1 & H0 & E).
  cbn [u4 app lex]. simpl Z.eqb. simpl Z.ltb. cbv iota.
  rewrite !hexval_hex by done. cbn [mbind option_bind]. by rewrite E.
Qed.

(** Whether a rune is written as a [\u] escape. *)
Definition long_escape (r : Z) : bool :=
  negb ((r =? 34) || (r =? 92) || (r =? 8) || (r =? 12) || (r =? 10) || (r =? 13) || (r =? 9)) &&
  ((r <? 32) || (r =? 60) || (r =? 62) || (r =? 38) || (r =? 8232) || (r =? 8233)).

Definition piece_of (o : option Z) : piece :=
  match o with
  | None => Unit16 RuneError
  | Some r => if long_escape r then Unit16 r else Plain r
  end.

Lemma lex_escape o ps rs :
  from_option (fun r => scalar r = true) True o ->
  lex (InStr ps) (escape o ++ rs) = lex (InStr (piece_of o :: ps)) rs.
Proof.
  destruct o as [r|]; [|intros _; by apply lex_u4]. cbn [from_option]. intros Hr%scalar_iff.
  unfold escape, piece_of, long_escape.
  destruct (Z.eqb_spec r 34) as [->|]; [done|]. destruct (Z.eqb_spec r 92) as [->|]; [done|].
  destruct (Z.eqb_spec r 8) as [->|]; [done|]. destruct (Z.eqb_spec r 12) as [->|]; [done|].
  destruct (Z.eqb_spec r 10) as [->|]; [done|]. destruct (Z.eqb_spec r 13) as [->|]; [done|].
  destruct (Z.eqb_spec r 9) as [->|]; [done|]. cbn [orb negb andb].
  destruct ((r <? 32) || _ || _ || _ || _ || _) eqn:E; [apply lex_u4; lia|].
  cbn [app lex]. rewrite (proj2 (Z.eqb_neq r 34)), (proj2 (Z.eqb_neq r 92)) by done.
  by replace (r <? 32) with false by lia.
Qed.

Lemma unquote_pieces os :
  Forall (from_option (fun r => scalar r = true) True) os ->
  unquote (map piece_of os) = map (default RuneError) os.
Proof.
  assert (forall r, scalar r = true -> surrogate r = false /\ high_surrogate r = false) as Hs.
  { intros r Hr%scalar_iff. unfold surrogate, high_surrogate, between. lia. }
  induction 1 as [|o os Ho _ IH]; [done|]. cbn [map].
  assert (exists r, default RuneError o = r /\ (piece_of o = Plain r \/ piece_of o = Unit16 r) /\ scalar r = true)
    as (r & -> & Hp & Hr).
  { destruct o as [r|]; [|by eexists; eauto]. exists r. simpl. destruct (long_escape r); auto. }
  destruct (Hs r Hr) as [H1 H2]. rewrite <-IH. destruct Hp as [->| ->]; [done|].
  cbn [unquote]. rewrite H1, H2. by destruct (map piece_of os) as [|[]].
Qed.

Lemma lex_pieces os ps rs :
  Forall (from_option (fun r => scalar r = true) True) os ->
  lex (InStr ps) (mjoin (map escape os) ++ 34 :: rs) =
    cons (str_token (rev (map piece_of os) ++ ps)) <$> lex Between rs.
Proof.
  intros Hos. revert ps. induction Hos as [|o os Ho _ IH]; intros ps; [done|].
  cbn [map mjoin list_join]. rewrite <-app_assoc, lex_escape, IH by done.
  cbn [rev]. by rewrite <-app_assoc.
Qed.

Lemma lex_quote s rs : lex Between (quote s ++ rs) = cons (TStr (coerce s)) <$> lex Between rs.
Proof.
  unfold quote. cbn [app]. rewrite <-app_assoc. cbn [app].
  change (lex Between (34 :: ?x)) with (lex (InStr []) x).
  pose proof (utf8_scan_scalar s) as Hs. rewrite lex_pieces by done. unfold str_token.
  rewrite app_nil_r, rev_involutive, unquote_pieces by done. done.
Qed.

(** ** Numbers and words *)

Lemma digit_num_char r : digit r = true -> num_char r = true.
Proof. unfold num_char. by intros ->. Qed.

Lemma skip_digits_all (P : Z -> Prop) rs :
  (forall r, digit r = true -> P r) -> Forall P (skip_digits rs) -> Forall P rs.
Proof.
  intros Hd. induction rs as [|r rs IH]; [done|]. simpl. destruct (digit r) eqn:E; [|done]. eauto.
Qed.

Lemma valid_exp_chars rs : valid_exp rs = true -> Forall (fun r => num_char r = true) rs.
Proof.
  destruct rs as [|e rs]; [constructor|]. simpl. intros [He H]%andb_prop. constructor.
  { unfold num_char, digit, between. lia. }
  assert (forall rs, forallb digit rs = true -> Forall (fun r => num_char r = true) rs) as Hd.
  { intros l Hl. induction l as [|x l IH]; [done|]. simpl in Hl.
    apply andb_prop in Hl as [? ?]. constructor; [by apply digit_num_char|]. auto. }
  destruct rs as [|s rs]; [done|]. destruct ((s =? 43) || (s =? 45)) eqn:Es.
  - constructor; [unfold num_char; lia|]. by destruct rs; [|apply Hd].
  - by apply Hd.
Qed.

Lemma valid_frac_chars rs : valid_frac rs = true -> Forall (fun r => num_char r = true) rs.
Proof.
  destruct rs as [|p rs]; [constructor|]. unfold valid_frac. destruct (Z.eqb_spec p 46) as [->|].
  - destruct rs as [|d rs]; [done|]. intros [Hd H]%andb_prop.
    constructor; [done|]. constructor; [by apply digit_num_char|].
    eapply skip_digits_all; [apply digit_num_char|]. by apply valid_exp_chars.
  - apply valid_exp_chars.
Qed.

Lemma valid_num_chars rs : valid_num rs = true -> rs <> [] /\ Forall (fun r => num_char r = true) rs.
Proof.
  assert (forall d rs, (if d =? 48 then valid_frac rs
      else if digit d then valid_frac (skip_digits rs) else false) = true ->
    Forall (fun r => num_char r = true) (d :: rs)) as Hint.
  { intros d l. destruct (Z.eqb_spec d 48) as [->|].
    - intros. constructor; [done|]. by apply valid_frac_chars.
    - destruct (digit d) eqn:Ed; [|done]. intros H. constructor; [by apply digit_num_char|].
      eapply skip_digits_all; [apply digit_num_char|]. by apply valid_frac_chars. }
  unfold valid_num. destruct rs as [|s rs]; [done|]. split; [done|].
  destruct (Z.eqb_spec s 45) as [->|]; [|by apply Hint].
  destruct rs as [|d rs]; [done|]. constructor; [done|]. by apply Hint.
Qed.

(** What follows a value in a text. *)
Definition ends (rs : list Z) : Prop :=
  match rs with [] => True | r :: _ => r = 44 \/ r = 93 \/ r = 125 end.

Lemma lex_num_rest lit acc rs :
  Forall (fun r => num_char r = true) lit -> ends rs ->
  lex (InNum acc) (lit ++ rs) = t ← num_token (rev acc ++ lit); cons t <$> lex Between rs.
Proof.
  intros Hl Hrs. revert acc. induction Hl as [|r lit Hr _ IH]; intros acc.
  - rewrite app_nil_r. destruct rs as [|r rs]; [simpl; by destruct (num_token _)|].
    destruct Hrs as [->|[->| ->]]; cbn; by destruct (num_token _).
  - cbn [app lex]. rewrite Hr, IH. cbn [rev]. by rewrite <-app_assoc.
Qed.

Lemma num_char_start r :
  num_char r = true ->
  space r = false /\ (r =? 123) = false /\ (r =? 125) = false /\ (r =? 91) = false /\
  (r =? 93) = false /\ (r =? 58) = false /\ (r =? 44) = false /\ (r =? 34) = false.
Proof. unfold num_char, digit, between, space. lia. Qed.

Lemma lex_num lit rs :
  valid_num lit = true -> ends rs ->
  lex Between (lit ++ rs) = cons (TAtom (JNum lit)) <$> lex Between rs.
Proof.
  intros Hv Hrs. destruct (valid_num_chars _ Hv) as [Hn Hl]. destruct lit as [|r lit]; [done|].
  apply Forall_cons in Hl as [Hr Hl]. cbn [app lex].
  destruct (num_char_start r Hr) as (-> & -> & -> & -> & -> & -> & -> & ->). rewrite Hr.
  rewrite lex_num_rest by done. unfold num_token. cbn [rev app]. by rewrite Hv.
Qed.

Lemma lex_word w j rs :
  word_token w = Some (TAtom j) -> w <> [] -> Forall (fun r => letter r = true) w -> ends rs ->
  (forall r, head w = Some r -> num_char r = false) ->
  lex Between (w ++ rs) = cons (TAtom j) <$> lex Between rs.
Proof.
  intros Hw Hn Hl Hrs Hh. destruct w as [|r w]; [done|]. apply Forall_cons in Hl as [Hr Hl].
  assert (forall acc, word_token (rev acc ++ w) = Some (TAtom j) ->
    lex (InWord acc) (w ++ rs) = cons (TAtom j) <$> lex Between rs) as H.
  { clear -Hl Hrs. induction Hl as [|x w Hx _ IH]; intros acc Hw.
    - rewrite app_nil_r in Hw. destruct rs as [|y rs]; [simpl; by rewrite Hw|].
      destruct Hrs as [->|[->| ->]]; cbn; by rewrite Hw.
    - cbn [app lex]. rewrite Hx. apply IH. cbn [rev]. by rewrite <-app_assoc. }
  cbn [app lex]. rewrite (Hh r), Hr by done.
  assert (space r = false /\ (r =? 123) = false /\ (r =? 125) = false /\ (r =? 91) = false /\
    (r =? 93) = false /\ (r =? 58) = false /\ (r =? 44) = false /\ (r =? 34) = false)
    as (-> & -> & -> & -> & -> & -> & -> & ->) by (unfold letter, between, space in *; lia).
  by apply H.
Qed.

(** ** Texts *)

Lemma printable_arr d js :
  printable d (JArr js) <-> Z.of_nat d < maxNestingDepth /\ Forall (printable (S d)) js.
Proof.
  simpl. apply and_iff_compat_l. induction js as [|j js IH]; simpl; [by split|].
  by rewrite IH, Forall_cons.
Qed.

Lemma printable_obj d ms :
  printable d (JObj ms) <-> Z.of_nat d < maxNestingDepth /\ Forall (fun m => printable (S d) (snd m)) ms.
Proof.
  simpl. apply and_iff_compat_l. induction ms as [|m ms IH]; simpl; [by split|].
  by rewrite IH, Forall_cons.
Qed.

(** A list of texts, each of which the lexer reads. *)
Definition lexes (text : list Z) (toks : list token) : Prop :=
  forall rs, ends rs -> lex Between (text ++ rs) = app toks <$> lex Between rs.

Lemma lexes_commas texts tokss close t rs :
  (close = 93 \/ close = 125) ->
  (forall k, lex Between (close :: k) = cons t <$> lex Between k) ->
  Forall2 lexes texts tokss -> ends rs ->
  lex Between (commas texts ++ close :: rs) = app (sep tokss ++ [t]) <$> lex Between rs.
Proof.
  intros Hc Ht H Hrs.
  assert (ends (close :: rs)) as He by (simpl; tauto).
  induction H as [|x y xs ys Hx Hxs IH]; [apply Ht|].
  destruct Hxs as [|x' y' xs ys Hx' Hxs].
  - cbn [commas sep]. rewrite Hx by done. rewrite Ht. rewrite <-option_fmap_compose.
    apply option_fmap_ext. intros l. simpl. by rewrite <-app_assoc.
  - change (commas (x :: x' :: xs)) with (x ++ 44 :: commas (x' :: xs)).
    change (sep (y :: y' :: ys)) with (y ++ TComma :: sep (y' :: ys)).
    rewrite <-app_assoc. cbn [app]. rewrite Hx by (simpl; tauto).
    change (lex Between (44 :: ?z)) with (cons TComma <$> lex Between z). rewrite IH.
    rewrite <-!option_fmap_compose. apply option_fmap_ext. intros l. simpl. by rewrite <-!app_assoc.
Qed.

Lemma lex_print j : forall d, printable d j -> lexes (print j) (tokens j).
Proof.
  induction j as [| [] |lit|s|js IH|ms IH] using json_ind; intros d Hp rs Hrs.
  1-3: apply lex_word; [done|done|by repeat constructor|done|by intros r [= <-]].
  - by apply lex_num.
  - apply lex_quote.
  - apply printable_arr in Hp as [_ Hp]. cbn [print tokens app]. rewrite <-app_assoc.
    change (lex Between (91 :: ?z)) with (cons TLBrack <$> lex Between z). cbn [app].
    rewrite lexes_commas with (tokss := map tokens js) (t := TRBrack); [by rewrite <-option_fmap_compose|auto|done| |done].
    clear -IH Hp. induction IH as [|j js Hj _ IHl]; simpl; [constructor|].
    apply Forall_cons in Hp as [? ?]. constructor; eauto.
  - apply printable_obj in Hp as [_ Hp]. cbn [print tokens app]. rewrite <-app_assoc.
    change (lex Between (123 :: ?z)) with (cons TLBrace <$> lex Between z). cbn [app].
    rewrite lexes_commas with (t := TRBrace)
      (tokss := map (fun m => TStr (coerce (fst m)) :: TColon :: tokens (snd m)) ms);
      [by rewrite <-option_fmap_compose|auto|done| |done].
    clear -IH Hp. induction IH as [|m ms Hm _ IHl]; cbn [map]; [constructor|].
    apply Forall_cons in Hp as [? ?]. constructor; [|by eauto]. intros rs Hrs.
    rewrite <-app_assoc, lex_quote. cbn [app].
    change (lex Between (58 :: ?z)) with (cons TColon <$> lex Between z).
    rewrite (Hm (S d)) by done. by rewrite <-!option_fmap_compose.
Qed.

Lemma steps_app p ts ts' : steps p (ts ++ ts') = p ← steps p ts; steps p ts'.
Proof.
  revert p. induction ts as [|t ts IH]; intros p; [done|]. cbn [app steps].
  destruct (step p t); simpl; auto.
Qed.

(** The elements of an array, or the members of an object, after the first. *)
Lemma steps_sep {X A} (next item : list A -> place) (tok : X -> list token) (val : X -> A) start x l :
  (forall acc, step (next acc) TComma = Some (item acc)) ->
  steps start (tok x) = Some (next [val x]) ->
  Forall (fun y => forall acc, steps (item acc) (tok y) = Some (next (val y :: acc))) l ->
  steps start (sep (map tok (x :: l))) = Some (next (rev (map val (x :: l)))).
Proof.
  intros Hc Hx Hl. cut (forall start x acc, steps start (tok x) = Some (next (val x :: acc)) ->
    steps start (sep (map tok (x :: l))) = Some (next (rev (map val (x :: l)) ++ acc))).
  { intros H. rewrite (H _ _ [] Hx). by rewrite app_nil_r. }
  clear start x Hx. induction Hl as [|y l Hy _ IH]; intros start x acc Hx; [done|].
  change (sep (map tok (x :: y :: l))) with (tok x ++ TComma :: sep (map tok (y :: l))).
  rewrite steps_app, Hx. cbn [mbind option_bind steps]. rewrite Hc. cbn [mbind option_bind].
  rewrite (IH _ _ (val x :: acc)) by apply Hy. cbn [map rev]. by rewrite <-!app_assoc.
Qed.

(** A value read where one is expected. *)
Definition reads (j : json) (stk : list frame) : Prop :=
  exists t ts, tokens j = t :: ts /\ t <> TRBrack /\
    (p ← begin_value t stk; steps p ts) = Some (plug (wire j) stk).

Lemma reads_value j stk : reads j stk -> steps (Value stk) (tokens j) = Some (plug (wire j) stk).
Proof. by intros (t & ts & -> & _ & H). Qed.

Lemma reads_first j stk :
  reads j (FArr [] :: stk) -> steps (ArrStart stk) (tokens j) = Some (ArrNext [wire j] stk).
Proof.
  intros (t & ts & -> & Ht & H). cbn [steps].
  by replace (step (ArrStart stk) t) with (begin_value t (FArr [] :: stk)) by (by destruct t).
Qed.

Lemma steps_tokens j : forall stk, printable (length stk) j -> reads j stk.
Proof.
  induction j as [|b|lit|s|js IH|ms IH] using json_ind; intros stk Hp; try by eexists _, _.
  - apply printable_arr in Hp as [Hd Hp]. eexists _, _. split; [done|]. split; [done|].
    cbn [begin_value]. unfold len. rewrite (proj2 (Z.ltb_lt _ _)) by done. cbn [mbind option_bind].
    destruct IH as [|j l Hj IH]; [done|]. apply Forall_cons in Hp as [Hpj Hp].
    rewrite steps_app, (steps_sep (fun js => ArrNext js stk) (fun js => Value (FArr js :: stk)) _ wire);
      [|done|by apply reads_first, Hj|].
    + cbn [mbind option_bind steps step]. by rewrite rev_involutive.
    + apply Forall_forall. intros y Hy acc. rewrite reads_value; [done|].
      rewrite Forall_forall in IH, Hp. by apply IH; [|apply Hp].
  - apply printable_obj in Hp as [Hd Hp]. eexists _, _. split; [done|]. split; [done|].
    cbn [begin_value]. unfold len. rewrite (proj2 (Z.ltb_lt _ _)) by done. cbn [mbind option_bind].
    destruct IH as [|m l Hm IH]; [done|]. apply Forall_cons in Hp as [Hpm Hp].
    rewrite steps_app, (steps_sep (fun ms => ObjNext ms stk) (fun ms => ObjKey ms stk) _
      (fun m => (coerce (fst m), wire (snd m)))); [|done| |].
    + cbn [mbind option_bind steps step]. by rewrite rev_involutive.
    + cbn [steps step mbind option_bind]. by rewrite reads_value by (by apply Hm).
    + apply Forall_forall. intros y Hy acc. cbn [steps step mbind option_bind]. rewrite reads_value; [done|].
      rewrite Forall_forall in IH, Hp. by apply IH; [|apply Hp].
Qed.

(** The text of a tree is made of scalar values. *)
Lemma escape_scalar o :
  from_option (fun r => scalar r = true) True o -> Forall (fun r => scalar r = true) (escape o).
Proof.
  assert (forall d, 0 <= d < 16 -> scalar (hex d) = true) as Hx.
  { intros d Hd. apply scalar_iff. unfold hex. destruct (d <? 10); lia. }
  assert (forall r, 0 <= r < 65536 -> Forall (fun r => scalar r = true) (u4 r)) as Hu.
  { intros r Hr. destruct (nibbles r Hr) as (? & ? & ? & ? & _).
    repeat constructor; by apply Hx. }
  destruct o as [r|]; [|intros _; by apply Hu]. cbn [from_option]. intros Hr. unfold escape.
  destruct ((r =? 34) || (r =? 92)); [by repeat constructor|].
  do 5 (case_match; [by repeat constructor|]).
  destruct (_ || _) eqn:E; [|by repeat constructor]. apply Hu. apply scalar_iff in Hr. lia.
Qed.

Lemma quote_scalar s : Forall (fun r => scalar r = true) (quote s).
Proof.
  unfold quote. constructor; [done|]. apply Forall_app. split; [|by repeat constructor].
  induction (utf8_scan_scalar s) as [|o os Ho _ IH]; [constructor|]. simpl.
  apply Forall_app. split; [by apply escape_scalar|done].
Qed.

Lemma commas_Forall (P : Z -> Prop) xs : P 44 -> Forall (Forall P) xs -> Forall P (commas xs).
Proof.
  intros Hc. induction 1 as [|x xs Hx Hxs IH]; [constructor|]. destruct xs as [|y xs]; [done|].
  change (commas (x :: y :: xs)) with (x ++ 44 :: commas (y :: xs)).
  apply Forall_app. split; [done|]. by constructor.
Qed.

Lemma print_scalar j : forall d, printable d j -> Forall (fun r => scalar r = true) (print j).
Proof.
  induction j as [| [] |lit|s|js IH|ms IH] using json_ind; intros d Hp; try by repeat constructor.
  - destruct (valid_num_chars lit Hp) as [_ H]. eapply Forall_impl; [exact H|]. intros r Hr.
    apply scalar_iff. unfold num_char, digit, between in Hr. lia.
  - apply quote_scalar.
  - apply printable_arr in Hp as [_ Hp]. cbn [print]. constructor; [done|].
    apply Forall_app. split; [|by repeat constructor]. apply commas_Forall; [done|].
    apply Forall_map, Forall_forall. intros j Hj. rewrite Forall_forall in IH, Hp. by eapply IH, Hp.
  - apply printable_obj in Hp as [_ Hp]. cbn [print]. constructor; [done|].
    apply Forall_app. split; [|by repeat constructor]. apply commas_Forall; [done|].
    apply Forall_map, Forall_forall. intros m Hm. rewrite Forall_forall in IH, Hp.
    apply Forall_app. split; [apply quote_scalar|]. constructor; [done|]. by eapply IH, Hp.
Qed.

(** Reading what was written. *)
Lemma parse_Marshal j : printable 0 j -> parse (Marshal j) = Some (wire j).
Proof.
  intros Hp. unfold parse, Marshal. rewrite to_runes_of_runes by (by eapply print_scalar).
  rewrite <-(app_nil_r (print j)), (lex_print j 0 Hp []) by done. cbn [lex fmap option_fmap option_map mbind option_bind].
  rewrite app_nil_r, reads_value by (by apply steps_tokens). done.
Qed.

(** ** Integers *)

Lemma runes_uint_runes d : runes_uint (uint_runes d) = Some d.
Proof. induction d; simpl; [done|..]; by rewrite IHd. Qed.

Lemma uint_runes_digits d : Forall (fun r => digit r = true) (uint_runes d).
Proof. induction d; simpl; by constructor. Qed.

Lemma skip_digits_uint d : skip_digits (uint_runes d) = [].
Proof. induction d; simpl; done. Qed.

(** A canonical numeral is a number in the grammar. *)
Lemma valid_num_uint d : Decimal.unorm d = d -> valid_num (uint_runes d) = true.
Proof.
  assert (forall d, Decimal.nzhead d <> Decimal.D0 d) as Hz.
  { assert (forall e, (Decimal.nb_digits (Decimal.nzhead e) <= Decimal.nb_digits e)%nat) as H
      by (intros e; induction e; simpl; lia).
    intros e E. specialize (H e). rewrite E in H. simpl in H. lia. }
  destruct d; intros E; try done;
    try (change (valid_frac (skip_digits (uint_runes d)) = true); by rewrite skip_digits_uint).
  unfold Decimal.unorm in E. simpl in E. destruct (Decimal.nzhead d) eqn:En; try done.
  - by injection E as <-.
  - injection E as ->. by destruct (Hz d).
Qed.

Lemma unorm_to_uint n : Decimal.unorm (N.to_uint n) = N.to_uint n.
Proof. by rewrite <-DecimalN.Unsigned.to_of, DecimalN.Unsigned.of_to. Qed.

Lemma atou_itoa n : atou (uint_runes (N.to_uint n)) = Some (Z.of_N n).
Proof. unfold atou. rewrite runes_uint_runes. simpl. by rewrite DecimalN.Unsigned.of_to. Qed.

Lemma uint_runes_no_sign d : head (uint_runes d) <> Some 45.
Proof. by destruct d. Qed.

Lemma itoa_valid z : valid_num (itoa z) = true.
Proof.
  unfold itoa. assert (forall n, valid_num (uint_runes (N.to_uint n)) = true) as H
    by (intros; apply valid_num_uint, unorm_to_uint).
  destruct (z <? 0); [|done]. specialize (H (Z.to_N (- z))). unfold valid_num in H |- *.
  pose proof (uint_runes_no_sign (N.to_uint (Z.to_N (- z)))) as Hs.
  destruct (uint_runes _) as [|r rs]; [done|]. simpl in Hs |- *.
  by rewrite (proj2 (Z.eqb_neq r 45)) in H by congruence.
Qed.

Lemma atoi_itoa z : atoi (itoa z) = Some z.
Proof.
  unfold itoa. destruct (Z.ltb_spec z 0).
  - cbn [atoi]. simpl Z.eqb. cbv iota. rewrite atou_itoa. simpl. f_equal. lia.
  - pose proof (uint_runes_no_sign (N.to_uint (Z.to_N z))) as Hs. pose proof (atou_itoa (Z.to_N z)) as H1.
    pose proof (valid_num_uint _ (unorm_to_uint (Z.to_N z))) as Hv.
    unfold atoi. destruct (uint_runes _) as [|r rs]; [done|].
    simpl in Hs. rewrite (proj2 (Z.eqb_neq r 45)) by congruence. rewrite H1. f_equal. lia.
Qed.

Lemma atou_nonneg z : 0 <= z -> atou (itoa z) = Some z.
Proof.
  intros Hz. unfold itoa. rewrite (proj2 (Z.ltb_ge _ _)) by done. rewrite atou_itoa. f_equal. lia.
Qed.

(** ** What is read is clean *)

Lemma clean_arr js : clean (JArr js) <-> Forall clean js.
Proof. simpl. induction js as [|j js IH]; simpl; [by split|]. by rewrite IH, Forall_cons. Qed.

Lemma clean_obj ms : clean (JObj ms) <-> Forall (fun m => clean (snd m)) ms.
Proof. simpl. induction ms as [|m ms IH]; simpl; [by split|]. by rewrite IH, Forall_cons. Qed.

Definition token_clean (t : token) : Prop :=
  match t with TStr s => utf8_valid s | TAtom j => clean j | _ => True end.

Definition piece_ok (p : piece) : Prop :=
  match p with Plain r => scalar r = true | Unit16 r => 0 <= r < 65536 end.

Lemma unquote_scalar ps : Forall piece_ok ps -> Forall (fun r => scalar r = true) (unquote ps).
Proof.
  assert (forall hi, 0 <= hi < 65536 -> scalar (if surrogate hi then RuneError else hi) = true) as Hs.
  { intros hi Hhi. apply scalar_iff. destruct (surrogate hi) eqn:E; [right; by vm_compute|].
    unfold surrogate, between in E. lia. }
  set (P ps := Forall piece_ok ps -> Forall (fun r => scalar r = true) (unquote ps)).
  cut (P ps /\ forall x, P (x :: ps)); [by intros [H _]|].
  induction ps as [|y ps [IH1 IH2]]; split; unfold P in *.
  - constructor.
  - intros [r|r] [Hr _]%Forall_cons; constructor; try done. by apply Hs.
  - apply IH2.
  - specialize (IH2 y). intros [r|hi] [Hr Hps]%Forall_cons; [constructor; auto|].
    destruct y as [r|lo]; [constructor; [by apply Hs|auto]|].
    cbn [unquote]. destruct (high_surrogate hi && low_surrogate lo) eqn:E; (constructor; [|auto]).
    + apply scalar_iff. unfold high_surrogate, low_surrogate, between in E. lia.
    + apply IH1. by apply Forall_cons in Hps as [_ ?].
    + by apply Hs.
Qed.

Lemma str_token_clean ps : Forall piece_ok ps -> token_clean (str_token ps).
Proof. intros H. exists (unquote (rev ps)). split; [|done]. by apply unquote_scalar, Forall_rev. Qed.

Definition mode_ok (m : mode) : Prop :=
  match m with
  | InStr ps | Escape ps => Forall piece_ok ps
  | Hex ps k v => Forall piece_ok ps /\ (1 <= k <= 4)%nat /\ 0 <= v < 16 ^ (4 - Z.of_nat k)
  | _ => True
  end.

Lemma num_token_clean lit t : num_token lit = Some t -> token_clean t.
Proof. unfold num_token. case_match; [|done]. by intros [= <-]. Qed.

Lemma word_token_clean w t : word_token w = Some t -> token_clean t.
Proof. unfold word_token. repeat case_bool_decide; try done; by intros [= <-]. Qed.

Lemma unescape_scalar r c : unescape r = Some c -> scalar c = true.
Proof.
  unfold unescape. destruct ((r =? 34) || (r =? 92) || (r =? 47)) eqn:E.
  - intros [= <-]. apply scalar_iff. lia.
  - repeat case_match; try done; by intros [= <-].
Qed.

Lemma hexval_range r d : hexval r = Some d -> 0 <= d < 16.
Proof. unfold hexval, digit, between. repeat case_match; try done; intros [= <-]; lia. Qed.

Lemma lex_clean rs : forall m ts,
  Forall (fun r => scalar r = true) rs -> mode_ok m -> lex m rs = Some ts -> Forall token_clean ts.
Proof.
  assert (forall t o ts, token_clean t -> cons t <$> o = Some ts ->
    (forall l, o = Some l -> Forall token_clean l) -> Forall token_clean ts) as Hcons.
  { intros t [l|] ts Ht E Hl; [|done]. injection E as <-. constructor; auto. }
  induction rs as [|r rs IH]; intros m ts Hrs Hm; cbn [lex].
  { destruct m; try done; try (by intros [= <-]); intros (t & Et & [= <-])%bind_Some;
      (constructor; [|constructor]); by eauto using num_token_clean, word_token_clean. }
  apply Forall_cons in Hrs as [Hr Hrs].
  set (start := if space r then _ else _).
  assert (forall ts, start = Some ts -> Forall token_clean ts) as Hstart.
  { unfold start. intros l H. repeat case_match; try done;
      first [eapply Hcons; [|exact H|]; [done|]; intros l' Hl; by eapply IH; [| |exact Hl]
            |eapply IH; [exact Hrs| |exact H]; by (done || constructor)]. }
  clearbody start. destruct m as [|ps|ps|ps k v|lit|w]; simpl in Hm; intros H.
  - by apply Hstart.
  - destruct (r =? 34); [|destruct (r =? 92); [|destruct (r <? 32); [done|]]].
    + eapply Hcons; [by apply str_token_clean|exact H|]. intros l Hl. by eapply IH; [| |exact Hl].
    + by eapply IH; [| |exact H].
    + eapply IH; [| |exact H]; [done|]. by constructor.
  - destruct (r =? 117).
    + eapply IH; [| |exact H]; [done|].
      split; [done|]. split; [lia|]. split; [lia|by vm_compute].
    + apply bind_Some in H as (c & Hc & H). eapply IH; [| |exact H]; [done|].
      constructor; [by eapply unescape_scalar|done].
  - destruct Hm as (Hps & Hk & Hv). apply bind_Some in H as (d & Hd%hexval_range & H).
    destruct k as [|[|k]]; [lia|..]; (eapply IH; [| |exact H]; [done|]).
    + constructor; [|done]. change (16 ^ (4 - Z.of_nat 1)) with 4096 in Hv. simpl. lia.
    + split; [done|]. split; [lia|].
      replace (4 - Z.of_nat (S k)) with (Z.succ (4 - Z.of_nat (S (S k)))) by lia.
      rewrite Z.pow_succ_r by lia. lia.
  - destruct (num_char r); [by eapply IH; [| |exact H]|].
    apply bind_Some in H as (t & Ht & H). eapply Hcons; [by eapply num_token_clean|exact H|done].
  - destruct (letter r); [by eapply IH; [| |exact H]|].
    apply bind_Some in H as (t & Ht & H). eapply Hcons; [by eapply word_token_clean|exact H|done].
Qed.

Definition frame_clean (f : frame) : Prop :=
  match f with FArr js => Forall clean js | FObj ms _ => Forall (fun m => clean (snd m)) ms end.

Definition place_clean (p : place) : Prop :=
  match p with
  | Value stk | ArrStart stk | ObjStart stk => Forall frame_clean stk
  | ArrNext js stk => Forall clean js /\ Forall frame_clean stk
  | ObjKey ms stk | ObjColon ms _ stk | ObjNext ms stk =>
      Forall (fun m => clean (snd m)) ms /\ Forall frame_clean stk
  | Done j => clean j
  end.

Lemma plug_clean j stk : clean j -> Forall frame_clean stk -> place_clean (plug j stk).
Proof.
  intros Hj Hs. destruct Hs as [|[js|ms k] stk Hf Hs]; [done|..]; (split; [|done]); by constructor.
Qed.

Lemma step_clean p t p' : place_clean p -> token_clean t -> step p t = Some p' -> place_clean p'.
Proof.
  assert (forall t stk p', Forall frame_clean stk -> token_clean t -> begin_value t stk = Some p' ->
    place_clean p') as Hb.
  { intros [] stk q Hs Ht; simpl; try done; try (case_match; [|done]); intros [= <-]; try done;
      by apply plug_clean. }
  destruct p as [stk|stk|js stk|stk|ms stk|ms k stk|ms stk|j]; intros Hp Ht H; simpl in Hp; simpl in H.
  - by eapply Hb.
  - destruct t; try (eapply Hb; [|exact Ht|exact H]; constructor; [constructor|done]).
    injection H as <-. by apply plug_clean.
  - destruct Hp. destruct t; try done; injection H as <-; [|by constructor].
    apply plug_clean; [|done]. by apply clean_arr, Forall_rev.
  - destruct t; try done; injection H as <-; [by apply plug_clean|done].
  - destruct Hp. destruct t; try done. by injection H as <-.
  - destruct Hp. destruct t; try done. injection H as <-. by constructor.
  - destruct Hp. destruct t; try done; injection H as <-; [|done].
    apply plug_clean; [|done]. by apply clean_obj, Forall_rev.
  - done.
Qed.

Lemma to_runes_scalar s : Forall (fun r => scalar r = true) (to_runes s).
Proof.
  unfold to_runes. apply Forall_map. eapply Forall_impl; [apply utf8_scan_scalar|]. by intros [r|].
Qed.

Lemma parse_clean s j : parse s = Some j -> clean j.
Proof.
  unfold parse. intros (ts & Hts & H)%bind_Some.
  apply lex_clean in Hts; [|apply to_runes_scalar|done].
  assert (forall p p', place_clean p -> steps p ts = Some p' -> place_clean p') as Hs.
  { clear H. induction Hts as [|t ts Ht _ IH]; intros p p' Hp; simpl; [by intros [= <-]|].
    intros (q & Hq & H)%bind_Some. eapply IH; [|exact H]. by eapply step_clean. }
  destruct (steps (Value []) ts) as [p|] eqn:E; [|done]. apply Hs in E; [|constructor].
  destruct p; try done. by injection H as <-.
Qed.
