(* ===== verification/Base64.v ===== *)
(** * Base64 ([encoding/base64])

    The standard encoding with padding, in which [encoding/json] writes a
    byte slice ([LogEntry.Data]). *)

From S2P Require Import Prelude.

(** The alphabet, and the value of a character. *)
Definition b64_char (v : Z) : Byte.byte :=
  Zbyte (if v <? 26 then 65 + v
         else if v <? 52 then 71 + v
         else if v <? 62 then v - 4
         else if v =? 62 then 43 else 47).

Definition b64_val (c : Byte.byte) : option Z :=
  let x := byteZ c in
  if (65 <=? x) && (x <=? 90) then Some (x - 65)
  else if (97 <=? x) && (x <=? 122) then Some (x - 71)
  else if (48 <=? x) && (x <=? 57) then Some (x + 4)
  else if x =? 43 then Some 62
  else if x =? 47 then Some 63
  else None.

Definition pad : Byte.byte := Zbyte 61.

(** [StdEncoding.EncodeToString]: three bytes at a time. *)
Fixpoint b64_encode (s : bytes) : bytes :=
  match s with
  | [] => []
  | [a] =>
      let v := byteZ a * 65536 in
      [b64_char (v / 262144); b64_char (v / 4096 mod 64); pad; pad]
  | [a; b] =>
      let v := byteZ a * 65536 + byteZ b * 256 in
      [b64_char (v / 262144); b64_char (v / 4096 mod 64); b64_char (v / 64 mod 64); pad]
  | a :: b :: c :: s =>
      let v := byteZ a * 65536 + byteZ b * 256 + byteZ c in
      b64_char (v / 262144) :: b64_char (v / 4096 mod 64) :: b64_char (v / 64 mod 64) ::
      b64_char (v mod 64) :: b64_encode s
  end.

(** [StdEncoding.Decode]: four characters at a time, padding at the end only;
    [None] is [CorruptInputError]. *)
Fixpoint b64_quads (s : bytes) : option bytes :=
  match s with
  | [] => Some []
  | a :: b :: c :: d :: s =>
      va ← b64_val a;
      vb ← b64_val b;
      if bool_decide (d = pad) then
        if bool_decide (s <> []) then None
        else if bool_decide (c = pad) then
          Some [Zbyte ((va * 262144 + vb * 4096) / 65536)]
        else
          vc ← b64_val c;
          let q := va * 262144 + vb * 4096 + vc * 64 in
          Some [Zbyte (q / 65536); Zbyte (q / 256)]
      else
        vc ← b64_val c;
        vd ← b64_val d;
        let q := va * 262144 + vb * 4096 + vc * 64 + vd in
        rest ← b64_quads s;
        Some (Zbyte (q / 65536) :: Zbyte (q / 256) :: Zbyte q :: rest)
  | _ => None
  end.

(** Line breaks are skipped. *)
Definition b64_decode (s : bytes) : option bytes :=
  b64_quads (filter (fun c => byteZ c <> 10 /\ byteZ c <> 13) s).

(** * Lemmas *)

Lemma b64_char_byte v :
  0 <= v < 64 ->
  byteZ (b64_char v) =
    if v <? 26 then 65 + v else if v <? 52 then 71 + v else if v <? 62 then v - 4
    else if v =? 62 then 43 else 47.
Proof. intros. apply byteZ_small. repeat case_match; lia. Qed.

Lemma b64_val_char v : 0 <= v < 64 -> b64_val (b64_char v) = Some v.
Proof.
  intros Hv. unfold b64_val. rewrite b64_char_byte by done.
  destruct (Z.ltb_spec v 26); [|destruct (Z.ltb_spec v 52); [|destruct (Z.ltb_spec v 62);
    [|destruct (Z.eqb_spec v 62)]]]; repeat (case_match; try lia); f_equal; lia.
Qed.

(** A character of the alphabet is no padding and no line break. *)
Lemma b64_char_plain v :
  0 <= v < 64 ->
  b64_char v <> pad /\ byteZ (b64_char v) <> 10 /\ byteZ (b64_char v) <> 13.
Proof.
  intros Hv. assert (byteZ (b64_char v) <> 61 /\ byteZ (b64_char v) <> 10 /\ byteZ (b64_char v) <> 13) as H.
  { rewrite b64_char_byte by done. repeat case_match; lia. }
  destruct H as (H & ? & ?). split; [|done]. intros E. by rewrite E in H.
Qed.

(** The digits of 24 bits in base 64. *)
Lemma sextets v :
  0 <= v < 16777216 ->
  0 <= v / 262144 < 64 /\ 0 <= v / 4096 mod 64 < 64 /\ 0 <= v / 64 mod 64 < 64 /\ 0 <= v mod 64 < 64 /\
  v / 262144 * 262144 + v / 4096 mod 64 * 4096 + v / 64 mod 64 * 64 + v mod 64 = v.
Proof.
  intros Hv. replace (v / 262144) with (v / 64 / 64 / 64) by (rewrite !Z.div_div; [f_equal|..]; lia).
  replace (v / 4096) with (v / 64 / 64) by (rewrite Z.div_div; [f_equal|..]; lia).
  pose proof (Z.div_mod v 64). pose proof (Z.div_mod (v / 64) 64). pose proof (Z.div_mod (v / 64 / 64) 64).
  pose proof (Z.mod_pos_bound v 64). pose proof (Z.mod_pos_bound (v / 64) 64).
  pose proof (Z.mod_pos_bound (v / 64 / 64) 64). lia.
Qed.

(** The bytes of 24 bits. *)
Lemma octets a b c :
  let v := byteZ a * 65536 + byteZ b * 256 + byteZ c in
  0 <= v < 16777216 /\ Zbyte (v / 65536) = a /\ Zbyte (v / 256) = b /\ Zbyte v = c.
Proof.
  intros v. pose proof (byteZ_range a). pose proof (byteZ_range b). pose proof (byteZ_range c).
  split; [lia|]. split; [|split]; apply byteZ_inj; rewrite byteZ_Zbyte; unfold v.
  - replace (byteZ a * 65536 + byteZ b * 256 + byteZ c) with (byteZ b * 256 + byteZ c + byteZ a * 65536) by lia.
    rewrite Z.div_add, Z.div_small by lia. apply Z.mod_small. lia.
  - replace (byteZ a * 65536 + byteZ b * 256 + byteZ c) with (byteZ c + (byteZ b + byteZ a * 256) * 256) by lia.
    rewrite Z.div_add, Z.div_small by lia. rewrite Z.add_0_l, Z_mod_plus_full. apply Z.mod_small. lia.
  - replace (byteZ a * 65536 + byteZ b * 256 + byteZ c) with (byteZ c + (byteZ b + byteZ a * 256) * 256) by lia.
    rewrite Z_mod_plus_full. apply Z.mod_small. lia.
Qed.

(** Induction three at a time. *)
Lemma list_ind3 {A} (P : list A -> Prop) :
  P [] -> (forall a, P [a]) -> (forall a b, P [a; b]) ->
  (forall a b c s, P s -> P (a :: b :: c :: s)) -> forall s, P s.
Proof. intros H0 H1 H2 H3. fix IH 1. intros [|a [|b [|c s]]]; [done|apply H1|apply H2|apply H3, IH]. Qed.

(** The characters of an encoding. *)
Lemma b64_encode_Forall (P : Byte.byte -> Prop) s :
  P pad -> (forall v, 0 <= v < 64 -> P (b64_char v)) -> Forall P (b64_encode s).
Proof.
  intros Hpad Hc. induction s as [|a|a b|a b c s IH] using list_ind3; cbn [b64_encode].
  - constructor.
  - destruct (octets a (Zbyte 0) (Zbyte 0)) as [Hv _]. change (byteZ (Zbyte 0)) with 0 in Hv.
    destruct (sextets (byteZ a * 65536)) as (H3 & H2 & _); [lia|]. repeat constructor; auto.
  - destruct (octets a b (Zbyte 0)) as [Hv _]. change (byteZ (Zbyte 0)) with 0 in Hv.
    destruct (sextets (byteZ a * 65536 + byteZ b * 256)) as (H3 & H2 & H1 & _); [lia|].
    repeat constructor; auto.
  - destruct (octets a b c) as [Hv _]. destruct (sextets _ Hv) as (H3 & H2 & H1 & H0 & _).
    repeat constructor; auto.
Qed.

(** The encoding holds no line break. *)
Lemma b64_encode_filter s :
  filter (fun c => byteZ c <> 10 /\ byteZ c <> 13) (b64_encode s) = b64_encode s.
Proof.
  assert (Forall (fun c => byteZ c <> 10 /\ byteZ c <> 13) (b64_encode s)) as H
    by (apply b64_encode_Forall; [done|]; intros v Hv; by apply b64_char_plain).
  induction H as [|c l Hc _ IH]; [done|]. by rewrite filter_cons_True, IH.
Qed.

(** Decoding undoes encoding. *)
Lemma b64_decode_encode s : b64_decode (b64_encode s) = Some s.
Proof.
  unfold b64_decode. rewrite b64_encode_filter.
  induction s as [|a|a b|a b c s IH] using list_ind3; [done|..]; cbn [b64_encode].
  - destruct (octets a (Zbyte 0) (Zbyte 0)) as (Hv & Ha & _). change (byteZ (Zbyte 0)) with 0 in *.
    rewrite Z.mul_0_l, !Z.add_0_r in *.
    destruct (sextets _ Hv) as (H3 & H2 & H1 & H0 & E). pose proof (byteZ_range a).
    cbn [b64_quads]. rewrite !b64_val_char by done. cbn [mbind option_bind].
    rewrite !bool_decide_eq_true_2, bool_decide_eq_false_2 by (done || auto).
    replace (_ * 262144 + _ * 4096) with (byteZ a * 65536) by lia. by rewrite Ha.
  - destruct (octets a b (Zbyte 0)) as (Hv & Ha & Hb & _). change (byteZ (Zbyte 0)) with 0 in *.
    rewrite !Z.add_0_r in *.
    destruct (sextets _ Hv) as (H3 & H2 & H1 & H0 & E).
    cbn [b64_quads]. rewrite !b64_val_char by done. cbn [mbind option_bind].
    rewrite (bool_decide_eq_true_2 (pad = pad)), bool_decide_eq_false_2, bool_decide_eq_false_2
      by (done || auto || by apply b64_char_plain).
    cbn [mbind option_bind]. replace (_ * 262144 + _ * 4096 + _ * 64) with (byteZ a * 65536 + byteZ b * 256) by lia.
    by rewrite Ha, Hb.
  - destruct (octets a b c) as (Hv & Ha & Hb & Hc). destruct (sextets _ Hv) as (H3 & H2 & H1 & H0 & E).
    cbn [b64_quads]. rewrite !b64_val_char by done. cbn [mbind option_bind].
    rewrite bool_decide_eq_false_2 by (by apply b64_char_plain). cbn [mbind option_bind].
    rewrite IH. cbn [mbind option_bind]. by rewrite E, Ha, Hb, Hc.
Qed.
