(* ===== verification/Codec.v ===== *)
(** * Go values in JSON ([encoding/json])

    How [json.Marshal] and [json.Unmarshal] treat the types the program
    encodes: integers, booleans, strings, byte slices, slices and structs.  A
    [Codec] is one type's way to and from a tree; [codec_law] is what it
    promises; the combinators keep the promise.

    A location that is decoded into more than once (a key may be repeated in
    an object) keeps what the later values leave alone.  So decoding maps the
    list of all values written to a location, the oldest first, to its
    content; the location starts as zero. *)

From S2P Require Import Prelude Utf8 Json Base64.

Record Codec (A : Type) : Type := mkCodec {
  enc : A -> json;
  ok : json -> bool;
  dec : list json -> A
}.
Arguments mkCodec {A}.
Arguments enc {A}.
Arguments ok {A}.
Arguments dec {A}.

Definition Unmarshal {A} (c : Codec A) (s : bytes) : option A :=
  j ← parse s;
  if ok c j then Some (dec c [j]) else None.

Definition MarshalAs {A} (c : Codec A) (a : A) : bytes := Marshal (enc c a).

(** ** Scalars *)

(** A literal in the range of the type. *)
Definition number_ok (atoi : list Z -> option Z) (lo hi : Z) (j : json) : bool :=
  match j with
  | JNull => true
  | JNum lit => match atoi lit with Some z => (lo <=? z) && (z <=? hi) | None => false end
  | _ => false
  end.

Definition number_dec (atoi : list Z -> option Z) (js : list json) : Z :=
  foldl (fun z j => match j with JNum lit => default z (atoi lit) | _ => z end) 0 js.

Definition number (atoi : list Z -> option Z) (lo hi : Z) : Codec Z :=
  mkCodec (fun z => JNum (itoa z)) (number_ok atoi lo hi) (number_dec atoi).

(** [int] and [int64]; [uint64]; one byte. *)
Definition int_codec : Codec Z := number atoi MinInt MaxInt.
Definition uint64_codec : Codec Z := number atou 0 MaxUint64.
Definition uint8_codec : Codec Z := number atou 0 255.

Definition bool_codec : Codec bool :=
  mkCodec JBool
    (fun j => match j with JNull | JBool _ => true | _ => false end)
    (foldl (fun b j => match j with JBool b' => b' | _ => b end) false).

Definition string_codec : Codec bytes :=
  mkCodec JStr
    (fun j => match j with JNull | JStr _ => true | _ => false end)
    (foldl (fun s j => match j with JStr s' => s' | _ => s end) []).

(** ** Slices

    An array is decoded into the slice's backing array as far as that goes:
    an element is written to what its cell held before, even in a slice that
    had become shorter meanwhile.  [null] and the empty array give a new
    slice.  A cell is the list of the values written to it.

    [nil] and the empty slice are one value here; it is written as [null]. *)

Record cells : Type := mkCells {
  cl_cells : list (list json);
  cl_len : nat
}.

Fixpoint write_cells (xs : list json) (cs : list (list json)) : list (list json) :=
  match xs with
  | [] => cs
  | x :: xs => (default [] (head cs) ++ [x]) :: write_cells xs (tail cs)
  end.

Definition write_slice (c : cells) (j : json) : cells :=
  match j with
  | JArr (x :: xs) => mkCells (write_cells (x :: xs) (cl_cells c)) (S (length xs))
  | JStr s =>
      let l := default [] (b64_decode s) in
      mkCells (map (fun b => [JNum (itoa (byteZ b))]) l) (length l)
  | _ => mkCells [] 0
  end.

Definition slice_cells (js : list json) : list (list json) :=
  let c := foldl write_slice (mkCells [] 0) js in take (cl_len c) (cl_cells c).

Definition slice_codec {A} (c : Codec A) : Codec (list A) :=
  mkCodec
    (fun l => match l with [] => JNull | _ => JArr (map (enc c) l) end)
    (fun j => match j with JNull => true | JArr js => forallb (ok c) js | _ => false end)
    (fun js => map (dec c) (slice_cells js)).

(** A byte slice is a string in base 64; an array of numbers is read too. *)
Definition bytes_codec : Codec bytes :=
  mkCodec
    (fun s => match s with [] => JNull | _ => JStr (b64_encode s) end)
    (fun j => match j with
              | JNull => true
              | JStr s => bool_decide (b64_decode s <> None)
              | JArr js => forallb (ok uint8_codec) js
              | _ => false
              end)
    (fun js => map (fun c => Zbyte (dec uint8_codec c)) (slice_cells js)).

(** ** Structs *)

(** Keys are compared without regard to case; two characters outside ASCII
    fold to a letter. *)
Definition fold_rune (r : Z) : Z :=
  if between 97 122 r then r - 32
  else if r =? 383 then 83
  else if r =? 8490 then 75
  else r.

Definition fold_name (s : bytes) : list Z := map fold_rune (to_runes s).

Definition same_name (a b : bytes) : bool := bool_decide (fold_name a = fold_name b).

Definition values (name : bytes) (ms : list (bytes * json)) : list json :=
  map snd (List.filter (fun m => same_name (fst m) name) ms).

(** A field of a struct: its name in JSON and what it accepts. *)
Abbreviation fields := (list (bytes * (json -> bool))).

Definition fields_ok (fs : fields) (ms : list (bytes * json)) : bool :=
  forallb (fun f => forallb (snd f) (values (fst f) ms)) fs.

Definition field {A} (c : Codec A) (name : bytes) (ms : list (bytes * json)) : A :=
  dec c (values name ms).

(** The members of all objects written to a struct. *)
Definition members (js : list json) : list (bytes * json) :=
  mjoin (map (fun j => match j with JObj ms => ms | _ => [] end) js).

(** From the members written for a value, the fields, and the value made of
    the members read. *)
Definition struct_codec {A} (to : A -> list (bytes * json)) (fs : fields)
    (build : list (bytes * json) -> A) : Codec A :=
  mkCodec (fun a => JObj (to a))
    (fun j => match j with JNull => true | JObj ms => fields_ok fs ms | _ => false end)
    (fun js => build (members js)).

(** ** Specification *)

(** What a codec promises: a good value is written at most [depth] deep, is
    accepted, and comes back; what is accepted is decoded to a good value. *)
Record codec_law {A} (c : Codec A) (good : A -> Prop) (depth : nat) : Prop := {
  law_printable a d : good a -> Z.of_nat (d + depth) <= maxNestingDepth -> printable d (enc c a);
  law_ok a : good a -> ok c (wire (enc c a)) = true;
  law_dec a : good a -> dec c [wire (enc c a)] = a;
  law_good js : Forall clean js -> forallb (ok c) js = true -> good (dec c js)
}.

(** * Lemmas *)

(** ** Scalars *)

Lemma number_law atoi lo hi :
  lo <= 0 <= hi -> (forall z, lo <= z <= hi -> atoi (itoa z) = Some z) ->
  codec_law (number atoi lo hi) (fun z => lo <= z <= hi) 0.
Proof.
  intros H0 Ha. split; simpl.
  - intros z d _ _. apply itoa_valid.
  - intros z Hz. rewrite Ha by done. lia.
  - intros z Hz. unfold number_dec. simpl. by rewrite Ha.
  - intros js _ Hok. unfold number_dec. apply forallb_Forall in Hok. revert H0. generalize 0.
    induction Hok as [|j js Hj _ IH]; intros z Hz; simpl; [done|]. apply IH.
    destruct j; simpl in Hj; try done. destruct (atoi lit); simpl in Hj |- *; [|done]. lia.
Qed.

Lemma int_law : codec_law int_codec is_int 0.
Proof. apply number_law; [done|]. intros. apply atoi_itoa. Qed.

Lemma uint64_law : codec_law uint64_codec is_uint64 0.
Proof. apply number_law; [done|]. intros z Hz. apply atou_nonneg. lia. Qed.

Lemma uint8_law : codec_law uint8_codec (fun z => 0 <= z <= 255) 0.
Proof. apply number_law; [done|]. intros z Hz. apply atou_nonneg. lia. Qed.

Lemma bool_law : codec_law bool_codec (fun _ => True) 0.
Proof. by split. Qed.

Lemma coerce_valid s : utf8_valid s -> coerce s = s.
Proof. apply of_runes_to_runes. Qed.

Lemma utf8_valid_nil : utf8_valid [].
Proof. by exists []. Qed.

Lemma string_law : codec_law string_codec utf8_valid 0.
Proof.
  split; simpl; [done|done|intros a; apply coerce_valid|].
  intros js Hc _. generalize utf8_valid_nil. generalize (@nil Byte.byte).
  induction Hc as [|j js Hj _ IH]; intros s Hs; simpl; [done|]. apply IH. by destruct j.
Qed.

(** ** Slices *)

Lemma write_cells_Forall (P : list json -> Prop) (Q : json -> Prop) xs cs :
  P [] -> (forall c x, P c -> Q x -> P (c ++ [x])) ->
  Forall Q xs -> Forall P cs -> Forall P (write_cells xs cs).
Proof.
  intros H0 HQ Hxs. revert cs. induction Hxs as [|x xs Hx _ IH]; intros cs Hcs; simpl; [done|].
  constructor; [|by apply IH; destruct Hcs].
  apply HQ; [|done]. by destruct Hcs.
Qed.

Lemma write_cells_nil xs : write_cells xs [] = map (fun x => [x]) xs.
Proof. induction xs as [|x xs IH]; simpl; [done|]. by rewrite <-IH. Qed.

(** A slice that was [nil]. *)
Lemma slice_cells_arr xs : slice_cells [JArr xs] = map (fun x => [x]) xs.
Proof.
  unfold slice_cells. destruct xs as [|x xs]; [done|]. cbn [foldl write_slice cl_len cl_cells].
  rewrite write_cells_nil. apply take_ge. by rewrite length_map.
Qed.

Lemma slice_cells_str s l :
  b64_decode s = Some l -> slice_cells [JStr s] = map (fun b => [JNum (itoa (byteZ b))]) l.
Proof.
  intros H. unfold slice_cells. simpl. rewrite H. apply take_ge. simpl. by rewrite length_map.
Qed.

(** Every value in a cell comes from one of the arrays, or is a byte. *)
Lemma slice_cells_Forall (P : json -> Prop) js :
  Forall (fun j => match j with JArr xs => Forall P xs | _ => True end) js ->
  (forall s, JStr s ∈ js -> forall b, P (JNum (itoa (byteZ b)))) ->
  Forall (Forall P) (slice_cells js).
Proof.
  intros Hjs Hb. unfold slice_cells. apply Forall_take.
  cut (forall c, Forall (Forall P) (cl_cells c) -> Forall (Forall P) (cl_cells (foldl write_slice c js))).
  { intros H. apply H. constructor. }
  revert Hb. induction Hjs as [|j js Hj _ IH]; intros Hb c Hc; simpl; [done|].
  apply IH; [intros s Hs; apply (Hb s); by constructor|].
  destruct j as [| | |s|xs|]; simpl; try constructor.
  - apply Forall_map, Forall_true. intros b. constructor; [|done]. apply (Hb s). by constructor.
  - destruct xs as [|x xs]; [constructor|]. 
    refine (write_cells_Forall (Forall P) P (x :: xs) (cl_cells c) _ _ _ _); [done| |done|done].
    intros. by apply Forall_app; auto.
Qed.

Lemma slice_law {A} (c : Codec A) good depth :
  codec_law c good depth -> codec_law (slice_codec c) (Forall good) (S depth).
Proof.
  intros [Hp Ho Hd Hg]. split.
  - intros l d Hl Hle. destruct l as [|a l]; [done|]. cbn [enc slice_codec].
    apply printable_arr. split; [unfold maxNestingDepth in *; lia|]. apply Forall_map.
    eapply Forall_impl; [exact Hl|]. intros x Hx. apply Hp; [done|]. lia.
  - intros l Hl. destruct l as [|a l]; [done|]. cbn [enc ok slice_codec wire].
    apply forallb_Forall, Forall_map, Forall_map. eapply Forall_impl; [exact Hl|].
    intros x Hx. by apply Ho.
  - intros l Hl. destruct l as [|a l]; [done|]. cbn [enc dec slice_codec wire].
    rewrite slice_cells_arr, !map_map. rewrite <-(map_id (a :: l)) at 2.
    apply map_ext_Forall. eapply Forall_impl; [exact Hl|]. intros x Hx. by apply Hd.
  - intros js Hc Hok. cbn [dec slice_codec]. apply Forall_map.
    apply forallb_Forall in Hok. rewrite Forall_forall in Hc, Hok.
    assert (Forall (Forall (fun j => clean j /\ ok c j = true)) (slice_cells js)) as H.
    { apply slice_cells_Forall.
      - apply Forall_forall. intros j Hj. specialize (Hok j Hj). specialize (Hc j Hj).
        destruct j as [| | | |xs|]; try done. apply clean_arr in Hc.
        cbn [ok slice_codec] in Hok. apply forallb_Forall in Hok. rewrite Forall_forall in Hc, Hok.
        apply Forall_forall. auto.
      - intros s Hs. by apply Hok in Hs. }
    eapply Forall_impl; [exact H|]. intros l Hl. apply Hg.
    + eapply Forall_impl; [exact Hl|]. by intros j [? _].
    + apply forallb_Forall. eapply Forall_impl; [exact Hl|]. by intros j [_ ?].
Qed.

(** ASCII is valid UTF-8. *)
Lemma ascii_valid s : Forall (fun b => byteZ b < 128) s -> utf8_valid s.
Proof.
  intros H. exists (map byteZ s). split.
  - apply Forall_map. eapply Forall_impl; [exact H|]. intros b Hb. apply scalar_iff.
    pose proof (byteZ_range b). simpl in *. lia.
  - induction H as [|b s Hb _ IH]; [done|]. cbn [map]. rewrite of_runes_cons, <-IH.
    pose proof (byteZ_range b). unfold of_rune. rewrite (proj2 (scalar_iff _)) by lia.
    rewrite (proj2 (Z.ltb_lt _ _)) by done. by rewrite Zbyte_byteZ.
Qed.

Lemma b64_encode_ascii s : Forall (fun b => byteZ b < 128) (b64_encode s).
Proof.
  apply b64_encode_Forall; [done|]. intros v Hv. rewrite b64_char_byte by done.
  repeat case_match; lia.
Qed.

Lemma b64_encode_valid s : utf8_valid (b64_encode s).
Proof. apply ascii_valid, b64_encode_ascii. Qed.

Lemma bytes_law : codec_law bytes_codec (fun _ => True) 0.
Proof.
  split.
  - by intros [|b s] d _ _.
  - intros [|b s] _; [done|]. cbn [enc ok bytes_codec wire].
    rewrite coerce_valid by apply b64_encode_valid. rewrite b64_decode_encode.
    by apply bool_decide_eq_true.
  - intros [|b s] _; [done|]. cbn [enc dec bytes_codec wire].
    rewrite coerce_valid by apply b64_encode_valid.
    rewrite (slice_cells_str _ (b :: s)) by apply b64_decode_encode.
    rewrite map_map. rewrite <-(map_id (b :: s)) at 2. apply map_ext. intros x.
    unfold uint8_codec. cbn [dec number number_dec foldl]. unfold number_dec. cbn [foldl].
    pose proof (byteZ_range x). rewrite atou_nonneg by lia. apply Zbyte_byteZ.
  - done.
Qed.

(** ** Structs *)

Lemma values_cons name k j ms :
  values name ((k, j) :: ms) = if same_name k name then j :: values name ms else values name ms.
Proof. unfold values. simpl. by destruct (same_name k name). Qed.

Lemma values_hit name k j ms :
  same_name k name = true -> values name ((k, j) :: ms) = j :: values name ms.
Proof. intros H. by rewrite values_cons, H. Qed.

Lemma values_miss name k j ms :
  same_name k name = false -> values name ((k, j) :: ms) = values name ms.
Proof. intros H. by rewrite values_cons, H. Qed.

Lemma values_app name ms1 ms2 : values name (ms1 ++ ms2) = values name ms1 ++ values name ms2.
Proof. unfold values. by rewrite List.filter_app, map_app. Qed.

Lemma values_Forall (P : json -> Prop) name ms :
  Forall (fun m => P (snd m)) ms -> Forall P (values name ms).
Proof.
  unfold values. induction 1 as [|m ms Hm _ IH]; simpl; [done|]. destruct (same_name _ _); simpl; auto.
Qed.

Lemma fields_ok_app fs ms1 ms2 : fields_ok fs (ms1 ++ ms2) = fields_ok fs ms1 && fields_ok fs ms2.
Proof.
  unfold fields_ok. induction fs as [|f fs IH]; simpl; [done|]. rewrite IH, values_app, forallb_app.
  rewrite <-!andb_assoc. f_equal. rewrite !andb_assoc. f_equal. apply andb_comm.
Qed.

Lemma fields_ok_nil fs : fields_ok fs [] = true.
Proof. unfold fields_ok. by induction fs. Qed.

Lemma members_cons j js :
  members (j :: js) = match j with JObj ms => ms | _ => [] end ++ members js.
Proof. done. Qed.

(** A struct all of whose fields were accepted. *)
Lemma members_ok {A} to fs (build : _ -> A) js :
  forallb (ok (struct_codec to fs build)) js = true -> fields_ok fs (members js) = true.
Proof.
  induction js as [|j js IH]; [by rewrite fields_ok_nil|].
  cbn [forallb]. intros [Hj Hjs]%andb_prop. rewrite members_cons, fields_ok_app, IH by done.
  destruct j; simpl in Hj |- *; rewrite ?fields_ok_nil; try done. by rewrite Hj.
Qed.

Lemma members_clean js : Forall clean js -> Forall (fun m => clean (snd m)) (members js).
Proof.
  induction 1 as [|j js Hj _ IH]; [constructor|]. rewrite members_cons.
  apply Forall_app. split; [|done]. destruct j; try done. by apply clean_obj.
Qed.

Definition field_law {A} (c : Codec A) (good : A -> Prop) (fs : fields) (name : bytes) : Prop :=
  forall ms, Forall (fun m => clean (snd m)) ms -> fields_ok fs ms = true -> good (field c name ms).

Lemma field_good {A} (c : Codec A) good depth fs name :
  codec_law c good depth -> In (name, ok c) fs -> field_law c good fs name.
Proof.
  intros Hc Hin ms Hcl Hok. unfold field. apply (law_good _ _ _ Hc); [by apply values_Forall|].
  unfold fields_ok in Hok. apply forallb_Forall in Hok. rewrite List.Forall_forall in Hok.
  exact (Hok _ Hin).
Qed.

Definition wire_members (ms : list (bytes * json)) : list (bytes * json) :=
  map (fun m => (coerce (fst m), wire (snd m))) ms.

Lemma struct_law {A} to fs (build : _ -> A) good depth :
  (forall a, good a -> Forall (fun m => forall d, Z.of_nat (d + depth) <= maxNestingDepth -> printable d (snd m)) (to a)) ->
  (forall a, good a -> fields_ok fs (wire_members (to a)) = true) ->
  (forall a, good a -> build (wire_members (to a)) = a) ->
  (forall ms, Forall (fun m => clean (snd m)) ms -> fields_ok fs ms = true -> good (build ms)) ->
  codec_law (struct_codec to fs build) good (S depth).
Proof.
  intros Hp Ho Hb Hg. split.
  - intros a d Ha Hd. cbn [enc struct_codec]. apply printable_obj. split; [unfold maxNestingDepth in *; lia|].
    eapply Forall_impl; [by apply Hp|]. intros m Hm. apply Hm. lia.
  - intros a Ha. by apply Ho.
  - intros a Ha. cbn [enc dec struct_codec wire]. unfold members. cbn [map mjoin list_join].
    rewrite app_nil_r. by apply Hb.
  - intros js Hc Hok. apply Hg; [by apply members_clean|]. by eapply members_ok.
Qed.

(** The members of a struct literal are written. *)
Ltac write_members :=
  repeat match goal with
  | |- Forall _ [] => constructor
  | |- Forall _ (_ :: _) => constructor
  | |- Forall _ (_ ++ _) => apply Forall_app; split
  end.

(** Look up the fields of a struct literal. *)
Ltac look_up :=
  unfold wire_members, fields_ok, field; cbn [map fst snd forallb app];
  repeat first [rewrite values_hit by (vm_compute; reflexivity)
               |rewrite values_miss by (vm_compute; reflexivity)];
  change (values ?n []) with (@nil json); cbn [forallb].

(** ** Round trip *)

Lemma Unmarshal_Marshal {A} (c : Codec A) good depth a :
  codec_law c good depth -> Z.of_nat depth <= maxNestingDepth -> good a ->
  Unmarshal c (MarshalAs c a) = Some a.
Proof.
  intros [Hp Ho Hd _] Hle Ha. unfold Unmarshal, MarshalAs.
  rewrite parse_Marshal by (by apply Hp). cbn [mbind option_bind]. by rewrite Ho, Hd.
Qed.

Lemma Unmarshal_good {A} (c : Codec A) good depth s a :
  codec_law c good depth -> Unmarshal c s = Some a -> good a.
Proof.
  intros Hc. unfold Unmarshal. intros (j & Hj & H)%bind_Some. destruct (ok c j) eqn:E; [|done].
  injection H as <-. apply (law_good _ _ _ Hc).
  - constructor; [by eapply parse_clean|done].
  - simpl. by rewrite E.
Qed.

(** What was read once is read from what it is written as. *)
Lemma Unmarshal_again {A} (c : Codec A) good depth s a :
  codec_law c good depth -> Z.of_nat depth <= maxNestingDepth ->
  Unmarshal c s = Some a -> Unmarshal c (MarshalAs c a) = Some a.
Proof. intros Hc Hd H. eapply Unmarshal_Marshal; [done..|]. by eapply Unmarshal_good. Qed.
