(* ===== verification/Wire.v ===== *)
(** * The JSON of the changesets and of the state machine

    The struct tags of [internal/ot/changeset.go] and [internal/fsm/types.go],
    and the codec of Raft's log data, [MarshalEntry] and [UnmarshalEntry]. *)

From S2P Require Import Prelude Utf8 Edit Changeset Apply Cursor Follow Fsm Json Base64 Codec.

Definition key (s : String.string) : bytes := str s.
Arguments key s%_string.

(** ** Changesets *)

Definition OpType_string (t : OpType) : bytes :=
  match t with
  | OpRetain => str "retain"
  | OpInsert => str "insert"
  | OpDelete => str "delete"
  | OpOther t => t
  end.

Definition string_OpType (s : bytes) : OpType :=
  if bool_decide (s = str "retain") then OpRetain
  else if bool_decide (s = str "insert") then OpInsert
  else if bool_decide (s = str "delete") then OpDelete
  else OpOther s.

(** [omitempty] leaves a zero field out. *)
Definition op_members (o : Op) : list (bytes * json) :=
  [(key "op", enc string_codec (OpType_string (op_Type o)))] ++
  (if op_Len o =? 0 then [] else [(key "n", enc int_codec (op_Len o))]) ++
  (if bool_decide (op_Chars o = []) then [] else [(key "chars", enc string_codec (op_Chars o))]).

Definition op_codec : Codec Op :=
  struct_codec op_members
    [(key "op", ok string_codec); (key "n", ok int_codec); (key "chars", ok string_codec)]
    (fun ms => mkOp (string_OpType (field string_codec (key "op") ms))
       (field int_codec (key "n") ms) (field string_codec (key "chars") ms)).

Definition changeset_codec : Codec Changeset :=
  struct_codec
    (fun c => [(key "old_len", enc int_codec (cs_OldLen c));
               (key "new_len", enc int_codec (cs_NewLen c));
               (key "ops", enc (slice_codec op_codec) (cs_Ops c))])
    [(key "old_len", ok int_codec); (key "new_len", ok int_codec);
     (key "ops", ok (slice_codec op_codec))]
    (fun ms => mkChangeset (field int_codec (key "old_len") ms) (field int_codec (key "new_len") ms)
       (field (slice_codec op_codec) (key "ops") ms)).

(** [Changeset.String]. *)
Definition Changeset_String (c : Changeset) : bytes := MarshalAs changeset_codec c.

(** ** The state machine *)

Definition entry_codec : Codec RaftLogEntry :=
  struct_codec
    (fun e => [(key "client_id", enc string_codec (le_ClientID e));
               (key "submission_id", enc int_codec (le_SubmissionID e));
               (key "base_rev", enc int_codec (le_BaseRev e));
               (key "changeset", enc changeset_codec (le_Changeset e))])
    [(key "client_id", ok string_codec); (key "submission_id", ok int_codec);
     (key "base_rev", ok int_codec); (key "changeset", ok changeset_codec)]
    (fun ms => mkEntry (field string_codec (key "client_id") ms)
       (field int_codec (key "submission_id") ms) (field int_codec (key "base_rev") ms)
       (field changeset_codec (key "changeset") ms)).

Definition revision_codec : Codec RevisionRecord :=
  struct_codec
    (fun r => [(key "rev_number", enc int_codec (rr_RevNumber r));
               (key "changeset", enc changeset_codec (rr_Changeset r));
               (key "source", enc string_codec (rr_Source r))])
    [(key "rev_number", ok int_codec); (key "changeset", ok changeset_codec);
     (key "source", ok string_codec)]
    (fun ms => mkRevision (field int_codec (key "rev_number") ms)
       (field changeset_codec (key "changeset") ms) (field string_codec (key "source") ms)).

(** Encoding these types does not fail. *)
Definition MarshalEntry (e : RaftLogEntry) : bytes := MarshalAs entry_codec e.

(** [None] is a non-nil error. *)
Definition UnmarshalEntry (data : bytes) : option RaftLogEntry := Unmarshal entry_codec data.

(** ** Specification: values that survive the encoding *)

Record op_good (o : Op) : Prop := {
  og_type : utf8_valid (OpType_string (op_Type o));
  og_class : string_OpType (OpType_string (op_Type o)) = op_Type o;
  og_len : is_int (op_Len o);
  og_chars : utf8_valid (op_Chars o)
}.

Record changeset_good (c : Changeset) : Prop := {
  cg_old : is_int (cs_OldLen c);
  cg_new : is_int (cs_NewLen c);
  cg_ops : Forall op_good (cs_Ops c)
}.

Record entry_good (e : RaftLogEntry) : Prop := {
  eg_client : utf8_valid (le_ClientID e);
  eg_submission : is_int (le_SubmissionID e);
  eg_base : is_int (le_BaseRev e);
  eg_changeset : changeset_good (le_Changeset e)
}.

Record revision_good (r : RevisionRecord) : Prop := {
  rg_number : is_int (rr_RevNumber r);
  rg_changeset : changeset_good (rr_Changeset r);
  rg_source : utf8_valid (rr_Source r)
}.

(** * Lemmas *)

Lemma string_OpType_class s : string_OpType (OpType_string (string_OpType s)) = string_OpType s.
Proof. unfold string_OpType at 2 3. repeat case_bool_decide; try done. simpl. by unfold string_OpType; rewrite !bool_decide_eq_false_2. Qed.

Lemma OpType_string_class s : OpType_string (string_OpType s) = s.
Proof. unfold string_OpType. by repeat case_bool_decide. Qed.

Lemma depth_le a b : (a <= b)%nat -> forall d, Z.of_nat (d + b) <= maxNestingDepth -> Z.of_nat (d + a) <= maxNestingDepth.
Proof. lia. Qed.

(** One member: of a codec that nests less deep than the struct allows. *)
Ltac member law :=
  let d := fresh "d" in let Hd := fresh "Hd" in
  intros d Hd; cbn [fst snd]; apply (law_printable _ _ _ law); [done|]; lia.

(** One field of a struct that was read. *)
Ltac read_field law Hc Hok :=
  refine (field_good _ _ _ _ _ law _ _ Hc Hok); simpl; repeat first [by left|right].

Lemma op_law : codec_law op_codec op_good 1.
Proof.
  apply struct_law.
  - intros o [Ht _ Hn Hc]. unfold op_members.
    destruct (Z.eqb_spec (op_Len o) 0), (bool_decide_reflect (op_Chars o = [])); write_members;
      first [member string_law|member int_law].
  - intros o [Ht _ Hn Hc]. unfold op_members.
    destruct (Z.eqb_spec (op_Len o) 0), (bool_decide_reflect (op_Chars o = [])); look_up;
      rewrite ?(law_ok _ _ _ string_law), ?(law_ok _ _ _ int_law) by done; done.
  - intros [t n s] [Ht Hcl Hn Hc]. cbn [op_Type op_Len op_Chars] in *.
    unfold op_members. cbn [op_Type op_Len op_Chars].
    destruct (Z.eqb_spec n 0), (bool_decide_reflect (s = [])); look_up;
      rewrite ?(law_dec _ _ _ string_law), ?(law_dec _ _ _ int_law) by done; subst;
      by rewrite Hcl.
  - intros ms Hc Hok. split; simpl.
    + rewrite OpType_string_class. read_field string_law Hc Hok.
    + apply string_OpType_class.
    + read_field int_law Hc Hok.
    + read_field string_law Hc Hok.
Qed.

Definition ops_law := slice_law _ _ _ op_law.

Lemma changeset_law : codec_law changeset_codec changeset_good 3.
Proof.
  apply struct_law.
  - intros c [Ho Hn Hops]. write_members; first [member int_law|member ops_law].
  - intros c [Ho Hn Hops]. look_up. by rewrite !(law_ok _ _ _ int_law), (law_ok _ _ _ ops_law).
  - intros [o n ops] [Ho Hn Hops]. cbn [cs_OldLen cs_NewLen cs_Ops] in *. look_up.
    by rewrite !(law_dec _ _ _ int_law), (law_dec _ _ _ ops_law).
  - intros ms Hc Hok. split; cbn [cs_OldLen cs_NewLen cs_Ops].
    + read_field int_law Hc Hok.
    + read_field int_law Hc Hok.
    + read_field ops_law Hc Hok.
Qed.

Lemma entry_law : codec_law entry_codec entry_good 4.
Proof.
  apply struct_law.
  - intros e [Hc Hs Hb HC]. write_members; first [member string_law|member int_law|member changeset_law].
  - intros e [Hc Hs Hb HC]. look_up.
    by rewrite !(law_ok _ _ _ int_law), (law_ok _ _ _ string_law), (law_ok _ _ _ changeset_law).
  - intros [i s b c] [Hc Hs Hb HC]. cbn [le_ClientID le_SubmissionID le_BaseRev le_Changeset] in *. look_up.
    by rewrite !(law_dec _ _ _ int_law), (law_dec _ _ _ string_law), (law_dec _ _ _ changeset_law).
  - intros ms Hc Hok. split; cbn [le_ClientID le_SubmissionID le_BaseRev le_Changeset].
    + read_field string_law Hc Hok.
    + read_field int_law Hc Hok.
    + read_field int_law Hc Hok.
    + read_field changeset_law Hc Hok.
Qed.

Lemma revision_law : codec_law revision_codec revision_good 4.
Proof.
  apply struct_law.
  - intros r [Hn HC Hs]. write_members; first [member int_law|member string_law|member changeset_law].
  - intros r [Hn HC Hs]. look_up.
    by rewrite (law_ok _ _ _ int_law), (law_ok _ _ _ string_law), (law_ok _ _ _ changeset_law).
  - intros [n c s] [Hn HC Hs]. cbn [rr_RevNumber rr_Changeset rr_Source] in *. look_up.
    by rewrite (law_dec _ _ _ int_law), (law_dec _ _ _ string_law), (law_dec _ _ _ changeset_law).
  - intros ms Hc Hok. split; cbn [rr_RevNumber rr_Changeset rr_Source].
    + read_field int_law Hc Hok.
    + read_field changeset_law Hc Hok.
    + read_field string_law Hc Hok.
Qed.

Lemma MarshalEntry_roundtrip e : entry_good e -> UnmarshalEntry (MarshalEntry e) = Some e.
Proof. by apply (Unmarshal_Marshal entry_codec entry_good 4); [apply entry_law|]. Qed.

Lemma UnmarshalEntry_good data e : UnmarshalEntry data = Some e -> entry_good e.
Proof. apply (Unmarshal_good _ _ _ _ _ entry_law). Qed.

(** ** Concrete values *)

Lemma utf8_valid_compute s : of_runes (to_runes s) = s -> utf8_valid s.
Proof. intros <-. exists (to_runes s). split; [apply to_runes_scalar|done]. Qed.

Ltac good_by_compute :=
  repeat match goal with
  | |- entry_good _ => split; simpl
  | |- changeset_good _ => split; simpl
  | |- op_good _ => split; simpl
  | |- Forall _ [] => apply Forall_nil_2
  | |- Forall _ (_ :: _) => apply Forall_cons_2
  | |- utf8_valid _ => apply utf8_valid_compute; vm_compute; reflexivity
  | |- is_int _ => vm_compute; split; discriminate
  | |- string_OpType _ = _ => vm_compute; reflexivity
  end.
