(* ===== verification/Binary.v ===== *)
(** * Big-endian integers ([encoding/binary])

    What [internal/store/boltstore.go], [internal/raft/inmem.go] and
    [internal/raft/transport.go] use of the standard package: [PutUint64],
    [Uint64], [PutUint32], [Uint32].  The codec round trips, and the byte
    order of the encodings is the order of the numbers, which is what makes
    the sorted keys of the log bucket a sorted log. *)

From S2P Require Import Prelude.

(** The [n] low bytes of [v], most significant first. *)
Fixpoint be_put (n : nat) (v : Z) : bytes :=
  match n with
  | O => []
  | S n => Zbyte (v / 256 ^ Z.of_nat n) :: be_put n v
  end.

(** The number a list of bytes writes in base 256. *)
Fixpoint be_get (b : bytes) : Z :=
  match b with
  | [] => 0
  | x :: b => byteZ x * 256 ^ len b + be_get b
  end.

Definition PutUint64 (v : Z) : bytes := be_put 8 v.
Definition PutUint32 (v : Z) : bytes := be_put 4 v.

(** [Uint64 b] reads [b[7]] first, so it panics on fewer than 8 bytes. *)
Definition Uint64 (b : bytes) : option Z :=
  if 8 <=? len b then Some (be_get (take 8 b)) else None.
Definition Uint32 (b : bytes) : option Z :=
  if 4 <=? len b then Some (be_get (take 4 b)) else None.

(** * Lemmas *)

Lemma be_put_len n v : length (be_put n v) = n.
Proof. induction n; simpl; auto. Qed.

Lemma pow256_pos n : 0 < 256 ^ Z.of_nat n.
Proof. lia. Qed.

Lemma pow256_S n : 256 ^ Z.of_nat (S n) = 256 * 256 ^ Z.of_nat n.
Proof. rewrite Nat2Z.inj_succ, Z.pow_succ_r by lia. done. Qed.

Lemma be_get_range b : 0 <= be_get b < 256 ^ len b.
Proof.
  induction b as [|x b IH]; [done|]. cbn [be_get]. pose proof (byteZ_range x).
  unfold len in *. cbn [length]. rewrite pow256_S. nia.
Qed.

(** Only the low bytes are written. *)
Lemma be_put_mod n v : be_put n (v mod 256 ^ Z.of_nat n) = be_put n v.
Proof.
  assert (forall m, (m <= n)%nat -> be_put m (v mod 256 ^ Z.of_nat n) = be_put m v) as H; [|by apply H].
  intros m. induction m as [|m IH]; intros Hm; [done|]. cbn [be_put]. rewrite IH by lia. f_equal.
  apply byteZ_inj. rewrite !byteZ_Zbyte.
  set (k := 256 ^ Z.of_nat m). assert (0 < k) by apply pow256_pos.
  replace (256 ^ Z.of_nat n) with (k * 256 * 256 ^ Z.of_nat (n - S m)).
  2: { unfold k. rewrite <-Z.mul_assoc, <-pow256_S, <-Z.pow_add_r by lia. f_equal. lia. }
  set (j := 256 ^ Z.of_nat (n - S m)). assert (0 < j) by apply pow256_pos.
  rewrite (Z.rem_mul_r v (k * 256) j), (Z.rem_mul_r v k 256) by lia.
  replace (v mod k + k * ((v / k) mod 256) + k * 256 * ((v / (k * 256)) mod j))
    with (v mod k + ((v / k) mod 256 + 256 * ((v / (k * 256)) mod j)) * k) by lia.
  rewrite Z.div_add, Z.div_small by (try apply Z.mod_pos_bound; lia).
  rewrite Z.add_0_l, Z.mul_comm, Z_mod_plus_full. apply Z.mod_mod. lia.
Qed.

Lemma be_get_put n v : 0 <= v < 256 ^ Z.of_nat n -> be_get (be_put n v) = v.
Proof.
  revert v. induction n as [|n IH]; intros v Hv; [simpl in *; lia|].
  cbn [be_put be_get]. rewrite pow256_S in Hv.
  rewrite <-(be_put_mod n), IH by (apply Z.mod_pos_bound; lia).
  unfold len. rewrite be_put_len. rewrite byteZ_small.
  - pose proof (Z.div_mod v (256 ^ Z.of_nat n)). lia.
  - split; [apply Z.div_pos; lia|]. apply Z.div_lt_upper_bound; lia.
Qed.

Lemma be_put_get b : be_put (length b) (be_get b) = b.
Proof.
  induction b as [|x b IH]; [done|]. cbn [length be_put be_get]. pose proof (be_get_range b) as Hr.
  unfold len in *. f_equal.
  - apply byteZ_inj. rewrite Z.add_comm, Z.div_add, Z.div_small by lia. simpl.
    apply byteZ_small, byteZ_range.
  - rewrite <-be_put_mod, Z.add_comm, Z_mod_plus_full, be_put_mod. exact IH.
Qed.

Lemma Uint64_Put v : is_uint64 v -> Uint64 (PutUint64 v) = Some v.
Proof.
  intros Hv. unfold Uint64, PutUint64. unfold len. rewrite be_put_len. simpl Z.leb. cbn match.
  rewrite take_ge by (by rewrite be_put_len). f_equal. apply be_get_put. int_unfold. simpl. lia.
Qed.

Lemma Uint32_Put v : 0 <= v < 4294967296 -> Uint32 (PutUint32 v) = Some v.
Proof.
  intros Hv. unfold Uint32, PutUint32. unfold len. rewrite be_put_len. simpl Z.leb. cbn match.
  rewrite take_ge by (by rewrite be_put_len). f_equal. apply be_get_put. simpl. lia.
Qed.

Lemma PutUint64_inj a b : is_uint64 a -> is_uint64 b -> PutUint64 a = PutUint64 b -> a = b.
Proof. intros Ha Hb E. apply Uint64_Put in Ha, Hb. congruence. Qed.

Lemma byteZ_ltb a b : (Byte.to_N a <? Byte.to_N b)%N = (byteZ a <? byteZ b).
Proof. unfold byteZ. destruct (N.ltb_spec (Byte.to_N a) (Byte.to_N b)), (Z.ltb_spec (Z.of_N (Byte.to_N a)) (Z.of_N (Byte.to_N b))); done || lia. Qed.

Lemma byteZ_eqb a b : (Byte.to_N a =? Byte.to_N b)%N = (byteZ a =? byteZ b).
Proof. unfold byteZ. destruct (N.eqb_spec (Byte.to_N a) (Byte.to_N b)), (Z.eqb_spec (Z.of_N (Byte.to_N a)) (Z.of_N (Byte.to_N b))); done || lia. Qed.

(** Bytewise order of equally long strings is the order of the numbers. *)
Lemma str_leb_be a b : length a = length b -> str_leb a b = (be_get a <=? be_get b).
Proof.
  revert b. induction a as [|x a IH]; intros [|y b] Hl; try done. injection Hl as Hl.
  cbn [str_leb be_get]. rewrite byteZ_ltb, byteZ_eqb, (IH b Hl).
  pose proof (be_get_range a) as Ha. pose proof (be_get_range b) as Hb. unfold len in *. rewrite Hl in *.
  destruct (Z.ltb_spec (byteZ x) (byteZ y)) as [Hlt|Hge].
  - symmetry. apply Z.leb_le. nia.
  - destruct (Z.eqb_spec (byteZ x) (byteZ y)) as [->|Hne].
    + destruct (Z.leb_spec (be_get a) (be_get b)); symmetry; [apply Z.leb_le|apply Z.leb_gt]; lia.
    + symmetry. apply Z.leb_gt. nia.
Qed.

Lemma str_leb_PutUint64 a b :
  is_uint64 a -> is_uint64 b -> str_leb (PutUint64 a) (PutUint64 b) = (a <=? b).
Proof.
  intros Ha Hb. unfold PutUint64. rewrite str_leb_be by (by rewrite !be_put_len).
  rewrite !be_get_put by (int_unfold; simpl; lia). done.
Qed.
