(* ===== verification/Store.v ===== *)
(** * The stores Raft relies on ([internal/raft/types.go])

    The interfaces [LogStore], [StableStore] and [FSM] as classes of
    operations, and what an implementation promises as classes of laws.  The
    Raft files are proved against these; [Inmem.v] and [Bolt.v] discharge
    them, [Bolt.v] that of truncation under a condition. *)

From S2P Require Import Prelude Binary.

(** ** Data *)

(** [nil] and empty [Data] are one value: the code looks at its length. *)
Record LogEntry : Type := mkLog {
  log_Index : Z;
  log_Term : Z;
  log_Data : bytes
}.

(** Errors of the stores. *)
Inductive error : Type :=
| ErrLogNotFound
| ErrNoEntry (index : Z)
| ErrInvalidUint64
| ErrIO (msg : bytes).

#[export] Instance LogEntry_eq_dec : EqDecision LogEntry.
Proof. solve_decision. Defined.

#[export] Instance error_eq_dec : EqDecision error.
Proof. solve_decision. Defined.

(** A store call that changes the store: the new store and the error. *)
Abbreviation store_call S := (outcome Empty_set (S * option error)).

(** ** Interfaces *)

(** Go's results of several values are pairs: the code uses the value even
    where it ignores the error, and a pointer may be non-nil next to one. *)
Class LogStore (L : Type) : Type := {
  FirstIndex : L -> outcome Empty_set (Z * option error);
  LastIndex : L -> outcome Empty_set (Z * option error);
  GetLog : L -> Z -> outcome Empty_set (option LogEntry * option error);
  StoreLog : L -> LogEntry -> store_call L;
  StoreLogs : L -> list LogEntry -> store_call L;
  DeleteRange : L -> Z -> Z -> store_call L
}.

Class StableStore (S : Type) : Type := {
  SetKey : S -> bytes -> bytes -> store_call S;
  GetKey : S -> bytes -> outcome Empty_set (bytes * option error);
  SetUint64 : S -> bytes -> Z -> store_call S;
  GetUint64 : S -> bytes -> outcome Empty_set (Z * option error)
}.

(** [Apply] of the replicated state machine; [R] is what [interface{}] holds. *)
Class FSM (F R : Type) : Type :=
  FSM_Apply : F -> bytes -> outcome Empty_set (F * R).

Definition KeyCurrentTerm : bytes := str "CurrentTerm".
Definition KeyVotedFor : bytes := str "VotedFor".

(** ** Promises *)

(** A log: entries numbered from 1 without gaps. *)
Definition numbered (l : list LogEntry) : Prop :=
  forall i e, l !! i = Some e -> log_Index e = Z.of_nat i + 1.

(** The terms are machine integers; the indexes of a log are by being small. *)
Definition terms_ok (l : list LogEntry) : Prop := Forall (fun e => is_uint64 (log_Term e)) l.

(** The entry at an index, if the log has it. *)
Definition entry_at (l : list LogEntry) (i : Z) : option LogEntry :=
  if 1 <=? i then l !! Z.to_nat (i - 1) else None.

(** Reads succeed; a write succeeds or leaves the store as it was. *)
Class LogStoreLaws (L : Type) `{!LogStore L} : Type := {
  log_repr : L -> list LogEntry -> Prop;
  repr_numbered s l : log_repr s l -> numbered l;
  repr_small s l : log_repr s l -> len l < MaxUint64;
  repr_terms s l : log_repr s l -> terms_ok l;
  FirstIndex_law s l :
    log_repr s l -> FirstIndex s = Ok (match l with [] => 0 | _ => 1 end, None);
  LastIndex_law s l : log_repr s l -> LastIndex s = Ok (len l, None);
  GetLog_hit s l i e :
    log_repr s l -> entry_at l i = Some e -> GetLog s i = Ok (Some e, None);
  GetLog_miss s l i :
    log_repr s l -> is_uint64 i -> entry_at l i = None ->
    exists p err, GetLog s i = Ok (p, Some err);
  StoreLogs_law s l es :
    log_repr s l -> numbered (l ++ es) -> len (l ++ es) < MaxUint64 -> terms_ok es ->
    exists s' err, StoreLogs s es = Ok (s', err) /\
      log_repr s' (match err with None => l ++ es | Some _ => l end);
  StoreLog_law s e : StoreLog s e = StoreLogs s [e]
}.

(** Taking entries off the end does too. *)
Class LogStoreTruncates (L : Type) `{LogStoreLaws L} : Prop :=
  DeleteRange_law s l lo :
    log_repr s l -> 1 <= lo <= len l ->
    exists s' err, DeleteRange s lo (len l) = Ok (s', err) /\
      log_repr s' (match err with None => take (Z.to_nat (lo - 1)) l | Some _ => l end).

Class StableStoreLaws (S : Type) `{!StableStore S} : Type := {
  stable_repr : S -> gmap bytes bytes -> Prop;
  Set_law s m k v :
    stable_repr s m ->
    exists s' err, SetKey s k v = Ok (s', err) /\
      stable_repr s' (match err with None => <[k := v]> m | Some _ => m end);
  Get_law s m k : stable_repr s m -> GetKey s k = Ok (default [] (m !! k), None);
  SetUint64_law s k v : is_uint64 v -> SetUint64 s k v = SetKey s k (PutUint64 v);
  GetUint64_none s m k : stable_repr s m -> m !! k = None -> GetUint64 s k = Ok (0, None);
  GetUint64_some s m k v :
    stable_repr s m -> is_uint64 v -> m !! k = Some (PutUint64 v) -> GetUint64 s k = Ok (v, None)
}.

(** Stores whose writes do not fail. *)
Class LogStoreReliable (L : Type) `{LogStoreLaws L} : Prop := {
  StoreLogs_reliable s l es s' err :
    log_repr s l -> numbered (l ++ es) -> len (l ++ es) < MaxUint64 -> terms_ok es ->
    StoreLogs s es = Ok (s', err) -> err = None;
  DeleteRange_reliable s l lo s' err :
    log_repr s l -> 1 <= lo <= len l -> DeleteRange s lo (len l) = Ok (s', err) -> err = None
}.

Class StableStoreReliable (S : Type) `{StableStoreLaws S} : Prop :=
  Set_reliable s m k v : stable_repr s m -> exists s', SetKey s k v = Ok (s', None).

(** * Lemmas *)

Lemma entry_at_nat l i : entry_at l (Z.of_nat i + 1) = l !! i.
Proof. unfold entry_at. rewrite (proj2 (Z.leb_le _ _)) by lia. f_equal. lia. Qed.

Lemma entry_at_Some l i e : entry_at l i = Some e -> 1 <= i <= len l.
Proof.
  unfold entry_at. destruct (Z.leb_spec 1 i); [|done].
  intros H0%lookup_lt_Some. unfold len. lia.
Qed.

Lemma entry_at_None l i : entry_at l i = None <-> i < 1 \/ len l < i.
Proof.
  unfold entry_at. destruct (Z.leb_spec 1 i); [|split; auto].
  rewrite lookup_ge_None. unfold len. split; lia.
Qed.

Lemma entry_at_in l i : 1 <= i <= len l -> exists e, entry_at l i = Some e.
Proof.
  intros Hi. destruct (entry_at l i) as [e|] eqn:E; [by exists e|]. apply entry_at_None in E. lia.
Qed.

(** A store stands for one log. *)
Lemma repr_unique `{LogStoreLaws L} (sto : L) l k : log_repr sto l -> log_repr sto k -> l = k.
Proof.
  intros Hl Hk. pose proof (LastIndex_law _ _ Hl) as E. rewrite (LastIndex_law _ _ Hk) in E. injection E as E.
  apply list_eq. intros i. rewrite <-!entry_at_nat. set (j := Z.of_nat i + 1).
  destruct (entry_at l j) as [e|] eqn:El.
  - destruct (entry_at_in k j) as [e' Ek]; [rewrite E; by apply (entry_at_Some _ _ _ El)|].
    pose proof (GetLog_hit _ _ _ _ Hl El) as G. rewrite (GetLog_hit _ _ _ _ Hk Ek) in G. congruence.
  - symmetry. apply entry_at_None. apply entry_at_None in El. lia.
Qed.

Lemma entry_at_index l i e : numbered l -> entry_at l i = Some e -> log_Index e = i.
Proof.
  intros Hn E. pose proof (entry_at_Some _ _ _ E). unfold entry_at in E.
  destruct (Z.leb_spec 1 i); [|done]. rewrite (Hn _ _ E). lia.
Qed.

Lemma entry_at_app_l l k i : i <= len l -> entry_at (l ++ k) i = entry_at l i.
Proof.
  intros. unfold entry_at. destruct (Z.leb_spec 1 i); [|done].
  apply lookup_app_l. unfold len in *. lia.
Qed.

Lemma entry_at_take l n i : 0 <= n -> i <= n -> entry_at (take (Z.to_nat n) l) i = entry_at l i.
Proof.
  intros. unfold entry_at. destruct (Z.leb_spec 1 i); [|done]. apply lookup_take_lt. lia.
Qed.

Lemma entry_at_last l e : entry_at (l ++ [e]) (len l + 1) = Some e.
Proof.
  unfold len. rewrite entry_at_nat, lookup_app_r by lia. by rewrite Nat.sub_diag.
Qed.

Lemma numbered_app l k :
  numbered (l ++ k) <->
  numbered l /\ forall i e, k !! i = Some e -> log_Index e = len l + Z.of_nat i + 1.
Proof.
  split.
  - intros H. split.
    + intros i e E. apply H. by apply lookup_app_l_Some.
    + intros i e E. rewrite (H (length l + i)%nat e); [unfold len; lia|].
      rewrite lookup_app_r by lia. rewrite <-E. f_equal. lia.
  - intros [Hl Hk] i e [E|[Hi E]]%lookup_app_Some; [by apply Hl|].
    rewrite (Hk _ _ E). unfold len. lia.
Qed.

Lemma terms_take l n : terms_ok l -> terms_ok (take n l).
Proof. apply Forall_take. Qed.

Lemma numbered_take l n : numbered l -> numbered (take n l).
Proof. intros H i e [E _]%lookup_take_Some. by apply H. Qed.

Lemma numbered_nil : numbered [].
Proof. by intros i e E. Qed.

Lemma numbered_snoc l e : numbered l -> log_Index e = len l + 1 -> numbered (l ++ [e]).
Proof.
  intros Hl He. apply numbered_app. split; [done|]. intros [|i] e' E; [|done].
  injection E as <-. lia.
Qed.

Lemma len_take {A} (l : list A) n : 0 <= n <= len l -> len (take (Z.to_nat n) l) = n.
Proof. unfold len. intros. rewrite length_take. lia. Qed.
