(* ===== verification/RaftTypes.v ===== *)
(** * Raft: data ([internal/raft/types.go], [config.go], [future.go])

    Roles, messages, the configuration and its validation, and the futures
    that carry a result back to the caller of [Apply]. *)

From S2P Require Import Prelude Store.

(** ** Roles and messages *)

(** [ServerState] is an [int] with three named values; the code stores no other. *)
Inductive ServerState : Type := Follower | Candidate | Leader.

#[export] Instance ServerState_eq_dec : EqDecision ServerState.
Proof. solve_decision. Defined.

Definition ServerState_String (s : ServerState) : bytes :=
  match s with
  | Follower => str "Follower"
  | Candidate => str "Candidate"
  | Leader => str "Leader"
  end.

Record AppendEntriesRequest : Type := mkAppendReq {
  ae_Term : Z;
  ae_LeaderID : bytes;
  ae_PrevLogIndex : Z;
  ae_PrevLogTerm : Z;
  ae_Entries : list LogEntry;
  ae_LeaderCommit : Z
}.

Record AppendEntriesResponse : Type := mkAppendResp {
  ar_Term : Z;
  ar_Success : bool;
  ar_ConflictTerm : Z;
  ar_ConflictIndex : Z
}.

Record RequestVoteRequest : Type := mkVoteReq {
  rv_Term : Z;
  rv_CandidateID : bytes;
  rv_LastLogIndex : Z;
  rv_LastLogTerm : Z
}.

Record RequestVoteResponse : Type := mkVoteResp {
  vr_Term : Z;
  vr_VoteGranted : bool
}.

(** [RPC.Command], an [interface{}], and [RPCResponse]. *)
Inductive Command : Type :=
| CmdAppendEntries (req : AppendEntriesRequest)
| CmdRequestVote (req : RequestVoteRequest)
| CmdUnknown.

Inductive RPCResponse : Type :=
| RespAppendEntries (resp : AppendEntriesResponse)
| RespRequestVote (resp : RequestVoteResponse)
| RespUnknownRPC.

Record PeerConfig : Type := mkPeer {
  pc_ID : bytes;
  pc_Address : bytes
}.

#[export] Instance AppendEntriesResponse_eq_dec : EqDecision AppendEntriesResponse.
Proof. solve_decision. Defined.

#[export] Instance RequestVoteResponse_eq_dec : EqDecision RequestVoteResponse.
Proof. solve_decision. Defined.

(** ** Configuration *)

Record Config (L S F : Type) : Type := mkConfig {
  ServerID : bytes;
  Peers : list PeerConfig;
  HeartbeatInterval : Z;
  ElectionTimeoutMin : Z;
  ElectionTimeoutMax : Z;
  cfg_LogStore : option L;
  cfg_StableStore : option S;
  cfg_FSM : option F
}.
Arguments mkConfig {L S F}.
Arguments ServerID {L S F}.
Arguments Peers {L S F}.
Arguments HeartbeatInterval {L S F}.
Arguments ElectionTimeoutMin {L S F}.
Arguments ElectionTimeoutMax {L S F}.
Arguments cfg_LogStore {L S F}.
Arguments cfg_StableStore {L S F}.
Arguments cfg_FSM {L S F}.

(** [ErrConfigMissingField], by the field it names. *)
Inductive ConfigField : Type :=
| FServerID | FPeers | FLogStore | FStableStore | FFSM | FHeartbeatInterval
| FElectionTimeout | FServerIDNotFound.

(** [time.Millisecond] is a million nanoseconds. *)
Definition Millisecond : Z := 1000000.

Definition DefaultConfig {L S F} : Config L S F :=
  mkConfig [] [] (150 * Millisecond) (1000 * Millisecond) (2000 * Millisecond) None None None.

Definition is_nil {A} (o : option A) : bool := match o with Some _ => false | None => true end.

Definition validate {L S F} (c : Config L S F) : outcome ConfigField unit :=
  if bool_decide (ServerID c = []) then Err FServerID
  else if len (Peers c) =? 0 then Err FPeers
  else if is_nil (cfg_LogStore c) then Err FLogStore
  else if is_nil (cfg_StableStore c) then Err FStableStore
  else if is_nil (cfg_FSM c) then Err FFSM
  else if HeartbeatInterval c <=? 0 then Err FHeartbeatInterval
  else if (ElectionTimeoutMin c <=? 0) || (ElectionTimeoutMax c <=? ElectionTimeoutMin c)
  then Err FElectionTimeout
  else if existsb (fun p => bool_decide (pc_ID p = ServerID c)) (Peers c) then Ok tt
  else Err FServerIDNotFound.

(** The part of [validate] the rest of the code relies on. *)
Lemma validate_Ok {L S F} (c : Config L S F) :
  validate c = Ok tt <->
  ServerID c <> [] /\ (exists p, p ∈ Peers c /\ pc_ID p = ServerID c) /\
  is_Some (cfg_LogStore c) /\ is_Some (cfg_StableStore c) /\ is_Some (cfg_FSM c) /\
  0 < HeartbeatInterval c /\ 0 < ElectionTimeoutMin c < ElectionTimeoutMax c.
Proof.
  assert (existsb (fun p => bool_decide (pc_ID p = ServerID c)) (Peers c) = true <->
    exists p, p ∈ Peers c /\ pc_ID p = ServerID c) as Hx.
  { rewrite existsb_exists. setoid_rewrite bool_decide_eq_true. by setoid_rewrite <-list_elem_of_In. }
  unfold validate. case_bool_decide; [split; [done|by intros (? & _)]|].
  destruct (Z.eqb_spec (len (Peers c)) 0) as [E|E].
  { split; [done|]. intros (_ & (p & Hp & _) & _). apply len_zero in E. rewrite E in Hp.
    by apply elem_of_nil in Hp. }
  destruct (cfg_LogStore c), (cfg_StableStore c), (cfg_FSM c); simpl;
    try (split; [done|]; intros (_ & _ & [? ?] & [? ?] & [? ?] & _); done).
  destruct (Z.leb_spec (HeartbeatInterval c) 0); [split; [done|lia]|].
  destruct (Z.leb_spec (ElectionTimeoutMin c) 0); simpl; [split; [done|lia]|].
  destruct (Z.leb_spec (ElectionTimeoutMax c) (ElectionTimeoutMin c)); [split; [done|lia]|].
  destruct (existsb _ _).
  - split; [|done]. intros _. split_and!; eauto; try lia. by apply Hx.
  - split; [done|]. intros (_ & Hp & _). by apply Hx in Hp.
Qed.

(** ** Futures *)

Inductive RaftErr : Type :=
| ErrNotLeader
| ErrShutdown
| ErrTimeout
| ErrLeaderLost
| ErrStoreLog (e : error).

(** [errCh], a channel of capacity one that [respond] fills at most once, is
    an optional value; [fu_errCh = Some None] is a [nil] error. *)
Record ApplyFuture (R : Type) : Type := mkFuture {
  fu_errCh : option (option RaftErr);
  fu_response : option R
}.
Arguments mkFuture {R}.
Arguments fu_errCh {R}.
Arguments fu_response {R}.

Definition newApplyFuture {R} : ApplyFuture R := mkFuture None None.

(** [respondOnce]: only the first call sets the result. *)
Definition respond {R} (f : ApplyFuture R) (err : option RaftErr) (response : option R)
    : ApplyFuture R :=
  match fu_errCh f with
  | Some _ => f
  | None => mkFuture (Some err) response
  end.

(** [Error]: the result, once there is one; until then the call blocks. *)
Definition Error {R} (f : ApplyFuture R) : option (option RaftErr) := fu_errCh f.
Definition Response {R} (f : ApplyFuture R) : option R := fu_response f.

Definition resolved {R} (f : ApplyFuture R) : Prop := is_Some (fu_errCh f).

Lemma respond_resolved {R} (f : ApplyFuture R) err resp : resolved (respond f err resp).
Proof. unfold resolved, respond. destruct (fu_errCh f) eqn:E; simpl; [rewrite E|]; eauto. Qed.

Lemma respond_again {R} (f : ApplyFuture R) err resp : resolved f -> respond f err resp = f.
Proof. unfold respond. by intros [? ->]. Qed.

(** A queued request: its data and the number of its future. *)
Record applyRequest : Type := mkApplyReq {
  rq_data : bytes;
  rq_future : nat
}.
