(* ===== verification/Messages.v ===== *)
(** * The messages between browser and server ([internal/server/websocket.go])

    The structs of the protocol, their JSON, the envelope they travel in, and
    the texts of the errors a client is told.

    The payload of an envelope is a [json.RawMessage], the text of a value as
    it came; here it is the tree of that text. *)

From S2P Require Import Prelude Utf8 Edit Changeset Apply Cursor Follow Fsm Json Base64 Codec Wire.
From S2P Require Import Binary Store RaftTypes.

(** ** Data *)

Record ConnectMsg : Type := mkConnect {
  cm_ClientID : bytes;
  cm_LastKnownRev : Z
}.

Record SubmitMsg : Type := mkSubmit {
  sm_ClientID : bytes;
  sm_SubmissionID : Z;
  sm_BaseRev : Z;
  sm_Changeset : Changeset
}.

Record ConnectAckMsg : Type := mkConnectAck {
  ca_HeadText : bytes;
  ca_HeadRev : Z;
  ca_CatchUp : list RevisionRecord
}.

Record AckMsg : Type := mkAck { ak_NewRev : Z }.

Record BroadcastMsg : Type := mkBroadcast {
  bm_Changeset : Changeset;
  bm_NewRev : Z
}.

Record RedirectMsg : Type := mkRedirect { rm_LeaderAddr : bytes }.

Record ErrorMsg : Type := mkError {
  em_Code : Z;
  em_Message : bytes
}.

Record Envelope : Type := mkEnvelope {
  env_Type : bytes;
  env_Payload : option json
}.

(** What [send] is called with: a type and a payload, which go together. *)
Inductive ServerMsg : Type :=
| MsgConnectAck (m : ConnectAckMsg)
| MsgAck (m : AckMsg)
| MsgBroadcast (m : BroadcastMsg)
| MsgRedirect (m : RedirectMsg)
| MsgError (m : ErrorMsg).

(** What [readPump] reads: one of the two messages, or something else, which
    it ignores. *)
Inductive ClientMsg : Type :=
| MsgConnect (m : ConnectMsg)
| MsgSubmit (m : SubmitMsg)
| MsgIgnored.

(** ** Codecs *)

Definition connect_codec : Codec ConnectMsg :=
  struct_codec
    (fun m => [(key "client_id", enc string_codec (cm_ClientID m));
               (key "last_known_rev", enc int_codec (cm_LastKnownRev m))])
    [(key "client_id", ok string_codec); (key "last_known_rev", ok int_codec)]
    (fun ms => mkConnect (field string_codec (key "client_id") ms)
       (field int_codec (key "last_known_rev") ms)).

Definition submit_codec : Codec SubmitMsg :=
  struct_codec
    (fun m => [(key "client_id", enc string_codec (sm_ClientID m));
               (key "submission_id", enc int_codec (sm_SubmissionID m));
               (key "base_rev", enc int_codec (sm_BaseRev m));
               (key "changeset", enc changeset_codec (sm_Changeset m))])
    [(key "client_id", ok string_codec); (key "submission_id", ok int_codec);
     (key "base_rev", ok int_codec); (key "changeset", ok changeset_codec)]
    (fun ms => mkSubmit (field string_codec (key "client_id") ms)
       (field int_codec (key "submission_id") ms) (field int_codec (key "base_rev") ms)
       (field changeset_codec (key "changeset") ms)).

Definition connect_ack_codec : Codec ConnectAckMsg :=
  struct_codec
    (fun m => [(key "head_text", enc string_codec (ca_HeadText m));
               (key "head_rev", enc int_codec (ca_HeadRev m));
               (key "catch_up", enc (slice_codec revision_codec) (ca_CatchUp m))])
    [(key "head_text", ok string_codec); (key "head_rev", ok int_codec);
     (key "catch_up", ok (slice_codec revision_codec))]
    (fun ms => mkConnectAck (field string_codec (key "head_text") ms)
       (field int_codec (key "head_rev") ms) (field (slice_codec revision_codec) (key "catch_up") ms)).

Definition ack_codec : Codec AckMsg :=
  struct_codec (fun m => [(key "new_rev", enc int_codec (ak_NewRev m))])
    [(key "new_rev", ok int_codec)]
    (fun ms => mkAck (field int_codec (key "new_rev") ms)).

Definition broadcast_codec : Codec BroadcastMsg :=
  struct_codec
    (fun m => [(key "changeset", enc changeset_codec (bm_Changeset m));
               (key "new_rev", enc int_codec (bm_NewRev m))])
    [(key "changeset", ok changeset_codec); (key "new_rev", ok int_codec)]
    (fun ms => mkBroadcast (field changeset_codec (key "changeset") ms)
       (field int_codec (key "new_rev") ms)).

Definition redirect_codec : Codec RedirectMsg :=
  struct_codec (fun m => [(key "leader_addr", enc string_codec (rm_LeaderAddr m))])
    [(key "leader_addr", ok string_codec)]
    (fun ms => mkRedirect (field string_codec (key "leader_addr") ms)).

Definition error_codec : Codec ErrorMsg :=
  struct_codec
    (fun m => [(key "code", enc int_codec (em_Code m)); (key "message", enc string_codec (em_Message m))])
    [(key "code", ok int_codec); (key "message", ok string_codec)]
    (fun ms => mkError (field int_codec (key "code") ms) (field string_codec (key "message") ms)).

(** A raw message takes any value, and the last one written to it stays. *)
Definition raw_codec : Codec (option json) := mkCodec (default JNull) (fun _ => true) last.

Definition envelope_codec : Codec Envelope :=
  struct_codec
    (fun e => [(key "type", enc string_codec (env_Type e)); (key "payload", enc raw_codec (env_Payload e))])
    [(key "type", ok string_codec); (key "payload", ok raw_codec)]
    (fun ms => mkEnvelope (field string_codec (key "type") ms) (field raw_codec (key "payload") ms)).

(** [json.Unmarshal] of a raw message; an absent one is no JSON at all. *)
Definition UnmarshalRaw {A} (c : Codec A) (raw : option json) : option A :=
  j ← raw; if ok c j then Some (dec c [j]) else None.

(** ** Sending and receiving *)

Definition message_type (m : ServerMsg) : bytes :=
  match m with
  | MsgConnectAck _ => str "CONNECT_ACK"
  | MsgAck _ => str "ACK"
  | MsgBroadcast _ => str "BROADCAST"
  | MsgRedirect _ => str "REDIRECT"
  | MsgError _ => str "ERROR"
  end.

Definition message_payload (m : ServerMsg) : json :=
  match m with
  | MsgConnectAck m => enc connect_ack_codec m
  | MsgAck m => enc ack_codec m
  | MsgBroadcast m => enc broadcast_codec m
  | MsgRedirect m => enc redirect_codec m
  | MsgError m => enc error_codec m
  end.

(** The bytes [send] puts into the channel; encoding these types does not fail. *)
Definition message_bytes (m : ServerMsg) : bytes :=
  MarshalAs envelope_codec (mkEnvelope (message_type m) (Some (message_payload m))).

(** What [readPump] makes of a message, but for what it does with it. *)
Definition read_message (raw : bytes) : ClientMsg :=
  match Unmarshal envelope_codec raw with
  | None => MsgIgnored
  | Some env =>
      if bool_decide (env_Type env = str "CONNECT") then
        match UnmarshalRaw connect_codec (env_Payload env) with
        | Some msg => MsgConnect msg
        | None => MsgIgnored
        end
      else if bool_decide (env_Type env = str "SUBMIT") then
        match UnmarshalRaw submit_codec (env_Payload env) with
        | Some msg => MsgSubmit msg
        | None => MsgIgnored
        end
      else MsgIgnored
  end.

(** ** The texts of errors *)

(** [%d]. *)
Definition fmt_d (z : Z) : bytes := map Zbyte (itoa z).

Definition ValidateErr_Error (e : ValidateErr) : bytes :=
  match e with
  | RetainLenNotPositive n => str "retain len must be positive, got " ++ fmt_d n
  | InsertCharsEmpty => str "insert chars must not be empty"
  | DeleteLenNotPositive n => str "delete len must be positive, got " ++ fmt_d n
  | UnknownOpType t => str "unknown op type: " ++ t
  | OpsConsume consumed oldLen =>
      str "ops consume " ++ fmt_d consumed ++ str " chars but OldLen=" ++ fmt_d oldLen
  | OpsProduce produced newLen =>
      str "ops produce " ++ fmt_d produced ++ str " chars but NewLen=" ++ fmt_d newLen
  end.

(** An error of the database comes with its text. *)
Definition error_Error (e : error) : bytes :=
  match e with
  | ErrLogNotFound => str "raft: log entry not found"
  | ErrNoEntry index => str "log entry " ++ fmt_d index ++ str " not found"
  | ErrInvalidUint64 => str "invalid uint64 value in stable store"
  | ErrIO msg => msg
  end.

Definition RaftErr_Error (e : RaftErr) : bytes :=
  match e with
  | ErrNotLeader => str "raft: not the leader"
  | ErrShutdown => str "raft: server is shutting down"
  | ErrTimeout => str "raft: apply timeout"
  | ErrLeaderLost => str "raft: leadership lost before commit"
  | ErrStoreLog e => str "store log: " ++ error_Error e
  end.

(** ** Specification *)

Record connect_good (m : ConnectMsg) : Prop := {
  cmg_client : utf8_valid (cm_ClientID m);
  cmg_rev : is_int (cm_LastKnownRev m)
}.

Record submit_good (m : SubmitMsg) : Prop := {
  smg_client : utf8_valid (sm_ClientID m);
  smg_submission : is_int (sm_SubmissionID m);
  smg_base : is_int (sm_BaseRev m);
  smg_changeset : changeset_good (sm_Changeset m)
}.

Record connect_ack_good (m : ConnectAckMsg) : Prop := {
  cag_text : utf8_valid (ca_HeadText m);
  cag_rev : is_int (ca_HeadRev m);
  cag_catch_up : Forall revision_good (ca_CatchUp m)
}.

Record broadcast_good (m : BroadcastMsg) : Prop := {
  bmg_changeset : changeset_good (bm_Changeset m);
  bmg_rev : is_int (bm_NewRev m)
}.

Record error_good (m : ErrorMsg) : Prop := {
  emg_code : is_int (em_Code m);
  emg_message : utf8_valid (em_Message m)
}.

Definition message_good (m : ServerMsg) : Prop :=
  match m with
  | MsgConnectAck m => connect_ack_good m
  | MsgAck m => is_int (ak_NewRev m)
  | MsgBroadcast m => broadcast_good m
  | MsgRedirect m => utf8_valid (rm_LeaderAddr m)
  | MsgError m => error_good m
  end.

Definition client_good (m : ClientMsg) : Prop :=
  match m with
  | MsgConnect m => connect_good m
  | MsgSubmit m => submit_good m
  | MsgIgnored => True
  end.

(** The reader at the other end: by the type, the payload. *)
Definition read_server_message (raw : bytes) : option ServerMsg :=
  env ← Unmarshal envelope_codec raw;
  let t := env_Type env in
  let p := env_Payload env in
  if bool_decide (t = str "CONNECT_ACK") then MsgConnectAck <$> UnmarshalRaw connect_ack_codec p
  else if bool_decide (t = str "ACK") then MsgAck <$> UnmarshalRaw ack_codec p
  else if bool_decide (t = str "BROADCAST") then MsgBroadcast <$> UnmarshalRaw broadcast_codec p
  else if bool_decide (t = str "REDIRECT") then MsgRedirect <$> UnmarshalRaw redirect_codec p
  else if bool_decide (t = str "ERROR") then MsgError <$> UnmarshalRaw error_codec p
  else None.

(** The writer at the other end. *)
Definition connect_bytes (m : ConnectMsg) : bytes :=
  MarshalAs envelope_codec (mkEnvelope (str "CONNECT") (Some (enc connect_codec m))).
Definition submit_bytes (m : SubmitMsg) : bytes :=
  MarshalAs envelope_codec (mkEnvelope (str "SUBMIT") (Some (enc submit_codec m))).

(** * Lemmas *)

Lemma connect_law : codec_law connect_codec connect_good 1.
Proof.
  apply struct_law.
  - intros m [Hc Hr]. write_members; first [member string_law|member int_law].
  - intros m [Hc Hr]. look_up. by rewrite (law_ok _ _ _ string_law), (law_ok _ _ _ int_law).
  - intros [i r] [Hc Hr]. cbn [cm_ClientID cm_LastKnownRev] in *. look_up.
    by rewrite (law_dec _ _ _ string_law), (law_dec _ _ _ int_law).
  - intros ms Hc Hok. split; cbn [cm_ClientID cm_LastKnownRev].
    + read_field string_law Hc Hok.
    + read_field int_law Hc Hok.
Qed.

Lemma submit_law : codec_law submit_codec submit_good 4.
Proof.
  apply struct_law.
  - intros m [Hc Hs Hb HC]. write_members; first [member string_law|member int_law|member changeset_law].
  - intros m [Hc Hs Hb HC]. look_up.
    by rewrite !(law_ok _ _ _ int_law), (law_ok _ _ _ string_law), (law_ok _ _ _ changeset_law).
  - intros [i s b c] [Hc Hs Hb HC]. cbn [sm_ClientID sm_SubmissionID sm_BaseRev sm_Changeset] in *. look_up.
    by rewrite !(law_dec _ _ _ int_law), (law_dec _ _ _ string_law), (law_dec _ _ _ changeset_law).
  - intros ms Hc Hok. split; cbn [sm_ClientID sm_SubmissionID sm_BaseRev sm_Changeset].
    + read_field string_law Hc Hok.
    + read_field int_law Hc Hok.
    + read_field int_law Hc Hok.
    + read_field changeset_law Hc Hok.
Qed.

Definition catch_up_law := slice_law _ _ _ revision_law.

Lemma connect_ack_law : codec_law connect_ack_codec connect_ack_good 6.
Proof.
  apply struct_law.
  - intros m [Ht Hr Hc]. write_members; first [member string_law|member int_law|member catch_up_law].
  - intros m [Ht Hr Hc]. look_up.
    by rewrite (law_ok _ _ _ int_law), (law_ok _ _ _ string_law), (law_ok _ _ _ catch_up_law).
  - intros [t r c] [Ht Hr Hc]. cbn [ca_HeadText ca_HeadRev ca_CatchUp] in *. look_up.
    by rewrite (law_dec _ _ _ int_law), (law_dec _ _ _ string_law), (law_dec _ _ _ catch_up_law).
  - intros ms Hc Hok. split; cbn [ca_HeadText ca_HeadRev ca_CatchUp].
    + read_field string_law Hc Hok.
    + read_field int_law Hc Hok.
    + read_field catch_up_law Hc Hok.
Qed.

Lemma ack_law : codec_law ack_codec (fun m => is_int (ak_NewRev m)) 1.
Proof.
  apply struct_law.
  - intros m Hr. write_members. member int_law.
  - intros m Hr. look_up. by rewrite (law_ok _ _ _ int_law).
  - intros [r] Hr. cbn [ak_NewRev] in *. look_up. by rewrite (law_dec _ _ _ int_law).
  - intros ms Hc Hok. cbn [ak_NewRev]. read_field int_law Hc Hok.
Qed.

Lemma broadcast_law : codec_law broadcast_codec broadcast_good 4.
Proof.
  apply struct_law.
  - intros m [Hc Hr]. write_members; first [member int_law|member changeset_law].
  - intros m [Hc Hr]. look_up. by rewrite (law_ok _ _ _ int_law), (law_ok _ _ _ changeset_law).
  - intros [c r] [Hc Hr]. cbn [bm_Changeset bm_NewRev] in *. look_up.
    by rewrite (law_dec _ _ _ int_law), (law_dec _ _ _ changeset_law).
  - intros ms Hc Hok. split; cbn [bm_Changeset bm_NewRev].
    + read_field changeset_law Hc Hok.
    + read_field int_law Hc Hok.
Qed.

Lemma redirect_law : codec_law redirect_codec (fun m => utf8_valid (rm_LeaderAddr m)) 1.
Proof.
  apply struct_law.
  - intros m Ha. write_members. member string_law.
  - intros m Ha. look_up. by rewrite (law_ok _ _ _ string_law).
  - intros [a] Ha. cbn [rm_LeaderAddr] in *. look_up. by rewrite (law_dec _ _ _ string_law).
  - intros ms Hc Hok. cbn [rm_LeaderAddr]. read_field string_law Hc Hok.
Qed.

Lemma error_law : codec_law error_codec error_good 1.
Proof.
  apply struct_law.
  - intros m [Hc Hm]. write_members; first [member string_law|member int_law].
  - intros m [Hc Hm]. look_up. by rewrite (law_ok _ _ _ string_law), (law_ok _ _ _ int_law).
  - intros [c m] [Hc Hm]. cbn [em_Code em_Message] in *. look_up.
    by rewrite (law_dec _ _ _ string_law), (law_dec _ _ _ int_law).
  - intros ms Hc Hok. split; cbn [em_Code em_Message].
    + read_field int_law Hc Hok.
    + read_field string_law Hc Hok.
Qed.

(** ** Envelopes *)

(** An envelope is read as it was written, its payload as it goes over the wire. *)
Lemma envelope_read {A} (c : Codec A) good depth t a :
  codec_law c good depth -> Z.of_nat (S depth) <= maxNestingDepth -> good a -> utf8_valid t ->
  Unmarshal envelope_codec (MarshalAs envelope_codec (mkEnvelope t (Some (enc c a)))) =
    Some (mkEnvelope t (Some (wire (enc c a)))).
Proof.
  intros Hc Hd Ha Ht. unfold Unmarshal, MarshalAs. rewrite parse_Marshal.
  - cbn [mbind option_bind enc envelope_codec struct_codec env_Type env_Payload ok wire].
    cbn [dec envelope_codec struct_codec]. rewrite members_cons. change (members []) with (@nil (bytes * json)). rewrite app_nil_r.
    change (map (fun m => (coerce m.1, wire m.2)) ?l) with (wire_members l).
    look_up. cbn [enc string_codec wire]. cbn [dec string_codec raw_codec foldl last]. rewrite (coerce_valid t Ht). by cbn.
  - cbn [enc envelope_codec struct_codec]. apply printable_obj. split; [done|].
    write_members; cbn [fst snd].
    + done.
    + apply (law_printable _ _ _ Hc); [done|]. lia.
Qed.

Lemma UnmarshalRaw_wire {A} (c : Codec A) good depth a :
  codec_law c good depth -> good a -> UnmarshalRaw c (Some (wire (enc c a))) = Some a.
Proof.
  intros Hc Ha. unfold UnmarshalRaw. cbn [mbind option_bind].
  by rewrite (law_ok _ _ _ Hc), (law_dec _ _ _ Hc).
Qed.

Lemma str_valid s : forallb (fun b => byteZ b <? 128) (str s) = true -> utf8_valid (str s).
Proof.
  intros H%forallb_Forall. apply ascii_valid. eapply Forall_impl; [exact H|]. intros b Hb. simpl in Hb. lia.
Qed.

(** One kind of message, from its law. *)
Ltac travels law :=
  erewrite envelope_read; [|exact law|done|done|by apply str_valid];
  cbn [mbind option_bind env_Type env_Payload];
  repeat first [rewrite bool_decide_false by done|rewrite bool_decide_true by done];
  by rewrite (UnmarshalRaw_wire _ _ _ _ law).

Lemma read_message_connect m : connect_good m -> read_message (connect_bytes m) = MsgConnect m.
Proof. intros Hm. unfold read_message, connect_bytes. travels connect_law. Qed.

Lemma read_message_submit m : submit_good m -> read_message (submit_bytes m) = MsgSubmit m.
Proof. intros Hm. unfold read_message, submit_bytes. travels submit_law. Qed.

Lemma read_server_message_bytes m : message_good m -> read_server_message (message_bytes m) = Some m.
Proof.
  destruct m as [m|m|m|m|m]; intros Hm; unfold read_server_message, message_bytes; cbn [message_type message_payload message_good] in *.
  - travels connect_ack_law.
  - travels ack_law.
  - travels broadcast_law.
  - travels redirect_law.
  - travels error_law.
Qed.

(** The payload of an envelope that was read is the tree of a text. *)
Lemma envelope_clean raw env j :
  Unmarshal envelope_codec raw = Some env -> env_Payload env = Some j -> clean j.
Proof.
  unfold Unmarshal. intros (t & Ht%parse_clean & H)%bind_Some E.
  destruct (ok envelope_codec t); [|done]. injection H as <-. cbn [env_Payload dec envelope_codec struct_codec] in E.
  unfold field in E. cbn [dec raw_codec] in E. apply last_Some_elem_of in E.
  assert (Forall clean (values (key "payload") (members [t]))) as HF
    by (apply values_Forall, members_clean; by constructor).
  rewrite Forall_forall in HF. by apply HF.
Qed.

Lemma UnmarshalRaw_good {A} (c : Codec A) good depth j a :
  codec_law c good depth -> clean j -> UnmarshalRaw c (Some j) = Some a -> good a.
Proof.
  intros Hc Hj. unfold UnmarshalRaw. cbn [mbind option_bind]. destruct (ok c j) eqn:E; [|done].
  intros [= <-]. apply (law_good _ _ _ Hc); [by constructor|]. simpl. by rewrite E.
Qed.

Lemma read_message_good raw : client_good (read_message raw).
Proof.
  unfold read_message. destruct (Unmarshal envelope_codec raw) as [env|] eqn:E; [|done].
  destruct (env_Payload env) as [j|] eqn:Ej.
  - pose proof (envelope_clean raw env j E Ej) as Hcl.
    repeat case_bool_decide; try done; destruct (UnmarshalRaw _ (Some j)) eqn:Em; try done.
    + by apply (UnmarshalRaw_good _ _ _ _ _ connect_law Hcl Em).
    + by apply (UnmarshalRaw_good _ _ _ _ _ submit_law Hcl Em).
  - by repeat case_bool_decide.
Qed.

(** ** Theorems *)

(** C26: the protocol.  With valid strings and integers in range, every
    message of a client is read as it was written, and every message of the server can be read back from the bytes put into
    the client's channel; and whatever bytes a client sends, what is read from
    them has integers in range and valid strings. *)
Theorem messages_roundtrip :
  (forall m, connect_good m -> read_message (connect_bytes m) = MsgConnect m) /\
  (forall m, submit_good m -> read_message (submit_bytes m) = MsgSubmit m) /\
  (forall m, message_good m -> read_server_message (message_bytes m) = Some m) /\
  (forall raw, client_good (read_message raw)).
Proof.
  exact (conj read_message_connect (conj read_message_submit
    (conj read_server_message_bytes read_message_good))).
Qed.

Definition wit_broadcast : ServerMsg :=
  MsgBroadcast (mkBroadcast (mkChangeset 2 3 [Retain 2; Insert (str "x")]) 7).

Lemma messages_witness : read_server_message (message_bytes wit_broadcast) = Some wit_broadcast.
Proof.
  apply (proj1 (proj2 (proj2 messages_roundtrip))).
  cbn [message_good wit_broadcast]. split; good_by_compute.
Defined.
