(* ===== verification/Server.v ===== *)
(** * The WebSocket server ([internal/server/websocket.go])

    The table of connected clients and what the handlers send.  A connection
    gives the messages that [ReadMessage] returns, as bytes, and takes those
    that are put into the client's channel.  What the handlers ask of Raft and
    of the state machine are arguments. *)

From S2P Require Import Prelude Utf8 Edit Changeset Apply Cursor Follow Fsm Json Base64 Codec Wire.
From S2P Require Import Binary Store RaftTypes Messages.

(** ** Data *)

(** [sendCh] is a channel of 256 messages that the read loop closes. *)
Record wsClient : Type := mkClient {
  wc_id : bytes;
  wc_conn : nat;
  wc_sendCh : list bytes;
  wc_closed : bool
}.

(** [clients] holds pointers: positions in [conns]. *)
Record Node : Type := mkServer {
  clients : gmap bytes nat;
  conns : list wsClient
}.

Definition NewNode : Node := mkServer ∅ [].

(** ** Operations *)

(** [send]: drops the message when the channel is full; a send on a closed
    channel panics. *)
Definition send_to (c : wsClient) (m : ServerMsg) : outcome Empty_set wsClient :=
  if wc_closed c then Panic
  else if len (wc_sendCh c) <? 256
  then Ok (mkClient (wc_id c) (wc_conn c) (wc_sendCh c ++ [message_bytes m]) (wc_closed c))
  else Ok c.

Definition send (n : Node) (client : nat) (m : ServerMsg) : outcome Empty_set Node :=
  let! c := or_panic (conns n !! client) in
  let! c := send_to c m in
  Ok (mkServer (clients n) (<[client := c]> (conns n))).

(** What the Raft node says: [IsLeader] and [LeaderAddr]. *)
Record raft_view : Type := mkView {
  v_IsLeader : bool;
  v_LeaderAddr : bytes
}.

(** [handleConnect] up to where it lets go of the lock of the table. *)
Definition register (n : Node) (conn : nat) (msg : ConnectMsg) : Node * nat :=
  (mkServer (<[cm_ClientID msg := length (conns n)]> (clients n))
     (conns n ++ [mkClient (cm_ClientID msg) conn [] false]),
   length (conns n)).

(** The rest of it.  The three reads of the state machine take its lock one
    by one: other commits may fall between them. *)
Definition greet (n : Node) (client : nat) (msg : ConnectMsg) (v : raft_view)
    (sm1 sm2 sm3 : DocumentStateMachine) : outcome Empty_set Node :=
  if negb (v_IsLeader v) && negb (bool_decide (v_LeaderAddr v = [])) then
    send n client (MsgRedirect (mkRedirect (v_LeaderAddr v)))
  else
    let! catchUp := RevisionsSince sm1 (cm_LastKnownRev msg) in
    send n client (MsgConnectAck (mkConnectAck (HeadText sm2) (HeadRev sm3) catchUp)).

Definition handleConnect (n : Node) (conn : nat) (msg : ConnectMsg) (v : raft_view)
    (sm1 sm2 sm3 : DocumentStateMachine) : outcome Empty_set (Node * nat) :=
  let (n, client) := register n conn msg in
  let! n := greet n client msg v sm1 sm2 sm3 in
  Ok (n, client).

(** [propose] is [raftNode.Raft.Apply] and the wait for its future: the error
    it ends with, if any.  The second component is what was proposed. *)
Definition handleSubmit (n : Node) (client : nat) (msg : SubmitMsg) (v : raft_view)
    (propose : bytes -> option RaftErr) : outcome Empty_set (Node * option bytes) :=
  if negb (v_IsLeader v) then
    let! n := send n client (MsgRedirect (mkRedirect (v_LeaderAddr v))) in Ok (n, None)
  else
    match Validate (sm_Changeset msg) with
    | Ok _ =>
        let entry := mkEntry (sm_ClientID msg) (sm_SubmissionID msg) (sm_BaseRev msg)
                       (sm_Changeset msg) in
        let data := MarshalEntry entry in
        match propose data with
        | None => Ok (n, Some data)
        | Some err =>
            let! n := send n client
              (MsgError (mkError 500 (str "raft apply failed: " ++ RaftErr_Error err))) in
            Ok (n, Some data)
        end
    | Err err =>
        let! n := send n client
          (MsgError (mkError 400 (str "invalid changeset: " ++ ValidateErr_Error err))) in
        Ok (n, None)
    | Panic => Panic
    | Diverge => Diverge
    end.

(** The loop over [n.clients]; the order of a map is left open, and does not
    matter ([onCommit_spec]). *)
Fixpoint broadcast (n : Node) (cs : list (bytes * nat)) (result : ApplyResult)
    : outcome Empty_set Node :=
  match cs with
  | [] => Ok n
  | (cid, client) :: cs =>
      if bool_decide (cid = ar_ClientID result) then broadcast n cs result
      else
        let! n := send n client (MsgBroadcast (mkBroadcast (ar_CPrime result) (ar_NewRev result))) in
        broadcast n cs result
  end.

Definition onCommit (n : Node) (result : ApplyResult) : outcome Empty_set Node :=
  let! n :=
    match clients n !! ar_ClientID result with
    | Some origin => send n origin (MsgAck (mkAck (ar_NewRev result)))
    | None => Ok n
    end in
  if ar_IsDuplicate result then Ok n else broadcast n (map_to_list (clients n)) result.

Definition removeClient (n : Node) (clientID : bytes) : Node :=
  mkServer (delete clientID (clients n)) (conns n).

Definition ConnectedClients (n : Node) : Z := Z.of_nat (size (clients n)).

(** The deferred end of [readPump] after [removeClient]; closing a closed
    channel panics. *)
Definition close_client (n : Node) (client : nat) : outcome Empty_set Node :=
  let! c := or_panic (conns n !! client) in
  if wc_closed c then Panic
  else Ok (mkServer (clients n)
             (<[client := mkClient (wc_id c) (wc_conn c) (wc_sendCh c) true]> (conns n))).

(** Where the goroutine of a connection is: reading, with its variable
    [client]; past the registration of a new client; or past the removal of
    its client, which it has yet to close. *)
Inductive pump : Type :=
| Reading (client : option nat)
| Greeting (client : nat) (msg : ConnectMsg)
| Leaving (client : nat).

(** What [ReadMessage] returns: the bytes of a message, or an error, which
    ends the connection.  With a message comes what Raft says to a submission. *)
Inductive read_event : Type :=
| ReadMessage (raw : bytes) (v : raft_view) (propose : bytes -> option RaftErr)
| ReadClosed.

(** A turn of the loop of [readPump], up to where it lets go of the lock;
    no state at all means that the goroutine has ended. *)
Definition readPump (n : Node) (conn : nat) (client : option nat) (ev : read_event)
    : outcome Empty_set (Node * option pump) :=
  match ev with
  | ReadMessage raw v propose =>
      match read_message raw with
      | MsgConnect msg => let (n, c) := register n conn msg in Ok (n, Some (Greeting c msg))
      | MsgSubmit msg =>
          match client with
          | None => Ok (n, Some (Reading client))
          | Some c => let! (n, _) := handleSubmit n c msg v propose in Ok (n, Some (Reading client))
          end
      | MsgIgnored => Ok (n, Some (Reading client))
      end
  | ReadClosed =>
      match client with
      | None => Ok (n, None)
      | Some loc =>
          let! c := or_panic (conns n !! loc) in
          Ok (removeClient n (wc_id c), Some (Leaving loc))
      end
  end.

(** ** Specification *)

(** A message put into a channel that is open. *)
Definition enqueue (c : wsClient) (m : ServerMsg) : wsClient :=
  if len (wc_sendCh c) <? 256
  then mkClient (wc_id c) (wc_conn c) (wc_sendCh c ++ [message_bytes m]) (wc_closed c) else c.

(** Every registered client is open and registered under its own id. *)
Definition table_ok (n : Node) : Prop :=
  forall id loc, clients n !! id = Some loc ->
    exists c, conns n !! loc = Some c /\ wc_id c = id /\ wc_closed c = false.

(** What a commit is to a connection. *)
Definition delivered (n : Node) (result : ApplyResult) (loc : nat) (c : wsClient) : wsClient :=
  if bool_decide (clients n !! wc_id c = Some loc) then
    if bool_decide (wc_id c = ar_ClientID result) then enqueue c (MsgAck (mkAck (ar_NewRev result)))
    else if ar_IsDuplicate result then c
    else enqueue c (MsgBroadcast (mkBroadcast (ar_CPrime result) (ar_NewRev result)))
  else c.

(** The server with the goroutines of its connections. *)
Record World : Type := mkWorld {
  w_node : Node;
  w_pumps : gmap nat pump
}.

(** Which critical section runs next: a connection opens, reads, greets the
    client it has registered, closes the one it has removed; a commit is
    announced; a message is written out. *)
Inductive server_event : Type :=
| SvOpen (conn : nat)
| SvRead (conn : nat) (ev : read_event)
| SvGreet (conn : nat) (v : raft_view) (sm1 sm2 sm3 : DocumentStateMachine)
| SvClose (conn : nat)
| SvCommit (result : ApplyResult)
| SvWrite (client : nat).

(** [writePump] takes a message out of the channel. *)
Definition written (n : Node) (client : nat) : Node :=
  mkServer (clients n)
    (alter (fun c => mkClient (wc_id c) (wc_conn c) (tail (wc_sendCh c)) (wc_closed c)) client (conns n)).

(** An event that the goroutine it names is not at changes nothing. *)
Definition serve (w : World) (e : server_event) : outcome Empty_set World :=
  let n := w_node w in
  let ps := w_pumps w in
  match e with
  | SvOpen conn =>
      match ps !! conn with
      | None => Ok (mkWorld n (<[conn := Reading None]> ps))
      | Some _ => Ok w
      end
  | SvRead conn ev =>
      match ps !! conn with
      | Some (Reading client) =>
          let! (n, p) := readPump n conn client ev in
          Ok (mkWorld n (partial_alter (fun _ => p) conn ps))
      | _ => Ok w
      end
  | SvGreet conn v sm1 sm2 sm3 =>
      match ps !! conn with
      | Some (Greeting client msg) =>
          let! n := greet n client msg v sm1 sm2 sm3 in
          Ok (mkWorld n (<[conn := Reading (Some client)]> ps))
      | _ => Ok w
      end
  | SvClose conn =>
      match ps !! conn with
      | Some (Leaving client) => let! n := close_client n client in Ok (mkWorld n (delete conn ps))
      | _ => Ok w
      end
  | SvCommit result => let! n := onCommit n result in Ok (mkWorld n ps)
  | SvWrite client => Ok (mkWorld (written n client) ps)
  end.

Fixpoint serve_all (w : World) (es : list server_event) : outcome Empty_set World :=
  match es with
  | [] => Ok w
  | e :: es => let! w := serve w e in serve_all w es
  end.

(** The client a goroutine has made. *)
Definition owned (p : pump) : option nat :=
  match p with Reading client => client | Greeting client _ | Leaving client => Some client end.

(** The invariant: the table is good; each goroutine has an open client of
    its own, which is not in the table any more when it is leaving. *)
Record world_ok (w : World) : Prop := {
  wo_table : table_ok (w_node w);
  wo_open : forall k p loc, w_pumps w !! k = Some p -> owned p = Some loc ->
    exists c, conns (w_node w) !! loc = Some c /\ wc_closed c = false;
  wo_own : forall k1 k2 p1 p2 loc, w_pumps w !! k1 = Some p1 -> w_pumps w !! k2 = Some p2 ->
    owned p1 = Some loc -> owned p2 = Some loc -> k1 = k2;
  wo_rev : forall k loc msg, w_pumps w !! k = Some (Greeting loc msg) -> 0 <= cm_LastKnownRev msg;
  wo_left : forall k loc id, w_pumps w !! k = Some (Leaving loc) -> clients (w_node w) !! id <> Some loc
}.

Definition sv_event_ok (e : server_event) : Prop :=
  match e with
  | SvRead _ (ReadMessage raw _ _) =>
      match read_message raw with MsgConnect msg => 0 <= cm_LastKnownRev msg | _ => True end
  | _ => True
  end.

(** * Lemmas *)

Lemma enqueue_id c m : wc_id (enqueue c m) = wc_id c /\ wc_closed (enqueue c m) = wc_closed c.
Proof. unfold enqueue. by destruct (_ <? _). Qed.

Lemma send_ok n loc c m :
  conns n !! loc = Some c -> wc_closed c = false ->
  send n loc m = Ok (mkServer (clients n) (<[loc := enqueue c m]> (conns n))).
Proof.
  intros Hc Ho. unfold send, send_to, enqueue. rewrite Hc. cbn [or_panic obind]. rewrite Ho.
  by destruct (_ <? _).
Qed.

(** Changing a client but for its id and openness keeps the table good. *)
Lemma table_update n loc c c' :
  table_ok n -> conns n !! loc = Some c -> wc_id c' = wc_id c -> wc_closed c' = wc_closed c ->
  table_ok (mkServer (clients n) (<[loc := c']> (conns n))).
Proof.
  intros Ht Hc Hi Ho id l Hl. destruct (Ht id l Hl) as (x & Hx & Hxi & Hxo). simpl in *.
  destruct (decide (l = loc)) as [->|Hne].
  - rewrite list_lookup_insert_eq by (by eapply lookup_lt_Some). exists c'. split; [done|]. split; congruence.
  - rewrite list_lookup_insert_ne by done. by exists x.
Qed.

(** A connection is still there, as open as it was. *)
Definition conns_kept (n n' : Node) : Prop :=
  forall loc c, conns n !! loc = Some c ->
    exists c', conns n' !! loc = Some c' /\ wc_id c' = wc_id c /\ wc_closed c' = wc_closed c.

Lemma kept_refl n : conns_kept n n.
Proof. intros loc c Hc. by exists c. Qed.

Lemma kept_trans a b c : conns_kept a b -> conns_kept b c -> conns_kept a c.
Proof.
  intros H1 H2 loc x Hx. destruct (H1 _ _ Hx) as (y & Hy & ? & ?).
  destruct (H2 _ _ Hy) as (z & Hz & ? & ?). exists z. split_and!; congruence.
Qed.

Lemma kept_insert n loc c c' cl :
  conns n !! loc = Some c -> wc_id c' = wc_id c -> wc_closed c' = wc_closed c ->
  conns_kept n (mkServer cl (<[loc := c']> (conns n))).
Proof.
  intros Hc Hi Ho l x Hx. simpl. destruct (decide (l = loc)) as [->|Hne].
  - rewrite list_lookup_insert_eq by (by eapply lookup_lt_Some). exists c'. split_and!; congruence.
  - rewrite list_lookup_insert_ne by done. by exists x.
Qed.

Lemma send_kept n loc c m :
  table_ok n -> conns n !! loc = Some c -> wc_closed c = false ->
  exists n', send n loc m = Ok n' /\ clients n' = clients n /\ table_ok n' /\ conns_kept n n' /\
    conns n' = <[loc := enqueue c m]> (conns n).
Proof.
  intros Ht Hc Ho. destruct (enqueue_id c m) as [Hi Hcl]. rewrite (send_ok n loc c m Hc Ho).
  eexists. split; [done|]. split_and!; [done|by eapply table_update|by eapply kept_insert|done].
Qed.

Lemma table_distinct n id id' loc :
  table_ok n -> clients n !! id = Some loc -> clients n !! id' = Some loc -> id = id'.
Proof.
  intros Ht H1 H2. destruct (Ht _ _ H1) as (c & E & <- & _). destruct (Ht _ _ H2) as (c' & E' & <- & _).
  congruence.
Qed.

(** The loop over the table reaches everybody in it once. *)
Lemma broadcast_spec cs n result :
  table_ok n -> NoDup cs.*1 -> (forall id loc, (id, loc) ∈ cs -> clients n !! id = Some loc) ->
  exists n', broadcast n cs result = Ok n' /\ clients n' = clients n /\ table_ok n' /\ conns_kept n n' /\
    forall loc c, conns n !! loc = Some c ->
      conns n' !! loc = Some
        (if bool_decide ((wc_id c, loc) ∈ cs /\ wc_id c <> ar_ClientID result)
         then enqueue c (MsgBroadcast (mkBroadcast (ar_CPrime result) (ar_NewRev result))) else c).
Proof.
  set (m := MsgBroadcast _).
  revert n. induction cs as [|[id loc] cs IH]; intros n Ht Hnd Hcs; cbn [broadcast]; fold m.
  { exists n. split; [done|]. split; [done|]. split; [done|]. split; [apply kept_refl|]. intros loc c Hc.
    rewrite bool_decide_false; [done|]. intros [Hin _]. by apply elem_of_nil in Hin. }
  apply NoDup_cons in Hnd as [Hid Hnd]. simpl in Hid.
  assert (forall id' loc', (id', loc') ∈ cs -> clients n !! id' = Some loc') as Hcs'
    by (intros; apply Hcs; by right).
  assert (clients n !! id = Some loc) as Hl by (apply Hcs; left).
  assert (forall c l, (wc_id c, l) ∈ cs -> wc_id c <> id) as Hnot.
  { intros c l Hin E. apply Hid. rewrite <-E. apply list_elem_of_fmap. by exists (wc_id c, l). }
  case_bool_decide as Hsame.
  - destruct (IH n Ht Hnd Hcs') as (n' & E & H1 & H2 & H3 & H4). exists n'. split_and!; try done.
    intros l c Hc. rewrite (H4 l c Hc). f_equal.
    rewrite (bool_decide_ext _ ((wc_id c, l) ∈ (id, loc) :: cs /\ wc_id c <> ar_ClientID result)); [done|].
    rewrite elem_of_cons. split; [tauto|]. intros [[[= ? ?]|Hin] Hne]; [congruence|done].
  - destruct (Ht _ _ Hl) as (c0 & Hc0 & Hi0 & Ho0).
    fold m. destruct (send_kept n loc c0 m Ht Hc0 Ho0) as (n1 & -> & Hcl1 & Ht1 & Hk1 & Hco1). cbn [obind].
    destruct (IH n1 Ht1 Hnd) as (n' & E & H1 & H2 & H3 & H4); [by rewrite Hcl1|].
    exists n'. split_and!; [done|congruence|done|by eapply kept_trans|].
    intros l c Hc. destruct (decide (l = loc)) as [->|Hne].
    + rewrite Hc0 in Hc. injection Hc as <-.
      rewrite (H4 loc (enqueue c0 m)).
      2: { rewrite Hco1. apply list_lookup_insert_eq. by eapply lookup_lt_Some. }
      destruct (enqueue_id c0 m) as [-> _].
      rewrite bool_decide_false; [|by intros [Hin%Hnot _]].
      rewrite bool_decide_true; [done|]. rewrite Hi0. split; [left|done].
    + rewrite (H4 l c); [|by rewrite Hco1, list_lookup_insert_ne by done]. f_equal.
      rewrite (bool_decide_ext _ ((wc_id c, l) ∈ (id, loc) :: cs /\ wc_id c <> ar_ClientID result)); [done|].
      rewrite elem_of_cons. split; [tauto|]. intros [[[= ? ?]|Hin] Hx]; [congruence|done].
Qed.

Lemma onCommit_ok n result :
  table_ok n ->
  exists n', onCommit n result = Ok n' /\ clients n' = clients n /\ table_ok n' /\ conns_kept n n' /\
    forall loc c, conns n !! loc = Some c -> conns n' !! loc = Some (delivered n result loc c).
Proof.
  intros Ht. unfold onCommit.
  assert (exists n1,
    match clients n !! ar_ClientID result with
    | Some origin => send n origin (MsgAck (mkAck (ar_NewRev result)))
    | None => Ok n
    end = Ok n1 /\ clients n1 = clients n /\ table_ok n1 /\ conns_kept n n1 /\
    forall loc c, conns n !! loc = Some c -> conns n1 !! loc = Some
      (if bool_decide (clients n !! wc_id c = Some loc /\ wc_id c = ar_ClientID result)
       then enqueue c (MsgAck (mkAck (ar_NewRev result))) else c)) as (n1 & -> & Hc1 & Ht1 & Hk1 & H1).
  { destruct (clients n !! ar_ClientID result) as [origin|] eqn:Eo.
    - destruct (Ht _ _ Eo) as (c0 & Hc0 & Hi0 & Ho0).
      destruct (send_kept n origin c0 (MsgAck (mkAck (ar_NewRev result))) Ht Hc0 Ho0) as (n1 & -> & H1 & H2 & H3 & H4).
      exists n1. split_and!; try done. intros loc c Hc. rewrite H4. destruct (decide (loc = origin)) as [->|Hne].
      + rewrite list_lookup_insert_eq by (by eapply lookup_lt_Some). rewrite Hc0 in Hc. injection Hc as <-.
        rewrite bool_decide_true; [done|]. by rewrite Hi0.
      + rewrite list_lookup_insert_ne, Hc by done. rewrite bool_decide_false; [done|].
        intros [E1 E2]. rewrite E2 in E1. congruence.
    - exists n. split; [done|]. split; [done|]. split; [done|]. split; [apply kept_refl|].
      intros loc c Hc. rewrite bool_decide_false; [done|]. intros [E1 E2]. congruence. }
  cbn [obind]. unfold delivered. destruct (ar_IsDuplicate result).
  - exists n1. split_and!; try done. intros loc c Hc. rewrite (H1 loc c Hc).
    repeat case_bool_decide; done || tauto.
  - destruct (broadcast_spec (map_to_list (clients n1)) n1 result Ht1) as (n2 & -> & Hc2 & Ht2 & Hk2 & H2).
    { apply NoDup_fst_map_to_list. }
    { intros id loc Hin. by apply elem_of_map_to_list in Hin. }
    exists n2. split_and!; [done|congruence|done|by eapply kept_trans|].
    intros loc c Hc. rewrite (H2 loc _ (H1 loc c Hc)).
    destruct (decide (clients n !! wc_id c = Some loc /\ wc_id c = ar_ClientID result)) as [[Hl Hi]|Hn].
    + rewrite (bool_decide_true (_ /\ wc_id c = _)) by done. destruct (enqueue_id c (MsgAck (mkAck (ar_NewRev result)))) as [Hid _].
      rewrite bool_decide_false by (rewrite Hid; by intros [_ ?]).
      by rewrite (bool_decide_true _ Hl), (bool_decide_true _ Hi).
    + rewrite (bool_decide_false (_ /\ wc_id c = _)) by done.
      rewrite (bool_decide_ext _ (clients n !! wc_id c = Some loc /\ wc_id c <> ar_ClientID result))
        by (by rewrite elem_of_map_to_list, Hc1).
      repeat case_bool_decide; done || tauto.
Qed.

(** What the handlers of one connection do to the table. *)
Lemma register_ok n conn msg :
  table_ok n ->
  table_ok (register n conn msg).1 /\ conns_kept n (register n conn msg).1 /\
  conns (register n conn msg).1 !! length (conns n) = Some (mkClient (cm_ClientID msg) conn [] false).
Proof.
  intros Ht. simpl. assert (forall loc c, conns n !! loc = Some c ->
    (conns n ++ [mkClient (cm_ClientID msg) conn [] false]) !! loc = Some c) as Hold
    by (intros; by apply lookup_app_l_Some).
  assert ((conns n ++ [mkClient (cm_ClientID msg) conn [] false]) !! length (conns n) =
    Some (mkClient (cm_ClientID msg) conn [] false)) as Hnew by (by rewrite lookup_app_r, Nat.sub_diag).
  split; [|split; [|exact Hnew]].
  - intros id loc Hl. simpl in Hl. apply lookup_insert_Some in Hl as [[<- <-]|[_ Hl]]; simpl.
    + rewrite Hnew. by eexists.
    + destruct (Ht _ _ Hl) as (c & Hc & ? & ?). exists c. split; [by apply Hold|done].
  - intros loc c Hc. exists c. split; [by apply Hold|done].
Qed.

Lemma greet_ok n client c msg v sm1 sm2 sm3 :
  table_ok n -> conns n !! client = Some c -> wc_closed c = false -> 0 <= cm_LastKnownRev msg ->
  exists n', greet n client msg v sm1 sm2 sm3 = Ok n' /\ clients n' = clients n /\
    table_ok n' /\ conns_kept n n'.
Proof.
  intros Ht Hc Ho Hr. unfold greet.
  assert (forall m, exists n', send n client m = Ok n' /\ clients n' = clients n /\ table_ok n' /\ conns_kept n n') as Hs.
  { intros m. destruct (send_kept n client c m Ht Hc Ho) as (n' & ? & ? & ? & ? & _). eauto. }
  destruct (negb _ && negb _); [apply Hs|].
  destruct (RevisionsSince_total sm1 (cm_LastKnownRev msg) Hr) as [recs ->]. apply Hs.
Qed.

Lemma handleSubmit_ok n client c msg v propose :
  table_ok n -> conns n !! client = Some c -> wc_closed c = false ->
  exists n' e, handleSubmit n client msg v propose = Ok (n', e) /\ clients n' = clients n /\
    table_ok n' /\ conns_kept n n'.
Proof.
  intros Ht Hc Ho. unfold handleSubmit.
  assert (forall m, exists n', send n client m = Ok n' /\ clients n' = clients n /\ table_ok n' /\ conns_kept n n') as Hs.
  { intros m. destruct (send_kept n client c m Ht Hc Ho) as (n' & ? & ? & ? & ? & _). eauto. }
  destruct (negb (v_IsLeader v)); [destruct (Hs (MsgRedirect (mkRedirect (v_LeaderAddr v)))) as (n' & -> & ?); eauto|].
  destruct (Validate_total (sm_Changeset msg)) as [->|[err ->]].
  - destruct (propose _) as [err|]; [|eexists n, _; eauto using kept_refl].
    destruct (Hs (MsgError (mkError 500 (str "raft apply failed: " ++ RaftErr_Error err)))) as (n' & -> & ?).
    eexists n', _. eauto.
  - destruct (Hs (MsgError (mkError 400 (str "invalid changeset: " ++ ValidateErr_Error err)))) as (n' & -> & ?).
    eexists n', _. eauto.
Qed.

(** A step of the server that keeps the connections, with goroutine [conn]
    going on to [p]. *)
Lemma world_go w n' conn p :
  world_ok w -> table_ok n' -> conns_kept (w_node w) n' ->
  (forall k loc, k <> conn -> w_pumps w !! k = Some (Leaving loc) -> forall id, clients n' !! id <> Some loc) ->
  (forall loc, owned p = Some loc -> exists c, conns n' !! loc = Some c /\ wc_closed c = false) ->
  (forall loc k q, owned p = Some loc -> w_pumps w !! k = Some q -> owned q = Some loc -> k = conn) ->
  (forall loc msg, p = Greeting loc msg -> 0 <= cm_LastKnownRev msg) ->
  (forall loc id, p = Leaving loc -> clients n' !! id <> Some loc) ->
  world_ok (mkWorld n' (<[conn := p]> (w_pumps w))).
Proof.
  intros [Ht Ho Hw Hr Hl] Ht' Hk Hl' Hp Hown Hg Hlv. split; simpl; [done|..].
  - intros k q loc [[_ <-]|[_ Hq]]%lookup_insert_Some Hloc; [by apply Hp|].
    destruct (Ho k q loc Hq Hloc) as (c & Hc & Hcl). destruct (Hk _ _ Hc) as (c' & ? & _ & E).
    exists c'. split; [done|congruence].
  - intros k1 k2 p1 p2 loc [[<- <-]|[_ H1]]%lookup_insert_Some [[<- <-]|[_ H2]]%lookup_insert_Some E1 E2; [done|..].
    + symmetry. by eapply Hown.
    + by eapply Hown.
    + by eapply Hw.
  - intros k loc msg [[_ E]|[_ H]]%lookup_insert_Some; [by eapply Hg|by eapply Hr].
  - intros k loc id [[_ E]|[Hne H]]%lookup_insert_Some; [by apply Hlv|]. by eapply Hl'.
Qed.

(** A step of the server that no goroutine notices. *)
Lemma world_keep w n' :
  world_ok w -> table_ok n' -> clients n' = clients (w_node w) -> conns_kept (w_node w) n' ->
  world_ok (mkWorld n' (w_pumps w)).
Proof.
  intros [Ht Ho Hw Hr Hl] Ht' Hcl Hk. split; simpl; [done| |done|done|].
  - intros k p loc Hp Hloc. destruct (Ho k p loc Hp Hloc) as (c & Hc & Hx).
    destruct (Hk _ _ Hc) as (c' & ? & _ & E). exists c'. split; [done|congruence].
  - intros k loc id Hp. rewrite Hcl. by eapply Hl.
Qed.

(** The goroutine stays with the client it has. *)
Lemma world_stay w n' conn p q :
  world_ok w -> w_pumps w !! conn = Some q -> owned p = owned q ->
  match p with Reading _ => True | _ => False end ->
  table_ok n' -> clients n' = clients (w_node w) -> conns_kept (w_node w) n' ->
  world_ok (mkWorld n' (<[conn := p]> (w_pumps w))).
Proof.
  intros Hok Hq Hown Hp Ht' Hcl Hk. pose proof Hok as [Ht Ho Hw Hr Hl].
  apply world_go; [done|done|done|..].
  - intros k loc _ Hlv id. rewrite Hcl. by eapply Hl.
  - intros loc E. rewrite Hown in E. destruct (Ho _ _ _ Hq E) as (c & Hc & Hx).
    destruct (Hk _ _ Hc) as (c' & ? & _ & Ex). exists c'. split; [done|congruence].
  - intros loc k r E Hk' Er. rewrite Hown in E. by eapply Hw.
  - intros loc msg ->. done.
  - intros loc id ->. done.
Qed.

Lemma written_kept n client : table_ok n -> table_ok (written n client) /\ conns_kept n (written n client).
Proof.
  intros Ht. assert (conns_kept n (written n client)) as Hk.
  { intros loc c Hc. simpl. destruct (decide (loc = client)) as [->|Hne].
    - rewrite list_lookup_alter_eq, Hc. by eexists.
    - rewrite list_lookup_alter_ne by done. by exists c. }
  split; [|done]. intros id loc Hl. destruct (Ht id loc Hl) as (c & Hc & <- & Hcl).
  destruct (Hk _ _ Hc) as (c' & ? & ? & ?). exists c'. split_and!; congruence.
Qed.

(** A new connection's client is a new one. *)
Lemma register_go w conn msg :
  world_ok w -> 0 <= cm_LastKnownRev msg ->
  world_ok (mkWorld (register (w_node w) conn msg).1
    (<[conn := Greeting (register (w_node w) conn msg).2 msg]> (w_pumps w))).
Proof.
  intros Hok Hr. pose proof Hok as [Ht Ho Hw _ Hl].
  assert (forall k q loc, w_pumps w !! k = Some q -> owned q = Some loc -> loc <> length (conns (w_node w))) as Hfresh.
  { intros k q loc Hq E. destruct (Ho _ _ _ Hq E) as (c & Hc & _). apply lookup_lt_Some in Hc. lia. }
  destruct (register_ok (w_node w) conn msg Ht) as (Ht' & Hk & Hnew).
  apply world_go; [done|done|done|..].
  - intros k loc _ Hlv id. simpl. intros [[_ E]|[_ E]]%lookup_insert_Some; [|by eapply Hl].
    by apply (Hfresh k _ loc Hlv).
  - intros loc [= <-]. by eexists.
  - intros loc k q [= <-] Hq E. by destruct (Hfresh _ _ _ Hq E).
  - by intros loc m [= <- <-].
  - done.
Qed.

(** A connection that ends takes its client out of the table ... *)
Lemma remove_go w conn loc c :
  world_ok w -> w_pumps w !! conn = Some (Reading (Some loc)) -> conns (w_node w) !! loc = Some c ->
  world_ok (mkWorld (removeClient (w_node w) (wc_id c)) (<[conn := Leaving loc]> (w_pumps w))).
Proof.
  intros Hok Hp Hc. pose proof Hok as [Ht Ho Hw Hr Hl].
  apply world_go; simpl; [done|..].
  - intros id l Hid. simpl in Hid. apply lookup_delete_Some in Hid as [_ Hid]. by apply Ht.
  - intros l x Hx. by exists x.
  - intros k l _ Hlv id [_ Hid]%lookup_delete_Some. by eapply Hl.
  - intros l [= <-]. by apply (Ho conn _ loc Hp).
  - intros l k q [= <-] Hq E. by eapply Hw.
  - done.
  - intros l id [= <-] [Hne Hid]%lookup_delete_Some. destruct (Ht _ _ Hid) as (c' & Hc' & Hi & _).
    congruence.
Qed.

(** ... and then closes it: nobody else has it. *)
Lemma close_go w conn loc :
  world_ok w -> w_pumps w !! conn = Some (Leaving loc) ->
  exists n', close_client (w_node w) loc = Ok n' /\ world_ok (mkWorld n' (delete conn (w_pumps w))).
Proof.
  intros [Ht Ho Hw Hr Hl] Hp. destruct (Ho conn _ loc Hp eq_refl) as (c & Hc & Hcl). unfold close_client.
  rewrite Hc. cbn [or_panic obind]. rewrite Hcl. eexists. split; [done|]. split; simpl.
  - intros id l Hid. simpl in *. destruct (Ht _ _ Hid) as (c' & Hc' & Hi' & Ho').
    rewrite list_lookup_insert_ne; [by exists c'|]. intros ->. by eapply Hl.
  - intros k p l [Hne Hk]%lookup_delete_Some E. destruct (Ho _ _ _ Hk E) as (c' & Hc' & Ho').
    rewrite list_lookup_insert_ne; [by exists c'|]. intros ->. apply Hne. by eapply (Hw conn k).
  - intros k1 k2 p1 p2 l [_ H1]%lookup_delete_Some [_ H2]%lookup_delete_Some. by eapply Hw.
  - intros k l msg [_ H]%lookup_delete_Some. by eapply Hr.
  - intros k l id [_ H]%lookup_delete_Some. by eapply Hl.
Qed.

Lemma readPump_go w conn client ev :
  world_ok w -> w_pumps w !! conn = Some (Reading client) -> sv_event_ok (SvRead conn ev) ->
  exists n' p, readPump (w_node w) conn client ev = Ok (n', p) /\
    world_ok (mkWorld n' (partial_alter (fun _ => p) conn (w_pumps w))).
Proof.
  intros Hok Hp He. pose proof Hok as [Ht Ho Hw Hr Hl].
  assert (forall n', table_ok n' -> clients n' = clients (w_node w) -> conns_kept (w_node w) n' ->
    world_ok (mkWorld n' (<[conn := Reading client]> (w_pumps w)))) as Hstay
    by (intros; by eapply world_stay).
  destruct ev as [raw v propose|]; cbn [readPump sv_event_ok] in He |- *.
  - destruct (read_message raw) as [msg|msg|]; [..|eexists _, _; split; [done|]; by apply Hstay; [..|apply kept_refl]].
    { eexists _, _. split; [done|]. by apply (register_go w conn msg). }
    destruct client as [c|]; [|eexists _, _; split; [done|]; by apply Hstay; [..|apply kept_refl]].
    destruct (Ho _ _ c Hp eq_refl) as (x & Hx & Hcl).
    destruct (handleSubmit_ok (w_node w) c x msg v propose Ht Hx Hcl) as (n' & e & -> & ? & ? & ?).
    cbn [obind]. eexists _, _. split; [done|]. by apply Hstay.
  - destruct client as [loc|].
    + destruct (Ho _ _ loc Hp eq_refl) as (x & Hx & _). rewrite Hx. cbn [or_panic obind].
      eexists _, _. split; [done|]. by apply remove_go.
    + eexists _, _. split; [done|]. split; simpl; [done|..].
      * intros k p l [_ H]%lookup_delete_Some. by eapply Ho.
      * intros k1 k2 p1 p2 l [_ H1]%lookup_delete_Some [_ H2]%lookup_delete_Some. by eapply Hw.
      * intros k l msg [_ H]%lookup_delete_Some. by eapply Hr.
      * intros k l id [_ H]%lookup_delete_Some. by eapply Hl.
Qed.

Lemma serve_ok w e :
  world_ok w -> sv_event_ok e -> exists w', serve w e = Ok w' /\ world_ok w'.
Proof.
  intros Hok He. pose proof Hok as [Ht Ho Hw Hr Hl]. destruct e as [conn|conn ev|conn v sm1 sm2 sm3|conn|result|client]; simpl.
  - destruct (w_pumps w !! conn) eqn:E; [by eexists|]. eexists. split; [done|].
    apply world_go; [done|done|apply kept_refl|intros k loc _ Hlv id; by eapply Hl|done..].
  - destruct (w_pumps w !! conn) as [[client| |]|] eqn:E; try by eexists.
    destruct (readPump_go w conn client ev Hok E He) as (n' & p & -> & Hok'). cbn [obind]. by eexists.
  - destruct (w_pumps w !! conn) as [[|client msg|]|] eqn:E; try by eexists.
    destruct (Ho _ _ client E eq_refl) as (c & Hc & Hcl).
    destruct (greet_ok (w_node w) client c msg v sm1 sm2 sm3 Ht Hc Hcl (Hr _ _ _ E)) as (n' & -> & ? & ? & ?).
    cbn [obind]. eexists. split; [done|]. by eapply world_stay.
  - destruct (w_pumps w !! conn) as [[| |client]|] eqn:E; try by eexists.
    destruct (close_go w conn client Hok E) as (n' & -> & Hok'). cbn [obind]. by eexists.
  - destruct (onCommit_ok (w_node w) result Ht) as (n' & -> & ? & Ht' & Hk & _). cbn [obind].
    eexists. split; [done|]. by apply world_keep.
  - eexists. split; [done|]. destruct (written_kept (w_node w) client Ht). by apply world_keep.
Qed.

(** ** Theorems *)

(** C33: a commit reaches everybody once.  The author of the committed
    submission, if connected here, gets the acknowledgement with the new
    revision, every other registered client the rebased changeset, and for a
    duplicate nobody but the author anything; a client whose channel is full
    misses it; no other connection is touched. *)
Theorem onCommit_spec n result :
  table_ok n ->
  exists n', onCommit n result = Ok n' /\ clients n' = clients n /\ table_ok n' /\
    forall loc c, conns n !! loc = Some c -> conns n' !! loc = Some (delivered n result loc c).
Proof.
  intros Ht. destruct (onCommit_ok n result Ht) as (n' & E & Hc & Ht' & _ & H). exists n'. auto.
Qed.

(** Two clients are connected. *)
Definition wit_server : Node :=
  mkServer (<[str "u1" := 0%nat]> (<[str "u2" := 1%nat]> ∅))
    [mkClient (str "u1") 0 [] false; mkClient (str "u2") 1 [] false].

Lemma wit_table : table_ok wit_server.
Proof.
  intros id loc H. simpl in H. apply lookup_insert_Some in H as [[<- <-]|[_ H]]; [by eexists|].
  apply lookup_insert_Some in H as [[<- <-]|[_ H]]; [by eexists|]. by rewrite lookup_empty in H.
Qed.

Lemma onCommit_witness :
  exists n', onCommit wit_server (mkResult wit_c0 1 (str "u1") false) = Ok n' /\
    conns n' !! 1%nat = Some (delivered wit_server (mkResult wit_c0 1 (str "u1") false) 1 (mkClient (str "u2") 1 [] false)).
Proof.
  destruct (onCommit_spec wit_server (mkResult wit_c0 1 (str "u1") false) wit_table) as (n' & E & _ & _ & H).
  exists n'. split; [exact E|]. apply H. reflexivity.
Defined.

(** C32: the server does not panic.  Whatever connections open, say and end,
    in whatever order with commits and writes: as long as no client names a
    negative revision, no handler sends on a closed channel or closes one
    twice, and every registered client is open. *)
Theorem serve_all_safe w es :
  world_ok w -> Forall sv_event_ok es -> exists w', serve_all w es = Ok w' /\ world_ok w'.
Proof.
  revert w. induction es as [|e es IH]; intros w Hok Hall; simpl; [by eexists|].
  apply Forall_cons in Hall as [He Hall]. destruct (serve_ok w e Hok He) as (w1 & -> & Hok1).
  cbn [obind]. by apply IH.
Qed.

Lemma serve_all_witness :
  exists w', serve_all (mkWorld wit_server ∅) [SvOpen 7; SvCommit (mkResult wit_c0 1 (str "u1") false); SvRead 7 ReadClosed] = Ok w' /\
    world_ok w'.
Proof.
  apply serve_all_safe; [|repeat constructor].
  split; [exact wit_table| | | |]; simpl; intros; by rewrite lookup_empty in *.
Defined.

(** Connecting.  A client that connects to the leader and knows the text
    of its last revision gets, when no commit falls between the three reads,
    the current text and revision and the records that lead there. *)
Theorem handleConnect_catches_up init n conn msg v sm d :
  fsm_inv init sm -> 0 <= cm_LastKnownRev msg -> textAt init sm (Z.to_nat (cm_LastKnownRev msg)) d ->
  v_IsLeader v = true ->
  exists n' client recs c, handleConnect n conn msg v sm sm sm = Ok (n', client) /\
    clients n' !! cm_ClientID msg = Some client /\ conns n' !! client = Some c /\
    wc_sendCh c = [message_bytes (MsgConnectAck (mkConnectAck (headText sm) (headRev sm) recs))] /\
    replay d (changesets recs) = Ok (headText sm).
Proof.
  intros Hinv Hr Hd Hv. destruct (RevisionsSince_ok init sm _ d Hinv Hr Hd) as (recs & E & Hrep & _).
  unfold handleConnect, greet. cbn [register]. rewrite Hv. cbn [negb andb]. rewrite E. cbn [obind].
  set (n1 := mkServer _ _). set (c0 := mkClient (cm_ClientID msg) conn [] false).
  assert (conns n1 !! length (conns n) = Some c0) as Hc0 by (simpl; by rewrite lookup_app_r, Nat.sub_diag).
  rewrite (send_ok n1 _ c0) by done. cbn [obind].
  eexists _, _, recs, _. split; [done|]. simpl. split; [apply lookup_insert_eq|].
  rewrite list_lookup_insert_eq by (rewrite length_app; simpl; lia). by split.
Qed.

Lemma handleConnect_witness :
  exists n' client recs c,
    handleConnect NewNode 0 (mkConnect (str "u2") 0) (mkView true []) wit_fsm wit_fsm wit_fsm = Ok (n', client) /\
    clients n' !! str "u2" = Some client /\ conns n' !! client = Some c /\
    wc_sendCh c = [message_bytes (MsgConnectAck (mkConnectAck (headText wit_fsm) (headRev wit_fsm) recs))] /\
    replay (str "ab") (changesets recs) = Ok (headText wit_fsm).
Proof.
  exact (handleConnect_catches_up (str "ab") NewNode 0 (mkConnect (str "u2") 0) (mkView true []) wit_fsm
    (str "ab") wit_inv ltac:(vm_compute; discriminate) eq_refl eq_refl).
Defined.

Definition reconnect : list server_event :=
  let v := mkView true [] in
  let sm := NewDocumentStateMachine (str "ab") in
  let raw := connect_bytes (mkConnect (str "u1") 0) in
  let hello k := [SvOpen k; SvRead k (ReadMessage raw v (fun _ => None)); SvGreet k v sm sm sm] in
  hello 0%nat ++ hello 1%nat ++
  [SvRead 0 ReadClosed; SvClose 0; SvCommit (mkResult wit_c0 1 (str "u2") false)].

(** A reconnected client is forgotten.  A client reconnects before its
    first connection is noticed to be gone; when that ends, the entry it
    removes from the table is the new connection's, which gets none of the
    following commits. *)
Theorem reconnected_client_forgotten :
  match serve_all (mkWorld NewNode ∅) reconnect with
  | Ok w =>
      map_to_list (clients (w_node w)) = [] /\
      w_pumps w !! 1%nat = Some (Reading (Some 1%nat)) /\
      (wc_sendCh <$> conns (w_node w) !! 1%nat) = Some [message_bytes (MsgConnectAck (mkConnectAck (str "ab") 0 []))]
  | _ => False
  end.
Proof. by vm_compute. Qed.
