(* ===== verification/Session.v ===== *)
(** * From a browser's bytes to the log ([internal/server/websocket.go])

    What becomes of a message that a client submits: the answer it gets, and
    the data that goes into Raft's log and comes out of it at every replica. *)

From S2P Require Import Prelude Utf8 Edit Changeset Apply Cursor Follow Fsm Json Base64 Codec Wire.
From S2P Require Import Binary Store RaftTypes Messages Server.

(** ** Specification *)

(** The server after it has put a message, or none, into a client's channel. *)
Definition answered (n : Node) (client : nat) (c : wsClient) (answer : option ServerMsg) : Node :=
  match answer with
  | None => n
  | Some m => mkServer (clients n) (<[client := enqueue c m]> (conns n))
  end.

Definition submitted (msg : SubmitMsg) : RaftLogEntry :=
  mkEntry (sm_ClientID msg) (sm_SubmissionID msg) (sm_BaseRev msg) (sm_Changeset msg).

(** The length of a text in JavaScript: characters beyond the first 65536
    count twice. *)
Definition units (r : Z) : Z := if r <? 65536 then 1 else 2.
Definition utf16_len (s : bytes) : Z := foldr (fun r n => units r + n) 0 (to_runes s).

(** What the browser submits when [s] is typed after the text [t]. *)
Definition typed (t s : bytes) : Changeset :=
  mkChangeset (utf16_len t) (utf16_len t + utf16_len s) [Retain (utf16_len t); Insert s].

(** * Lemmas *)

Lemma submitted_good raw msg : read_message raw = MsgSubmit msg -> entry_good (submitted msg).
Proof. intros E. pose proof (read_message_good raw) as H. rewrite E in H. by destruct H. Qed.

(** A character is as many bytes as units only if it is ASCII. *)
Lemma units_of_rune r :
  scalar r = true -> 128 <= r -> 0 < units r < len (of_rune r) /\ is_ascii (of_rune r) = false.
Proof.
  intros Hr Hge. unfold of_rune, units. rewrite Hr, (proj2 (Z.ltb_ge r 128)) by done.
  apply scalar_iff in Hr. unfold is_ascii.
  assert (forall b l, 128 <= byteZ b -> forallb (fun b => byteZ b <? 128) (b :: l) = false) as Hb.
  { intros b l H. cbn [forallb]. by rewrite (proj2 (Z.ltb_ge _ _)). }
  assert (forall z b, 0 <= b < 128 -> z = 128 + b -> 128 <= byteZ (Zbyte z)) as Hz
    by (intros; rewrite byteZ_small; lia).
  destruct (Z.ltb_spec r 65536), (Z.ltb_spec r 2048); try lia; (split; [unfold len; cbn [length]; lia|apply Hb]).
  - apply (Hz _ (64 + r / 64)); Z.to_euclidean_division_equations; lia.
  - apply (Hz _ (96 + r / 4096)); Z.to_euclidean_division_equations; lia.
  - apply (Hz _ (112 + r / 262144)); Z.to_euclidean_division_equations; lia.
Qed.

Lemma utf16_len_of_runes rs :
  Forall (fun r => scalar r = true) rs ->
  0 <= utf16_len (of_runes rs) <= len (of_runes rs) /\
  (utf16_len (of_runes rs) = len (of_runes rs) <-> is_ascii (of_runes rs) = true).
Proof.
  intros Hrs. unfold utf16_len. rewrite to_runes_of_runes by done.
  induction Hrs as [|r rs Hr Hrs [IHl IHe]]; [done|].
  rewrite of_runes_cons. cbn [foldr]. autorewrite with len. unfold is_ascii in *. rewrite forallb_app, andb_true_iff.
  destruct (Z.ltb_spec r 128).
  - assert (len (of_rune r) = 1 /\ forallb (fun b => byteZ b <? 128) (of_rune r) = true) as [-> ->].
    { rewrite of_rune_ascii by done. apply scalar_iff in Hr. split; [done|]. cbn [forallb].
      rewrite byteZ_small by lia. lia. }
    assert (units r = 1) as -> by (unfold units; rewrite (proj2 (Z.ltb_lt r 65536)) by lia; done). split; [lia|]. split; [intros E; split; [done|]; apply IHe; lia|]. intros [_ E%IHe]. lia.
  - destruct (units_of_rune r Hr) as [Hu Ha]; [done|]. unfold is_ascii in Ha. rewrite Ha.
    split; [lia|]. split; [lia|]. by intros [? _].
Qed.

Lemma utf16_len_valid s :
  utf8_valid s -> 0 <= utf16_len s <= len s /\ (utf16_len s = len s <-> is_ascii s = true).
Proof. intros (rs & Hrs & ->). by apply utf16_len_of_runes. Qed.

(** A text that the browser types is refused for a character outside ASCII. *)
Lemma Validate_typed t s :
  utf8_valid t -> utf8_valid s -> t <> [] -> s <> [] -> is_int (len t + len s) ->
  Validate (typed t s) =
    if is_ascii s then Ok tt else Err (OpsProduce (utf16_len t + len s) (utf16_len t + utf16_len s)).
Proof.
  intros Ht Hs Hte Hse Hi. destruct (utf16_len_valid t Ht) as [Htl _]. destruct (utf16_len_valid s Hs) as [Hsl He].
  assert (0 < utf16_len t) as Hpos.
  { destruct Ht as (rs & Hrs & ->). unfold utf16_len. rewrite to_runes_of_runes by done.
    destruct Hrs as [|r rs Hr Hrs]; [done|]. cbn [foldr].
    destruct (utf16_len_of_runes rs Hrs) as [Hl _]. unfold utf16_len in Hl. rewrite to_runes_of_runes in Hl by done.
    assert (0 < units r) by (unfold units; case_match; lia). lia. }
  assert (0 < len s) by (destruct s; [done|rewrite len_cons; pose proof (len_nonneg s); lia]).
  unfold is_int, MinInt, MaxInt in Hi.
  unfold Validate, typed. cbn [cs_Ops cs_OldLen cs_NewLen validate_ops Retain Insert op_Type op_Len op_Chars].
  rewrite (proj2 (Z.leb_gt _ _)) by lia. rewrite (proj2 (Z.eqb_neq (len s) 0)) by lia.
  cbn [obind]. rewrite Z.add_0_l, !int64_id by (unfold is_int, MinInt, MaxInt; lia).
  rewrite Z.eqb_refl. cbn [negb].
  destruct (is_ascii s) eqn:Ea.
  - by rewrite (proj2 He), Z.eqb_refl.
  - assert (utf16_len s <> len s) by (intros E; by apply He in E).
    by rewrite (proj2 (Z.eqb_neq _ _)) by lia.
Qed.

(** ** Theorems *)

(** C24: a submission, from the bytes of the connection to the log.  A server
    that does not lead redirects the client; an invalid changeset is refused
    with the reason; otherwise the message's fields are proposed as an entry
    whose bytes every replica decodes to just that entry, and the client hears
    from this handler only if Raft reports an error.  Nothing else is proposed
    and no other client is touched. *)
Theorem submission_reaches_log n client c raw msg v propose :
  table_ok n -> conns n !! client = Some c -> wc_closed c = false ->
  read_message raw = MsgSubmit msg ->
  exists answer proposed,
    handleSubmit n client msg v propose = Ok (answered n client c answer, proposed) /\
    table_ok (answered n client c answer) /\
    (v_IsLeader v = false -> answer = Some (MsgRedirect (mkRedirect (v_LeaderAddr v))) /\ proposed = None) /\
    (v_IsLeader v = true -> forall err, Validate (sm_Changeset msg) = Err err ->
       answer = Some (MsgError (mkError 400 (str "invalid changeset: " ++ ValidateErr_Error err))) /\
       proposed = None) /\
    (v_IsLeader v = true -> Validate (sm_Changeset msg) = Ok tt ->
       exists data, proposed = Some data /\ data = MarshalEntry (submitted msg) /\
         entry_good (submitted msg) /\ UnmarshalEntry data = Some (submitted msg) /\
         answer = option_map (fun err => MsgError (mkError 500 (str "raft apply failed: " ++ RaftErr_Error err)))
                    (propose data)).
Proof.
  intros Ht Hc Ho Hr. pose proof (submitted_good raw msg Hr) as Hg.
  assert (forall m, send n client m = Ok (answered n client c (Some m)) /\ table_ok (answered n client c (Some m))) as Hs.
  { intros m. rewrite (send_ok n client c m Hc Ho). split; [done|].
    destruct (enqueue_id c m). by eapply table_update. }
  unfold handleSubmit. destruct (v_IsLeader v); cbn [negb].
  - destruct (Validate_total (sm_Changeset msg)) as [E|[err E]]; rewrite E.
    + fold (submitted msg). destruct (propose (MarshalEntry (submitted msg))) as [err|] eqn:Ep.
      * destruct (Hs (MsgError (mkError 500 (str "raft apply failed: " ++ RaftErr_Error err)))) as [-> ?].
        cbn [obind]. eexists (Some _), _. split; [done|]. split; [done|]. split; [done|]. split; [done|].
        intros _ _. eexists. split_and!; [done|done|done|by apply MarshalEntry_roundtrip|by rewrite Ep].
      * eexists None, _. split; [done|]. split; [done|]. split; [done|]. split; [done|].
        intros _ _. eexists. split_and!; [done|done|done|by apply MarshalEntry_roundtrip|by rewrite Ep].
    + destruct (Hs (MsgError (mkError 400 (str "invalid changeset: " ++ ValidateErr_Error err)))) as [-> ?].
      cbn [obind]. eexists (Some _), _. split; [done|]. split; [done|]. split; [done|]. split; [|done].
      by intros _ ? [= <-].
  - destruct (Hs (MsgRedirect (mkRedirect (v_LeaderAddr v)))) as [-> ?].
    cbn [obind]. eexists (Some _), _. split; [done|]. split; [done|]. by split.
Qed.

Definition wit_submit : SubmitMsg := mkSubmit (str "u1") 1 0 wit_c0.

Lemma submission_reaches_log_witness :
  exists answer proposed,
    handleSubmit wit_server 0 wit_submit (mkView true []) (fun _ => None) =
      Ok (answered wit_server 0 (mkClient (str "u1") 0 [] false) answer, proposed).
Proof.
  destruct (submission_reaches_log wit_server 0 (mkClient (str "u1") 0 [] false) (submit_bytes wit_submit)
    wit_submit (mkView true []) (fun _ => None)) as (answer & proposed & E & _).
  - exact wit_table.
  - reflexivity.
  - reflexivity.
  - vm_compute. reflexivity.
  - exists answer, proposed. exact E.
Defined.

(** Text outside ASCII cannot be typed.  The browser counts the lengths of
    a changeset in UTF-16 code units, [Validate] in bytes; so the changeset of
    a text typed at the end of the document is accepted when the text is
    ASCII, and refused, the server answering with an error, when it is not. *)
Theorem typed_non_ascii_refused n client c msg v propose t s :
  table_ok n -> conns n !! client = Some c -> wc_closed c = false -> v_IsLeader v = true ->
  utf8_valid t -> utf8_valid s -> t <> [] -> is_int (len t + len s) -> is_ascii s = false ->
  sm_Changeset msg = typed t s ->
  handleSubmit n client msg v propose =
    Ok (answered n client c
          (Some (MsgError (mkError 400 (str "invalid changeset: " ++
             ValidateErr_Error (OpsProduce (utf16_len t + len s) (utf16_len t + utf16_len s)))))), None).
Proof.
  intros Ht Hc Ho Hv Htv Hsv Hte Hi Ha Hm. unfold handleSubmit. rewrite Hv, Hm. cbn [negb].
  rewrite Validate_typed, Ha; [|done..|by intros ->|done]. by rewrite (send_ok n client c _ Hc Ho).
Qed.

(** The letter e with an acute accent. *)
Definition e_acute : bytes := [Byte.xc3; Byte.xa9].

Lemma e_acute_valid : utf8_valid e_acute.
Proof. exists [233]. by split; [repeat constructor|]. Qed.

Lemma typed_non_ascii_witness :
  handleSubmit wit_server 0 (mkSubmit (str "u1") 1 0 (typed (str "ab") e_acute)) (mkView true []) (fun _ => None) =
    Ok (answered wit_server 0 (mkClient (str "u1") 0 [] false)
          (Some (MsgError (mkError 400 (str "invalid changeset: ops produce 4 chars but NewLen=3")))), None).
Proof.
  exact (typed_non_ascii_refused wit_server 0 (mkClient (str "u1") 0 [] false)
    (mkSubmit (str "u1") 1 0 (typed (str "ab") e_acute)) (mkView true []) (fun _ => None) (str "ab") e_acute
    wit_table eq_refl eq_refl eq_refl (str_valid "ab" eq_refl) e_acute_valid ltac:(discriminate)
    ltac:(vm_compute; intuition congruence) eq_refl eq_refl).
Defined.

(** An empty changeset is sent as [null].  Two clients delete the whole
    text at once; the rebased changeset of the second has no operations, and
    what the browsers receive has no array of operations but [null]. *)
Theorem empty_changeset_is_null :
  let fsm := NewDocumentStateMachine (str "ab") in
  let gone := mkChangeset 2 0 [Delete 2] in
  match applyEntry fsm (mkEntry (str "u1") 1 0 gone) with
  | Ok a1 =>
      match applyEntry (ap_state a1) (mkEntry (str "u2") 1 0 gone) with
      | Ok a2 =>
          headText (ap_state a2) = [] /\
          (fun r => parse (message_bytes (MsgBroadcast (mkBroadcast (ar_CPrime r) (ar_NewRev r))))) <$> ap_callbacks a2 =
            [Some (JObj [(str "type", JStr (str "BROADCAST"));
               (str "payload", JObj [
                  (str "changeset", JObj [(str "old_len", JNum (ascii "0")); (str "new_len", JNum (ascii "0"));
                                          (str "ops", JNull)]);
                  (str "new_rev", JNum (ascii "2"))])])]
      | _ => False
      end
  | _ => False
  end.
Proof. by vm_compute. Qed.
