(* ===== verification/Browser.v ===== *)
(** * Operational transformation in the browser ([web/client.js])

    The client's own [applyChangeset], [compose], [follow] and
    [diffToChangeset].  A string of the browser is a sequence of UTF-16 code
    units, a number an integer without wrap-around (a double, exact below
    2^53), a changeset an object whose [ops] may be [null], which is what the
    server writes for no operations.  On texts outside ASCII the browser
    counts units and the server bytes; on the bytes of a text, one unit each,
    both compute the same, which is proved here for the loops.  A text that is
    ASCII is such a text: [PageSession.browser_ot_agrees]. *)

From S2P Require Import Prelude Utf8 Edit Changeset Apply Cursor Compose Follow Diff.

(** ** Data *)

Abbreviation jstr := (list Z).

Record JOp : Type := mkJOp {
  jo_op : OpType;
  jo_n : Z;
  jo_chars : jstr
}.

Record JChangeset : Type := mkJChangeset {
  jc_old_len : Z;
  jc_new_len : Z;
  jc_ops : option (list JOp)
}.

(** What is thrown: an error of [applyChangeset], or a property of [null]. *)
Inductive JsErr : Type :=
| JsLength
| JsTypeError.

Abbreviation js A := (outcome JsErr A).

Definition or_throw {A} (o : option A) : js A :=
  match o with Some x => Ok x | None => Err JsTypeError end.

Definition jretain (n : Z) : JOp := mkJOp OpRetain n [].
Definition jinsert (s : jstr) : JOp := mkJOp OpInsert 0 s.
Definition jdelete (n : Z) : JOp := mkJOp OpDelete n [].

(** [s.slice(a, b)]: a negative index counts from the end; none is out of
    range. *)
Definition js_index (n i : Z) : Z := if i <? 0 then Z.max 0 (n + i) else Z.min i n.

Definition js_slice (s : jstr) (a b : Z) : jstr :=
  let a := js_index (len s) a in
  let b := js_index (len s) b in
  take (Z.to_nat (b - a)) (drop (Z.to_nat a) s).

Definition js_slice_from (s : jstr) (a : Z) : jstr := js_slice s a (len s).

(** [s <= t], by code units. *)
Fixpoint js_leb (s t : jstr) : bool :=
  match s, t with
  | [], _ => true
  | _ :: _, [] => false
  | a :: s, b :: t => if a <? b then true else if a =? b then js_leb s t else false
  end.

(** ** Code *)

Definition identity (n : Z) : JChangeset :=
  if n =? 0 then mkJChangeset 0 0 (Some []) else mkJChangeset n n (Some [jretain n]).

Definition isIdentity (cs : JChangeset) : js bool :=
  if negb (jc_old_len cs =? jc_new_len cs) then Ok false
  else if jc_old_len cs =? 0 then Ok true
  else
    let! ops := or_throw (jc_ops cs) in
    Ok match ops with
       | [o] => bool_decide (jo_op o = OpRetain) && (jo_n o =? jc_old_len cs)
       | _ => false
       end.

(** The loop of [applyChangeset]. *)
Fixpoint js_apply_ops (text : jstr) (ops : list JOp) (pos : Z) (result : jstr) : jstr :=
  match ops with
  | [] => result
  | op :: ops =>
      match jo_op op with
      | OpRetain => js_apply_ops text ops (pos + jo_n op) (result ++ js_slice text pos (pos + jo_n op))
      | OpInsert => js_apply_ops text ops pos (result ++ jo_chars op)
      | OpDelete => js_apply_ops text ops (pos + jo_n op) result
      | OpOther _ => js_apply_ops text ops pos result
      end
  end.

Definition applyChangeset (text : jstr) (cs : JChangeset) : js jstr :=
  if negb (jc_old_len cs =? len text) then Err JsLength
  else let! ops := or_throw (jc_ops cs) in Ok (js_apply_ops text ops 0 []).

(** The closures [makeSlice], [peek], [consume], [addOp], which [compose] and
    [follow] both declare.  What [peek] returns and [addOp] pushes are copies. *)
Record JSlice : Type := mkJSlice {
  js_ops : list JOp;
  js_pos : nat;
  js_off : Z
}.

Definition js_trim (off : Z) (op : JOp) : JOp :=
  if decide (jo_op op = OpInsert)
  then mkJOp (jo_op op) (jo_n op) (js_slice_from (jo_chars op) off)
  else mkJOp (jo_op op) (jo_n op - off) (jo_chars op).

Definition js_peek (s : JSlice) : option JOp := js_trim (js_off s) <$> js_ops s !! js_pos s.

Definition js_size (op : JOp) : Z :=
  if decide (jo_op op = OpInsert) then len (jo_chars op) else jo_n op.

(** A turn that does not end the loop moves [pos] forward. *)
Fixpoint js_consume_loop (fuel : nat) (s : JSlice) (n : Z) : JSlice :=
  match fuel with
  | O => s
  | S fuel =>
      if 0 <? n then
        match js_ops s !! js_pos s with
        | None => s
        | Some op =>
            let rem := js_size op - js_off s in
            if rem <=? n then js_consume_loop fuel (mkJSlice (js_ops s) (S (js_pos s)) 0) (n - rem)
            else mkJSlice (js_ops s) (js_pos s) (js_off s + n)
        end
      else s
  end.

Definition js_consume (s : JSlice) (n : Z) : JSlice :=
  js_consume_loop (S (length (js_ops s) - js_pos s)) s n.

Definition js_addOp (ops : list JOp) (op : JOp) : list JOp :=
  match last ops with
  | Some l =>
      if decide (jo_op l = jo_op op) then
        match jo_op op with
        | OpRetain | OpDelete =>
            <[(length ops - 1)%nat := mkJOp (jo_op l) (jo_n l + jo_n op) (jo_chars l)]> ops
        | OpInsert => <[(length ops - 1)%nat := mkJOp (jo_op l) (jo_n l) (jo_chars l ++ jo_chars op)]> ops
        | OpOther _ => ops ++ [op]
        end
      else ops ++ [op]
  | None => ops ++ [op]
  end.

Definition js_insert_of (o : option JOp) : option jstr :=
  match o with
  | Some op => if decide (jo_op op = OpInsert) then Some (jo_chars op) else None
  | None => None
  end.

Definition js_delete_of (o : option JOp) : option Z :=
  match o with
  | Some op => if decide (jo_op op = OpDelete) then Some (jo_n op) else None
  | None => None
  end.

(** The loop of [compose]; [Diverge] is running out of fuel. *)
Fixpoint js_compose_loop (fuel : nat) (a b : JSlice) (ops : list JOp) : js (list JOp) :=
  match fuel with
  | O => Diverge
  | S fuel =>
      let bOp := js_peek b in
      let aOp := js_peek a in
      match js_insert_of bOp with
      | Some chars => js_compose_loop fuel a (js_consume b (len chars)) (js_addOp ops (jinsert chars))
      | None =>
          match js_delete_of aOp with
          | Some n => js_compose_loop fuel (js_consume a n) b (js_addOp ops (jdelete n))
          | None =>
              match aOp, bOp with
              | Some aOp, Some bOp =>
                  let n := Z.min (js_size aOp) (jo_n bOp) in
                  let ops :=
                    match jo_op aOp, jo_op bOp with
                    | OpRetain, OpRetain => js_addOp ops (jretain n)
                    | OpRetain, OpDelete => js_addOp ops (jdelete n)
                    | OpInsert, OpRetain => js_addOp ops (jinsert (js_slice (jo_chars aOp) 0 n))
                    | _, _ => ops
                    end in
                  js_compose_loop fuel (js_consume a n) (js_consume b n) ops
              | _, _ => Ok ops
              end
          end
      end
  end.

Definition js_fuel (A B : list JOp) : nat := S (length A + length B).

Definition compose (A B : JChangeset) : js JChangeset :=
  let! b := or_throw (jc_ops B) in
  let! a := or_throw (jc_ops A) in
  let! ops := js_compose_loop (js_fuel a b) (mkJSlice a 0 0) (mkJSlice b 0 0) [] in
  Ok (mkJChangeset (jc_old_len A) (jc_new_len B) (Some ops)).

(** [addOp] of [follow] also counts [new_len]. *)
Definition js_addOpLen (result : Z * list JOp) (op : JOp) : Z * list JOp :=
  (match jo_op op with
   | OpRetain => result.1 + jo_n op
   | OpInsert => result.1 + len (jo_chars op)
   | _ => result.1
   end, js_addOp result.2 op).

Fixpoint js_follow_loop (fuel : nat) (a b : JSlice) (result : Z * list JOp) : js (Z * list JOp) :=
  match fuel with
  | O => Diverge
  | S fuel =>
      let aOp := js_peek a in
      let bOp := js_peek b in
      match js_insert_of aOp, js_insert_of bOp with
      | Some ac, Some bc =>
          if js_leb ac bc
          then js_follow_loop fuel (js_consume a (len ac)) b (js_addOpLen result (jretain (len ac)))
          else js_follow_loop fuel a (js_consume b (len bc)) (js_addOpLen result (jinsert bc))
      | Some ac, None => js_follow_loop fuel (js_consume a (len ac)) b (js_addOpLen result (jretain (len ac)))
      | None, Some bc => js_follow_loop fuel a (js_consume b (len bc)) (js_addOpLen result (jinsert bc))
      | None, None =>
          match aOp, bOp with
          | Some aOp, Some bOp =>
              let n := Z.min (jo_n aOp) (jo_n bOp) in
              let result :=
                match jo_op aOp, jo_op bOp with
                | OpRetain, OpRetain => js_addOpLen result (jretain n)
                | OpRetain, OpDelete => js_addOpLen result (jdelete n)
                | _, _ => result
                end in
              js_follow_loop fuel (js_consume a n) (js_consume b n) result
          | _, _ => Ok result
          end
      end
  end.

Definition follow (A B : JChangeset) : js JChangeset :=
  let! a := or_throw (jc_ops A) in
  let! b := or_throw (jc_ops B) in
  let! (n, ops) := js_follow_loop (js_fuel a b) (mkJSlice a 0 0) (mkJSlice b 0 0) (0, []) in
  Ok (mkJChangeset (jc_new_len A) n (Some ops)).

(** The table and the walk back are those of [diff.go], on code units; only
    [segs.reverse()] and the lengths, one for each unit, differ. *)
Definition js_seg_op (s : seg) : JOp :=
  match s with
  | (SegSame, _) => jretain 1
  | (SegNew, c) => jinsert [c]
  | (SegOld, _) => jdelete 1
  end.

Definition diffToChangeset (oldText newText : jstr) : JChangeset :=
  let n := length oldText in
  let m := length newText in
  let segs := rev (backtrack (n + m) oldText newText (dp_table oldText newText) n m []) in
  mkJChangeset (len oldText) (len newText) (Some (foldl (fun ops s => js_addOp ops (js_seg_op s)) [] segs)).

(** [adjustCursor]: the cursor after the changeset [D] has been applied. *)
Fixpoint adjust_loop (ops : list JOp) (pos srcPos newPos : Z) : Z :=
  match ops with
  | [] => newPos
  | op :: ops =>
      let '(srcPos, newPos) :=
        match jo_op op with
        | OpRetain => (srcPos + jo_n op, newPos)
        | OpInsert => (srcPos, if srcPos <=? pos then newPos + len (jo_chars op) else newPos)
        | OpDelete => (srcPos + jo_n op, newPos - Z.min (jo_n op) (Z.max 0 (pos - srcPos)))
        | OpOther _ => (srcPos, newPos)
        end in
      if pos <? srcPos then newPos else adjust_loop ops pos srcPos newPos
  end.

Definition adjustCursor (pos : Z) (cs : JChangeset) : js Z :=
  let! ops := or_throw (jc_ops cs) in Ok (Z.max 0 (adjust_loop ops pos 0 pos)).

(** * Lemmas *)

(** ** Bytes as code units *)

Definition ju (s : bytes) : jstr := map byteZ s.
Definition jop (o : Op) : JOp := mkJOp (op_Type o) (op_Len o) (ju (op_Chars o)).
Definition jcs (c : Changeset) : JChangeset :=
  mkJChangeset (cs_OldLen c) (cs_NewLen c) (Some (map jop (cs_Ops c))).
Definition jslice (s : opSlice) : JSlice := mkJSlice (map jop (sl_ops s)) (sl_pos s) (sl_off s).

Lemma len_ju s : len (ju s) = len s.
Proof. unfold len, ju. by rewrite length_map. Qed.

Lemma ju_app s t : ju (s ++ t) = ju s ++ ju t.
Proof. apply map_app. Qed.

Lemma ju_inj s t : ju s = ju t -> s = t.
Proof.
  revert t. induction s as [|a s IH]; intros [|b t] E; try done. injection E as Ea Es.
  f_equal; [by apply byteZ_inj|by apply IH].
Qed.

Lemma js_slice_ok {s : jstr} {a b : Z} : 0 <= a <= b -> b <= len s ->
  js_slice s a b = take (Z.to_nat (b - a)) (drop (Z.to_nat a) s).
Proof.
  intros. unfold js_slice, js_index. rewrite !(proj2 (Z.ltb_ge _ 0)) by lia. by rewrite !Z.min_l by lia.
Qed.

Lemma js_slice_ju s a b : 0 <= a <= b -> b <= len s ->
  js_slice (ju s) a b = ju (take (Z.to_nat (b - a)) (drop (Z.to_nat a) s)).
Proof.
  intros. rewrite js_slice_ok by (rewrite ?len_ju; lia). unfold ju. by rewrite <-firstn_map, <-skipn_map.
Qed.

Lemma js_leb_ju s t : js_leb (ju s) (ju t) = str_leb s t.
Proof.
  revert t. induction s as [|a s IH]; intros [|b t]; try done. cbn [ju map js_leb str_leb].
  change (map byteZ s) with (ju s). change (map byteZ t) with (ju t). rewrite IH. unfold byteZ.
  destruct (Z.ltb_spec (Z.of_N (Byte.to_N a)) (Z.of_N (Byte.to_N b))), (N.ltb_spec (Byte.to_N a) (Byte.to_N b)); try done; try lia.
  destruct (Z.eqb_spec (Z.of_N (Byte.to_N a)) (Z.of_N (Byte.to_N b))), (N.eqb_spec (Byte.to_N a) (Byte.to_N b)); try done; lia.
Qed.

Lemma js_size_jop o : js_size (jop o) = op_size o.
Proof. unfold js_size, op_size. simpl. by rewrite len_ju. Qed.

(** ** Cursors *)

Lemma js_trim_jop off o : sized o -> 0 <= off < op_size o -> js_trim off (jop o) = jop (trim off o).
Proof.
  intros Ho Hoff. pose proof (sized_size _ Ho). unfold js_trim, trim, op_size in *. simpl.
  case_decide as E; unfold jop; simpl.
  - unfold js_slice_from. rewrite len_ju, js_slice_ju by lia. do 2 f_equal.
    apply take_ge. unfold len in *. rewrite length_drop. lia.
  - rewrite int64_id by (int_unfold; lia). done.
Qed.

Lemma js_peek_slice s : cur_ok s -> js_peek (jslice s) = jop <$> peek s.
Proof.
  intros [Hs Ho]. unfold js_peek, peek, jslice. simpl. rewrite list_lookup_fmap.
  rewrite <-(Nat.add_0_r (sl_pos s)), <-!lookup_drop in *. rewrite Nat.add_0_r in *.
  destruct (drop (sl_pos s) (sl_ops s)) as [|o ops]; [done|]. simpl. f_equal.
  apply Forall_cons in Hs as [? _]. by apply js_trim_jop.
Qed.

Lemma js_consume_slice_loop fuel s n :
  cur_ok s -> 0 <= n <= MaxInt -> js_consume_loop fuel (jslice s) n = jslice (consume_loop fuel s n).
Proof.
  revert s n. induction fuel as [|fuel IH]; intros s n [Hs Ho] Hn; [done|]. cbn [js_consume_loop consume_loop].
  destruct (Z.ltb_spec 0 n); [|done]. unfold jslice at 1. simpl. rewrite list_lookup_fmap.
  rewrite <-(Nat.add_0_r (sl_pos s)), <-!lookup_drop. rewrite Nat.add_0_r.
  destruct (drop (sl_pos s) (sl_ops s)) as [|o ops] eqn:Ed; [done|]. simpl.
  apply Forall_cons in Hs as [Hso Hs]. pose proof (sized_size _ Hso). rewrite js_size_jop.
  rewrite (int64_id (op_size o - sl_off s)) by (int_unfold; lia).
  destruct (Z.leb_spec (op_size o - sl_off s) n).
  - rewrite int64_id by (int_unfold; lia). apply (IH (mkSlice (sl_ops s) (S (sl_pos s)) 0)); [|lia].
    assert (drop (S (sl_pos s)) (sl_ops s) = ops) as Ed' by (by rewrite <-Nat.add_1_r, <-drop_drop, Ed).
    split; simpl; rewrite Ed'; [done|]. destruct Hs as [|o2 ? Ho2 _]; [done|]. apply sized_size in Ho2. lia.
  - rewrite int64_id by (int_unfold; lia). done.
Qed.

Lemma js_consume_slice s n :
  cur_ok s -> 0 <= n <= MaxInt -> js_consume (jslice s) n = jslice (consume s n).
Proof.
  intros. unfold js_consume, consume. rewrite <-js_consume_slice_loop by done. f_equal.
  unfold jslice. simpl. by rewrite length_map.
Qed.

Lemma js_insert_of_jop o : js_insert_of (jop <$> o) = ju <$> insert_of o.
Proof. destruct o as [o|]; [|done]. simpl. by case_decide. Qed.

Lemma js_delete_of_jop o : js_delete_of (jop <$> o) = delete_of o.
Proof. destruct o as [o|]; [|done]. simpl. by case_decide. Qed.

Lemma js_addOp_jop ops op :
  wf_ops ops -> wf_op op -> ops_src ops + op_src op <= MaxInt ->
  js_addOp (map jop ops) (jop op) = map jop (addOp ops op).
Proof.
  intros Hops Hop Hm. destruct ops as [|l init _] using rev_ind; [done|].
  rewrite addOp_snoc. unfold js_addOp. rewrite map_app. cbn [map]. rewrite last_snoc, length_app. cbn [length].
  rewrite Nat.add_sub. change (jo_op (jop l)) with (op_Type l). change (jo_op (jop op)) with (op_Type op).
  rewrite ops_src_app in Hm. apply Forall_app in Hops as [Hi Hl]. rewrite Forall_singleton in Hl. pose proof (ops_src_nonneg _ Hi).
  simpl in Hm. unfold op_src, wf_op in *.
  case_decide as Et; [|by rewrite !map_app]. rewrite Et in *. revert Hl Hop Hm.
  destruct (op_Type op); intros Hl Hop Hm; rewrite ?map_app; simpl;
    rewrite ?(insert_app_r_alt _ _ (length (map jop init))), ?Nat.sub_diag by lia; simpl; unfold jop; simpl;
    rewrite ?ju_app, ?int64_id by (int_unfold; lia); done.
Qed.

(** ** The loops *)

(** What is made so far, with room for what is still to come. *)
Record building (ops : list Op) (room : Z) : Prop := {
  bd_wf : wf_ops ops;
  bd_canonical : canonical ops;
  bd_room : 0 <= room;
  bd_max : ops_src ops + room <= MaxInt
}.

Lemma building_none room : 0 <= room <= MaxInt -> building [] room.
Proof. intros. split; [constructor|done|lia|simpl; lia]. Qed.

Lemma building_less ops room room' : building ops room -> 0 <= room' <= room -> building ops room'.
Proof. intros [] ?. split; try done; lia. Qed.

Lemma building_add ops room op :
  building ops room -> wf_op op -> op_src op <= room -> building (addOp ops op) (room - op_src op).
Proof.
  intros [Hw Hc Hr Hm] Hop Hle.
  assert (op_src op = Z.of_nat (src (uop1 op))) as Es.
  { rewrite uop1_alt. unfold wf_op, op_src in *. destruct (op_Type op); script_simpl; lia. }
  destruct (addOp_spec ops op Hw Hop Hc) as (Eu & Hw' & Hc').
  { pose proof (src_uops _ Hw). lia. }
  pose proof (src_uops _ Hw) as Ho. pose proof (src_uops _ Hw') as Ha. rewrite Eu in Ha. script_simpl.
  split; try done; lia.
Qed.

Lemma js_add ops room room' op :
  building ops room -> wf_op op -> 0 <= room' <= room - op_src op ->
  js_addOp (map jop ops) (jop op) = map jop (addOp ops op) /\ building (addOp ops op) room'.
Proof.
  intros Hbd Hop Hr. split.
  - destruct Hbd. apply js_addOp_jop; [done|done|lia].
  - eapply building_less; [apply building_add; [exact Hbd|done|lia]|done].
Qed.

(** What is taken of an operation. *)
Lemma consume_sums s o t n :
  cur_ok s -> rest s = o :: t -> 0 < n <= op_size o ->
  cur_ok (consume s n) /\
  ops_src (rest (consume s n)) = ops_src (rest s) - (if decide (op_Type o = OpInsert) then 0 else n) /\
  ops_dst (rest (consume s n)) = ops_dst (rest s) - (if decide (op_Type o = OpDelete) then 0 else n).
Proof.
  intros Hok Hr Hn. pose proof (rest_sized _ Hok) as Hs. rewrite Hr in Hs. apply Forall_cons in Hs as [Ho _].
  destruct (consume_spec _ _ _ _ Hok Hr Hn) as [Hok' ->]. split; [done|]. rewrite Hr. cbn [ops_src ops_dst].
  pose proof (sized_size _ Ho) as Hsz. destruct Ho as [Hwf _]. unfold op_src, op_dst, wf_op, op_size, trim in *.
  destruct (op_Type o) eqn:Et; repeat case_decide; try done; simpl in *; rewrite ?Et;
    destruct (Z.eqb_spec n (op_Len o)), (Z.eqb_spec n (len (op_Chars o))); cbn [ops_src ops_dst]; unfold op_src, op_dst;
    simpl; rewrite ?Et, ?int64_id by (int_unfold; lia); unfold len in *; rewrite ?length_drop; lia.
Qed.

Lemma sized_insert_turn s chars :
  cur_ok s -> insert_of (peek s) = Some chars ->
  exists o t, rest s = o :: t /\ op_Type o = OpInsert /\ op_Chars o = chars /\ op_size o = len chars /\
    0 < len chars <= MaxInt.
Proof.
  intros Hok E. rewrite peek_rest in E. apply insert_of_Some in E as (o & Eh & Et & <-).
  apply head_Some in Eh as [t Er]. exists o, t. pose proof (rest_sized _ Hok) as Hs. rewrite Er in Hs.
  apply Forall_cons in Hs as [Ho _]. pose proof (sized_size _ Ho). rewrite <-(sized_insert o Ho Et). done.
Qed.

Lemma wf_Insert s : 0 < len s -> wf_op (Insert s).
Proof. intros H E. simpl in E. rewrite E in H. by change (len []) with 0 in H. Qed.

Lemma peek_sized' s o : cur_ok s -> peek s = Some o -> exists t, rest s = o :: t /\ sized o.
Proof.
  intros Hok E. rewrite peek_rest in E. apply head_Some in E as [t Er]. exists t. split; [done|].
  pose proof (rest_sized _ Hok) as Hs. rewrite Er in Hs. by apply Forall_cons in Hs as [? _].
Qed.

Lemma js_compose_loop_ok fuel a b ops :
  cur_ok a -> cur_ok b -> building ops (ops_src (rest a)) ->
  js_compose_loop fuel (jslice a) (jslice b) (map jop ops) =
    match compose_loop fuel a b ops with
    | Ok ops => Ok (map jop ops) | Err e => match e with end | Panic => Panic | Diverge => Diverge
    end.
Proof.
  revert a b ops. induction fuel as [|fuel IH]; intros a b ops Ha Hb Hbd; [done|].
  cbn [js_compose_loop compose_loop]. rewrite !js_peek_slice, js_insert_of_jop, js_delete_of_jop by done.
  pose proof (rest_wf _ Ha) as Hwa. pose proof (ops_src_nonneg _ Hwa) as H0.
  destruct (insert_of (peek b)) as [chars|] eqn:Ei; cbn [fmap option_fmap option_map].
  { destruct (sized_insert_turn b chars Hb Ei) as (o & t & Er & Et & <- & Es & Hl).
    destruct (consume_sums b o t (len (op_Chars o)) Hb Er ltac:(lia)) as (Hb' & _).
    rewrite len_ju, js_consume_slice by (done || lia). change (jinsert (ju (op_Chars o))) with (jop (Insert (op_Chars o))).
    destruct (js_add ops _ (ops_src (rest a)) (Insert (op_Chars o)) Hbd) as [-> Hbd'];
      [apply wf_Insert; lia|unfold op_src; simpl; lia|]. by apply IH. }
  destruct (delete_of (peek a)) as [n|] eqn:Ed.
  { apply delete_of_Some in Ed as (o & Ep & Et & <-). destruct (peek_sized' a o Ha Ep) as (t & Er & Ho).
    pose proof (sized_size _ Ho) as Hsz. rewrite (sized_length o) in Hsz by (done || congruence).
    destruct (consume_sums a o t (op_Len o) Ha Er) as (Ha' & Es & _); [rewrite (sized_length o); [lia|done|congruence]|].
    rewrite decide_False in Es by congruence. pose proof (ops_src_nonneg _ (rest_wf _ Ha')).
    rewrite js_consume_slice by (done || lia). change (jdelete (op_Len o)) with (jop (Delete (op_Len o))).
    destruct (js_add ops _ (ops_src (rest (consume a (op_Len o)))) (Delete (op_Len o)) Hbd) as [-> Hbd'];
      [unfold wf_op; simpl; lia|unfold op_src; simpl; lia|]. by apply IH. }
  destruct (peek a) as [ao|] eqn:Ea, (peek b) as [bo|] eqn:Eb; cbn [fmap option_fmap option_map]; try done.
  destruct (peek_sized' a ao Ha Ea) as (ta & Era & Hao). destruct (peek_sized' b bo Hb Eb) as (tb & Erb & Hbo).
  apply insert_of_None in Ei. apply delete_of_None in Ed. rewrite js_size_jop. simpl jo_n.
  pose proof (sized_size _ Hao) as Hsa. pose proof (sized_size _ Hbo) as Hsb. rewrite (sized_length bo) in Hsb by done.
  assert ((if op_Len bo <? op_size ao then op_Len bo else op_size ao) = Z.min (op_size ao) (op_Len bo)) as ->.
  { destruct (Z.ltb_spec (op_Len bo) (op_size ao)); lia. }
  set (n := Z.min (op_size ao) (op_Len bo)). assert (0 < n <= op_size ao /\ n <= op_Len bo) as [Hn Hn'] by lia.
  destruct (consume_sums a ao ta n Ha Era Hn) as (Ha' & Es & _).
  destruct (consume_sums b bo tb n Hb Erb) as (Hb' & _); [rewrite (sized_length bo) by done; lia|].
  rewrite !js_consume_slice by (done || lia). pose proof (ops_src_nonneg _ (rest_wf _ Ha')) as H0'.
  simpl jo_op. destruct Hao as [Hwao _]. destruct Hbo as [Hwbo _]. unfold wf_op in Hwao, Hwbo.
  destruct (op_Type ao) eqn:Eta; try done; (destruct (op_Type bo) eqn:Etb; try done); cbn [obind];
    repeat case_decide; try done.
  - change (jretain n) with (jop (Retain n)).
    destruct (js_add ops _ (ops_src (rest (consume a n))) (Retain n) Hbd) as [-> Hbd'];
      [unfold wf_op; simpl; lia|unfold op_src; simpl; lia|]. by apply IH.
  - change (jdelete n) with (jop (Delete n)).
    destruct (js_add ops _ (ops_src (rest (consume a n))) (Delete n) Hbd) as [-> Hbd'];
      [unfold wf_op; simpl; lia|unfold op_src; simpl; lia|]. by apply IH.
  - assert (op_size ao = len (op_Chars ao)) as El by (unfold op_size; by rewrite decide_True).
    assert (slice (op_Chars ao) 0 n = Some (take (Z.to_nat n) (op_Chars ao))) as ->.
    { unfold slice. rewrite !(proj2 (Z.leb_le _ _)) by lia. by rewrite drop_0, Z.sub_0_r. }
    cbn [or_panic obind]. change (jo_chars (jop ao)) with (ju (op_Chars ao)). rewrite js_slice_ju by lia. rewrite Z.sub_0_r, drop_0.
    set (cs := take (Z.to_nat n) (op_Chars ao)). assert (0 < len cs) as Hcs by (subst cs; unfold len in *; rewrite length_take; lia).
    change (jinsert (ju cs)) with (jop (Insert cs)).
    destruct (js_add ops _ (ops_src (rest (consume a n))) (Insert cs) Hbd) as [-> Hbd'];
      [by apply wf_Insert|unfold op_src; simpl; lia|]. by apply IH.
  - apply IH; [done..|]. eapply building_less; [exact Hbd|lia].
Qed.

(** A turn of [follow]'s loop is that of [follow_next]; the result so far. *)
Definition jres (r : Changeset) : Z * list JOp := (cs_NewLen r, map jop (cs_Ops r)).

Lemma js_addOpLen_jop r op :
  partial r -> wf_op op ->
  Z.of_nat (src (uops (cs_Ops r)) + src (uop1 op)) <= MaxInt ->
  Z.of_nat (dst (uops (cs_Ops r)) + dst (uop1 op)) <= MaxInt ->
  js_addOpLen (jres r) (jop op) = jres (addOpLen r op).
Proof.
  intros [Hw Hc Hn] Hop Hs Hd. pose proof (src_uops _ Hw). pose proof (dst_uops _ Hw).
  rewrite uop1_alt in Hs, Hd. unfold wf_op in Hop. unfold js_addOpLen, addOpLen, jres. simpl.
  f_equal.
  - rewrite Hn. rewrite (int64_id (ops_dst (cs_Ops r))) by (int_unfold; lia).
    destruct (op_Type op); script_simpl; rewrite ?len_ju; unfold len in *; rewrite ?int64_id by (int_unfold; lia); done.
  - apply js_addOp_jop; [done|done|]. unfold op_src. destruct (op_Type op); script_simpl; lia.
Qed.

Lemma js_follow_loop_S fuel a b r :
  cur_ok a -> cur_ok b ->
  js_follow_loop (S fuel) (jslice a) (jslice b) r =
    match follow_next a b with
    | Some (a', b', o) =>
        js_follow_loop fuel (jslice a') (jslice b')
          match o with Some op => js_addOpLen r (jop op) | None => r end
    | None => Ok r
    end.
Proof.
  intros Ha Hb. cbn [js_follow_loop]. rewrite !js_peek_slice, !js_insert_of_jop by done. unfold follow_next.
  assert (forall s c, cur_ok s -> insert_of (peek s) = Some c -> js_consume (jslice s) (len (ju c)) = jslice (consume s (len c))) as Hi.
  { intros s c Hs E. destruct (sized_insert_turn s c Hs E) as (_ & _ & _ & _ & _ & _ & Hl).
    rewrite len_ju. apply js_consume_slice; [done|lia]. }
  destruct (insert_of (peek a)) as [ac|] eqn:Ea, (insert_of (peek b)) as [bc|] eqn:Eb;
    cbn [fmap option_fmap option_map]; rewrite ?js_leb_ju, ?(Hi a ac), ?(Hi b bc) by done; rewrite ?len_ju; try done.
  { by case_match. }
  destruct (peek a) as [ao|] eqn:Pa, (peek b) as [bo|] eqn:Pb; cbn [fmap option_fmap option_map]; try done.
  destruct (peek_sized' a ao Ha Pa) as (ta & _ & Hao). destruct (peek_sized' b bo Hb Pb) as (tb & _ & Hbo).
  apply insert_of_None in Ea, Eb. pose proof (sized_size _ Hao) as Hsa. pose proof (sized_size _ Hbo) as Hsb.
  rewrite sized_length in Hsa, Hsb by done. simpl jo_n.
  assert ((if op_Len bo <? op_Len ao then op_Len bo else op_Len ao) = Z.min (op_Len ao) (op_Len bo)) as ->.
  { destruct (Z.ltb_spec (op_Len bo) (op_Len ao)); lia. }
  rewrite !js_consume_slice by (done || lia). f_equal. simpl jo_op. by destruct (op_Type ao), (op_Type bo).
Qed.

Lemma js_follow_loop_ok fuel a b r :
  cur_ok a -> cur_ok b -> partial r ->
  src (flat (atoms (rest a))) = src (flat (atoms (rest b))) ->
  Z.of_nat (src (uops (cs_Ops r)) + src (ufollow (atoms (rest a)) (atoms (rest b)))) <= MaxInt ->
  Z.of_nat (dst (uops (cs_Ops r)) + dst (ufollow (atoms (rest a)) (atoms (rest b)))) <= MaxInt ->
  js_follow_loop fuel (jslice a) (jslice b) (jres r) =
    match follow_loop fuel a b r with
    | Ok r => Ok (jres r) | Err e => match e with end | Panic => Panic | Diverge => Diverge
    end.
Proof.
  revert a b r. induction fuel as [|fuel IH]; intros a b r Ha Hb Hp Hfit Hs Hd; [done|].
  rewrite js_follow_loop_S, follow_loop_S by done. destruct (follow_next a b) as [[[a' b'] o]|] eqn:E; [|done].
  destruct (follow_next_ok _ _ _ _ _ Ha Hb Hfit E) as [Ef Hwf Ha' Hb' Hfit' _ _]. rewrite Ef in Hs, Hd.
  destruct o as [op|]; cbn [add_opt]; [|by apply IH].
  specialize (Hwf op eq_refl). rewrite src_app in Hs. rewrite dst_app in Hd.
  destruct (addOpLen_spec r op Hp Hwf) as (Hp' & Eu & _); [lia|].
  rewrite js_addOpLen_jop by (done || lia). apply IH; rewrite ?Eu; script_simpl; (done || lia).
Qed.

(** ** The functions *)

(** What a call of the Go code returns, seen by the browser. *)
Definition js_of {A B} (f : A -> B) (o : outcome Empty_set A) : js B :=
  match o with Ok x => Ok (f x) | Err e => match e with end | Panic => Panic | Diverge => Diverge end.

Lemma jslice_new ops : jslice (newSlice ops) = mkJSlice (map jop ops) 0 0.
Proof. done. Qed.

Lemma compose_jcs A B :
  wf_cs A -> wf_cs B -> compose (jcs A) (jcs B) = js_of jcs (Compose A B).
Proof.
  intros WA WB. pose proof (cs_sized _ WA) as SA. pose proof (cs_sized _ WB) as SB.
  unfold compose, Compose. simpl or_throw. cbn [obind].
  unfold js_fuel. rewrite !length_map, <-!jslice_new. fold (compose_fuel A B).
  rewrite (js_compose_loop_ok _ _ _ []); [|by apply cur_ok_new..|].
  { by destruct (compose_loop _ _ _ _) as [ops|[]| |]. }
  rewrite rest_new by done. destruct WA as [HA Ao _ AM _]. pose proof (ops_src_nonneg _ HA).
  apply building_none. lia.
Qed.

Lemma follow_jcs A B :
  wf_cs A -> wf_cs B -> cs_OldLen A = cs_OldLen B -> cs_NewLen A + cs_NewLen B <= MaxInt ->
  follow (jcs A) (jcs B) = js_of jcs (Follow A B).
Proof.
  intros WA WB Hfit Hmax. pose proof (cs_sized _ WA) as SA. pose proof (cs_sized _ WB) as SB.
  destruct (Follow_spec A B WA WB Hfit Hmax) as (C & E & WC & _ & Ho & Hn & _ & Eu).
  unfold follow. rewrite E. simpl or_throw. cbn [obind].
  unfold js_fuel. rewrite !length_map, <-!jslice_new. fold (follow_fuel A B).
  pose proof (js_follow_loop_ok (follow_fuel A B) (newSlice (cs_Ops A)) (newSlice (cs_Ops B))
    (mkChangeset (cs_NewLen A) 0 [])) as El. rewrite !rest_new in El by done.
  pose proof (src_uops _ (wf_cs_ops _ WC)) as Hs. pose proof (dst_uops _ (wf_cs_ops _ WC)) as Hd. rewrite Eu in Hs, Hd.
  assert (src (flat (atoms (cs_Ops A))) = src (flat (atoms (cs_Ops B)))) as Hsrc.
  { pose proof (src_uops _ (wf_cs_ops _ WA)). pose proof (src_uops _ (wf_cs_ops _ WB)).
    destruct WA, WB. unfold uops in *. lia. }
  change (0, @nil JOp) with (jres (mkChangeset (cs_NewLen A) 0 [])). rewrite El.
  - fold (Follow A B). rewrite E. cbn [obind js_of jres]. unfold jcs. by rewrite Ho.
  - by apply cur_ok_new.
  - by apply cur_ok_new.
  - by split.
  - done.
  - simpl cs_Ops. change (src (uops [])) with 0%nat. destruct WC. lia.
  - simpl cs_Ops. change (dst (uops [])) with 0%nat. destruct WC. lia.
Qed.

(** Applying, from a point of the text on. *)
Lemma js_apply_ops_fit pre rest ops result :
  wf_ops ops -> ops_src ops = len rest ->
  js_apply_ops (ju (pre ++ rest)) (map jop ops) (len pre) result = result ++ ju (uapply (uops ops) rest).
Proof.
  intros Hwf. revert pre rest result.
  induction Hwf as [|o ops Ho Hops IH]; intros pre rest result Hfit.
  { destruct rest; [|by rewrite len_cons in Hfit; pose proof (len_nonneg rest); simpl in Hfit; lia].
    change (result = result ++ []). by rewrite app_nil_r. }
  pose proof (ops_src_nonneg _ Hops) as Hn. pose proof (len_nonneg pre) as Hpre.
  cbn [ops_src map js_apply_ops] in *. rewrite uops_cons, uop1_alt. unfold wf_op, op_src in *. simpl jo_op. simpl jo_n.
  destruct (op_Type o) eqn:Ht; [..|done].
  - destruct (split_at rest (op_Len o)) as (p & q & -> & Hp); [lia..|].
    rewrite <-Hp in *. autorewrite with len in Hfit. pose proof (len_nonneg q) as Hq.
    rewrite js_slice_ju by (autorewrite with len; lia).
    replace (len pre + len p - len pre) with (len p) by lia. rewrite !to_nat_len, drop_app_length, take_app_length.
    rewrite <-len_app, app_assoc, IH by lia. by rewrite uapply_keeps, ju_app, app_assoc.
  - simpl jo_chars. rewrite IH by lia. by rewrite uapply_puts, ju_app, app_assoc.
  - destruct (split_at rest (op_Len o)) as (p & q & -> & Hp); [lia..|].
    rewrite <-Hp in *. autorewrite with len in Hfit.
    rewrite <-len_app, app_assoc, IH by lia. by rewrite to_nat_len, uapply_drops.
Qed.

Lemma applyChangeset_jcs d c :
  wf_cs c -> cs_OldLen c = len d -> applyChangeset (ju d) (jcs c) = Ok (ju (uapply (uops (cs_Ops c)) d)).
Proof.
  intros [Hwf Ho _ _ _] Hl. unfold applyChangeset. simpl jc_old_len. rewrite len_ju, Hl, Z.eqb_refl. cbn [negb].
  simpl or_throw. cbn [obind]. f_equal. apply (js_apply_ops_fit [] d (cs_Ops c) [] Hwf). lia.
Qed.

(** Applying to a text of another length is an error. *)
Lemma applyChangeset_length d c : cs_OldLen c <> len d -> applyChangeset (ju d) (jcs c) = Err JsLength.
Proof. intros Hl. unfold applyChangeset. simpl jc_old_len. by rewrite len_ju, (proj2 (Z.eqb_neq _ _)). Qed.

Lemma wf_cs_empty c : wf_cs c -> cs_OldLen c = 0 -> cs_NewLen c = 0 -> cs_Ops c = [].
Proof.
  intros [Hwf Ho Hn _ _] E0 E1. destruct Hwf as [|o ops Hop Hops]; [done|]. exfalso.
  pose proof (ops_src_nonneg _ Hops). pose proof (ops_dst_nonneg _ Hops). cbn [ops_src ops_dst] in *.
  unfold wf_op, op_src, op_dst in *. destruct (op_Type o); [lia| |lia|done].
  apply Hop, len_zero. pose proof (len_nonneg (op_Chars o)). lia.
Qed.

Lemma isIdentity_jcs c : wf_cs c -> isIdentity (jcs c) = Ok (IsIdentity c).
Proof.
  intros Hwf. unfold isIdentity, IsIdentity. simpl jc_old_len. simpl jc_new_len. simpl jc_ops. simpl or_throw.
  destruct (Z.eqb_spec (cs_OldLen c) (cs_NewLen c)) as [E|]; [|done]. cbn [negb].
  destruct (Z.eqb_spec (cs_OldLen c) 0) as [E0|].
  - by rewrite (wf_cs_empty c) by (done || lia).
  - cbn [obind andb]. by destruct (cs_Ops c) as [|o [|]].
Qed.

(** An identity changes nothing. *)
Lemma IsIdentity_apply c d : wf_cs c -> cs_OldLen c = len d -> IsIdentity c = true -> uapply (uops (cs_Ops c)) d = d.
Proof.
  intros Hwf Hl. unfold IsIdentity. destruct (_ =? cs_NewLen c); [|done]. cbn [negb].
  destruct (Z.eqb_spec (cs_OldLen c) 0) as [E0|], (Z.eqb_spec (len (cs_Ops c)) 0) as [E|]; cbn [andb];
    [apply len_zero in E; rewrite E; intros _; destruct d; [done|rewrite len_cons in Hl; pose proof (len_nonneg d); lia]|..];
    (destruct (cs_Ops c) as [|o [|]]; [done| |done]); intros [Ht Hn]%andb_prop;
    apply bool_decide_eq_true in Ht; rewrite uops_cons, uop1_alt, Ht;
    replace (op_Len o) with (len d) by lia; change (uops []) with (@nil uop);
    rewrite app_nil_r, to_nat_len; apply uapply_all_keeps.
Qed.

(** The difference of two ASCII texts. *)
Lemma js_seg_op_jop k b : byteZ b < 128 -> js_seg_op (k, byteZ b) = jop (seg_op (k, byteZ b)).
Proof.
  intros Hb. pose proof (byteZ_range b). assert (of_rune (byteZ b) = [b]) as E.
  { rewrite of_rune_ascii, Zbyte_byteZ by (first [apply scalar_1; lia|lia]). done. }
  destruct k; simpl; by rewrite E.
Qed.

Lemma js_diff_ops ops segs :
  wf_ops ops -> canonical ops -> Z.of_nat (src (uops ops) + src (segs_script segs)) <= MaxInt ->
  Forall (fun s => js_seg_op s = jop (seg_op s)) segs ->
  foldl (fun ops s => js_addOp ops (js_seg_op s)) (map jop ops) segs =
    map jop (foldl (fun ops s => addOp ops (seg_op s)) ops segs).
Proof.
  revert ops. induction segs as [|s segs IH]; intros ops Hwf Hc Hm Hs; [done|]. cbn [foldl].
  apply Forall_cons in Hs as [-> Hs]. unfold segs_script in Hm, IH. simpl in Hm. rewrite src_app in Hm.
  pose proof (seg_op_wf s) as Ho.
  destruct (addOp_spec ops (seg_op s)) as (Eu & Hwf' & Hc'); auto; [lia|].
  pose proof (src_uops _ Hwf).
  rewrite js_addOp_jop; [apply IH; auto|done|done|].
  - rewrite Eu, src_app. lia.
  - rewrite uop1_alt in Hm. revert Hm Ho. unfold wf_op, op_src. destruct (op_Type (seg_op s)); script_simpl; lia.
Qed.

Lemma diffToChangeset_jcs s t :
  is_ascii s = true -> is_ascii t = true -> len s <= MaxInt ->
  diffToChangeset (ju s) (ju t) = jcs (DiffToChangeset s t).
Proof.
  intros Hs Ht Hm. unfold diffToChangeset, DiffToChangeset, jcs. cbn [cs_OldLen cs_NewLen cs_Ops].
  rewrite !to_runes_ascii by done. fold (ju s). fold (ju t). rewrite !len_ju. do 2 f_equal.
  destruct (diff_segs_spell (ju s) (ju t)) as [Eo En].
  assert (forall x, x ∈ diff_segs (ju s) (ju t) -> js_seg_op x = jop (seg_op x)) as Hx.
  { intros [k r] Hin. assert (r ∈ ju s \/ r ∈ ju t) as Hr.
    { rewrite <-Eo at 1. rewrite <-En at 2. revert Hin. generalize (diff_segs (ju s) (ju t)). intros segs.
      induction segs as [|[k' r'] segs IH]; [by intros ?%elem_of_nil|].
      intros [[= <- <-]|Hin]%elem_of_cons; [destruct k; simpl; rewrite ?elem_of_cons; auto|].
      destruct (IH Hin); destruct k'; simpl; rewrite ?elem_of_cons; auto. }
    assert (forall u, is_ascii u = true -> r ∈ ju u -> exists b, r = byteZ b /\ byteZ b < 128) as Hu.
    { intros u Hu Hru. apply list_elem_of_fmap in Hru as (b & -> & Hb). exists b. split; [done|].
      unfold is_ascii in Hu. rewrite forallb_forall in Hu. apply list_elem_of_In, Hu in Hb. lia. }
    destruct Hr as [Hr|Hr]; [destruct (Hu s Hs Hr) as (b & -> & Hb)|destruct (Hu t Ht Hr) as (b & -> & Hb)];
      by apply js_seg_op_jop. }
  unfold diff_segs in *. rewrite reverse_all in *. f_equal.
  apply (js_diff_ops []); [done|done| |by apply Forall_forall].
  change (src (uops [])) with 0%nat. rewrite Nat2Z.inj_add, segs_script_src, Eo.
  unfold ju. rewrite of_runes_ascii by done. lia.
Qed.

(** The cursor: [made] bytes of the new text are made of the first [srcPos]
    of the old one. *)
Lemma adjust_loop_range ops pos srcPos made :
  wf_ops ops -> srcPos <= pos <= srcPos + ops_src ops ->
  made <= adjust_loop (map jop ops) pos srcPos (made + (pos - srcPos)) <= made + ops_dst ops.
Proof.
  intros Hwf. revert srcPos made. induction Hwf as [|o ops Ho Hops IH]; intros srcPos made Hp.
  { cbn [map adjust_loop ops_src ops_dst] in *. lia. }
  pose proof (ops_dst_nonneg _ Hops). cbn [map adjust_loop ops_src ops_dst] in *. simpl jo_op. simpl jo_n. simpl jo_chars.
  unfold wf_op, op_src, op_dst in *. destruct (op_Type o); [| | |done].
  - destruct (Z.ltb_spec pos (srcPos + op_Len o)); [lia|].
    replace (made + (pos - srcPos)) with (made + op_Len o + (pos - (srcPos + op_Len o))) by lia.
    specialize (IH (srcPos + op_Len o) (made + op_Len o)). lia.
  - rewrite (proj2 (Z.leb_le _ _)), (proj2 (Z.ltb_ge _ _)) by lia. rewrite len_ju. pose proof (len_nonneg (op_Chars o)).
    replace (made + (pos - srcPos) + len (op_Chars o)) with (made + len (op_Chars o) + (pos - srcPos)) by lia.
    specialize (IH srcPos (made + len (op_Chars o))). lia.
  - destruct (Z.ltb_spec pos (srcPos + op_Len o)); [lia|].
    replace (made + (pos - srcPos) - Z.min (op_Len o) (Z.max 0 (pos - srcPos)))
      with (made + (pos - (srcPos + op_Len o))) by lia.
    specialize (IH (srcPos + op_Len o) made). lia.
Qed.

(** ** Theorems *)

(** The cursor stays inside the text. *)
Theorem adjustCursor_range c pos :
  wf_cs c -> 0 <= pos <= cs_OldLen c ->
  exists pos', adjustCursor pos (jcs c) = Ok pos' /\ 0 <= pos' <= cs_NewLen c.
Proof.
  intros [Hwf Ho Hn _ _] Hp. unfold adjustCursor. cbn [jcs jc_ops or_throw obind]. eexists. split; [done|].
  pose proof (adjust_loop_range (cs_Ops c) pos 0 0 Hwf) as Hr. rewrite Z.sub_0_r, !Z.add_0_l in Hr. lia.
Qed.

Lemma adjustCursor_range_witness :
  exists pos', adjustCursor 2 (jcs (mkChangeset 3 4 [Insert (str "xy"); Delete 1; Retain 2])) = Ok pos' /\ 0 <= pos' <= 4.
Proof.
  apply (adjustCursor_range (mkChangeset 3 4 [Insert (str "xy"); Delete 1; Retain 2])); [wf_by_compute|cbn [cs_OldLen]; lia].
Defined.
