(* ===== verification/Rebased.v ===== *)
(** * What rebasing keeps

    Properties of the changesets that the transformations return
    which the session of a browser needs: no operation has a field it does not
    use and every insertion is ASCII; a changeset for the empty text survives
    changesets without operations; one that keeps everything still does. *)

From S2P Require Import Prelude Utf8 Edit Changeset Apply Cursor Compose Follow Diff Fsm.

(** ** Specification *)

Definition ascii_op (o : Op) : Prop := is_ascii (op_Chars o) = true.
Definition ascii_cs (c : Changeset) : Prop := Forall ascii_op (cs_Ops c).

(** As the constructors make it. *)
Definition plain_op (o : Op) : Prop :=
  ascii_op o /\
  match op_Type o with
  | OpRetain | OpDelete => op_Chars o = []
  | OpInsert => op_Len o = 0
  | OpOther _ => False
  end.
Definition plain_cs (c : Changeset) : Prop := Forall plain_op (cs_Ops c).

(** It keeps every byte and inserts none. *)
Definition keeps_all (c : Changeset) (n : Z) : Prop := uops (cs_Ops c) = keeps (Z.to_nat n).

(** * Lemmas *)

Lemma plain_ascii c : plain_cs c -> ascii_cs c.
Proof. intros H. eapply Forall_impl; [exact H|]. by intros o []. Qed.

Lemma plain_Retain n : plain_op (Retain n).
Proof. done. Qed.

Lemma plain_Delete n : plain_op (Delete n).
Proof. done. Qed.

Lemma plain_Insert s : is_ascii s = true -> plain_op (Insert s).
Proof. done. Qed.

#[export] Hint Resolve plain_ascii plain_Retain plain_Delete plain_Insert : core.

Lemma plain_addOp ops op : Forall plain_op ops -> plain_op op -> Forall plain_op (addOp ops op).
Proof.
  intros Hops Hop. destruct ops as [|l init _] using rev_ind; [by constructor|].
  rewrite addOp_snoc. apply Forall_app in Hops as [Hi Hl]. rewrite Forall_singleton in Hl.
  assert (Forall plain_op ((init ++ [l]) ++ [op])) as Hn by (by rewrite !Forall_app, !Forall_singleton).
  case_decide as Et; [|done]. destruct Hl as [Hal Hl], Hop as [Hao Hop]. unfold ascii_op in *. rewrite Et in Hl.
  destruct (op_Type op) eqn:Eo; [..|done]; rewrite Forall_app, Forall_singleton; (split; [done|]);
    rewrite Et; (split; [|done]); unfold ascii_op; simpl; rewrite ?Hl, ?is_ascii_app, ?Hal, ?Hao; done.
Qed.

(** ** [Follow] *)

Lemma peek_ascii_op s o : Forall ascii_op (sl_ops s) -> peek s = Some o -> ascii_op o.
Proof.
  intros Hs Hp. unfold peek in Hp. destruct (sl_ops s !! sl_pos s) as [o'|] eqn:E; [|done]. injection Hp as <-.
  rewrite Forall_lookup in Hs. specialize (Hs _ _ E). unfold trim. case_decide; [|done]. by apply is_ascii_drop.
Qed.

Lemma peek_ascii s c : Forall ascii_op (sl_ops s) -> insert_of (peek s) = Some c -> is_ascii c = true.
Proof. intros Hs (o & Hp & _ & <-)%insert_of_Some. by eapply peek_ascii_op. Qed.

Lemma follow_loop_plain fuel a b r r' :
  Forall ascii_op (sl_ops b) -> plain_cs r -> follow_loop fuel a b r = Ok r' -> plain_cs r'.
Proof.
  revert a b r. induction fuel as [|fuel IH]; intros a b r Hb Hr; [done|]. rewrite follow_loop_S.
  destruct (follow_next a b) as [[[a' b'] o]|] eqn:E; [|by intros [= <-]].
  assert (sl_ops b' = sl_ops b /\ from_option plain_op True o) as [Eb Ho].
  { pose proof (fun n => proj1 (consume_loop_left (S (length (sl_ops b) - sl_pos b)) b n)) as Hc.
    pose proof (fun c => peek_ascii b c Hb) as Hp. unfold follow_next, consume in E. revert E Hp.
    destruct (insert_of (peek a)) as [ac|], (insert_of (peek b)) as [bc|]; intros E Hp;
      repeat case_match; simplify_eq; (split; [first [done|apply Hc]|]); simpl; eauto. }
  apply IH; [by rewrite Eb|]. destruct o as [o|]; [|done]. by apply plain_addOp.
Qed.

(** Whatever the first changeset is. *)
Lemma Follow_plain A B C : ascii_cs B -> Follow A B = Ok C -> plain_cs C.
Proof. intros HB. apply follow_loop_plain; [exact HB|constructor]. Qed.

Lemma follow_all_ascii hs C C' : ascii_cs C -> follow_all hs C = Ok C' -> ascii_cs C'.
Proof.
  revert C. induction hs as [|h hs IH]; intros C HC; simpl; [by intros [= <-]|].
  intros (C1 & E & H)%obind_Ok. eapply IH; [|exact H]. eapply plain_ascii, Follow_plain; eauto.
Qed.

(** ** [Compose] *)

Lemma ascii_addOp ops op : Forall ascii_op ops -> ascii_op op -> Forall ascii_op (addOp ops op).
Proof.
  intros Hops Hop. destruct ops as [|l init _] using rev_ind; [by constructor|].
  rewrite addOp_snoc. apply Forall_app in Hops as [Hi Hl]. rewrite Forall_singleton in Hl.
  case_decide; [|by rewrite !Forall_app, !Forall_singleton]. unfold ascii_op in *.
  destruct (op_Type op); rewrite !Forall_app, !Forall_singleton; split_and!; try done; simpl; by rewrite ?is_ascii_app, ?Hl, ?Hop.
Qed.

Lemma slice_ascii s lo hi t : is_ascii s = true -> slice s lo hi = Some t -> is_ascii t = true.
Proof. intros Hs. unfold slice. case_match; [|done]. intros [= <-]. by apply is_ascii_take, is_ascii_drop. Qed.

Lemma consume_ops s n : sl_ops (consume s n) = sl_ops s.
Proof. apply (consume_loop_left (S (length (sl_ops s) - sl_pos s)) s n). Qed.

Lemma compose_loop_ascii fuel a b ops r :
  Forall ascii_op (sl_ops a) -> Forall ascii_op (sl_ops b) -> Forall ascii_op ops ->
  compose_loop fuel a b ops = Ok r -> Forall ascii_op r.
Proof.
  revert a b ops. induction fuel as [|fuel IH]; intros a b ops Ha Hb Ho; cbn [compose_loop]; [done|].
  pose proof (fun c => peek_ascii b c Hb) as Hpb. pose proof (fun o => peek_ascii_op a o Ha) as Hpa.
  destruct (insert_of (peek b)) as [bc|].
  { apply IH; [done|by rewrite consume_ops|]. apply ascii_addOp; [done|]. by apply Hpb. }
  destruct (delete_of (peek a)) as [n|].
  { apply IH; [by rewrite consume_ops|done|]. by apply ascii_addOp. }
  destruct (peek a) as [ao|]; [|by intros [= <-]]. destruct (peek b) as [bo|]; [|by intros [= <-]].
  intros (ops' & E & Hr)%obind_Ok. revert Hr. apply IH; [by rewrite consume_ops..|].
  specialize (Hpa ao eq_refl). destruct (op_Type ao), (op_Type bo); try (injection E as <-); try done;
    try (by apply ascii_addOp).
  apply obind_Ok in E as (chars & Es & [= <-]). apply ascii_addOp; [done|].
  destruct (slice (op_Chars ao) 0 _) eqn:Ec; [|done]. injection Es as ->. by eapply slice_ascii.
Qed.

Lemma Compose_ascii A B C : ascii_cs A -> ascii_cs B -> Compose A B = Ok C -> ascii_cs C.
Proof.
  intros HA HB. unfold Compose. intros (ops & E & [= <-])%obind_Ok.
  by apply (compose_loop_ascii (compose_fuel A B) (newSlice (cs_Ops A)) (newSlice (cs_Ops B)) [] ops).
Qed.

(** ** [DiffToChangeset] *)

Lemma Diff_plain s t : is_ascii s = true -> is_ascii t = true -> plain_cs (DiffToChangeset s t).
Proof.
  intros Hs Ht. unfold plain_cs, DiffToChangeset. cbn [cs_Ops]. rewrite !to_runes_ascii by done.
  pose proof (proj2 (diff_segs_spell (map byteZ s) (map byteZ t))) as En.
  assert (Forall plain_op (map seg_op (diff_segs (map byteZ s) (map byteZ t)))) as Hx.
  { clear Hs. revert En. generalize (diff_segs (map byteZ s) (map byteZ t)). intros segs En. clear s.
    revert t Ht En. induction segs as [|[[] r] segs IH]; intros t Ht En; cbn [map seg_op seg_new] in *.
    - constructor.
    - destruct t as [|b t]; [done|]. rewrite is_ascii_cons in Ht. apply andb_prop in Ht as [_ Ht].
      injection En as _ En. constructor; [apply plain_Retain|by apply (IH t)].
    - destruct t as [|b t]; [done|]. rewrite is_ascii_cons in Ht. apply andb_prop in Ht as [Hb Ht].
      injection En as -> En. constructor; [|by apply (IH t)]. apply plain_Insert.
      pose proof (byteZ_range b). rewrite of_rune_ascii by (first [apply scalar_1; lia|lia]).
      rewrite Zbyte_byteZ, is_ascii_cons. by rewrite Hb.
    - constructor; [apply plain_Delete|by apply (IH t)]. }
  clear En. revert Hx. generalize (diff_segs (map byteZ s) (map byteZ t)). intros segs.
  assert (Forall plain_op []) as Hn by constructor. revert Hn. generalize (@nil Op).
  induction segs as [|x segs IH]; intros ops Ho Hx; [done|]. apply Forall_cons in Hx as [Hx Hxs].
  cbn [foldl]. apply IH; [by apply plain_addOp|done].
Qed.

(** ** Applying *)

Lemma uapply_ascii ops d : Forall ascii_op ops -> is_ascii d = true -> is_ascii (uapply (uops ops) d) = true.
Proof.
  intros Hops. revert d. induction Hops as [|o ops Ho Hops IH]; intros d Hd; [by destruct d|].
  rewrite uops_cons, uop1_alt. unfold ascii_op in Ho. destruct (op_Type o); [| | |by apply IH].
  - generalize (Z.to_nat (op_Len o)). intros n. revert d Hd. induction n as [|n IHn]; intros d Hd; [by apply IH|].
    destruct d as [|b d]; [by apply (IHn [])|]. rewrite is_ascii_cons in Hd. apply andb_prop in Hd as [Hb Hd].
    change (is_ascii (b :: uapply (keeps n ++ uops ops) d) = true). rewrite is_ascii_cons, Hb. by apply IHn.
  - rewrite uapply_puts, is_ascii_app, Ho. by apply IH.
  - generalize (Z.to_nat (op_Len o)). intros n. revert d Hd. induction n as [|n IHn]; intros d Hd; [by apply IH|].
    destruct d as [|b d]; [by apply (IHn [])|]. rewrite is_ascii_cons in Hd. apply andb_prop in Hd as [Hb Hd].
    by apply IHn.
Qed.

(** ** A changeset that keeps everything *)

Lemma keeps_atoms ops n : wf_ops ops -> uops ops = keeps n -> atoms ops = replicate n AKeep.
Proof.
  intros Hwf. revert n. induction Hwf as [|o ops Ho Hops IH]; intros n E; [by destruct n|].
  rewrite uops_cons, uop1_alt in E. cbn [atoms]. unfold atoms1, wf_op in *.
  destruct (op_Type o); [| | |done].
  - assert (Z.to_nat (op_Len o) <= n)%nat as Hle.
    { apply (f_equal length) in E. unfold keeps in E. rewrite length_app, !length_replicate in E. lia. }
    replace n with (Z.to_nat (op_Len o) + (n - Z.to_nat (op_Len o)))%nat in E |- * by lia.
    unfold keeps in E. rewrite replicate_add in E. rewrite replicate_add. apply app_inv_head in E. f_equal. by apply IH.
  - destruct (op_Chars o) as [|b s]; [done|]. by destruct n.
  - destruct (Z.to_nat (op_Len o)) eqn:En; [lia|]. by destruct n.
Qed.

Lemma ufollow_keeps a n :
  src (flat a) = n -> ufollow a (replicate n AKeep) = keeps (dst (flat a)).
Proof.
  revert n. induction a as [|x a IH]; intros n Hn.
  { by destruct n. }
  destruct x as [| |s]; script_simpl.
  - destruct n as [|n]; [lia|]. cbn [replicate]. rewrite ufollow_keep_keep, IH by lia. done.
  - destruct n as [|n]; [lia|]. cbn [replicate]. rewrite ufollow_drop_keep, IH by lia. done.
  - rewrite ufollow_put_l by (by destruct n). rewrite IH by lia. unfold keeps. by rewrite replicate_add.
Qed.

(** Rebased on anything it keeps everything again. *)
Lemma Follow_keeps A B C n :
  wf_cs A -> wf_cs B -> cs_OldLen A = n -> cs_OldLen B = n -> cs_NewLen A + cs_NewLen B <= MaxInt ->
  keeps_all B n -> Follow A B = Ok C -> keeps_all C (cs_NewLen A).
Proof.
  intros WA WB EA EB Hmax HB E.
  destruct (Follow_spec A B) as (C' & E' & _ & _ & _ & _ & _ & Eu); [done|done|congruence|done|].
  rewrite E in E'. injection E' as <-. unfold keeps_all in *. rewrite Eu.
  rewrite (keeps_atoms _ _ (wf_cs_ops _ WB) HB).
  pose proof (src_uops _ (wf_cs_ops _ WA)). pose proof (dst_uops _ (wf_cs_ops _ WA)).
  pose proof (wf_cs_old _ WA). pose proof (wf_cs_new _ WA). unfold uops in *.
  rewrite ufollow_keeps by lia. f_equal. lia.
Qed.

Lemma keeps_all_apply c d : keeps_all c (len d) -> uapply (uops (cs_Ops c)) d = d.
Proof. unfold keeps_all. intros ->. rewrite to_nat_len. apply uapply_all_keeps. Qed.

Lemma keeps_all_Identity n : 0 <= n -> keeps_all (Identity n) n.
Proof.
  intros Hn. unfold keeps_all, Identity. destruct (Z.eqb_spec n 0) as [->|]; [done|]. cbn [cs_Ops].
  rewrite uops_cons. change (uops []) with (@nil uop). by rewrite app_nil_r, uop1_Retain.
Qed.

(** The difference of a text and itself. *)
Lemma backtrack_same fuel old dp i segs :
  (2 * i <= fuel)%nat ->
  exists more, backtrack fuel old old dp i i segs = segs ++ more /\ Forall (fun s => s.1 = SegSame) more.
Proof.
  revert i segs. induction fuel as [|fuel IH]; intros i segs Hf; cbn [backtrack].
  { exists []. by rewrite app_nil_r. }
  destruct (Nat.ltb_spec 0 i); cbn [orb andb].
  - rewrite Z.eqb_refl. destruct (IH (i - 1)%nat (segs ++ [(SegSame, rune_at old (i - 1))])) as (more & -> & Hm); [lia|].
    eexists. rewrite <-app_assoc. split; [done|]. by constructor.
  - exists []. by rewrite app_nil_r.
Qed.

Lemma Diff_same d : is_ascii d = true -> len d <= MaxInt -> keeps_all (DiffToChangeset d d) (len d).
Proof.
  intros Ha Hm. unfold keeps_all, DiffToChangeset. cbn [cs_Ops].
  pose proof (diff_segs_spell (to_runes d) (to_runes d)) as [Eo _].
  assert (Forall (fun s => s.1 = SegSame) (diff_segs (to_runes d) (to_runes d))) as Hs.
  { unfold diff_segs. rewrite reverse_all.
    destruct (backtrack_same (length (to_runes d) + length (to_runes d)) (to_runes d) (dp_table (to_runes d) (to_runes d))
      (length (to_runes d)) []) as (more & -> & Hmore); [lia|]. by apply Forall_rev. }
  pose proof (segs_script_src (diff_segs (to_runes d) (to_runes d))) as Hsrc.
  rewrite Eo, of_runes_to_runes in Hsrc by (by apply ascii_utf8).
  destruct (segs_ops [] (diff_segs (to_runes d) (to_runes d))) as (-> & _); [done|done| |].
  { change (src (uops [])) with 0%nat. lia. }
  change (uops []) with (@nil uop). rewrite app_nil_l. clear Eo.
  assert (exists n, segs_script (diff_segs (to_runes d) (to_runes d)) = keeps n) as [n En].
  { revert Hs. generalize (diff_segs (to_runes d) (to_runes d)). intros segs Hs. unfold segs_script.
    induction Hs as [|[k r] segs Hk Hs [n IH]]; [by exists 0%nat|]. simpl in Hk. subst k.
    exists (length (of_rune r) + n)%nat.
    change (uop1 (Retain (len (of_rune r))) ++ mjoin (map (fun s => uop1 (seg_op s)) segs) = keeps (length (of_rune r) + n)).
    rewrite IH, uop1_Retain, to_nat_len. unfold keeps. by rewrite replicate_add. }
  rewrite En in *. rewrite src_keeps in Hsrc. f_equal. lia.
Qed.

(** ** Changesets without operations *)

Definition nothing (hs : list Changeset) : Prop := Forall (eq zeroChangeset) hs.

Lemma ops_for_empty ops :
  wf_ops ops -> canonical ops -> Forall plain_op ops -> ops_src ops = 0 ->
  ops = [] \/ exists s, s <> [] /\ ops = [Insert s].
Proof.
  intros Hwf Hc Hp Hs. destruct Hwf as [|o ops Ho Hops]; [by left|right].
  apply Forall_cons in Hp as [[_ Hp] Hps]. pose proof (ops_src_nonneg _ Hops) as Hn. cbn [ops_src] in Hs.
  unfold wf_op, op_src in *. destruct (op_Type o) eqn:Et; [lia| |lia|done].
  exists (op_Chars o). split; [done|]. assert (o = Insert (op_Chars o)) as Eo by (destruct o; unfold Insert; simpl in *; congruence).
  rewrite <-Eo. f_equal. destruct Hops as [|o2 ops Ho2 Hops]; [done|]. exfalso.
  pose proof (ops_src_nonneg _ Hops). cbn [ops_src canonical] in *. unfold wf_op, op_src in *. destruct Hc as [Hc _].
  destruct (op_Type o2); [lia|congruence|lia|done].
Qed.

(** They change no changeset for the empty text. *)
Lemma Follow_nothing C :
  wf_cs C -> canonical (cs_Ops C) -> plain_cs C -> cs_OldLen C = 0 -> Follow zeroChangeset C = Ok C.
Proof.
  intros [Hwf Ho Hn Hm Hm'] Hc Hp E.
  destruct (ops_for_empty (cs_Ops C)) as [Eo|(s & Hs & Eo)]; [done|done|done|congruence|..];
    destruct C as [old new ops]; cbn [cs_Ops cs_OldLen cs_NewLen] in *; subst.
  - done.
  - pose proof (len_nonneg s). cbn [ops_src ops_dst] in *. unfold op_src, op_dst in *. simpl in Hm', E |- *.
    unfold Follow, follow_fuel. cbn [length Nat.add cs_Ops zeroChangeset]. rewrite follow_loop_S.
    assert (sized (Insert s)) as Hsz by (split; [done|unfold op_size; simpl; lia]).
    assert (cur_ok (newSlice [Insert s])) as Hok by (apply cur_ok_new; by constructor).
    assert (rest (newSlice [Insert s]) = [Insert s]) as Hr by (apply rest_new; by constructor).
    assert (0 < len s) by (pose proof (sized_size _ Hsz) as Hz; unfold op_size in Hz; simpl in Hz; lia).
    destruct (consume_spec _ _ _ (len s) Hok Hr) as [Hok' Hr']; [unfold op_size; simpl; lia|].
    unfold op_size in Hr'. simpl in Hr'. rewrite Z.eqb_refl in Hr'.
    assert (follow_next (newSlice []) (newSlice [Insert s]) =
      Some (newSlice [], consume (newSlice [Insert s]) (len s), Some (Insert s))) as ->.
    { unfold follow_next. by rewrite (peek_rest (newSlice [Insert s])), Hr. }
    rewrite follow_loop_S. unfold follow_next. rewrite (peek_rest (consume _ _)), Hr'.
    cbn -[int64 Z.add len].
    unfold addOpLen. simpl. do 2 f_equal. rewrite int64_id; int_unfold; lia.
Qed.

Lemma follow_all_nothing hs C :
  nothing hs -> wf_cs C -> canonical (cs_Ops C) -> plain_cs C -> hs = [] \/ cs_OldLen C = 0 ->
  follow_all hs C = Ok C.
Proof.
  intros Hh Hwf Hc Hp Hl. induction Hh as [|h hs <- Hhs IH]; [done|]. destruct Hl as [|Hl]; [done|].
  cbn [follow_all]. rewrite Follow_nothing by done. apply IH. by right.
Qed.

Lemma chain_nothing d hs d' : nothing hs -> chain d hs d' -> d = d' /\ (hs = [] \/ d = []).
Proof.
  intros Hh. revert d. induction Hh as [|h hs <- Hhs IH]; intros d; [intros [_ ->]; auto|].
  intros [_ ([_ _ Hl] & d1 & E & Hc)]. destruct d; [|rewrite len_cons in Hl; pose proof (len_nonneg d); simpl in Hl; lia].
  injection E as <-. split; [by apply IH|by right].
Qed.

Lemma wf_no_ops c : wf_cs c -> cs_Ops c = [] -> c = zeroChangeset.
Proof. destruct c. intros [_ Ho Hn _ _] E. simpl in *. by subst. Qed.
