(* ===== verification/Client.v ===== *)
(** * The browser's client ([web/client.js])

    The state of the page and its handlers.  A handler that throws outside its
    own [try] has changed nothing by then; the error goes to the console.  Of
    the page only the content of the text area is kept; what is only shown
    (status, log, the place of the cursor) and the generator of test input are
    left out. *)

From S2P Require Import Prelude Utf8 Edit Changeset Apply Cursor Compose Follow Diff Fsm Json Base64 Codec Wire.
From S2P Require Import Binary Store RaftTypes Messages Browser.

(** ** Data *)

(** [state], but for the id of the client and two unused texts, with the
    value of the text area and [lastSubmissionTime].  [A], [X] and [Y] start
    as [null]. *)
Record Client : Type := mkPage {
  st_A : option JChangeset;
  st_X : option JChangeset;
  st_Y : option JChangeset;
  st_serverRev : Z;
  st_nextSubmissionId : Z;
  st_waitingForAck : bool;
  st_baseText : jstr;
  editor_value : jstr;
  lastSubmissionTime : Z
}.

(** The page as it is loaded; the number comes from the local storage. *)
Definition new_page (submission_id : Z) : Client := mkPage None None None 0 submission_id false [] [] 0.

(** What the client submits, but for its id. *)
Record JSubmit : Type := mkJSubmit {
  su_submission_id : Z;
  su_base_rev : Z;
  su_changeset : JChangeset
}.

(** A message of the server, parsed. *)
Inductive JMsg : Type :=
| JConnectAck (head_text : jstr) (head_rev : Z) (catch_up : list JChangeset)
| JAck (new_rev : Z)
| JBroadcast (changeset : JChangeset) (new_rev : Z)
| JOther.

(** [try { r } catch], for a body that hands over one value. *)
Definition try_catch {A B} (r : js A) (k : A -> js B) (catch : js B) : js B :=
  match r with Ok x => k x | Err _ => catch | Panic => Panic | Diverge => Diverge end.

(** ** Handlers *)

(** One record of [catch_up]: what was assigned before an error stays. *)
Definition catch_up_record (c : Client) (B : JChangeset) : js Client :=
  try_catch (applyChangeset (st_baseText c) B)
    (fun base =>
       let c := mkPage (st_A c) (st_X c) (st_Y c) (st_serverRev c) (st_nextSubmissionId c) (st_waitingForAck c)
                  base (editor_value c) (lastSubmissionTime c) in
       try_catch (let! X := or_throw (st_X c) in follow B X)
         (fun X =>
            let c := mkPage (st_A c) (Some X) (st_Y c) (st_serverRev c) (st_nextSubmissionId c) (st_waitingForAck c)
                       (st_baseText c) (editor_value c) (lastSubmissionTime c) in
            try_catch
              (let! B' := follow X B in let! Y := or_throw (st_Y c) in follow B' Y)
              (fun Y => Ok (mkPage (st_A c) (st_X c) (Some Y) (st_serverRev c) (st_nextSubmissionId c)
                              (st_waitingForAck c) (st_baseText c) (editor_value c) (lastSubmissionTime c)))
              (Ok c))
         (Ok c))
    (Ok c).

Fixpoint catch_up_loop (c : Client) (records : list JChangeset) : js Client :=
  match records with
  | [] => Ok c
  | B :: records => let! c := catch_up_record c B in catch_up_loop c records
  end.

Definition handleConnectAck (c : Client) (head_text : jstr) (head_rev : Z) (catch_up : list JChangeset) : js Client :=
  let! c :=
    if st_serverRev c =? 0 then
      Ok (mkPage (st_A c) (st_X c) (st_Y c) head_rev (st_nextSubmissionId c) (st_waitingForAck c)
            head_text (editor_value c) (lastSubmissionTime c))
    else
      let! c := catch_up_loop c catch_up in
      Ok (mkPage (st_A c) (st_X c) (st_Y c) head_rev (st_nextSubmissionId c) (st_waitingForAck c)
            (st_baseText c) (editor_value c) (lastSubmissionTime c)) in
  let base := st_baseText c in
  let nt := len base in
  let A := mkJChangeset 0 nt (Some (if nt =? 0 then [] else [jinsert base])) in
  try_catch
    (let! X := or_throw (st_X c) in
     let! afterAX := applyChangeset base X in
     let! Y := or_throw (st_Y c) in
     applyChangeset afterAX Y)
    (fun text => Ok (mkPage (Some A) (st_X c) (st_Y c) (st_serverRev c) (st_nextSubmissionId c)
                       (st_waitingForAck c) base text (lastSubmissionTime c)))
    (Ok (mkPage (Some A) (Some (identity nt)) (Some (identity nt)) (st_serverRev c) (st_nextSubmissionId c)
           (st_waitingForAck c) base base (lastSubmissionTime c))).

Definition handleAck (c : Client) (new_rev : Z) : js Client :=
  let! A :=
    try_catch (let! A := or_throw (st_A c) in let! X := or_throw (st_X c) in compose A X)
      (fun A => Ok (Some A)) (Ok (st_A c)) in
  let! A := or_throw A in
  let! base := try_catch (applyChangeset [] A) Ok (Ok (editor_value c)) in
  Ok (mkPage (Some A) (Some (identity (jc_new_len A))) (st_Y c) new_rev (st_nextSubmissionId c) false
        base (editor_value c) (lastSubmissionTime c)).

Definition handleBroadcast (c : Client) (B : JChangeset) (new_rev : Z) : js Client :=
  let! _ := or_throw (jc_ops B) in
  try_catch (let! X := or_throw (st_X c) in applyChangeset (st_baseText c) X)
    (fun afterAX =>
       let Y := diffToChangeset afterAX (editor_value c) in
       let c := mkPage (st_A c) (st_X c) (Some Y) (st_serverRev c) (st_nextSubmissionId c) (st_waitingForAck c)
                  (st_baseText c) (editor_value c) (lastSubmissionTime c) in
       try_catch
         (let! X := or_throw (st_X c) in
          let! XfollowB := follow X B in
          let! BfollowX := follow B X in
          let! A := or_throw (st_A c) in
          let! A_prime := compose A B in
          let! Y_prime := follow XfollowB Y in
          let! D := follow Y XfollowB in
          let! newText := applyChangeset (editor_value c) D in
          Ok (A_prime, BfollowX, Y_prime, newText))
         (fun '(A, X, Y, text) =>
            let c := mkPage (Some A) (Some X) (Some Y) new_rev (st_nextSubmissionId c) (st_waitingForAck c)
                       (st_baseText c) text (lastSubmissionTime c) in
            let based base :=
              mkPage (st_A c) (st_X c) (st_Y c) (st_serverRev c) (st_nextSubmissionId c) (st_waitingForAck c)
                base (editor_value c) (lastSubmissionTime c) in
            try_catch (applyChangeset [] A) (fun base => Ok (based base))
              (try_catch (applyChangeset (st_baseText c) B) (fun base => Ok (based base)) (Ok c)))
         (Ok c))
    (Ok c).

(** [onWsMessage].  A redirection opens another connection; an error is only
    logged. *)
Definition onWsMessage (c : Client) (m : JMsg) : js Client :=
  match m with
  | JConnectAck head_text head_rev catch_up => handleConnectAck c head_text head_rev catch_up
  | JAck new_rev => handleAck c new_rev
  | JBroadcast B new_rev => handleBroadcast c B new_rev
  | JOther => Ok c
  end.

(** An error that no handler catches leaves the state as it was. *)
Definition received (c : Client) (m : JMsg) : js Client :=
  match onWsMessage c m with Err _ => Ok c | r => r end.

Definition sendSubmit (c : Client) (now : Z) : js (Client * option JSubmit) :=
  let! X := or_throw (st_X c) in
  let! _ := or_throw (jc_ops X) in
  Ok (mkPage (st_A c) (st_X c) (st_Y c) (st_serverRev c) (st_nextSubmissionId c) (st_waitingForAck c)
        (st_baseText c) (editor_value c) now,
      Some (mkJSubmit (st_nextSubmissionId c) (st_serverRev c) X)).

(** While [submitTick] waits it sends again after two seconds. *)
Definition resubmits (c : Client) (now : Z) : bool :=
  (lastSubmissionTime c =? 0) || (2000 <? now - lastSubmissionTime c).

(** [submitTick], run every half second while the connection is open. *)
Definition submitTick (c : Client) (now : Z) : js (Client * option JSubmit) :=
  if st_waitingForAck c then
    if resubmits c now then sendSubmit c now else Ok (c, None)
  else
    let! X := or_throw (st_X c) in
    let! id := isIdentity X in
    let! afterAX :=
      if id then Ok (st_baseText c)
      else try_catch (applyChangeset (st_baseText c) X) Ok (Ok (st_baseText c)) in
    let Y := diffToChangeset afterAX (editor_value c) in
    let! id := isIdentity Y in
    if id then Ok (c, None)
    else
      sendSubmit
        (mkPage (st_A c) (Some Y) (Some (identity (len (editor_value c)))) (st_serverRev c)
           (st_nextSubmissionId c + 1) true (st_baseText c) (editor_value c) (lastSubmissionTime c)) now.

(** What the user types makes the text area hold any text. *)
Definition typed_in (c : Client) (text : jstr) : Client :=
  mkPage (st_A c) (st_X c) (st_Y c) (st_serverRev c) (st_nextSubmissionId c) (st_waitingForAck c)
    (st_baseText c) text (lastSubmissionTime c).

(** ** The wire

    A string of the server is decoded from UTF-8, one of the browser encoded
    to it, an unpaired surrogate as the replacement character.  The server
    writes a changeset without operations with [null]. *)

Definition units_of (r : Z) : jstr :=
  if r <? 65536 then [r] else [55296 + (r - 65536) / 1024; 56320 + (r - 65536) mod 1024].

Definition from_text (s : bytes) : jstr := mjoin (map units_of (to_runes s)).

Fixpoint runes_of (u : jstr) : list Z :=
  match u with
  | [] => []
  | a :: u =>
      match u with
      | b :: u' =>
          if between 55296 56319 a && between 56320 57343 b
          then (a - 55296) * 1024 + (b - 56320) + 65536 :: runes_of u'
          else a :: runes_of u
      | [] => [a]
      end
  end.

Definition to_text (u : jstr) : bytes := of_runes (runes_of u).

Definition from_op (o : Op) : JOp := mkJOp (op_Type o) (op_Len o) (from_text (op_Chars o)).
Definition to_op (o : JOp) : Op := mkOp (jo_op o) (jo_n o) (to_text (jo_chars o)).

Definition from_changeset (c : Changeset) : JChangeset :=
  mkJChangeset (cs_OldLen c) (cs_NewLen c)
    (match cs_Ops c with [] => None | ops => Some (map from_op ops) end).

Definition to_changeset (c : JChangeset) : Changeset :=
  mkChangeset (jc_old_len c) (jc_new_len c) (map to_op (default [] (jc_ops c))).

Definition from_message (m : ServerMsg) : JMsg :=
  match m with
  | MsgConnectAck m =>
      JConnectAck (from_text (ca_HeadText m)) (ca_HeadRev m)
        (map (fun r => from_changeset (rr_Changeset r)) (ca_CatchUp m))
  | MsgAck m => JAck (ak_NewRev m)
  | MsgBroadcast m => JBroadcast (from_changeset (bm_Changeset m)) (bm_NewRev m)
  | MsgRedirect _ | MsgError _ => JOther
  end.

Definition to_message (id : bytes) (m : JSubmit) : SubmitMsg :=
  mkSubmit id (su_submission_id m) (su_base_rev m) (to_changeset (su_changeset m)).
