(* ===== verification/PageSession.v ===== *)
(** * A page and its server

    One page of [web/client.js] connected to a server that applies the
    committed entries with [DocumentStateMachine.Apply] and tells the page of
    each, in their order, as [onCommit] does: the events of such a session,
    the invariant that the page keeps up with the document, and what the
    handlers do to a page that has. *)

From S2P Require Import Prelude Utf8 Edit Changeset Apply Cursor Compose Follow Diff Fsm Json Base64 Codec Wire.
From S2P Require Import Binary Store RaftTypes Messages Server Session Browser Rebased Client.

(** ** The session *)

(** The server's state machine and the page, what the page has sent and is
    not committed, and what the server has sent and is not received. *)
Record Session : Type := mkSession {
  ss_fsm : DocumentStateMachine;
  ss_client : Client;
  ss_up : list SubmitMsg;
  ss_down : list ServerMsg
}.

(** What [onCommit] sends to the connection of [id]. *)
Definition told (id : bytes) (r : ApplyResult) : list ServerMsg :=
  if bool_decide (id = ar_ClientID r) then [MsgAck (mkAck (ar_NewRev r))]
  else if ar_IsDuplicate r then []
  else [MsgBroadcast (mkBroadcast (ar_CPrime r) (ar_NewRev r))].

Inductive session_event : Type :=
| UserTypes (text : bytes)
| Tick (now : Z)
| CommitOwn
| CommitOther (e : RaftLogEntry)
| Receive.

Definition commit (id : bytes) (s : Session) (up : list SubmitMsg) (e : RaftLogEntry) : js Session :=
  let! a := js_of (fun a => a) (applyEntry (ss_fsm s) e) in
  Ok (mkSession (ap_state a) (ss_client s) up (ss_down s ++ mjoin (map (told id) (ap_callbacks a)))).

(** An event for which there is nothing changes nothing. *)
Definition session_step (id : bytes) (s : Session) (ev : session_event) : js Session :=
  match ev with
  | UserTypes text => Ok (mkSession (ss_fsm s) (typed_in (ss_client s) (from_text text)) (ss_up s) (ss_down s))
  | Tick now =>
      let! (c, sent) := submitTick (ss_client s) now in
      Ok (mkSession (ss_fsm s) c
            (ss_up s ++ match sent with Some m => [to_message id m] | None => [] end) (ss_down s))
  | CommitOwn => match ss_up s with [] => Ok s | m :: up => commit id s up (submitted m) end
  | CommitOther e => commit id s (ss_up s) e
  | Receive =>
      match ss_down s with
      | [] => Ok s
      | m :: down =>
          let! c := received (ss_client s) (from_message m) in
          Ok (mkSession (ss_fsm s) c (ss_up s) down)
      end
  end.

Fixpoint session_run (id : bytes) (s : Session) (evs : list session_event) : js Session :=
  match evs with
  | [] => Ok s
  | ev :: evs => let! s := session_step id s ev in session_run id s evs
  end.

(** The page is loaded and has its first [CONNECT_ACK]. *)
Definition opened_page (fsm : DocumentStateMachine) (submission_id : Z) : js Session :=
  let! c := received (new_page submission_id)
              (from_message (MsgConnectAck (mkConnectAck (HeadText fsm) (HeadRev fsm) (revisionLog fsm)))) in
  Ok (mkSession fsm c [] []).

(** The connection breaks, what was sent on it is lost, and the page connects
    to the leader again; what it has submitted may still be committed. *)
Definition reconnect (s : Session) : js Session :=
  let! recs := js_of (fun recs => recs) (RevisionsSince (ss_fsm s) (st_serverRev (ss_client s))) in
  let ack := mkConnectAck (HeadText (ss_fsm s)) (HeadRev (ss_fsm s)) recs in
  let! c := received (ss_client s) (from_message (MsgConnectAck ack)) in
  Ok (mkSession (ss_fsm s) c (ss_up s) []).

(** ** What is assumed of the events *)

(** The characters of a pending changeset. *)
Definition pending_chars (c : Client) : Z :=
  match st_X c with
  | Some X => foldr (fun o n => len (jo_chars o) + n) 0 (default [] (jc_ops X))
  | None => 0
  end.

(** The texts are of sane length. *)
Definition small (s : Session) : Prop :=
  len (editor_value (ss_client s)) <= MaxDoc /\
  len (st_baseText (ss_client s)) + pending_chars (ss_client s) <= MaxDoc.

(** The longest text of a page: the numbers its code computes are sums of two
    such lengths at most, below 2^53, up to which a double is exact. *)
Definition MaxText : Z := 2251799813685248.

(** The texts are within what the model of a browser takes for granted: lengths
    are exact, and no text has a carriage return, which a text area replaces. *)
Definition tame (s : Session) : Prop :=
  len (editor_value (ss_client s)) <= MaxText /\
  len (st_baseText (ss_client s)) + pending_chars (ss_client s) <= MaxText /\
  len (headText (ss_fsm s)) <= MaxText /\
  forallb (fun u => negb (u =? 13)) (editor_value (ss_client s)) = true /\
  forallb (fun b => negb (byteZ b =? 13)) (headText (ss_fsm s)) = true.

(** ASCII is typed; nothing has to be sent again; other clients behave, and
    write ASCII; there is room for what is committed. *)
Definition event_ok (id init : bytes) (s : Session) (ev : session_event) : Prop :=
  match ev with
  | UserTypes text => is_ascii text = true
  | Tick now => st_waitingForAck (ss_client s) = true -> resubmits (ss_client s) now = false
  | CommitOwn =>
      headRev (ss_fsm s) < MaxInt /\
      forall m, head (ss_up s) = Some m -> len (headText (ss_fsm s)) + inserted (sm_Changeset m) <= MaxDoc
  | CommitOther e => le_ClientID e <> id /\ entry_ok init (ss_fsm s) e /\ ascii_cs (le_Changeset e)
  | Receive => True
  end.

Fixpoint run_ok (id init : bytes) (s : Session) (evs : list session_event) : Prop :=
  tame s /\
  match evs with
  | [] => True
  | ev :: evs => event_ok id init s ev /\ forall s', session_step id s ev = Ok s' -> run_ok id init s' evs
  end.

(** ** The invariant *)

(** A revision, as the page is told of it. *)
Definition notice (id : bytes) (r : RevisionRecord) : ServerMsg :=
  if bool_decide (id = rr_Source r) then MsgAck (mkAck (rr_RevNumber r + 1))
  else MsgBroadcast (mkBroadcast (rr_Changeset r) (rr_RevNumber r + 1)).

Definition others (id : bytes) (recs : list RevisionRecord) : Prop := Forall (fun r => id <> rr_Source r) recs.

(** The pending changeset [X] of a page that has seen all but [recs]: the
    submission is under way, or among them, once, as what [X] will have
    become. *)
Definition under_way (id init : bytes) (s : Session) (r : nat) (X : Changeset) : Prop :=
  others id (drop r (revisionLog (ss_fsm s))) /\
  exists m b d, ss_up s = [m] /\ sm_ClientID m = id /\ sm_SubmissionID m = st_nextSubmissionId (ss_client s) /\
    sm_BaseRev m = Z.of_nat b /\ (b <= r)%nat /\ textAt init (ss_fsm s) b d /\ fits (sm_Changeset m) d /\
    ascii_cs (sm_Changeset m) /\
    (forall last, clientLastSubmission (ss_fsm s) !! id = Some last -> last < sm_SubmissionID m) /\
    follow_all (changesets (take (r - b) (drop b (revisionLog (ss_fsm s))))) (sm_Changeset m) = Ok X.

Definition landed (id : bytes) (s : Session) (r : nat) (X : Changeset) : Prop :=
  ss_up s = [] /\
  exists pre own post, drop r (revisionLog (ss_fsm s)) = pre ++ own :: post /\
    others id pre /\ others id post /\ id = rr_Source own /\
    follow_all (changesets pre) X = Ok (rr_Changeset own).

Definition pending_ok (id init : bytes) (s : Session) (r : nat) (X : Changeset) (d : bytes) : Prop :=
  if st_waitingForAck (ss_client s) then under_way id init s r X \/ landed id s r X
  else ss_up s = [] /\ others id (drop r (revisionLog (ss_fsm s))) /\ keeps_all X (len d).

(** [A] makes the text [d] from nothing. *)
Definition makes (A : Changeset) (d : bytes) : Prop :=
  wf_cs A /\ cs_OldLen A = 0 /\ cs_NewLen A = len d /\ uapply (uops (cs_Ops A)) [] = d.

(** The page shows [t], has seen the first [r] revisions, [d] is the text
    there; the last of them may have been without operations, of which the
    page does not take notice. *)
Record synced (id init : bytes) (s : Session) (r : nat) (d : bytes) (A X : Changeset) (t : bytes) : Prop := {
  sy_inv : fsm_inv init (ss_fsm s);
  sy_ascii : is_ascii init = true /\ Forall (fun x => ascii_cs (rr_Changeset x)) (revisionLog (ss_fsm s));
  sy_seen : (r <= length (revisionLog (ss_fsm s)))%nat;
  sy_text : textAt init (ss_fsm s) r d;
  sy_down : ss_down s = map (notice id) (drop r (revisionLog (ss_fsm s)));
  sy_base : st_baseText (ss_client s) = ju d;
  sy_A : st_A (ss_client s) = Some (jcs A);
  sy_A_ok : makes A d;
  sy_X : st_X (ss_client s) = Some (jcs X);
  sy_X_ok : fits X d /\ canonical (cs_Ops X) /\ plain_cs X;
  sy_editor : editor_value (ss_client s) = ju t /\ is_ascii t = true;
  sy_rev : exists b, st_serverRev (ss_client s) = Z.of_nat b /\ (b <= r)%nat /\
    nothing (changesets (take (r - b) (drop b (revisionLog (ss_fsm s)))));
  sy_last : forall last, clientLastSubmission (ss_fsm s) !! id = Some last ->
    last <= st_nextSubmissionId (ss_client s);
  sy_pending : pending_ok id init s r X d
}.

(** * Lemmas *)

(** ** The wire carries ASCII as it is *)

Lemma tame_small s : tame s -> small s.
Proof. intros (? & ? & _). unfold small, MaxText, MaxDoc in *. lia. Qed.

Lemma from_text_ju s : is_ascii s = true -> from_text s = ju s.
Proof.
  intros H. unfold from_text. rewrite to_runes_ascii by done. fold (ju s).
  induction s as [|b s IH]; [done|]. rewrite is_ascii_cons in H. apply andb_prop in H as [Hb Hs].
  cbn [ju map mjoin list_join]. unfold units_of at 1. rewrite (proj2 (Z.ltb_lt _ 65536)) by lia.
  cbn [app]. f_equal. by apply IH.
Qed.

Lemma to_text_ju s : is_ascii s = true -> to_text (ju s) = s.
Proof.
  intros H. unfold to_text. assert (runes_of (ju s) = ju s) as ->; [|by apply of_runes_ascii].
  induction s as [|b s IH]; [done|]. rewrite is_ascii_cons in H. apply andb_prop in H as [Hb Hs].
  specialize (IH Hs). destruct s as [|b2 s]; [done|]. cbn [ju map runes_of] in *.
  unfold between at 1. rewrite (proj2 (Z.leb_gt 55296 _)) by lia. cbn [andb]. by rewrite IH.
Qed.

Lemma from_changeset_jcs c : ascii_cs c -> cs_Ops c <> [] -> from_changeset c = jcs c.
Proof.
  intros Hc Hn. unfold from_changeset, jcs. f_equal. unfold ascii_cs in Hc. destruct (cs_Ops c) as [|o ops]; [done|].
  f_equal. apply map_ext_Forall. eapply Forall_impl; [exact Hc|]. intros x Hx. unfold from_op, jop. by rewrite from_text_ju.
Qed.

Lemma to_changeset_jcs c : ascii_cs c -> to_changeset (jcs c) = c.
Proof.
  intros Hc. destruct c as [old new ops]. unfold to_changeset, jcs. simpl. f_equal. unfold ascii_cs in Hc. simpl in Hc.
  induction Hc as [|o ops Ho Hops IH]; [done|]. cbn [map]. f_equal; [|done]. destruct o. unfold to_op, jop. simpl.
  by rewrite to_text_ju.
Qed.

(** C28: the browser and the server transform alike.  On changesets and texts
    in ASCII, not longer than [MaxText], that fit and have operations, what the
    client's own [compose], [follow], [applyChangeset] and [diffToChangeset]
    make of what the browser reads is, written back, what the Go functions
    return; none of them throws or loops. *)
Theorem browser_ot_agrees A B d s t :
  wf_cs A -> wf_cs B -> ascii_cs A -> ascii_cs B -> cs_Ops A <> [] -> cs_Ops B <> [] ->
  is_ascii d = true -> is_ascii s = true -> is_ascii t = true ->
  Forall (fun n => n <= MaxText) [cs_OldLen A; cs_NewLen A; cs_OldLen B; cs_NewLen B; len s; len t] ->
  (cs_NewLen A = cs_OldLen B ->
     exists C J, Compose A B = Ok C /\ compose (from_changeset A) (from_changeset B) = Ok J /\ to_changeset J = C) /\
  (cs_OldLen A = cs_OldLen B ->
     exists C J, Follow A B = Ok C /\ follow (from_changeset A) (from_changeset B) = Ok J /\ to_changeset J = C) /\
  (cs_OldLen A = len d ->
     exists r, ApplyChangeset d A = Ok r /\ applyChangeset (from_text d) (from_changeset A) = Ok (from_text r)) /\
  to_changeset (diffToChangeset (from_text s) (from_text t)) = DiffToChangeset s t.
Proof.
  intros WA WB HA HB NA NB Hd Hs Ht Hmax. rewrite !Forall_cons in Hmax. destruct Hmax as (M1 & M2 & M3 & M4 & M5 & M6 & _).
  rewrite (from_changeset_jcs A), (from_changeset_jcs B), (from_text_ju d), (from_text_ju s), (from_text_ju t) by done.
  split_and!.
  - intros Hfit. destruct (Compose_spec A B WA WB Hfit) as (C & E & _). exists C, (jcs C).
    rewrite compose_jcs, E by done. split; [done|]. split; [done|]. apply to_changeset_jcs. by apply (Compose_ascii A B).
  - intros Hfit. assert (cs_NewLen A + cs_NewLen B <= MaxInt) as Hm by (unfold MaxText, MaxInt in *; lia).
    destruct (Follow_spec A B WA WB Hfit Hm) as (C & E & _). exists C, (jcs C).
    rewrite follow_jcs, E by done. split; [done|]. split; [done|]. apply to_changeset_jcs, plain_ascii. by apply (Follow_plain A B).
  - intros Hl. eexists. rewrite ApplyChangeset_wf, applyChangeset_jcs by done. split; [done|].
    f_equal. symmetry. apply from_text_ju. by apply uapply_ascii.
  - rewrite diffToChangeset_jcs by (done || (unfold MaxText, MaxInt in *; lia)). by apply to_changeset_jcs, plain_ascii, Diff_plain.
Qed.

Lemma browser_ot_agrees_witness :
  let a := mkChangeset 3 4 [Retain 1; Insert (str "xy"); Delete 1; Retain 1] in
  let b := mkChangeset 3 2 [Delete 2; Insert (str "z"); Retain 1] in
  exists C J, Follow a b = Ok C /\ follow (from_changeset a) (from_changeset b) = Ok J /\ to_changeset J = C.
Proof.
  intros a b. refine (proj1 (proj2 (browser_ot_agrees a b [] [] [] _ _ _ _ _ _ _ _ _ _)) _);
    [wf_by_compute|wf_by_compute|repeat constructor|repeat constructor|discriminate|discriminate|reflexivity..| |reflexivity].
  repeat constructor; vm_compute; discriminate.
Defined.

Lemma pending_chars_inserted c X : st_X c = Some (jcs X) -> plain_cs X -> pending_chars c = inserted X.
Proof.
  intros E Hp. unfold pending_chars, inserted. rewrite E. simpl. unfold plain_cs in Hp.
  induction Hp as [|o ops [_ Ho] Hops IH]; [done|]. cbn [map foldr]. rewrite IH, uops_cons, nput_app, uop1_alt, Nat2Z.inj_add.
  f_equal. simpl. rewrite len_ju. unfold len. destruct (op_Type o); [rewrite Ho| |rewrite Ho|done];
    rewrite ?nput_keeps, ?nput_puts, ?nput_drops; done.
Qed.

(** [told] is what [onCommit] puts into the channel of a registered client. *)
Lemma delivered_told n result loc c :
  clients n !! wc_id c = Some loc -> delivered n result loc c = foldl enqueue c (told (wc_id c) result).
Proof.
  intros Hc. unfold delivered, told. rewrite (bool_decide_true (_ = Some loc)) by done.
  case_bool_decide; [done|]. by destruct (ar_IsDuplicate result).
Qed.

(** ** Two changesets of one text *)

Record meeting (h C : Changeset) (d : bytes) (C1 D : Changeset) (c d1 r : bytes) : Prop := {
  mt_follow : Follow h C = Ok C1;
  mt_follow' : Follow C h = Ok D;
  mt_h : ApplyChangeset d h = Ok d1;
  mt_C : ApplyChangeset d C = Ok c;
  mt_C1 : ApplyChangeset d1 C1 = Ok r;
  mt_D : ApplyChangeset c D = Ok r;
  mt_fits : fits C1 d1;
  mt_fits' : fits D c;
  mt_canonical : canonical (cs_Ops C1);
  mt_inserted : inserted C1 = inserted C;
  mt_inserted' : inserted D = inserted h
}.

Lemma fits_uapply c d r : fits c d -> ApplyChangeset d c = Ok r -> r = uapply (uops (cs_Ops c)) d.
Proof. intros Hf. rewrite (fits_apply _ _ Hf). by intros [= <-]. Qed.

Lemma meet h C d :
  fits h d -> fits C d -> cs_NewLen h + cs_NewLen C <= MaxInt ->
  exists C1 D c d1 r, meeting h C d C1 D c d1 r.
Proof.
  intros Hh HC Hmax. pose proof Hh as [Wh Nh Lh]. pose proof HC as [WC NC LC].
  destruct (Follow_spec h C) as (C1 & E1 & W1 & K1 & O1 & _ & I1 & _); [done|done|congruence|done|].
  destruct (Follow_spec C h) as (D & E2 & W2 & K2 & O2 & _ & I2 & _); [done|done|congruence|lia|].
  destruct (Follow_convergence h C d) as (f & g & d1 & c & r & E1' & E2' & E3 & E4 & E5 & E6); auto.
  rewrite E1 in E1'. injection E1' as <-. rewrite E2 in E2'. injection E2' as <-.
  exists C1, D, c, d1, r. split; try done; (split; [done|by apply canonical_no_double_insert|]).
  - rewrite O1. symmetry. by eapply fits_new.
  - rewrite O2. symmetry. by eapply fits_new.
Qed.

Lemma inserted_new c : wf_cs c -> inserted c <= cs_NewLen c.
Proof.
  intros [Hwf _ Hn _ _]. unfold inserted. pose proof (dst_uops _ Hwf). pose proof (dst_src_nput (uops (cs_Ops c))). lia.
Qed.

(** ** [A] *)

Lemma makes_compose A C d :
  makes A d -> fits C d ->
  exists A', Compose A C = Ok A' /\ makes A' (uapply (uops (cs_Ops C)) d).
Proof.
  intros (WA & Ho & Hn & Ha) [WC _ Hl].
  destruct (Compose_spec A C) as (A' & E & W' & _ & Ho' & Hn' & Eu); [done|done|congruence|].
  exists A'. split; [done|]. split; [done|]. split; [congruence|]. split.
  - rewrite Hn'. symmetry. by apply len_uapply.
  - rewrite Eu, <-Ha. pose proof (src_uops _ (wf_cs_ops _ WA)). pose proof (dst_uops _ (wf_cs_ops _ WA)).
    pose proof (src_uops _ (wf_cs_ops _ WC)). destruct WA, WC.
    apply ucompose_correct; unfold len in *; simpl; lia.
Qed.

Lemma makes_apply A d : makes A d -> applyChangeset [] (jcs A) = Ok (ju d).
Proof. intros (WA & Ho & _ & <-). by apply (applyChangeset_jcs []). Qed.

Lemma applyChangeset_fits c d r : fits c d -> ApplyChangeset d c = Ok r -> applyChangeset (ju d) (jcs c) = Ok (ju r).
Proof.
  intros Hf Hr. rewrite (fits_uapply _ _ _ Hf Hr). destruct Hf. by apply applyChangeset_jcs.
Qed.

(** ** The handlers on a page that has kept up *)

(** A change of another client. *)
Lemma handleBroadcast_ok c B rev d d1 A X t :
  st_baseText c = ju d -> st_A c = Some (jcs A) -> makes A d -> st_X c = Some (jcs X) ->
  fits X d -> plain_cs X -> editor_value c = ju t -> is_ascii d = true -> is_ascii t = true ->
  fits B d -> ascii_cs B -> ApplyChangeset d B = Ok d1 ->
  len d1 <= MaxDoc -> len t <= MaxDoc -> len d + inserted X <= MaxDoc ->
  exists m m1 B1 A1 X1 Y1 t1,
    ApplyChangeset d X = Ok m /\ Follow X B = Ok B1 /\ Follow B X = Ok X1 /\
    Follow B1 (DiffToChangeset m t) = Ok Y1 /\
    ApplyChangeset d1 X1 = Ok m1 /\ ApplyChangeset m B1 = Ok m1 /\ ApplyChangeset m1 Y1 = Ok t1 /\
    makes A1 d1 /\ fits X1 d1 /\ canonical (cs_Ops X1) /\ is_ascii t1 = true /\
    handleBroadcast c (jcs B) rev =
      Ok (mkPage (Some (jcs A1)) (Some (jcs X1)) (Some (jcs Y1)) rev (st_nextSubmissionId c) (st_waitingForAck c)
            (ju d1) (ju t1) (lastSubmissionTime c)).
Proof.
  intros Eb EA HA EX HX PX Et Ad At HB AB E1 L1 Lt LX.
  pose proof (fits_new _ _ _ HB E1) as NB. pose proof (fits_bound _ _ HX) as NX.
  pose proof (len_nonneg d). pose proof (len_nonneg d1). pose proof (len_nonneg t).
  assert (cs_NewLen B + cs_NewLen X <= MaxInt) as Hm1 by (unfold MaxDoc, MaxInt in *; lia).
  destruct (meet B X d HB HX Hm1) as (X1 & B1 & m & d1' & m1 & [F1 F2 G1 G2 G3 G4 K1 K2 C1 I1 I2]).
  rewrite E1 in G1. injection G1 as <-.
  pose proof (fits_new _ _ _ HX G2) as Lm. pose proof (fits_new _ _ _ K1 G3) as Lm1. pose proof (fits_bound _ _ K1).
  pose proof (fits_new _ _ _ K2 G4) as Lm1'.
  assert (is_ascii m = true) as Am.
  { rewrite (fits_uapply _ _ _ HX G2). apply uapply_ascii; [by apply plain_ascii|done]. }
  destruct (Diff_wf m t) as (WY & CY & AY); [by apply ascii_utf8|by apply ascii_utf8|unfold MaxDoc, MaxInt in *; lia..|].
  set (Y := DiffToChangeset m t) in *.
  assert (fits Y m) as HY by (split; [done|by apply canonical_no_double_insert|done]).
  assert (cs_NewLen Y = len t) as NY by done.
  destruct (meet B1 Y m K2 HY) as (Y1 & D & t' & m1' & t1 & [F3 F4 G5 G6 G7 G8 K3 K4 C3 I3 I4]);
    [unfold MaxDoc, MaxInt in *; lia|].
  rewrite G4 in G5. injection G5 as <-. rewrite AY in G6. injection G6 as <-.
  destruct (makes_compose A B d HA HB) as (A1 & FA & HA1).
  rewrite <-(fits_uapply _ _ _ HB E1) in HA1.
  assert (Forall ascii_op (cs_Ops D)) as PD.
  { assert (plain_cs B1) as PB1 by (by eapply Follow_plain). eapply plain_ascii, Follow_plain; [|exact F4]. by apply plain_ascii. }
  exists m, m1, B1, A1, X1, Y1, t1. do 10 (split; [done|]). split.
  { rewrite (fits_uapply _ _ _ K4 G8). by apply uapply_ascii. }
  pose proof HB as [WB _ OB]. pose proof HX as [WX _ OX]. pose proof K2 as [WB1 _ OB1].
  unfold handleBroadcast. cbn [jcs jc_ops or_throw obind]. rewrite EX, Eb, Et. cbn [or_throw obind st_X].
  rewrite (applyChangeset_fits X d m) by done. cbn [try_catch st_X st_A editor_value or_throw obind].
  rewrite diffToChangeset_jcs by (done || (unfold MaxDoc, MaxInt in *; lia)). fold Y.
  change (mkJChangeset (cs_OldLen B) (cs_NewLen B) (Some (map jop (cs_Ops B)))) with (jcs B).
  rewrite follow_jcs by (done || congruence || lia). rewrite F2. cbn [js_of obind].
  rewrite follow_jcs by (done || congruence || lia). rewrite F1. cbn [js_of obind]. rewrite EA. cbn [or_throw obind].
  rewrite compose_jcs by (done || apply HA). rewrite FA. cbn [js_of obind].
  assert (cs_OldLen B1 = cs_OldLen Y) as EO by (rewrite OB1; done).
  rewrite follow_jcs by (done || (unfold MaxDoc, MaxInt in *; lia)). rewrite F3. cbn [js_of obind].
  rewrite follow_jcs by (done || (unfold MaxDoc, MaxInt in *; lia)). rewrite F4. cbn [js_of obind].
  rewrite (applyChangeset_fits D t t1) by done. cbn [obind try_catch].
  rewrite (makes_apply _ _ HA1). done.
Qed.

Lemma identity_jcs n : identity n = jcs (Identity n).
Proof. unfold identity, Identity. by destruct (Z.eqb_spec n 0) as [->|]. Qed.

Lemma Identity_ok d : len d <= MaxDoc ->
  fits (Identity (len d)) d /\ canonical (cs_Ops (Identity (len d))) /\ plain_cs (Identity (len d)).
Proof.
  intros Hd. pose proof (len_nonneg d). unfold Identity, plain_cs. destruct (Z.eqb_spec (len d) 0) as [E|].
  - split; [|by split; [|constructor]]. split; [split; simpl; try done|done|by rewrite E].
  - split; [|split; [done|by constructor]]. split; [|done|done].
    split; cbn [cs_Ops cs_OldLen cs_NewLen ops_src ops_dst]; unfold op_src, op_dst; simpl;
      [constructor; [unfold wf_op; simpl; lia|constructor]|unfold MaxDoc, MaxInt in *; lia..].
Qed.

(** The page's own change. *)
Lemma handleAck_ok c rev d d1 A X :
  st_A c = Some (jcs A) -> makes A d -> st_X c = Some (jcs X) -> fits X d -> ApplyChangeset d X = Ok d1 ->
  exists A1, makes A1 d1 /\
    handleAck c rev =
      Ok (mkPage (Some (jcs A1)) (Some (jcs (Identity (len d1)))) (st_Y c) rev (st_nextSubmissionId c) false
            (ju d1) (editor_value c) (lastSubmissionTime c)).
Proof.
  intros EA HA EX HX E1. destruct (makes_compose A X d HA HX) as (A1 & FA & HA1).
  rewrite <-(fits_uapply _ _ _ HX E1) in HA1. exists A1. split; [done|].
  unfold handleAck. rewrite EA, EX. cbn [or_throw obind]. rewrite compose_jcs by (apply HA || apply HX).
  rewrite FA. cbn [js_of try_catch obind or_throw]. rewrite (makes_apply _ _ HA1). cbn [try_catch obind].
  rewrite identity_jcs. destruct HA1 as (_ & _ & Hn & _). simpl jc_new_len. by rewrite Hn.
Qed.

Lemma submitTick_ok c now d X t :
  st_waitingForAck c = false -> st_baseText c = ju d -> st_X c = Some (jcs X) -> fits X d -> keeps_all X (len d) ->
  editor_value c = ju t -> is_ascii d = true -> is_ascii t = true -> len d <= MaxDoc -> len t <= MaxDoc ->
  let Y := DiffToChangeset d t in
  fits Y d /\ canonical (cs_Ops Y) /\ plain_cs Y /\ ApplyChangeset d Y = Ok t /\ inserted Y <= len t /\
  submitTick c now =
    if IsIdentity Y then Ok (c, None)
    else Ok (mkPage (st_A c) (Some (jcs Y)) (Some (identity (len t))) (st_serverRev c)
               (st_nextSubmissionId c + 1) true (st_baseText c) (editor_value c) now,
             Some (mkJSubmit (st_nextSubmissionId c + 1) (st_serverRev c) (jcs Y))).
Proof.
  intros Ew Eb EX HX KX Et Ad At Ld Lt Y.
  destruct (Diff_wf d t) as (WY & CY & AY); [by apply ascii_utf8|by apply ascii_utf8|unfold MaxDoc, MaxInt in *; lia..|].
  fold Y in WY, CY, AY.
  assert (fits Y d) as HY by (split; [done|by apply canonical_no_double_insert|done]).
  split; [done|]. split; [done|]. split; [by apply Diff_plain|]. split; [done|].
  split; [by apply (inserted_new Y)|].
  unfold submitTick. rewrite Ew, EX. cbn [or_throw obind]. rewrite isIdentity_jcs by apply HX. cbn [obind].
  assert ((if IsIdentity X then Ok (st_baseText c)
           else try_catch (applyChangeset (st_baseText c) (jcs X)) Ok (Ok (st_baseText c))) = (Ok (ju d) : js jstr)) as ->.
  { rewrite Eb. destruct (IsIdentity X); [done|]. destruct HX as [WX _ OX].
    rewrite applyChangeset_jcs by done. cbn [try_catch]. by rewrite (keeps_all_apply X d KX). }
  cbn [obind]. rewrite Et, diffToChangeset_jcs by (done || (unfold MaxDoc, MaxInt in *; lia)). fold Y.
  rewrite isIdentity_jcs by done. cbn [obind]. destruct (IsIdentity Y); [done|]. by rewrite len_ju.
Qed.
