(* ===== verification/PageSync.v ===== *)
(** * A page keeps up

    Every event of a session keeps the invariant [synced], and the opening of
    a page establishes it. *)

From S2P Require Import Prelude Utf8 Edit Changeset Apply Cursor Compose Follow Diff Fsm Json Base64 Codec Wire.
From S2P Require Import Binary Store RaftTypes Messages Server Session Browser Rebased Client PageSession.

(** * Lemmas *)

(** ** Lists of revisions *)

Lemma drop_snoc {A} (l : list A) x n : (n <= length l)%nat -> drop n (l ++ [x]) = drop n l ++ [x].
Proof. intros. by rewrite drop_app_le. Qed.

(** The texts of the revisions a page has seen are ASCII. *)
Lemma textAt_ascii init fsm r d :
  fsm_inv init fsm -> is_ascii init = true -> Forall (fun x => ascii_cs (rr_Changeset x)) (revisionLog fsm) ->
  textAt init fsm r d -> is_ascii d = true.
Proof.
  intros [_ _ Hc] Hi Ha. unfold textAt. rewrite <-(take_drop r (revisionLog fsm)), changesets_app in Hc.
  apply chain_app in Hc as (d' & Hc & _). intros E. rewrite (chain_replay _ _ _ Hc) in E. injection E as <-.
  assert (Forall ascii_cs (changesets (take r (revisionLog fsm)))) as Hf.
  { apply Forall_map. by apply Forall_take. }
  clear Ha. revert Hi Hc. generalize init. induction Hf as [|c cs Hcs Hf IH]; intros e He; [by intros [_ <-]|].
  intros [_ (Hfit & e1 & E & Hc)]. apply (IH e1); [|done].
  rewrite (fits_uapply _ _ _ Hfit E). by apply uapply_ascii.
Qed.

(** The next revision the page has not seen. *)
Lemma next_revision init fsm r d x recs :
  fsm_inv init fsm -> textAt init fsm r d -> drop r (revisionLog fsm) = x :: recs ->
  rr_RevNumber x = Z.of_nat r /\ (S r <= length (revisionLog fsm))%nat /\ drop (S r) (revisionLog fsm) = recs /\
  fits (rr_Changeset x) d /\
  exists d1, ApplyChangeset d (rr_Changeset x) = Ok d1 /\ textAt init fsm (S r) d1 /\
    len d <= MaxDoc /\ len d1 <= MaxDoc.
Proof.
  intros Hinv Ht Hd.
  assert (revisionLog fsm !! r = Some x) as Hx by (by rewrite <-(Nat.add_0_r r), <-lookup_drop, Hd).
  pose proof (lookup_lt_Some _ _ _ Hx). split; [by apply (inv_number _ _ Hinv)|]. split; [lia|].
  split; [by rewrite <-Nat.add_1_r, <-drop_drop, Hd|].
  destruct (inv_split init fsm r Hinv) as (d0 & Ht0 & Hc). unfold textAt in *. rewrite Ht in Ht0. injection Ht0 as <-.
  rewrite Hd in Hc. destruct Hc as [Hl (Hf & d1 & E & Hc)]. split; [done|]. exists d1. split; [done|].
  split; [|split; [done|apply (chain_len _ _ _ Hc)]].
  rewrite (take_S_r _ _ _ Hx), changesets_app. clear Hc Hl Hd. revert Ht. generalize init.
  induction (changesets (take r (revisionLog fsm))) as [|c cs IH]; intros e.
  - intros [= ->]. simpl. by rewrite E.
  - simpl. destruct (ApplyChangeset e c); simpl; try done. apply IH.
Qed.

Lemma textAt_len init fsm r d : fsm_inv init fsm -> textAt init fsm r d -> len d <= MaxDoc.
Proof.
  intros Hinv Ht. destruct (inv_split init fsm r Hinv) as (d0 & Ht0 & Hc). unfold textAt in *.
  rewrite Ht in Ht0. injection Ht0 as <-. apply (chain_len _ _ _ Hc).
Qed.

(** The revisions between two the page knows. *)
Abbreviation between_revs log b r := (take (r - b) (drop b log)).

Lemma chain_at init fsm r d :
  fsm_inv init fsm -> textAt init fsm r d -> chain init (changesets (take r (revisionLog fsm))) d.
Proof.
  intros [_ _ Hc] Ht. rewrite <-(take_drop r (revisionLog fsm)), changesets_app in Hc.
  apply chain_app in Hc as (d' & Hc & _). unfold textAt in Ht. rewrite (chain_replay _ _ _ Hc) in Ht. by injection Ht as <-.
Qed.

Lemma between_chain init fsm b r d :
  fsm_inv init fsm -> (b <= r)%nat -> textAt init fsm r d ->
  exists d0, textAt init fsm b d0 /\ chain d0 (changesets (between_revs (revisionLog fsm) b r)) d.
Proof.
  intros Hinv Hbr Ht. pose proof (chain_at _ _ _ _ Hinv Ht) as Hc.
  rewrite <-(take_drop b (take r (revisionLog fsm))), changesets_app, take_take, Nat.min_l in Hc by done.
  apply chain_app in Hc as (d0 & H0 & H1). exists d0. split; [by apply chain_replay|].
  by rewrite skipn_firstn_comm in H1.
Qed.

Lemma between_next {B} (log : list B) b r x recs :
  (b <= r)%nat -> drop r log = x :: recs -> between_revs log b (S r) = between_revs log b r ++ [x].
Proof.
  intros Hbr Hd. replace (S r - b)%nat with (S (r - b)) by lia. apply take_S_r.
  rewrite lookup_drop. replace (b + (r - b))%nat with (r + 0)%nat by lia. by rewrite <-lookup_drop, Hd.
Qed.

Lemma follow_all_app a b C : follow_all (a ++ b) C = let! C := follow_all a C in follow_all b C.
Proof.
  revert C. induction a as [|h a IH]; intros C; simpl; [done|]. destruct (Follow h C) as [C1|[]| |]; simpl; auto.
Qed.

Lemma between_grow {B} (log : list B) x b r :
  (b <= r)%nat -> (r <= length log)%nat -> between_revs (log ++ [x]) b r = between_revs log b r.
Proof. intros. rewrite drop_snoc by lia. apply take_app_le. rewrite length_drop. lia. Qed.

Lemma others_snoc id recs x : others id (recs ++ [x]) <-> others id recs /\ id <> rr_Source x.
Proof. unfold others. by rewrite Forall_app, Forall_singleton. Qed.

Lemma seen_or_not fsm e : seen fsm e \/ ~ seen fsm e.
Proof.
  unfold seen. destruct (clientLastSubmission fsm !! le_ClientID e) as [last|] eqn:E; [|right; by intros (? & ? & _)].
  destruct (Z.le_gt_cases (le_SubmissionID e) last); [left; by exists last|right]. intros (? & [= <-] & ?). lia.
Qed.

Definition in_sync (id init : bytes) (s : Session) : Prop := exists r d A X t, synced id init s r d A X t.

Section sync.
Context (id init : bytes).

(** A revision is added, and announced. *)
Lemma synced_grow s r d A X t fsm x up :
  synced id init s r d A X t -> fsm_inv init fsm -> revisionLog fsm = revisionLog (ss_fsm s) ++ [x] ->
  ascii_cs (rr_Changeset x) ->
  (forall last, clientLastSubmission fsm !! id = Some last -> last <= st_nextSubmissionId (ss_client s)) ->
  let s' := mkSession fsm (ss_client s) up (ss_down s ++ [notice id x]) in
  pending_ok id init s' r X d -> synced id init s' r d A X t.
Proof.
  intros [Hi [Hii Ha] Hs Ht Hd ? ? ? ? ? ? (b & Eb & Hb & Hn) ?] Hi' El Hx Hl s' Hp. split; try done; subst s'; simpl; rewrite ?El.
  - split; [done|]. by rewrite Forall_app, Forall_singleton.
  - rewrite length_app. lia.
  - unfold textAt in *. by rewrite El, take_app_le.
  - by rewrite drop_snoc, map_app, Hd by done.
  - exists b. by rewrite between_grow.
Qed.

Lemma textAt_grow fsm fsm' x r d :
  revisionLog fsm' = revisionLog fsm ++ [x] -> (r <= length (revisionLog fsm))%nat ->
  textAt init fsm r d -> textAt init fsm' r d.
Proof. intros El Hr. unfold textAt. by rewrite El, take_app_le. Qed.

(** Somebody else's revision leaves what is pending as it is. *)
Lemma pending_other s r d A X t fsm x down :
  synced id init s r d A X t -> revisionLog fsm = revisionLog (ss_fsm s) ++ [x] -> id <> rr_Source x ->
  clientLastSubmission fsm !! id = clientLastSubmission (ss_fsm s) !! id ->
  pending_ok id init (mkSession fsm (ss_client s) (ss_up s) down) r X d.
Proof.
  intros Hsy El Hx Hl. pose proof (sy_seen _ _ _ _ _ _ _ _ Hsy) as Hs. pose proof (sy_pending _ _ _ _ _ _ _ _ Hsy) as Hp.
  revert Hp. unfold pending_ok, under_way, landed. cbn [ss_client ss_fsm ss_up]. rewrite El, drop_snoc by done.
  destruct (st_waitingForAck (ss_client s)).
  - intros [[Ho Hu]|(Hu & pre & own & post & E & Hpre & Hpost & Hown & Ef)].
    + left. split; [by apply others_snoc|]. destruct Hu as (m & b & d0 & ? & ? & ? & ? & ? & ? & ? & ? & ? & ?).
      exists m, b, d0. rewrite between_grow, Hl by (done || lia). split_and!; try done. by apply (textAt_grow (ss_fsm s) fsm x); [|lia|].
    + right. split; [done|]. exists pre, own, (post ++ [x]). split; [by rewrite E, <-app_assoc|].
      split; [done|]. split; [by apply others_snoc|done].
  - intros (Hu & Ho & Hk). split; [done|]. split; [by apply others_snoc|done].
Qed.

Lemma sync_other s e :
  in_sync id init s -> event_ok id init s (CommitOther e) ->
  exists s', session_step id s (CommitOther e) = Ok s' /\ in_sync id init s'.
Proof.
  intros (r & d & A & X & t & Hsy) (Hid & He & Ha). pose proof (sy_inv _ _ _ _ _ _ _ _ Hsy) as Hinv.
  cbn [session_step]. unfold commit.
  destruct (seen_or_not (ss_fsm s) e) as [Hs|Hns].
  - rewrite (applyEntry_seen _ _ Hs). cbn [js_of obind ap_state ap_callbacks map mjoin list_join]. unfold told. cbn [ar_ClientID ar_IsDuplicate].
    rewrite bool_decide_false by congruence. rewrite !app_nil_r. eexists. split; [done|].
    exists r, d, A, X, t. by destruct s.
  - destruct (applyEntry_ok _ _ _ Hinv He Hns) as (C & text & EC & _ & -> & Hinv').
    cbn [js_of obind ap_state ap_callbacks committed map mjoin list_join]. unfold told. cbn [ar_ClientID ar_IsDuplicate ar_CPrime ar_NewRev].
    rewrite bool_decide_false by congruence. cbn [app]. eexists. split; [done|]. exists r, d, A, X, t.
    change (MsgBroadcast (mkBroadcast C (headRev (ss_fsm s) + 1))) with
      (MsgBroadcast (mkBroadcast (rr_Changeset (mkRevision (headRev (ss_fsm s)) C (le_ClientID e))) (headRev (ss_fsm s) + 1))).
    assert (notice id (mkRevision (headRev (ss_fsm s)) C (le_ClientID e)) = MsgBroadcast (mkBroadcast C (headRev (ss_fsm s) + 1))) as En.
    { unfold notice. simpl. by rewrite bool_decide_false by congruence. }
    simpl rr_Changeset. rewrite <-En. eapply synced_grow; [exact Hsy|exact Hinv'|done| | |].
    + by eapply follow_all_ascii.
    + simpl. rewrite lookup_insert_ne by done. apply (sy_last _ _ _ _ _ _ _ _ Hsy).
    + eapply pending_other; [exact Hsy|done|simpl; congruence|]. simpl. by rewrite lookup_insert_ne by done.
Qed.

(** The submission under way is an entry of a well behaved client. *)
Record own_entry (s : Session) (m : SubmitMsg) (up : list SubmitMsg) : Prop := {
  oe_waiting : st_waitingForAck (ss_client s) = true;
  oe_last : up = [];
  oe_client : sm_ClientID m = id;
  oe_number : sm_SubmissionID m = st_nextSubmissionId (ss_client s);
  oe_ok : entry_ok init (ss_fsm s) (submitted m);
  oe_ascii : ascii_cs (sm_Changeset m);
  oe_fresh : ~ seen (ss_fsm s) (submitted m)
}.

Lemma own_entry_ok s r d A X t m up :
  synced id init s r d A X t -> event_ok id init s CommitOwn -> ss_up s = m :: up ->
  own_entry s m up /\ others id (drop r (revisionLog (ss_fsm s))) /\
  forall C, follow_all (changesets (drop (Z.to_nat (sm_BaseRev m)) (revisionLog (ss_fsm s)))) (sm_Changeset m) = Ok C ->
    follow_all (changesets (drop r (revisionLog (ss_fsm s)))) X = Ok C.
Proof.
  intros Hsy (Hroom & Hsize) Eu. pose proof (sy_inv _ _ _ _ _ _ _ _ Hsy) as Hinv.
  pose proof (sy_seen _ _ _ _ _ _ _ _ Hsy) as Hr. pose proof (sy_pending _ _ _ _ _ _ _ _ Hsy) as Hp.
  unfold pending_ok, landed, under_way in Hp. rewrite Eu in Hp. rewrite Eu in Hsize. specialize (Hsize m eq_refl).
  destruct (st_waitingForAck (ss_client s)) eqn:Hw; [|by destruct Hp].
  destruct Hp as [(Ho & m' & b & d0 & Em & Hid & Hsub & Hb & Hbr & Ht & Hf & Hasc & Hlast & Ef)|[? _]]; [|done].
  injection Em as -> ->. split; [split; try done|split; [done|]].
  - split; simpl; [|intros d1; rewrite Hb, Nat2Z.id|done|done].
    + rewrite (inv_rev _ _ Hinv). unfold len. lia.
    + unfold textAt in *. rewrite Ht. by intros [= <-].
  - intros (last & El & Hle). simpl in El, Hle. rewrite Hid in El. specialize (Hlast _ El). lia.
  - intros C EC. rewrite Hb, Nat2Z.id, <-(take_drop (r - b) (drop b (revisionLog (ss_fsm s)))), changesets_app, follow_all_app, Ef, drop_drop in EC.
    cbn [obind] in EC. by replace (b + (r - b))%nat with r in EC by lia.
Qed.

(** The page's own submission is committed. *)
Lemma sync_own s :
  in_sync id init s -> event_ok id init s CommitOwn ->
  exists s', session_step id s CommitOwn = Ok s' /\ in_sync id init s'.
Proof.
  intros (r & d & A & X & t & Hsy) Hev. pose proof (sy_inv _ _ _ _ _ _ _ _ Hsy) as Hinv.
  pose proof (sy_seen _ _ _ _ _ _ _ _ Hsy) as Hr. cbn [session_step].
  destruct (ss_up s) as [|m up] eqn:Eu; [exists s; split; [done|by exists r, d, A, X, t]|].
  destruct (own_entry_ok s r d A X t m up Hsy Hev Eu) as ([Hw -> Hid Hsub He Hasc Hns] & Ho & HC).
  destruct (applyEntry_ok _ _ _ Hinv He Hns) as (C & text & EC & _ & Ea & Hinv').
  unfold commit. rewrite Ea. cbn [js_of obind ap_state ap_callbacks committed map mjoin list_join]. unfold told.
  cbn [ar_ClientID ar_IsDuplicate ar_CPrime ar_NewRev submitted le_ClientID].
  rewrite bool_decide_true by done. cbn [app]. eexists. split; [done|]. exists r, d, A, X, t.
  assert (notice id (mkRevision (headRev (ss_fsm s)) C (sm_ClientID m)) = MsgAck (mkAck (headRev (ss_fsm s) + 1))) as En.
  { unfold notice. simpl. by rewrite bool_decide_true. }
  rewrite <-En. eapply synced_grow; [exact Hsy|exact Hinv'|done| | |].
  - eapply follow_all_ascii; [|exact EC]. done.
  - simpl. rewrite Hid, lookup_insert_eq. intros ? [= <-]. lia.
  - unfold pending_ok. cbn [ss_client]. rewrite Hw. right. split; [done|].
    exists (drop r (revisionLog (ss_fsm s))), (mkRevision (headRev (ss_fsm s)) C (sm_ClientID m)), [].
    simpl. rewrite drop_snoc by done. split; [done|]. split; [done|]. split; [constructor|]. split; [done|]. by apply HC.
Qed.

Lemma sync_types s text :
  in_sync id init s -> event_ok id init s (UserTypes text) ->
  exists s', session_step id s (UserTypes text) = Ok s' /\ in_sync id init s'.
Proof.
  intros (r & d & A & X & t & []) Ht. eexists. split; [done|]. exists r, d, A, X, text.
  split; try done. split; [by apply from_text_ju|done].
Qed.

(** The page submits. *)
Lemma sync_tick s now :
  in_sync id init s -> small s -> event_ok id init s (Tick now) ->
  exists s', session_step id s (Tick now) = Ok s' /\ in_sync id init s'.
Proof.
  intros (r & d & A & X & t & Hsy) (Hsm & _) Hev. cbn [session_step event_ok] in *.
  destruct (st_waitingForAck (ss_client s)) eqn:Hw.
  { unfold submitTick. rewrite Hw, Hev by done. cbn [obind]. eexists. split; [done|]. rewrite app_nil_r.
    exists r, d, A, X, t. by destruct s. }
  pose proof Hsy as [Hi [Hii Ha] Hr Ht Hd Eb EA HA EX [HX _] [Ee Ae] (b & Erev & Hbr & Hn) Hl Hp].
  unfold pending_ok in Hp. rewrite Hw in Hp. destruct Hp as (Hu & Ho & Hk).
  pose proof (textAt_ascii _ _ _ _ Hi Hii Ha Ht) as Ad. pose proof (textAt_len _ _ _ _ Hi Ht) as Ld.
  rewrite Ee, len_ju in Hsm.
  destruct (submitTick_ok (ss_client s) now d X t) as (HY & CY & PY & AY & IY & ->); [done..|].
  set (Y := DiffToChangeset d t) in *. destruct (IsIdentity Y); cbn [obind].
  { eexists. split; [done|]. rewrite app_nil_r. exists r, d, A, X, t. by destruct s. }
  eexists. split; [done|]. exists r, d, A, Y, t. split; cbn [ss_fsm ss_client st_baseText st_A st_X editor_value]; try done.
  - by exists b.
  - intros last Hlast. specialize (Hl _ Hlast). simpl. lia.
  - unfold pending_ok. cbn [ss_client st_waitingForAck]. left. split; [done|]. cbn [ss_up ss_fsm ss_client]. rewrite Hu.
    destruct (between_chain _ _ _ _ _ Hi Hbr Ht) as (d0 & Hd0 & Hc).
    destruct (chain_nothing _ _ _ Hn Hc) as [-> Hz].
    eexists _, b, d. split; [done|]. cbn [to_message sm_ClientID sm_SubmissionID sm_BaseRev sm_Changeset su_submission_id su_base_rev su_changeset st_nextSubmissionId].
    rewrite to_changeset_jcs by (by apply plain_ascii). split_and!; try done.
    + by apply plain_ascii.
    + intros last Hlast. specialize (Hl _ Hlast). lia.
    + apply follow_all_nothing; try done; [apply HY|]. destruct Hz as [Hz|Hz]; [by left|right].
      destruct HY as [_ _ HY]. by rewrite HY, Hz.
Qed.

(** The page takes notice of somebody else's revision [x], on which [X]
    becomes [X1]. *)
Lemma pending_next s c r d d1 X X1 x recs down :
  pending_ok id init s r X d -> drop r (revisionLog (ss_fsm s)) = x :: recs -> id <> rr_Source x ->
  drop (S r) (revisionLog (ss_fsm s)) = recs ->
  st_waitingForAck c = st_waitingForAck (ss_client s) -> st_nextSubmissionId c = st_nextSubmissionId (ss_client s) ->
  Follow (rr_Changeset x) X = Ok X1 -> (keeps_all X (len d) -> keeps_all X1 (len d1)) ->
  pending_ok id init (mkSession (ss_fsm s) c (ss_up s) down) (S r) X1 d1.
Proof.
  intros Hp Hd Hx Hd' Hw Hn Hf Hk. revert Hp. unfold pending_ok, under_way, landed. cbn [ss_client ss_fsm ss_up]. rewrite Hw, Hn, Hd, Hd'.
  destruct (st_waitingForAck (ss_client s)).
  - intros [[Ho Hu]|(Hu & pre & own & post & E & Hpre & Hpost & Hown & Ef)].
    + left. apply Forall_cons in Ho as [_ Ho]. split; [done|].
      destruct Hu as (m & b & d0 & ? & ? & ? & ? & ? & ? & ? & ? & ? & Ef).
      exists m, b, d0. split_and!; try done; [lia|].
      rewrite (between_next _ _ _ _ _ ltac:(done) Hd), changesets_app, follow_all_app, Ef. cbn [obind changesets map follow_all].
      by rewrite Hf.
    + right. split; [done|]. destruct pre as [|y pre]; injection E as <- Er; [done|].
      apply Forall_cons in Hpre as [_ Hpre]. exists pre, own, post. split_and!; try done.
      simpl in Ef. by rewrite Hf in Ef.
  - intros (Hu & Ho & Hk'). apply Forall_cons in Ho as [_ Ho]. auto.
Qed.

(** Its own changeset comes back. *)
Lemma receive_own s r d A X t x recs :
  synced id init s r d A X t -> drop r (revisionLog (ss_fsm s)) = x :: recs -> id = rr_Source x ->
  exists s', session_step id s Receive = Ok s' /\ in_sync id init s'.
Proof.
  intros Hsy Hd Hx. pose proof Hsy as [Hi Hia Hr Ht Hdown Eb EA HA EX (HX & _ & _) He _ Hl Hp].
  destruct (next_revision _ _ _ _ _ _ Hi Ht Hd) as (Hnum & Hr' & Hd' & Hfx & d1 & E1 & Ht1 & Ld & Ld1).
  assert (X = rr_Changeset x /\ others id recs /\ ss_up s = []) as (-> & Ho & Hu).
  { unfold pending_ok, under_way, landed, others in Hp. rewrite Hd in Hp. destruct (st_waitingForAck (ss_client s)).
    - destruct Hp as [[Ho _]|(Hu & pre & own & post & E & Hpre & Hpost & Hown & Ef)]; [by apply Forall_cons in Ho as [? _]|].
      destruct pre as [|y pre]; injection E as <- Er; [injection Ef as ->; by subst recs|]. by apply Forall_cons in Hpre as [? _].
    - destruct Hp as (_ & Ho & _). by apply Forall_cons in Ho as [? _]. }
  cbn [session_step]. rewrite Hdown, Hd. cbn [map]. unfold notice at 1. rewrite bool_decide_true by done.
  unfold received. cbn [from_message onWsMessage ak_NewRev].
  destruct (handleAck_ok (ss_client s) (rr_RevNumber x + 1) d d1 A (rr_Changeset x) EA HA EX HX E1) as (A1 & HA1 & ->).
  cbn [obind]. eexists. split; [done|]. exists (S r), d1, A1, (Identity (len d1)), t.
  split; cbn [ss_fsm ss_client ss_up ss_down st_baseText st_A st_X editor_value st_serverRev]; try done.
  - by rewrite Hd'.
  - by apply Identity_ok.
  - exists (S r). rewrite Hnum, Nat.sub_diag. split; [lia|]. split; [done|constructor].
  - unfold pending_ok. cbn [ss_client st_waitingForAck ss_up ss_fsm]. rewrite Hu, Hd'.
    split; [done|]. split; [done|]. apply keeps_all_Identity, len_nonneg.
Qed.

(** A changeset without operations, of which the page takes no notice. *)
Lemma receive_nothing s r d A X t x recs :
  synced id init s r d A X t -> drop r (revisionLog (ss_fsm s)) = x :: recs -> id <> rr_Source x ->
  cs_Ops (rr_Changeset x) = [] ->
  exists s', session_step id s Receive = Ok s' /\ in_sync id init s'.
Proof.
  intros Hsy Hd Hx Hops. pose proof Hsy as [Hi Hia Hr Ht Hdown Eb EA HA EX (HX & CX & PX) He (b & Erev & Hbr & Hn) Hl Hp].
  destruct (next_revision _ _ _ _ _ _ Hi Ht Hd) as (Hnum & Hr' & Hd' & Hfx & d1 & E1 & Ht1 & Ld & Ld1).
  pose proof (wf_no_ops _ (fits_wf _ _ Hfx) Hops) as Ez. destruct Hfx as [_ _ Hl0]. rewrite Ez in E1, Hl0.
  destruct d as [|b0 d]; [|rewrite len_cons in Hl0; pose proof (len_nonneg d); simpl in Hl0; lia]. injection E1 as <-.
  cbn [session_step]. rewrite Hdown, Hd. cbn [map]. unfold notice at 1. rewrite bool_decide_false by done.
  unfold received. cbn [from_message onWsMessage bm_Changeset bm_NewRev]. unfold handleBroadcast, from_changeset. rewrite Hops.
  cbn [jc_ops or_throw obind]. eexists. split; [done|]. exists (S r), [], A, X, t.
  split; cbn [ss_fsm ss_client ss_up ss_down]; try done.
  - by rewrite Hd'.
  - exists b. split; [done|]. split; [lia|]. rewrite (between_next _ _ _ _ _ Hbr Hd), changesets_app.
    apply Forall_app. split; [done|]. by constructor.
  - eapply pending_next; try done. rewrite Ez. apply Follow_nothing; try done; [apply HX|]. by destruct HX.
Qed.

(** Any other: the page goes on from [d], [X] and [t] to [d1], [X1] and [t1]. *)
Record page_moved (s s' : Session) (B : Changeset) (d : bytes) (X : Changeset) (t : bytes)
    (d1 m m1 : bytes) (B1 X1 Y1 : Changeset) (t1 : bytes) : Prop := {
  pm_base : st_baseText (ss_client s) = ju d;
  pm_X : st_X (ss_client s) = Some (jcs X);
  pm_editor : editor_value (ss_client s) = ju t;
  pm_pending : ApplyChangeset d X = Ok m;
  pm_X1 : Follow B X = Ok X1;
  pm_B1 : Follow X B = Ok B1;
  pm_Y1 : Follow B1 (DiffToChangeset m t) = Ok Y1;
  pm_d1 : ApplyChangeset d B = Ok d1;
  pm_m1 : ApplyChangeset d1 X1 = Ok m1;
  pm_m1' : ApplyChangeset m B1 = Ok m1;
  pm_t1 : ApplyChangeset m1 Y1 = Ok t1;
  pm_base' : st_baseText (ss_client s') = ju d1;
  pm_X' : st_X (ss_client s') = Some (jcs X1);
  pm_editor' : editor_value (ss_client s') = ju t1
}.

Lemma receive_other s r d A X t x recs :
  synced id init s r d A X t -> small s -> drop r (revisionLog (ss_fsm s)) = x :: recs -> id <> rr_Source x ->
  cs_Ops (rr_Changeset x) <> [] ->
  exists s', session_step id s Receive = Ok s' /\ in_sync id init s' /\
    exists d1 m m1 B1 X1 Y1 t1, page_moved s s' (rr_Changeset x) d X t d1 m m1 B1 X1 Y1 t1.
Proof.
  intros Hsy [Hs1 Hs2] Hd Hx Hops. pose proof Hsy as [Hi [Hii Ha] Hr Ht Hdown Eb EA HA EX (HX & CX & PX) [Ee Ae] _ Hl Hp].
  destruct (next_revision _ _ _ _ _ _ Hi Ht Hd) as (Hnum & Hr' & Hd' & Hfx & d1 & E1 & Ht1 & Ld & Ld1).
  pose proof (textAt_ascii _ _ _ _ Hi Hii Ha Ht) as Ad.
  rewrite Ee, len_ju in Hs1. rewrite Eb, len_ju, (pending_chars_inserted _ X EX PX) in Hs2.
  assert (ascii_cs (rr_Changeset x)) as Hxa.
  { rewrite Forall_lookup in Ha. apply (Ha r). by rewrite <-(Nat.add_0_r r), <-lookup_drop, Hd. }
  destruct (handleBroadcast_ok (ss_client s) (rr_Changeset x) (rr_RevNumber x + 1) d d1 A X t)
    as (m & m1 & B1 & A1 & X1 & Y1 & t1 & G1 & F1 & F2 & F3 & G2 & G3 & G4 & HA1 & HX1 & CX1 & At1 & Eh); try done.
  cbn [session_step]. rewrite Hdown, Hd. cbn [map]. unfold notice at 1. rewrite bool_decide_false by done.
  unfold received. cbn [from_message onWsMessage bm_Changeset bm_NewRev]. rewrite from_changeset_jcs, Eh by done.
  cbn [obind]. eexists. split; [done|]. split; [|by exists d1, m, m1, B1, X1, Y1, t1].
  exists (S r), d1, A1, X1, t1.
  split; cbn [ss_fsm ss_client ss_up ss_down st_baseText st_A st_X editor_value st_serverRev st_nextSubmissionId]; try done.
  - by rewrite Hd'.
  - split; [done|]. split; [done|]. eapply Follow_plain; [|exact F2]. by apply plain_ascii.
  - exists (S r). rewrite Hnum, Nat.sub_diag. split; [lia|]. split; [done|constructor].
  - eapply pending_next; try done. intros Hk. rewrite (fits_new _ _ _ Hfx E1).
    pose proof (fits_new _ _ _ HX G1). pose proof (fits_new _ _ _ Hfx E1). pose proof (fits_bound _ _ HX).
    pose proof (inserted_new X (fits_wf _ _ HX)). destruct Hfx as [Wx _ Ox], HX as [WX _ OX].
    apply (Follow_keeps (rr_Changeset x) X X1 (len d)); [exact Wx|exact WX|done|done| |exact Hk|exact F2].
    unfold MaxDoc, MaxInt in *. lia.
Qed.

Lemma sync_receive s :
  in_sync id init s -> small s -> exists s', session_step id s Receive = Ok s' /\ in_sync id init s'.
Proof.
  intros (r & d & A & X & t & Hsy) Hs. destruct (drop r (revisionLog (ss_fsm s))) as [|x recs] eqn:Hd.
  { cbn [session_step]. rewrite (sy_down _ _ _ _ _ _ _ _ Hsy), Hd. exists s. split; [done|]. by exists r, d, A, X, t. }
  destruct (decide (id = rr_Source x)); [by eapply receive_own|].
  destruct (decide (cs_Ops (rr_Changeset x) = [])); [by eapply receive_nothing|].
  destruct (receive_other s r d A X t x recs) as (s' & E & Hs' & _); eauto.
Qed.

Lemma sync_step s ev :
  in_sync id init s -> small s -> event_ok id init s ev ->
  exists s', session_step id s ev = Ok s' /\ in_sync id init s'.
Proof.
  intros Hs Hsm Hev. destruct ev as [text|now| |e|].
  - by apply sync_types.
  - by apply sync_tick.
  - by apply sync_own.
  - by apply sync_other.
  - by apply sync_receive.
Qed.

Lemma sync_run s evs :
  in_sync id init s -> run_ok id init s evs -> exists s', session_run id s evs = Ok s' /\ in_sync id init s' /\ tame s'.
Proof.
  revert s. induction evs as [|ev evs IH]; intros s Hs; cbn [run_ok session_run].
  - intros [Hsm _]. eauto.
  - intros (Hsm & Hev & Hk). destruct (sync_step s ev Hs (tame_small _ Hsm) Hev) as (s1 & E & Hs1). rewrite E. cbn [obind]. auto.
Qed.

(** The start. *)
Lemma opened_in_sync fsm submission_id :
  fsm_inv init fsm -> is_ascii init = true -> Forall (fun x => ascii_cs (rr_Changeset x)) (revisionLog fsm) ->
  (forall last, clientLastSubmission fsm !! id = Some last -> last <= submission_id) ->
  exists s, opened_page fsm submission_id = Ok s /\ in_sync id init s /\ ss_fsm s = fsm /\
    editor_value (ss_client s) = ju (headText fsm) /\ st_nextSubmissionId (ss_client s) = submission_id /\
    st_waitingForAck (ss_client s) = false.
Proof.
  intros Hi Hii Ha Hl. pose proof (inv_chain _ _ Hi) as Hc.
  assert (textAt init fsm (length (revisionLog fsm)) (headText fsm)) as Ht.
  { unfold textAt. rewrite firstn_all. by apply chain_replay. }
  pose proof (textAt_ascii _ _ _ _ Hi Hii Ha Ht) as Ad. pose proof (textAt_len _ _ _ _ Hi Ht) as Ld.
  set (d := headText fsm) in *. pose proof (len_nonneg d).
  unfold opened_page, received. cbn [from_message onWsMessage ca_HeadText ca_HeadRev ca_CatchUp]. unfold HeadText, HeadRev.
  fold d. rewrite from_text_ju by done. unfold handleConnectAck, new_page. cbn [st_serverRev].
  rewrite Z.eqb_refl. cbn [obind st_baseText st_X or_throw try_catch]. rewrite len_ju, identity_jcs.
  eexists. split; [done|]. split; [|done].
  exists (length (revisionLog fsm)), d, (TextToChangeset d), (Identity (len d)), d.
  split; cbn [ss_fsm ss_client ss_up ss_down st_baseText st_A st_X editor_value st_serverRev st_nextSubmissionId]; try done.
  - by rewrite drop_all.
  - unfold TextToChangeset, jcs. destruct (Z.eqb_spec (len d) 0) as [E|E]; [|done]. by rewrite E.
  - unfold makes, TextToChangeset. destruct (Z.eqb_spec (len d) 0) as [E|E].
    + rewrite (len_zero d E). split; [split; simpl; done|done].
    + split; [|split; [done|split; [done|]]].
      * split; cbn [cs_Ops cs_OldLen cs_NewLen ops_src ops_dst]; unfold op_src, op_dst; simpl;
          [constructor; [by apply wf_Insert; lia|constructor]|unfold MaxDoc, MaxInt in *; lia..].
      * cbn [cs_Ops]. rewrite uops_cons, uop1_Insert. change (uops []) with (@nil uop). rewrite uapply_puts. apply app_nil_r.
  - by apply Identity_ok.
  - exists (length (revisionLog fsm)). rewrite (inv_rev _ _ Hi), Nat.sub_diag. split; [done|]. split; [done|constructor].
  - unfold pending_ok. cbn [ss_client st_waitingForAck ss_up ss_fsm]. rewrite drop_all.
    split; [done|]. split; [constructor|]. apply keeps_all_Identity; lia.
Qed.

End sync.
