(* ===== verification/EndToEnd.v ===== *)
(** * A browser and the server, from end to end

    That the page of [web/client.js] shows the document and the document has
    what is typed; and what becomes of this when a submission is sent again or
    a connection is opened again. *)

From S2P Require Import Prelude Utf8 Edit Changeset Apply Cursor Compose Follow Diff Fsm Json Base64 Codec Wire.
From S2P Require Import Binary Store RaftTypes Messages Server Session Browser Rebased Client PageSession PageSync.

(** * Lemmas *)

(** ** Coming to rest *)

Lemma jop_inj o o' : jop o = jop o' -> o = o'.
Proof. destruct o, o'. intros [= -> -> E]. f_equal. by apply ju_inj. Qed.

Lemma jcs_inj c c' : jcs c = jcs c' -> c = c'.
Proof.
  destruct c as [old new ops], c' as [old' new' ops']. intros [= -> -> E]. f_equal. revert ops' E.
  induction ops as [|o ops IH]; intros [|o' ops'] E; try done. cbn [map] in E.
  f_equal; [apply jop_inj|apply IH]; congruence.
Qed.

Lemma receive_fields id s s' :
  session_step id s Receive = Ok s' ->
  ss_fsm s' = ss_fsm s /\ ss_up s' = ss_up s /\ ss_down s' = tail (ss_down s).
Proof.
  cbn [session_step]. destruct (ss_down s) as [|m down] eqn:E; [by intros [= <-]|].
  by intros (c & _ & [= <-])%obind_Ok.
Qed.

Lemma receive_ack_editor id s s' m down :
  ss_down s = MsgAck m :: down -> session_step id s Receive = Ok s' ->
  editor_value (ss_client s') = editor_value (ss_client s).
Proof.
  cbn [session_step]. intros ->. intros (c & Ec & [= <-])%obind_Ok. cbn [ss_client].
  unfold received in Ec. cbn [from_message onWsMessage] in Ec.
  destruct (handleAck (ss_client s) (ak_NewRev m)) as [c'|e| |] eqn:E; try done; injection Ec as <-; [|done].
  unfold handleAck in E. apply obind_Ok in E as (A & _ & E). apply obind_Ok in E as (A' & _ & E).
  apply obind_Ok in E as (base & _ & E). by injection E as <-.
Qed.

Lemma obind_app {A E} (o : outcome E A) (f : A -> outcome E A) x : o = Ok x -> obind o f = f x.
Proof. by intros ->. Qed.

Lemma session_run_app id s evs evs' :
  session_run id s (evs ++ evs') = let! s := session_run id s evs in session_run id s evs'.
Proof.
  revert s. induction evs as [|ev evs IH]; intros s; [done|]. cbn [app session_run].
  destruct (session_step id s ev); cbn [obind]; auto.
Qed.

Lemma run_ok_app id init s evs evs' s' :
  run_ok id init s (evs ++ evs') -> session_run id s evs = Ok s' -> run_ok id init s evs /\ run_ok id init s' evs'.
Proof.
  revert s. induction evs as [|ev evs IH]; intros s; cbn [app run_ok session_run].
  - intros H [= <-]. split; [|done]. split; [|done]. by destruct evs', H.
  - intros (Hs & He & Hk) (s1 & E & Hr)%obind_Ok. destruct (IH s1 (Hk _ E) Hr) as [H1 Hr'].
    split; [|done]. split; [done|]. split; [done|]. intros s2 E2. rewrite E in E2. by injection E2 as <-.
Qed.

(** [injection] would compute the states. *)
Lemma ok_inj {A} (a b : A) : (Ok a : js A) = Ok b -> a = b.
Proof. by intros [= ->]. Qed.

(** The state a computation ends in, which is not written out. *)
Definition session_of (o : js Session) : Session :=
  match o with Ok s => s | _ => mkSession (NewDocumentStateMachine []) (new_page 0) [] [] end.

Definition went_well (o : js Session) : bool := match o with Ok _ => true | _ => false end.

Lemma session_of_ok o : went_well o = true -> o = Ok (session_of o).
Proof. by destruct o. Qed.

Lemma run_ok_step id init s ev evs :
  tame s -> event_ok id init s ev -> went_well (session_step id s ev) = true ->
  run_ok id init (session_of (session_step id s ev)) evs -> run_ok id init s (ev :: evs).
Proof.
  intros Hs He E Hr. split; [done|]. split; [done|]. intros s2 E2. by rewrite E2 in Hr.
Qed.

(** A page is told of an entry at most once. *)
Lemma told_once id fsm e a :
  js_of (fun a => a) (applyEntry fsm e) = Ok a -> (length (mjoin (map (told id) (ap_callbacks a))) <= 1)%nat.
Proof.
  intros Ea. assert (length (ap_callbacks a) <= 1)%nat as Hc.
  { destruct (applyEntry fsm e) as [a'|[]| |] eqn:Eap; try done. injection Ea as <-.
    revert Eap. unfold applyEntry. case_match; [by intros [= <-]; simpl; lia|].
    intros (C & _ & Eap)%obind_Ok. destruct (ApplyChangeset _ _); try done; injection Eap as <-; simpl; lia. }
  destruct (ap_callbacks a) as [|x [|]]; simpl in Hc |- *; [lia| |lia]. rewrite app_nil_r. unfold told.
  repeat case_match; simpl; lia.
Qed.

(** Everything sent is received, what is typed is submitted, committed and
    acknowledged. *)
Definition deliver (n : nat) : list session_event := CommitOwn :: replicate n Receive.
Definition settle (n : nat) (now : Z) : list session_event := deliver n ++ [Tick now; CommitOwn; Receive].

Section settle.
Context (id init : bytes).

(** Nothing is under way. *)
Definition idle (s : Session) : Prop := ss_up s = [] /\ ss_down s = [].

Lemma idle_synced s r d A X t :
  synced id init s r d A X t -> idle s ->
  st_waitingForAck (ss_client s) = false /\ r = length (revisionLog (ss_fsm s)) /\ d = headText (ss_fsm s).
Proof.
  intros [Hi _ Hr Ht Hd _ _ _ _ _ _ _ _ Hp] [Hu Hdn]. rewrite Hdn in Hd. symmetry in Hd. apply map_eq_nil in Hd.
  assert (r = length (revisionLog (ss_fsm s))) as ->.
  { apply (f_equal length) in Hd. rewrite length_drop in Hd. simpl in Hd. lia. }
  split_and!; [|done|].
  - unfold pending_ok, under_way, landed in Hp. destruct (st_waitingForAck (ss_client s)); [|done]. rewrite Hd, Hu in Hp.
    destruct Hp as [(_ & ? & ? & ? & ? & _)|(_ & pre & ? & ? & E & _)]; [done|]. by destruct pre.
  - unfold textAt in Ht. rewrite firstn_all in Ht. pose proof (chain_replay _ _ _ (inv_chain _ _ Hi)) as E. congruence.
Qed.

Lemma commit_own_up s s' : in_sync id init s -> session_step id s CommitOwn = Ok s' ->
  ss_up s' = [] /\ (length (ss_down s') <= S (length (ss_down s)))%nat.
Proof.
  intros (r & d & A & X & t & Hsy) E. cbn [session_step] in E.
  destruct (ss_up s) as [|m up] eqn:Eu; [injection E as <-; split; [done|lia]|].
  assert (up = []) as ->.
  { pose proof (sy_pending _ _ _ _ _ _ _ _ Hsy) as Hp. unfold pending_ok, under_way, landed in Hp. rewrite Eu in Hp.
    destruct (st_waitingForAck (ss_client s)); [|by destruct Hp].
    destruct Hp as [(_ & ? & ? & ? & [= -> ->] & _)|[? _]]; done. }
  unfold commit in E. apply obind_Ok in E as (a & Ea & E). injection E as <-. cbn [ss_up ss_down]. split; [done|].
  rewrite length_app. pose proof (told_once id _ _ _ Ea). lia.
Qed.

Lemma receive_all n s s' :
  session_run id s (replicate n Receive) = Ok s' -> (length (ss_down s) <= n)%nat ->
  ss_up s' = ss_up s /\ ss_down s' = [].
Proof.
  revert s. induction n as [|n IH]; intros s.
  - intros [= <-]. destruct (ss_down s); simpl; [done|lia].
  - cbn [replicate session_run]. intros (s1 & E & Hr)%obind_Ok Hl. apply receive_fields in E as (_ & Eu & Ed).
    rewrite <-Eu. apply IH; [done|]. rewrite Ed. destruct (ss_down s); simpl in *; lia.
Qed.

(** One more round, from a page that has received everything. *)
Lemma last_round s now s' :
  in_sync id init s -> idle s -> run_ok id init s [Tick now; CommitOwn; Receive] ->
  session_run id s [Tick now; CommitOwn; Receive] = Ok s' ->
  idle s' /\ editor_value (ss_client s') = editor_value (ss_client s) /\
  editor_value (ss_client s') = ju (headText (ss_fsm s')).
Proof.
  intros (r & d & A & X & t & Hsy) Hidle (Htm & Hev & Hk) (s1 & E1 & (s2 & E2 & Hr)%obind_Ok)%obind_Ok.
  pose proof (tame_small _ Htm) as Hsm.
  cbn [session_run] in Hr. apply obind_Ok in Hr as (s3 & E3 & Hr). injection Hr as <-.
  destruct (idle_synced _ _ _ _ _ _ Hsy Hidle) as (Hw & -> & ->). destruct Hidle as [Hu Hdn].
  pose proof Hsy as [Hi [Hii Ha] _ Ht _ Eb EA HA EX [HX _] [Ee Ae] _ _ Hp]. unfold pending_ok in Hp. rewrite Hw in Hp.
  destruct Hp as (_ & _ & Hkp).
  pose proof (textAt_ascii _ _ _ _ Hi Hii Ha Ht) as Ad. pose proof (textAt_len _ _ _ _ Hi Ht) as Ld.
  assert (len t <= MaxDoc) as Lt by (destruct Hsm as [Hsm _]; by rewrite Ee, len_ju in Hsm).
  destruct (submitTick_ok (ss_client s) now (headText (ss_fsm s)) X t) as (HY & CY & PY & AY & IY & Et); [done..|].
  set (Y := DiffToChangeset (headText (ss_fsm s)) t) in *.
  pose proof E1 as E1'. cbn [session_step] in E1'. rewrite Et in E1'. destruct (IsIdentity Y) eqn:EI; cbn [obind] in E1'; injection E1' as E1'.
  - assert (s1 = s) as -> by (rewrite <-E1', app_nil_r; by destruct s).
    cbn [session_step] in E2. rewrite Hu in E2. injection E2 as <-. cbn [session_step] in E3. rewrite Hdn in E3. injection E3 as <-.
    split; [done|]. split; [done|]. rewrite Ee. f_equal. rewrite (fits_uapply _ _ _ HY AY). apply IsIdentity_apply; [apply HY|apply HY|done].
  - destruct (sync_step id init s (Tick now)) as (s1' & E1'' & Hs1); [by do 5 eexists|done|done|].
    rewrite E1 in E1''. injection E1'' as <-. destruct (Hk _ E1) as (Htm1 & Hev1 & Hk1). pose proof (tame_small _ Htm1) as Hsm1.
    destruct (sync_step id init s1 CommitOwn) as (s2' & E2' & Hs2); [done..|]. rewrite E2 in E2'. injection E2' as <-.
    destruct (commit_own_up s1 s2) as [Hu2 Hd2]; [done..|].
    destruct Hs2 as (r2 & d2 & A2 & X2 & t2 & Hsy2). pose proof Hsy2 as [Hi2 _ Hr2 Ht2 Hdn2 Eb2 _ _ EX2 [HX2 _] [Ee2 _] _ _ Hp2].
    assert (ss_client s2 = ss_client s1) as Ec.
    { cbn [session_step] in E2. destruct (ss_up s1); [by injection E2 as <-|]. unfold commit in E2.
      apply obind_Ok in E2 as (? & _ & E2). by injection E2 as <-. }
    rewrite Ec in *. subst s1. cbn [ss_client st_baseText st_X editor_value ss_fsm ss_down] in *.
    rewrite Eb in Eb2. apply ju_inj in Eb2 as <-.
    unfold pending_ok in Hp2. rewrite Ec in Hp2. cbn [st_waitingForAck] in Hp2.
    destruct Hp2 as [(_ & ? & ? & ? & Hu2' & _)|(_ & pre & own & post & El & Hpre & Hpost & Hown & Ef)]; [congruence|].
    assert (length (ss_down s2) <= 1)%nat as Hl1 by (rewrite Hdn in Hd2; simpl in Hd2; lia).
    rewrite Hdn2, El, length_map, length_app in Hl1. simpl in Hl1. destruct pre; [|simpl in Hl1; lia]. destruct post; [|simpl in Hl1; lia].
    injection Ef as Ef. cbn [app] in El.
    destruct (next_revision _ _ _ _ _ _ Hi2 Ht2 El) as (_ & Hlr & Hdr & Hfx & d1 & Ed1 & Ht3 & _).
    assert (X2 = Y) as -> by (apply jcs_inj; congruence). rewrite <-Ef, AY in Ed1. injection Ed1 as <-.
    assert (headText (ss_fsm s2) = t) as Hh.
    { apply (f_equal length) in Hdr. rewrite length_drop in Hdr. simpl in Hdr.
      unfold textAt in Ht3. rewrite take_ge in Ht3 by lia. pose proof (chain_replay _ _ _ (inv_chain _ _ Hi2)). congruence. }
    rewrite Hdn2, El in *. cbn [map] in *. unfold notice in Hdn2. rewrite bool_decide_true in Hdn2 by done.
    pose proof (receive_ack_editor id s2 s3 _ _ Hdn2 E3) as Ee3. apply receive_fields in E3 as (Ef3 & Eu3 & Ed3).
    rewrite Hdn2 in Ed3. split; [split; [congruence|done]|]. rewrite Ee3, Ec, Ef3, Hh. cbn [editor_value]. by rewrite Ee.
Qed.

End settle.

(** What a page in step sees of the server. *)
Lemma in_sync_sees id init s :
  in_sync id init s -> small s ->
  exists r d, textAt init (ss_fsm s) r d /\ st_baseText (ss_client s) = ju d /\
    (r + length (ss_down s) = length (revisionLog (ss_fsm s)))%nat /\
    Forall (fun m => Validate (sm_Changeset m) = Ok tt) (ss_up s) /\
    (ss_down s = [] -> st_baseText (ss_client s) = ju (headText (ss_fsm s)) /\
       forall now, st_waitingForAck (ss_client s) = false -> submitTick (ss_client s) now = Ok (ss_client s, None) ->
         editor_value (ss_client s) = ju (headText (ss_fsm s))).
Proof.
  intros (r & d & A & X & t & Hsy) Hsm.
  pose proof Hsy as [Hi' [Hii' Ha'] Hr Ht Hdown Eb EA HA EX [HX _] [Ee Ae] _ _ Hp].
  exists r, d. split; [done|]. split; [done|].
  split; [rewrite Hdown, length_map, length_drop; lia|]. split.
  - unfold pending_ok, under_way, landed in Hp. destruct (st_waitingForAck (ss_client s)).
    + destruct Hp as [(_ & m & ? & ? & -> & _ & _ & _ & _ & _ & Hf & _)|[-> _]]; [|done].
      rewrite Forall_singleton. apply wf_cs_Validate, Hf.
    + by destruct Hp as [-> _].
  - intros Hdn.
    assert (d = headText (ss_fsm s)) as ->.
    { rewrite Hdown in Hdn. apply map_eq_nil in Hdn. apply (f_equal length) in Hdn. rewrite length_drop in Hdn. simpl in Hdn.
      unfold textAt in Ht. rewrite take_ge in Ht by lia. pose proof (chain_replay _ _ _ (inv_chain _ _ Hi')). congruence. }
    split; [done|]. intros now Hw Htk. unfold pending_ok in Hp. rewrite Hw in Hp. destruct Hp as (_ & _ & Hk).
    destruct Hsm as [Hsm _]. rewrite Ee, len_ju in Hsm.
    destruct (submitTick_ok (ss_client s) now (headText (ss_fsm s)) X t) as (HY & _ & _ & AY & _ & E'); [done..|by eapply textAt_ascii|done|by eapply textAt_len|done|].
    rewrite E' in Htk. destruct (IsIdentity (DiffToChangeset (headText (ss_fsm s)) t)) eqn:EI; [|discriminate Htk].
    rewrite Ee. f_equal. rewrite (fits_uapply _ _ _ HY AY). apply IsIdentity_apply; [apply HY|apply HY|done].
Qed.

(** ** Theorems *)

(** The page keeps up.  In a run as in [page_settles] the page never fails, has
    at every moment the text of a revision as its base, with the messages for
    the later revisions on their way, submits only what the server accepts, and
    shows the document itself whenever it has received everything, waits for
    nothing and finds nothing to submit. *)
Theorem page_keeps_up id init fsm submission_id s0 evs :
  fsm_inv init fsm -> is_ascii init = true -> Forall (fun x => ascii_cs (rr_Changeset x)) (revisionLog fsm) ->
  (forall last, clientLastSubmission fsm !! id = Some last -> last <= submission_id) ->
  opened_page fsm submission_id = Ok s0 -> run_ok id init s0 evs ->
  exists s r d, session_run id s0 evs = Ok s /\
    textAt init (ss_fsm s) r d /\ st_baseText (ss_client s) = ju d /\
    (r + length (ss_down s) = length (revisionLog (ss_fsm s)))%nat /\
    Forall (fun m => Validate (sm_Changeset m) = Ok tt) (ss_up s) /\
    (ss_down s = [] -> st_baseText (ss_client s) = ju (headText (ss_fsm s)) /\
       forall now, st_waitingForAck (ss_client s) = false -> submitTick (ss_client s) now = Ok (ss_client s, None) ->
         editor_value (ss_client s) = ju (headText (ss_fsm s))).
Proof.
  intros Hi Hii Ha Hl Ho Hrun. destruct (opened_in_sync id init fsm submission_id) as (s & E & Hs & _); [done..|].
  rewrite Ho in E. injection E as <-.
  destruct (sync_run id init s0 evs Hs Hrun) as (s & E & Hsy & Hsm).
  destruct (in_sync_sees id init s Hsy (tame_small _ Hsm)) as (r & d & ? & ? & ? & ? & ?). by exists s, r, d.
Qed.

(** C7: what is typed arrives.  A page that opens a document can go through any
    run of typing, submissions, commits of its own and of other clients and
    received messages, as long as ASCII without carriage returns is written,
    nothing is submitted twice, the other clients behave and the texts stay
    below [MaxText].  When its submission under way is then committed, all that
    was sent is received, and what the text area holds is submitted, committed
    and acknowledged, none of which fails, the page and the server have one
    text: that which the text area held when it had received everything. *)
Theorem page_settles id init fsm submission_id :
  fsm_inv init fsm -> is_ascii init = true -> Forall (fun x => ascii_cs (rr_Changeset x)) (revisionLog fsm) ->
  (forall last, clientLastSubmission fsm !! id = Some last -> last <= submission_id) ->
  exists s0, opened_page fsm submission_id = Ok s0 /\
    forall evs n now, run_ok id init s0 (evs ++ settle n now) ->
      exists s, session_run id s0 evs = Ok s /\
        ((length (ss_down s) < n)%nat ->
         exists s1 s', session_run id s (deliver n) = Ok s1 /\ session_run id s (settle n now) = Ok s' /\
           ss_up s' = [] /\ ss_down s' = [] /\ editor_value (ss_client s') = ju (headText (ss_fsm s')) /\
           editor_value (ss_client s') = editor_value (ss_client s1)).
Proof.
  intros Hi Hii Ha Hl. destruct (opened_in_sync id init fsm submission_id) as (s0 & E0 & Hs0 & _); [done..|].
  exists s0. split; [done|]. intros evs n now Hok.
  destruct (sync_run id init s0 _ Hs0 Hok) as (s' & E & _). rewrite session_run_app in E. apply obind_Ok in E as (s & Es & E).
  exists s. split; [done|]. intros Hn. destruct (run_ok_app _ _ _ _ _ _ Hok Es) as [Hok0 Hok1].
  destruct (sync_run id init s0 evs Hs0 Hok0) as (s_ & E' & Hsy & _). rewrite Es in E'. injection E' as <-.
  pose proof E as Eall. unfold settle in Hok1, E. rewrite session_run_app in E. apply obind_Ok in E as (s1 & E1 & E).
  destruct (run_ok_app _ _ _ _ _ _ Hok1 E1) as [Hok2 Hok3].
  destruct (sync_run id init s _ Hsy Hok2) as (s_ & E' & Hsy1 & _). rewrite E1 in E'. injection E' as <-.
  assert (idle s1) as Hidle.
  { unfold deliver in E1. cbn [session_run] in E1. apply obind_Ok in E1 as (s2 & E2 & E1).
    destruct (commit_own_up id init s s2 Hsy E2) as [Hu Hd].
    destruct (receive_all id _ _ _ E1) as [Hu' Hd']; [lia|]. split; [congruence|done]. }
  destruct (last_round id init s1 now s' Hsy1 Hidle Hok3 E) as ([Hu Hd] & He & Ht). by exists s1, s'.
Qed.

(** C8: a change of another client leaves what is typed standing.  In a run as
    in [page_settles] (ASCII, nothing submitted twice, texts below [MaxText]),
    when the page receives another client's changeset that has operations, its
    base becomes the new text of the server, its pending changeset is rebased
    as the server will rebase it, and the text area shows the new text with the
    pending changeset and with whatever was typed since rebased on it. *)
Theorem broadcast_keeps_typing id init fsm submission_id s0 evs s b down :
  fsm_inv init fsm -> is_ascii init = true -> Forall (fun x => ascii_cs (rr_Changeset x)) (revisionLog fsm) ->
  (forall last, clientLastSubmission fsm !! id = Some last -> last <= submission_id) ->
  opened_page fsm submission_id = Ok s0 -> run_ok id init s0 evs -> session_run id s0 evs = Ok s ->
  ss_down s = MsgBroadcast b :: down -> cs_Ops (bm_Changeset b) <> [] ->
  exists s' d X t d1 m m1 B1 X1 Y1 t1,
    session_step id s Receive = Ok s' /\
    page_moved s s' (bm_Changeset b) d X t d1 m m1 B1 X1 Y1 t1.
Proof.
  intros Hi Hii Ha Hl Ho Hok Hs Hdn Hops. destruct (opened_in_sync id init fsm submission_id) as (s00 & E & Hs0 & _); [done..|].
  rewrite Ho in E. injection E as <-. destruct (sync_run id init s0 evs Hs0 Hok) as (s_ & Es & (r & d & A & X & t & Hsy) & Hsm).
  rewrite Hs in Es. injection Es as <-. pose proof (sy_down _ _ _ _ _ _ _ _ Hsy) as Hd. rewrite Hdn in Hd.
  destruct (drop r (revisionLog (ss_fsm s))) as [|x recs] eqn:Hx; [done|]. injection Hd as Hb _.
  unfold notice in Hb. case_bool_decide as Hid; [done|]. injection Hb as ->.
  pose proof (tame_small _ Hsm) as Hsm_.
  destruct (receive_other id init s r d A X t x recs) as (s' & E & _ & d1 & m & m1 & B1 & X1 & Y1 & t1 & Hm); [done..|].
  by exists s', d, X, t, d1, m, m1, B1, X1, Y1, t1.
Qed.

(** ** Witnesses

    The page opens the text "axb" of [Fsm.wit_fsm] and appends a "c"; while
    this is under way the user appends a "d" and another client writes a "z"
    in front. *)

Definition wit_id : bytes := str "u9".
Definition wit_other : RaftLogEntry := mkEntry (str "u2") 1 1 (mkChangeset 3 4 [Insert (str "z"); Retain 3]).
Definition wit_before : list session_event :=
  [UserTypes (str "axbc"); Tick 1000; UserTypes (str "axbcd"); CommitOther wit_other].
Definition wit_events : list session_event := wit_before ++ [Receive; CommitOwn].

Definition wit_opened : Session := session_of (opened_page wit_fsm 0).

(** What [run_ok] asks of one event in a computed state. *)
Ltac entry_by_compute :=
  split;
  [split;
    [by vm_compute
    |let d := fresh "d" in let E := fresh "E" in
     intros d E; vm_compute in E; injection E as <-;
     split; [wf_by_compute|by vm_compute; intuition congruence|by vm_compute]
    |by vm_compute|by vm_compute]
  |repeat constructor].

Ltac event_by_compute :=
  lazymatch goal with
  | |- event_ok _ _ _ (UserTypes _) => vm_compute; reflexivity
  | |- event_ok _ _ _ (Tick _) => intros Hw; vm_compute in Hw |- *; first [reflexivity|discriminate Hw]
  | |- event_ok _ _ _ Receive => exact I
  | |- event_ok _ _ _ CommitOwn =>
      split; [vm_compute; reflexivity
             |let m := fresh "m" in let E := fresh "E" in
              intros m E; vm_compute in E; first [discriminate E|injection E as <-; vm_compute; discriminate]]
  | |- event_ok _ _ _ (CommitOther _) => split; [vm_compute; discriminate|entry_by_compute]
  end.

Ltac tame_by_compute := unfold tame; split_and!; vm_compute; first [reflexivity|discriminate].

Ltac run_by_compute :=
  lazymatch goal with
  | |- run_ok _ _ _ [] => split; [tame_by_compute|exact I]
  | |- run_ok _ _ _ (_ :: _) =>
      apply run_ok_step; [tame_by_compute|event_by_compute|vm_compute; reflexivity|run_by_compute]
  end.

Lemma wit_log_ascii : Forall (fun x => ascii_cs (rr_Changeset x)) (revisionLog wit_fsm).
Proof. repeat constructor. Qed.

Lemma wit_unsubmitted last : clientLastSubmission wit_fsm !! wit_id = Some last -> last <= 0.
Proof. intros E. by vm_compute in E. Qed.

Lemma wit_opened_ok : opened_page wit_fsm 0 = Ok wit_opened.
Proof. apply session_of_ok. vm_compute. reflexivity. Qed.

Definition wit_reached : Session := session_of (session_run wit_id wit_opened wit_events).
Definition wit_settled : Session := session_of (session_run wit_id wit_reached (settle 2 1500)).
Definition wit_told : Session := session_of (session_run wit_id wit_opened wit_before).

Lemma wit_reached_ok : session_run wit_id wit_opened wit_events = Ok wit_reached.
Proof. apply session_of_ok. vm_compute. reflexivity. Qed.

Lemma wit_settled_ok : session_run wit_id wit_reached (settle 2 1500) = Ok wit_settled.
Proof. apply session_of_ok. vm_compute. reflexivity. Qed.

Lemma wit_told_ok : session_run wit_id wit_opened wit_before = Ok wit_told.
Proof. apply session_of_ok. vm_compute. reflexivity. Qed.

Lemma wit_run_ok : run_ok wit_id (str "ab") wit_opened (wit_events ++ settle 2 1500).
Proof. unfold wit_events, wit_before, settle, deliver. cbn [app replicate]. run_by_compute. Qed.

Lemma page_keeps_up_witness :
  exists s r d, session_run wit_id wit_opened wit_events = Ok s /\
    textAt (str "ab") (ss_fsm s) r d /\ st_baseText (ss_client s) = ju d.
Proof.
  destruct (page_keeps_up wit_id (str "ab") wit_fsm 0 wit_opened wit_events wit_inv eq_refl wit_log_ascii wit_unsubmitted
    wit_opened_ok (proj1 (run_ok_app _ _ _ _ _ _ wit_run_ok wit_reached_ok))) as (s & r & d & E & Ht & Hb & _).
  exists s, r, d. split; [exact E|]. split; [exact Ht|exact Hb].
Defined.

Lemma wit_reached_down : Nat.ltb (length (ss_down wit_reached)) 2 = true.
Proof. vm_compute. reflexivity. Qed.

(** Both end with "zaxbcd". *)
Lemma page_settles_witness :
  editor_value (ss_client wit_settled) = ju (headText (ss_fsm wit_settled)) /\
  headText (ss_fsm wit_settled) = str "zaxbcd".
Proof.
  destruct (page_settles wit_id (str "ab") wit_fsm 0 wit_inv eq_refl wit_log_ascii wit_unsubmitted) as (s0 & E0 & Hrun).
  rewrite wit_opened_ok in E0. apply ok_inj in E0 as <-.
  destruct (Hrun wit_events 2%nat 1500 wit_run_ok) as (s & Es & Hset). rewrite wit_reached_ok in Es. apply ok_inj in Es as <-.
  destruct Hset as (s1 & s' & _ & E & _ & _ & Ht & _); [exact (proj1 (Nat.ltb_lt _ _) wit_reached_down)|].
  rewrite wit_settled_ok in E. apply ok_inj in E as <-. split; [exact Ht|vm_compute; reflexivity].
Defined.

Lemma broadcast_keeps_typing_witness :
  exists s' d X t d1 m m1 B1 X1 Y1 t1,
    session_step wit_id wit_told Receive = Ok s' /\
    page_moved wit_told s' (le_Changeset wit_other) d X t d1 m m1 B1 X1 Y1 t1.
Proof.
  refine (broadcast_keeps_typing wit_id (str "ab") wit_fsm 0 wit_opened wit_before wit_told
    (mkBroadcast (le_Changeset wit_other) 2) [] wit_inv eq_refl wit_log_ascii wit_unsubmitted wit_opened_ok _ wit_told_ok _ _).
  - unfold wit_before. run_by_compute.
  - vm_compute. reflexivity.
  - discriminate.
Defined.

(** ** What the theorems exclude *)

(** A submission sent twice.  The submission of the "c" is sent again after
    two seconds without an answer, and both copies are answered; the second
    answer, which does not say to which submission it belongs, is taken for
    that to the "d", which is still under way.  Another client's change in
    between is then rebased on too little: in the end everything is delivered,
    nothing waits and nothing is to be submitted, and the page does not show
    the "d" that the document has. *)
Theorem early_ack_diverges :
  let evs := [UserTypes (str "axbc"); Tick 1000; Tick 3500; CommitOwn; Receive;
              UserTypes (str "axbcd"); Tick 4000; CommitOwn; Receive;
              CommitOther (mkEntry (str "u2") 1 2 (mkChangeset 4 5 [Insert (str "z"); Retain 4])); Receive;
              CommitOwn; Receive; Tick 6000] in
  match session_run wit_id wit_opened evs with
  | Ok s =>
      ss_up s = [] /\ ss_down s = [] /\ st_waitingForAck (ss_client s) = false /\
      to_text (editor_value (ss_client s)) = str "zaxbc" /\ headText (ss_fsm s) = str "zaxbcd"
  | _ => False
  end.
Proof. vm_compute. auto. Qed.

(** Typing lost.  [handleConnectAck] shows the pending changesets on the base
    text, and [Y] is only brought up to date by a broadcast: what was typed
    since the last submission is gone when the connection is opened again,
    although no revision was missed. *)
Theorem reconnect_loses_typing :
  match session_run wit_id wit_opened [UserTypes (str "axbc"); Tick 1000; UserTypes (str "axbcd")] with
  | Ok s =>
      match reconnect s with
      | Ok s' => to_text (editor_value (ss_client s')) = str "axbc" /\ headRev (ss_fsm s') = st_serverRev (ss_client s)
      | _ => False
      end
  | _ => False
  end.
Proof. vm_compute. auto. Qed.

(** A submission lost.  When a revision was missed, [Y] is rebased with the
    [X] that has been rebased already; the lengths do not fit and both are
    given up, the submission with them, which is still under way.  When it is
    committed the page takes the acknowledgement for that of nothing, and
    differs from the document with nothing left to do. *)
Theorem reconnect_loses_submission :
  match session_run wit_id wit_opened [UserTypes (str "axbc"); Tick 1000; CommitOther wit_other] with
  | Ok s =>
      match reconnect s with
      | Ok s =>
          match session_run wit_id s [CommitOwn; Receive; Tick 2000] with
          | Ok s =>
              ss_up s = [] /\ ss_down s = [] /\ st_waitingForAck (ss_client s) = false /\
              to_text (editor_value (ss_client s)) = str "zaxb" /\ headText (ss_fsm s) = str "zaxbc"
          | _ => False
          end
      | _ => False
      end
  | _ => False
  end.
Proof. vm_compute. auto. Qed.

(** Text deleted that nobody deleted.  A page on which nothing is typed misses
    two revisions, one shorter than its text and one of its length: the [Y]
    that does not fit the first one fits the second again, and makes the page
    leave out the last characters of the document.  Its next submission
    deletes them for everybody. *)
Theorem reconnect_deletes_text :
  let other n old new ops := CommitOther (mkEntry (str "u2") n n (mkChangeset old new ops)) in
  match session_run wit_id wit_opened
          [other 1 3 10 [Retain 3; Insert (str "cdefghi")]; Receive;
           other 2 10 8 [Delete 2; Retain 8]; other 3 8 10 [Insert (str "yz"); Retain 8]] with
  | Ok s =>
      match reconnect s with
      | Ok s =>
          ss_up s = [] /\ ss_down s = [] /\ headText (ss_fsm s) = str "yzbcdefghi" /\
          to_text (editor_value (ss_client s)) = str "yzbcdefg" /\
          match session_run wit_id s [Tick 2000; CommitOwn] with
          | Ok s => headText (ss_fsm s) = str "yzbcdefg"
          | _ => False
          end
      | _ => False
      end
  | _ => False
  end.
Proof. vm_compute. auto 10. Qed.
