(* ===== verification/Pages.v ===== *)
(** * Any number of pages

    A server with the pages that are open on it.  What one page has committed
    the others are told, so that the whole is, from where one page stands, the
    session of [PageSession], in which the submissions of the others are the
    entries of other clients. *)

From S2P Require Import Prelude Utf8 Edit Changeset Apply Cursor Compose Follow Diff Fsm Json Base64 Codec Wire.
From S2P Require Import Binary Store RaftTypes Messages Server Session Browser Rebased Client PageSession PageSync EndToEnd.

(** ** The pages of a server *)

Record Page : Type := mkOpenPage {
  pg_client : Client;
  pg_up : list SubmitMsg;
  pg_down : list ServerMsg
}.

Record Room : Type := mkRoom {
  rm_fsm : DocumentStateMachine;
  rm_pages : gmap bytes Page
}.

Definition view (w : Room) (p : Page) : Session := mkSession (rm_fsm w) (pg_client p) (pg_up p) (pg_down p).
Definition page_of (s : Session) : Page := mkOpenPage (ss_client s) (ss_up s) (ss_down s).

(** A page opens with a number from its storage; something happens at a page,
    or to its oldest submission; an entry of a client elsewhere is committed. *)
Inductive room_event : Type :=
| Opens (id : bytes) (submission_id : Z)
| Acts (id : bytes) (ev : session_event)
| Enters (e : RaftLogEntry).

(** [Apply] and the calls of [onCommit]. *)
Definition room_commit (w : Room) (e : RaftLogEntry) : js Room :=
  let! a := js_of (fun a => a) (applyEntry (rm_fsm w) e) in
  Ok (mkRoom (ap_state a)
        (map_imap (fun id p =>
           Some (mkOpenPage (pg_client p) (pg_up p) (pg_down p ++ mjoin (map (told id) (ap_callbacks a)))))
           (rm_pages w))).

(** At a page nobody else's submission is committed, so [CommitOther] is no
    event of a page. *)
Definition room_step (w : Room) (ev : room_event) : js Room :=
  match ev with
  | Opens id n =>
      match rm_pages w !! id with
      | Some _ => Ok w
      | None => let! s := opened_page (rm_fsm w) n in Ok (mkRoom (rm_fsm w) (<[id := page_of s]> (rm_pages w)))
      end
  | Acts id ev =>
      match rm_pages w !! id with
      | None => Ok w
      | Some p =>
          match ev with
          | CommitOwn =>
              match pg_up p with
              | [] => Ok w
              | m :: up =>
                  room_commit (mkRoom (rm_fsm w) (<[id := mkOpenPage (pg_client p) up (pg_down p)]> (rm_pages w)))
                    (submitted m)
              end
          | CommitOther _ => Ok w
          | _ => let! s := session_step id (view w p) ev in Ok (mkRoom (rm_fsm w) (<[id := page_of s]> (rm_pages w)))
          end
      end
  | Enters e => room_commit w e
  end.

Fixpoint room_run (w : Room) (evs : list room_event) : js Room :=
  match evs with
  | [] => Ok w
  | ev :: evs => let! w := room_step w ev in room_run w evs
  end.

(** ** What is assumed of the events *)

Definition room_event_ok (init : bytes) (w : Room) (ev : room_event) : Prop :=
  match ev with
  | Opens id n => forall last, clientLastSubmission (rm_fsm w) !! id = Some last -> last <= n
  | Acts id (CommitOther _) => True
  | Acts id ev => forall p, rm_pages w !! id = Some p -> event_ok id init (view w p) ev
  | Enters e => rm_pages w !! le_ClientID e = None /\ entry_ok init (rm_fsm w) e /\ ascii_cs (le_Changeset e)
  end.

Definition room_tame (w : Room) : Prop := map_Forall (fun _ p => tame (view w p)) (rm_pages w).

Fixpoint room_run_ok (init : bytes) (w : Room) (evs : list room_event) : Prop :=
  room_tame w /\
  match evs with
  | [] => True
  | ev :: evs => room_event_ok init w ev /\ forall w', room_step w ev = Ok w' -> room_run_ok init w' evs
  end.

(** ** The invariant *)

Record room_ok (init : bytes) (w : Room) : Prop := {
  ro_inv : fsm_inv init (rm_fsm w);
  ro_init : is_ascii init = true;
  ro_ascii : Forall (fun x => ascii_cs (rr_Changeset x)) (revisionLog (rm_fsm w));
  ro_pages : map_Forall (fun id p => in_sync id init (view w p)) (rm_pages w)
}.

(** A page with nothing under way, and one that shows its base besides. *)
Definition at_rest (p : Page) : Prop := pg_up p = [] /\ pg_down p = [].
Definition calm (p : Page) : Prop := at_rest p /\ editor_value (pg_client p) = st_baseText (pg_client p).

(** Each page in turn submits what it holds; it is committed, and everybody is
    told. *)
Definition turn (ids : list bytes) (now : Z) (id : bytes) : list room_event :=
  [Acts id (Tick now); Acts id CommitOwn] ++ map (fun j => Acts j Receive) ids.

Definition turns (ids : list bytes) (now : Z) : list room_event := mjoin (map (turn ids now) ids).

(** What is under way is committed and received, and then the pages take
    their turns. *)
Definition flush (ids : list bytes) (n : nat) : list room_event :=
  map (fun j => Acts j CommitOwn) ids ++ mjoin (replicate n (map (fun j => Acts j Receive) ids)).

Definition settle_all (ids : list bytes) (n : nat) (now : Z) : list room_event := flush ids n ++ turns ids now.

(** * Lemmas *)

(** ** A commit, seen from a page *)

Lemma view_page w s : rm_fsm w = ss_fsm s -> view w (page_of s) = s.
Proof. destruct s, w. by intros [= ->]. Qed.

Lemma room_commit_view w e w' :
  room_commit w e = Ok w' ->
  (forall id, is_Some (rm_pages w' !! id) <-> is_Some (rm_pages w !! id)) /\
  forall id p, rm_pages w !! id = Some p ->
    exists p', rm_pages w' !! id = Some p' /\ commit id (view w p) (pg_up p) e = Ok (view w' p') /\
      pg_client p' = pg_client p /\ pg_up p' = pg_up p.
Proof.
  unfold room_commit, commit. intros (a & Ea & [= <-])%obind_Ok. cbn [rm_pages rm_fsm]. split.
  - intros id. rewrite map_lookup_imap. destruct (rm_pages w !! id); simpl; [|done]. split; by eexists.
  - intros id p Hp. eexists. rewrite map_lookup_imap, Hp. split; [done|]. cbn [view ss_fsm]. by rewrite Ea.
Qed.

Section room.
Context (init : bytes).

Lemma in_sync_fsm id s : in_sync id init s -> fsm_inv init (ss_fsm s) /\ Forall (fun x => ascii_cs (rr_Changeset x)) (revisionLog (ss_fsm s)).
Proof. intros (r & d & A & X & t & Hsy). split; [apply (sy_inv _ _ _ _ _ _ _ _ Hsy)|apply (sy_ascii _ _ _ _ _ _ _ _ Hsy)]. Qed.

(** The state machine keeps its invariant, with pages or without. *)
Lemma applied_ok fsm e a :
  fsm_inv init fsm -> Forall (fun x => ascii_cs (rr_Changeset x)) (revisionLog fsm) ->
  entry_ok init fsm e -> ascii_cs (le_Changeset e) -> applyEntry fsm e = Ok a ->
  fsm_inv init (ap_state a) /\ Forall (fun x => ascii_cs (rr_Changeset x)) (revisionLog (ap_state a)).
Proof.
  intros Hi Ha He Hc Ea. destruct (seen_or_not fsm e) as [Hs|Hns].
  - rewrite (applyEntry_seen _ _ Hs) in Ea. by injection Ea as <-.
  - destruct (applyEntry_ok _ _ _ Hi He Hns) as (C & text & EC & _ & E & Hi'). rewrite E in Ea. injection Ea as <-.
    split; [done|]. simpl. rewrite Forall_app, Forall_singleton. split; [done|]. by eapply follow_all_ascii.
Qed.

(** An entry none of the pages in [pages] has sent. *)
Lemma room_commit_ok w e :
  fsm_inv init (rm_fsm w) -> is_ascii init = true -> Forall (fun x => ascii_cs (rr_Changeset x)) (revisionLog (rm_fsm w)) ->
  entry_ok init (rm_fsm w) e -> ascii_cs (le_Changeset e) ->
  (forall id p, rm_pages w !! id = Some p ->
     (le_ClientID e <> id /\ in_sync id init (view w p)) \/
     (forall s', commit id (view w p) (pg_up p) e = Ok s' -> in_sync id init s')) ->
  exists w', room_commit w e = Ok w' /\ room_ok init w'.
Proof.
  intros Hi Hii Ha He Hc Hp.
  assert (exists a, applyEntry (rm_fsm w) e = Ok a) as [a Ea].
  { destruct (seen_or_not (rm_fsm w) e) as [Hs|Hns]; [by rewrite (applyEntry_seen _ _ Hs); eexists|].
    destruct (applyEntry_ok _ _ _ Hi He Hns) as (C & text & _ & _ & E & _). by eexists. }
  destruct (applied_ok _ _ _ Hi Ha He Hc Ea) as [Hi' Ha'].
  assert (exists w', room_commit w e = Ok w' /\ rm_fsm w' = ap_state a) as (w' & E & Ef).
  { unfold room_commit. rewrite Ea. cbn [js_of obind]. by eexists. }
  exists w'. split; [done|]. destruct (room_commit_view _ _ _ E) as [Hdom Hv].
  split; rewrite ?Ef; try done. intros id p' Hp'.
  destruct (proj1 (Hdom id)) as [p Hpp]; [by eexists|]. destruct (Hv id p Hpp) as (p2 & Hp2 & Ec & _).
  rewrite Hp' in Hp2. injection Hp2 as <-. destruct (Hp id p Hpp) as [[Hne Hs]|Hs]; [|by apply Hs].
  destruct (sync_other id init (view w p) e Hs) as (s' & Es & Hs'); [done|].
  cbn [session_step view ss_up] in Es. fold (view w p) in Es. rewrite Ec in Es. by injection Es as <-.
Qed.

(** What a page does by itself. *)
Definition by_itself (ev : session_event) : bool :=
  match ev with UserTypes _ | Tick _ | Receive => true | CommitOwn | CommitOther _ => false end.

Lemma by_itself_fsm id s ev s' :
  by_itself ev = true -> session_step id s ev = Ok s' -> ss_fsm s' = ss_fsm s.
Proof.
  destruct ev; try done; intros _; cbn [session_step].
  - by intros [= <-].
  - intros ([c m] & _ & [= <-])%obind_Ok. done.
  - intros E. by apply receive_fields in E as [? _].
Qed.

Lemma acts_by_itself w id p ev :
  by_itself ev = true -> rm_pages w !! id = Some p ->
  room_step w (Acts id ev) =
    let! s := session_step id (view w p) ev in Ok (mkRoom (rm_fsm w) (<[id := page_of s]> (rm_pages w))).
Proof. intros He Hp. cbn [room_step]. rewrite Hp. by destruct ev. Qed.

Lemma room_insert w id s :
  room_ok init w -> ss_fsm s = rm_fsm w -> in_sync id init s ->
  room_ok init (mkRoom (rm_fsm w) (<[id := page_of s]> (rm_pages w))).
Proof.
  intros [Hi Hii Ha Hp] Hf Hs. split; try done. cbn [rm_pages]. intros j p Hj.
  apply lookup_insert_Some in Hj as [[<- <-]|[_ Hj]].
  - by rewrite view_page.
  - specialize (Hp j p Hj). by destruct p.
Qed.

Lemma acts_commit w id p m up :
  rm_pages w !! id = Some p -> pg_up p = m :: up ->
  room_step w (Acts id CommitOwn) =
    room_commit (mkRoom (rm_fsm w) (<[id := mkOpenPage (pg_client p) up (pg_down p)]> (rm_pages w))) (submitted m).
Proof. intros Hp Hu. cbn [room_step]. by rewrite Hp, Hu. Qed.

Lemma room_own_ok w id p m up :
  room_ok init w -> rm_pages w !! id = Some p -> pg_up p = m :: up -> event_ok id init (view w p) CommitOwn ->
  own_entry id init (view w p) m up /\
  exists w', room_step w (Acts id CommitOwn) = Ok w' /\ room_ok init w'.
Proof.
  intros [Hi Hii Ha Hp] Hid Hu Hev. pose proof (Hp id p Hid) as Hs. cbn beta in Hs. pose proof Hs as (r & d & A & X & t & Hsy).
  destruct (own_entry_ok id init _ _ _ _ _ _ m up Hsy Hev Hu) as [Hown _]. split; [done|].
  destruct Hown as [Hw -> Hc Hn He Hasc Hfresh].
  rewrite (acts_commit w id p m []) by done. apply room_commit_ok; try done. cbn [rm_pages].
  intros j q Hj. apply lookup_insert_Some in Hj as [[<- <-]|[Hne Hj]].
  - right. intros s' E. destruct (sync_own id init (view w p) Hs Hev) as (s2 & E2 & Hs2).
    cbn [session_step view ss_up] in E2. rewrite Hu in E2. unfold commit in E, E2. cbn [view ss_fsm ss_client ss_down pg_client pg_up pg_down rm_fsm] in E, E2.
    rewrite E in E2. by injection E2 as <-.
  - left. split; [simpl; congruence|]. exact (Hp j q Hj).
Qed.

Lemma room_step_ok w ev :
  room_ok init w -> room_tame w -> room_event_ok init w ev ->
  exists w', room_step w ev = Ok w' /\ room_ok init w'.
Proof.
  intros Hok Hsm Hev. pose proof Hok as [Hi Hii Ha Hp]. destruct ev as [id n|id ev|e].
  - cbn [room_step]. destruct (rm_pages w !! id) eqn:E; [by eexists|].
    destruct (opened_in_sync id init (rm_fsm w) n) as (s & -> & Hs & Hf & _); [done..|]. cbn [obind].
    eexists. split; [done|]. by apply room_insert.
  - destruct (rm_pages w !! id) as [p|] eqn:E; [|cbn [room_step]; rewrite E; by eexists].
    destruct (by_itself ev) eqn:Hb.
    + rewrite (acts_by_itself w id p) by done.
      assert (event_ok id init (view w p) ev) as Hev' by (destruct ev; try done; by apply Hev).
      destruct (sync_step id init (view w p) ev) as (s & Es & Hs); [exact (Hp id p E)|exact (tame_small _ (Hsm id p E))|done|].
      pose proof (by_itself_fsm _ _ _ _ Hb Es) as Hf. rewrite Es. cbn [obind]. eexists. split; [done|]. by apply room_insert.
    + destruct ev as [|?| |e|]; try done.
      * destruct (pg_up p) as [|m up] eqn:Eu; [cbn [room_step]; rewrite E, Eu; by eexists|].
        eapply room_own_ok; eauto.
      * cbn [room_step]. rewrite E. by eexists.
  - destruct Hev as (Hn & He & Hc). apply room_commit_ok; try done. intros id p Hid. left.
    split; [congruence|exact (Hp id p Hid)].
Qed.

Lemma room_run_ok_sync w evs :
  room_ok init w -> room_run_ok init w evs -> exists w', room_run w evs = Ok w' /\ room_ok init w' /\ room_tame w'.
Proof.
  revert w. induction evs as [|ev evs IH]; intros w Hw; cbn [room_run_ok room_run].
  - intros [Hsm _]. eauto.
  - intros (Hsm & Hev & Hk). destruct (room_step_ok w ev Hw Hsm Hev) as (w1 & E & Hw1). rewrite E. cbn [obind]. auto.
Qed.

Lemma room_run_app w evs evs' :
  room_run w (evs ++ evs') = let! w := room_run w evs in room_run w evs'.
Proof.
  revert w. induction evs as [|ev evs IH]; intros w; [done|]. cbn [app room_run].
  destruct (room_step w ev); cbn [obind]; auto.
Qed.

Lemma room_run_ok_app w evs evs' w' :
  room_run_ok init w (evs ++ evs') -> room_run w evs = Ok w' -> room_run_ok init w evs /\ room_run_ok init w' evs'.
Proof.
  revert w. induction evs as [|ev evs IH]; intros w; cbn [app room_run_ok room_run].
  - intros H [= <-]. split; [|done]. split; [|done]. by destruct evs', H.
  - intros (Hs & He & Hk) (w1 & E & Hr)%obind_Ok. destruct (IH w1 (Hk _ E) Hr) as [H1 Hr'].
    split; [|done]. split; [done|]. split; [done|]. intros w2 E2. rewrite E in E2. by injection E2 as <-.
Qed.

Lemma room_start fsm :
  fsm_inv init fsm -> is_ascii init = true -> Forall (fun x => ascii_cs (rr_Changeset x)) (revisionLog fsm) ->
  room_ok init (mkRoom fsm ∅).
Proof. by split. Qed.

(** ** A turn *)

(** A change of another client moves a page that shows its base to its new
    base. *)
Lemma moved_calm s s' B d X t d1 m m1 B1 X1 Y1 t1 :
  page_moved s s' B d X t d1 m m1 B1 X1 Y1 t1 ->
  fits B d -> fits X d -> keeps_all X (len d) -> is_ascii d = true -> len d <= MaxDoc -> len d1 <= MaxDoc ->
  editor_value (ss_client s) = st_baseText (ss_client s) -> editor_value (ss_client s') = st_baseText (ss_client s').
Proof.
  intros [Eb EX Ee Em FX1 FB1 FY1 Ed1 Em1 Em1' Et1 Eb' EX' Ee'] HB HX HK Ad Ld Ld1 Heq.
  rewrite Eb, Ee in Heq. apply ju_inj in Heq as ->. rewrite Eb', Ee'. f_equal.
  assert (m = d) as -> by (rewrite (fits_uapply _ _ _ HX Em); by apply keeps_all_apply).
  pose proof (fits_new _ _ _ HB Ed1) as NB. pose proof (fits_new _ _ _ HX Em) as NX.
  assert (cs_NewLen B + cs_NewLen X <= MaxInt) as Hmax by (unfold MaxDoc, MaxInt in *; lia).
  destruct (meet B X d HB HX Hmax) as (X1' & B1' & m' & d1' & m1' & [F1 F2 G1 G2 G3 G4 K1 K2 _ _ _]).
  rewrite FX1 in F1. injection F1 as <-. rewrite FB1 in F2. injection F2 as <-.
  rewrite Ed1 in G1. injection G1 as <-. rewrite Em in G2. injection G2 as <-. rewrite Em1 in G3. injection G3 as <-.
  assert (keeps_all X1 (len d1)) as HK1.
  { rewrite NB. apply (Follow_keeps B X X1 (len d)); try done; [apply HB|apply HX|by destruct HB|by destruct HX]. }
  assert (m1 = d1) as -> by (rewrite (fits_uapply _ _ _ K1 Em1); by apply keeps_all_apply).
  pose proof (fits_new _ _ _ K2 Em1') as NB1.
  destruct (Diff_wf d d) as (WY & CY & AY); [by apply ascii_utf8|by apply ascii_utf8|unfold MaxDoc, MaxInt in *; lia..|].
  set (Y := DiffToChangeset d d) in *.
  assert (fits Y d) as HY by (split; [done|by apply canonical_no_double_insert|done]).
  assert (cs_NewLen Y = len d) as NY by done.
  assert (keeps_all Y (len d)) as HKY by (apply Diff_same; [done|unfold MaxDoc, MaxInt in *; lia]).
  assert (cs_NewLen B1 + cs_NewLen Y <= MaxInt) as Hmax2 by (unfold MaxDoc, MaxInt in *; lia).
  destruct (meet B1 Y d K2 HY Hmax2) as (Y1' & D & c & e & q & [F3 _ G5 _ G6 _ K3 _ _ _ _]).
  rewrite FY1 in F3. injection F3 as <-. rewrite Em1' in G5. injection G5 as <-.
  rewrite (fits_uapply _ _ _ K3 Et1). apply keeps_all_apply. rewrite NB1.
  apply (Follow_keeps B1 Y Y1 (len d)); try done; [apply K2|by destruct K2].
Qed.

(** Another client's commit adds at most one message to those of a page. *)
Lemma commit_other_fields id s e s1 :
  session_step id s (CommitOther e) = Ok s1 ->
  ss_client s1 = ss_client s /\ ss_up s1 = ss_up s /\ (length (ss_down s1) <= S (length (ss_down s)))%nat.
Proof.
  cbn [session_step]. unfold commit. intros (a & Ea & [= <-])%obind_Ok. cbn [ss_client ss_up ss_down].
  split; [done|]. split; [done|]. rewrite length_app. pose proof (told_once id _ _ _ Ea). lia.
Qed.

Lemma after_other id s e s1 s2 :
  in_sync id init s -> small s -> idle s -> event_ok id init s (CommitOther e) ->
  session_step id s (CommitOther e) = Ok s1 -> session_step id s1 Receive = Ok s2 ->
  idle s2 /\
  (editor_value (ss_client s) = st_baseText (ss_client s) -> editor_value (ss_client s2) = st_baseText (ss_client s2)).
Proof.
  intros Hs Hsm [Hu Hd] Hev E1 E2.
  destruct (sync_other id init s e Hs Hev) as (s1' & E1' & r & d & A & X & t & Hsy). rewrite E1 in E1'. injection E1' as <-.
  destruct (commit_other_fields id s e s1 E1) as (Ec & Eu & El). rewrite Hu in Eu. rewrite Hd in El. cbn [length] in El.
  assert (small s1) as Hsm1 by (unfold small in *; by rewrite Ec).
  pose proof (receive_fields _ _ _ E2) as (_ & Eu2 & Ed2).
  assert (idle s2) as Hidle.
  { split; [congruence|]. rewrite Ed2. destruct (ss_down s1) as [|? [|]]; simpl in *; (done || lia). }
  split; [done|]. rewrite <-Ec. pose proof Hsy as [Hi [Hii Ha] Hr Ht Hdn Eb EA HA EX [HX _] [Ee Ae] _ _ Hp].
  destruct (drop r (revisionLog (ss_fsm s1))) as [|x recs] eqn:Hx.
  { cbn [session_step] in E2. rewrite Hdn in E2. by injection E2 as <-. }
  destruct (next_revision _ _ _ _ _ _ Hi Ht Hx) as (_ & _ & _ & Hfx & d1 & Ed1 & _ & Ld & Ld1).
  unfold pending_ok, under_way, landed in Hp. rewrite Hx, Eu in Hp.
  destruct (st_waitingForAck (ss_client s1)) eqn:Hw.
  { exfalso. destruct Hs as (r0 & d0 & A0 & X0 & t0 & Hsy0).
    destruct (idle_synced id init _ _ _ _ _ _ Hsy0) as (Hw0 & _); [by split|]. congruence. }
  destruct Hp as (_ & Ho & Hk). apply Forall_cons in Ho as [Hne _].
  destruct (decide (cs_Ops (rr_Changeset x) = [])) as [Hops|Hops].
  - cbn [session_step] in E2. rewrite Hdn in E2. cbn [map] in E2. unfold notice at 1 in E2. rewrite bool_decide_false in E2 by done.
    unfold received in E2. cbn [from_message onWsMessage bm_Changeset bm_NewRev] in E2.
    unfold handleBroadcast, from_changeset in E2. rewrite Hops in E2. cbn [jc_ops or_throw obind] in E2. by injection E2 as <-.
  - destruct (receive_other id init s1 r d A X t x recs) as (s2' & E2' & _ & d1' & m & m1 & B1 & X1 & Y1 & t1 & Hm); try done.
    rewrite E2 in E2'. injection E2' as <-. pose proof (pm_d1 _ _ _ _ _ _ _ _ _ _ _ _ _ Hm) as Ed1'. rewrite Ed1 in Ed1'. injection Ed1' as <-.
    eapply moved_calm; [exact Hm|done|done|done| |done|done]. by eapply textAt_ascii.
Qed.

(** A page with nothing under way has the text of the server as its base. *)
Lemma rest_base id s : in_sync id init s -> idle s -> st_baseText (ss_client s) = ju (headText (ss_fsm s)).
Proof.
  intros (r & d & A & X & t & Hsy) Hid. destruct (idle_synced id init _ _ _ _ _ _ Hsy Hid) as (_ & _ & <-).
  apply (sy_base _ _ _ _ _ _ _ _ Hsy).
Qed.

(** Every page takes the next message it has. *)
Lemma receives js w w' :
  NoDup js -> room_run w (map (fun j => Acts j Receive) js) = Ok w' ->
  rm_fsm w' = rm_fsm w /\ (forall j, is_Some (rm_pages w' !! j) <-> is_Some (rm_pages w !! j)) /\
  (forall j p, rm_pages w !! j = Some p -> j ∉ js -> rm_pages w' !! j = Some p) /\
  (forall j p, rm_pages w !! j = Some p -> j ∈ js ->
     exists p', rm_pages w' !! j = Some p' /\ session_step j (view w p) Receive = Ok (view w' p')).
Proof.
  revert w. induction js as [|k js IH]; intros w Hnd.
  { intros [= <-]. split_and!; try done. intros j p _ Hn. by apply not_elem_of_nil in Hn. }
  apply NoDup_cons in Hnd as [Hk Hnd]. cbn [map room_run]. intros (w1 & E & Hr)%obind_Ok.
  destruct (IH w1 Hnd Hr) as (Hf & Hdom & Hout & Hin).
  destruct (rm_pages w !! k) as [q|] eqn:Hq.
  - rewrite (acts_by_itself w k q Receive) in E by done. apply obind_Ok in E as (s & Es & [= <-]).
    cbn [rm_fsm rm_pages] in *. split; [done|]. split; [|split].
    + intros j. rewrite Hdom. destruct (decide (j = k)) as [->|Hne];
        [rewrite lookup_insert_eq, Hq|rewrite lookup_insert_ne by done]; split; eauto.
    + intros j p Hp [Hne Hni]%not_elem_of_cons. apply Hout; [by rewrite lookup_insert_ne|done].
    + intros j p Hp Hj. destruct (decide (j = k)) as [->|Hne].
      * rewrite Hq in Hp. injection Hp as <-. exists (page_of s). split; [apply Hout; [by rewrite lookup_insert_eq|done]|].
        rewrite view_page; [done|]. rewrite Hf. symmetry. by apply (by_itself_fsm k (view w q) Receive).
      * apply elem_of_cons in Hj as [?|Hj]; [done|]. apply (Hin j p); [by rewrite lookup_insert_ne|done].
  - assert (w1 = w) as -> by (cbn [room_step] in E; rewrite Hq in E; by injection E as <-).
    split; [done|]. split; [done|]. split.
    + intros j p Hp [_ Hni]%not_elem_of_cons. by apply Hout.
    + intros j p Hp [->|Hj]%elem_of_cons; [congruence|by apply Hin].
Qed.

(** What a run needs at its first event. *)
Lemma room_run_ok_cons w ev evs w1 :
  room_run_ok init w (ev :: evs) -> room_step w ev = Ok w1 ->
  room_tame w /\ room_event_ok init w ev /\ room_run_ok init w1 evs.
Proof. intros (Hs & He & Hk) E. auto. Qed.

Lemma room_run_ok_small w evs : room_run_ok init w evs -> room_tame w.
Proof. by destruct evs; intros [? _]. Qed.

Lemma run_ok_cons id s ev evs s1 :
  tame s -> event_ok id init s ev -> session_step id s ev = Ok s1 -> run_ok id init s1 evs -> run_ok id init s (ev :: evs).
Proof. intros Hs He E Hr. split; [done|]. split; [done|]. intros s2 E2. rewrite E in E2. by injection E2 as <-. Qed.

(** The commit of a turn, from the page that has submitted and from another. *)
Lemma turn_commit w1 id p1 w2 :
  room_ok init w1 -> rm_pages w1 !! id = Some p1 -> event_ok id init (view w1 p1) CommitOwn ->
  room_step w1 (Acts id CommitOwn) = Ok w2 ->
  (forall j, is_Some (rm_pages w2 !! j) <-> is_Some (rm_pages w1 !! j)) /\
  (exists p2, rm_pages w2 !! id = Some p2 /\ session_step id (view w1 p1) CommitOwn = Ok (view w2 p2)) /\
  (forall j q, rm_pages w1 !! j = Some q -> j <> id -> exists q2, rm_pages w2 !! j = Some q2 /\
     (view w2 q2 = view w1 q \/
      exists e, event_ok j init (view w1 q) (CommitOther e) /\ session_step j (view w1 q) (CommitOther e) = Ok (view w2 q2))).
Proof.
  intros Hok Hp Hev E. destruct (pg_up p1) as [|m up] eqn:Hu.
  - cbn [room_step] in E. rewrite Hp, Hu in E. injection E as <-. split; [done|]. split; [|by eauto].
    exists p1. split; [done|]. cbn [session_step view ss_up]. by rewrite Hu.
  - destruct (room_own_ok w1 id p1 m up Hok Hp Hu Hev) as [[_ -> Hc _ He Hasc _] _].
    rewrite (acts_commit w1 id p1 m []) in E by done. destruct (room_commit_view _ _ _ E) as [Hdom Hv].
    cbn [rm_pages] in Hdom, Hv. split; [|split].
    + intros j. rewrite Hdom. destruct (decide (j = id)) as [->|];
        [rewrite lookup_insert_eq, Hp|rewrite lookup_insert_ne by done]; split; eauto.
    + destruct (Hv id _ (lookup_insert_eq _ _ _)) as (p2 & Hp2 & Ec & _). exists p2. split; [done|].
      cbn [session_step view ss_up]. by rewrite Hu.
    + intros j q Hq Hne. destruct (Hv j q) as (q2 & Hq2 & Ec & _); [by rewrite lookup_insert_ne|].
      exists q2. split; [done|]. right. exists (submitted m). split; [|done].
      split; [simpl; congruence|]. by split.
Qed.

(** What a turn is for one page: the last round of [EndToEnd] for the one
    whose turn it is, at most a change of another client for any other. *)
Definition turn_seen (w w' : Room) (now : Z) (id j : bytes) : Prop :=
  forall q q', rm_pages w !! j = Some q -> rm_pages w' !! j = Some q' ->
    if decide (j = id) then
      run_ok j init (view w q) [Tick now; CommitOwn; Receive] /\
      session_run j (view w q) [Tick now; CommitOwn; Receive] = Ok (view w' q')
    else
      session_step j (view w q) Receive = Ok (view w' q') \/
      exists e s, event_ok j init (view w q) (CommitOther e) /\
        session_step j (view w q) (CommitOther e) = Ok s /\ session_step j s Receive = Ok (view w' q').

Lemma turn_views ids now id w w' :
  NoDup ids -> (forall j, j ∈ ids <-> is_Some (rm_pages w !! j)) -> id ∈ ids ->
  room_ok init w -> room_run_ok init w (turn ids now id) -> room_run w (turn ids now id) = Ok w' ->
  room_ok init w' /\ (forall j, j ∈ ids <-> is_Some (rm_pages w' !! j)) /\ forall j, turn_seen w w' now id j.
Proof.
  intros Hnd Hall Hid Hok Hrok Hrun. destruct (proj1 (Hall id) Hid) as [p Hp].
  unfold turn in Hrun, Hrok. cbn [app room_run] in Hrun, Hrok.
  apply obind_Ok in Hrun as (w1 & E1 & (w2 & E2 & Hr)%obind_Ok).
  destruct (room_run_ok_cons _ _ _ _ Hrok E1) as (Hsm & Hev1 & Hrok1).
  destruct (room_run_ok_cons _ _ _ _ Hrok1 E2) as (Hsm1 & Hev2 & Hrok2).
  destruct (room_step_ok w _ Hok Hsm Hev1) as (w1' & E1' & Hok1). rewrite E1 in E1'. injection E1' as <-.
  destruct (room_step_ok w1 _ Hok1 Hsm1 Hev2) as (w2' & E2' & Hok2). rewrite E2 in E2'. injection E2' as <-.
  destruct (room_run_ok_sync w2 _ Hok2 Hrok2) as (w3 & E3 & Hok' & Hsm'). rewrite Hr in E3. injection E3 as <-.
  assert (room_tame w2) as Hsm2 by (by eapply room_run_ok_small).
  rewrite (acts_by_itself w id p) in E1 by done. apply obind_Ok in E1 as (s1 & Es1 & [= <-]).
  set (w1 := mkRoom (rm_fsm w) (<[id := page_of s1]> (rm_pages w))) in *.
  assert (rm_pages w1 !! id = Some (page_of s1)) as Hp1 by apply lookup_insert_eq.
  assert (view w1 (page_of s1) = s1) as Hv1 by (apply view_page; symmetry; by apply (by_itself_fsm id (view w p) (Tick now))).
  destruct (turn_commit w1 id _ w2 Hok1 Hp1 (Hev2 _ Hp1) E2) as (Hdom2 & (p2 & Hp2 & Es2) & Hoth).
  destruct (receives ids w2 w' Hnd Hr) as (Hf & Hdom' & _ & Hin).
  assert (forall j, j ∈ ids <-> is_Some (rm_pages w' !! j)) as Hall'.
  { intros j. rewrite Hall, Hdom', Hdom2. cbn [rm_pages w1]. destruct (decide (j = id)) as [->|];
      [rewrite lookup_insert_eq, Hp|rewrite lookup_insert_ne by done]; split; eauto. }
  split; [done|]. split; [done|]. intros j q q' Hq Hq'. case_decide as Hj.
  - subst j. assert (q = p) as -> by congruence.
    destruct (Hin id p2 Hp2 Hid) as (p3 & Hp3 & Es3). rewrite Hq' in Hp3. injection Hp3 as <-. rewrite Hv1 in Es2. split.
    + eapply run_ok_cons; [exact (Hsm id p Hp)|exact (Hev1 p Hp)|exact Es1|].
      rewrite <-Hv1 in Es2 |- *. eapply run_ok_cons; [exact (Hsm1 id _ Hp1)|exact (Hev2 _ Hp1)|exact Es2|].
      eapply run_ok_cons; [exact (Hsm2 id p2 Hp2)|done|exact Es3|]. split; [exact (Hsm' id q' Hq')|done].
    + cbn [session_run]. rewrite Es1. cbn [obind]. rewrite Es2. cbn [obind]. by rewrite Es3.
  - destruct (Hoth j q) as (q2 & Hq2 & Hcase); [by cbn [rm_pages w1]; rewrite lookup_insert_ne|done|].
    destruct (Hin j q2 Hq2) as (q3 & Hq3 & Es3); [by rewrite Hall'|]. rewrite Hq' in Hq3. injection Hq3 as <-.
    assert (view w1 q = view w q) as Hvq by done. rewrite Hvq in Hcase.
    destruct Hcase as [Eq|(e & Hev & Ee)]; [left; by rewrite <-Eq|right; by exists e, (view w2 q2)].
Qed.

(** After a turn nothing is under way, the page whose turn it was shows the
    document, and so does every page that did before. *)
Lemma page_turn_ok ids now id w w' :
  NoDup ids -> (forall j, j ∈ ids <-> is_Some (rm_pages w !! j)) -> id ∈ ids ->
  room_ok init w -> room_run_ok init w (turn ids now id) -> map_Forall (fun _ => at_rest) (rm_pages w) ->
  room_run w (turn ids now id) = Ok w' ->
  room_ok init w' /\ (forall j, j ∈ ids <-> is_Some (rm_pages w' !! j)) /\
  forall j q q', rm_pages w !! j = Some q -> rm_pages w' !! j = Some q' ->
    at_rest q' /\ (j = id \/ calm q -> calm q').
Proof.
  intros Hnd Hall Hid Hok Hrok Hrest Hrun. pose proof (room_run_ok_small _ _ Hrok) as Hsm.
  destruct (turn_views ids now id w w') as (Hok' & Hall' & Hseen); [done..|].
  split; [done|]. split; [done|]. intros j q q' Hq Hq'. specialize (Hseen j q q' Hq Hq').
  pose proof (ro_pages _ _ Hok j q Hq) as Hs. pose proof (Hrest j q Hq) as Hr. case_decide as Hj.
  - destruct Hseen as [Hro Hse]. destruct (last_round j init (view w q) now (view w' q')) as (Hi & _ & Ht); [done..|].
    assert (calm q') as Hc; [|split; [apply Hc|done]]. split; [exact Hi|].
    change (editor_value (ss_client (view w' q')) = st_baseText (ss_client (view w' q'))).
    rewrite Ht. symmetry. apply (rest_base j); [exact (ro_pages _ _ Hok' j q' Hq')|exact Hi].
  - destruct Hseen as [E|(e & s & Hev & E1 & E2)].
    + pose proof Hr as [Hu Hd]. cbn [session_step view ss_down] in E. rewrite Hd in E. injection E as _ Ec Eu Ed.
      assert (q' = q) as -> by (destruct q, q'; cbn in *; congruence). split; [done|]. by intros [?|?].
    + destruct (after_other j (view w q) e s (view w' q')) as [Hi Hk]; try done; [exact (tame_small _ (Hsm j q Hq))|].
      split; [exact Hi|]. intros [?|[_ E]]; [done|]. split; [exact Hi|exact (Hk E)].
Qed.

(** All turns: [todo] are the pages still to come. *)
Lemma turns_ok ids now todo w w' :
  NoDup ids -> (forall j, j ∈ ids <-> is_Some (rm_pages w !! j)) -> todo ⊆ ids ->
  room_ok init w -> room_run_ok init w (mjoin (map (turn ids now) todo)) ->
  map_Forall (fun j p => at_rest p /\ (j ∈ todo \/ calm p)) (rm_pages w) ->
  room_run w (mjoin (map (turn ids now) todo)) = Ok w' ->
  room_ok init w' /\ (forall j, j ∈ ids <-> is_Some (rm_pages w' !! j)) /\ map_Forall (fun _ => calm) (rm_pages w').
Proof.
  intros Hnd. revert w. induction todo as [|id todo IH]; intros w Hall Hsub Hok Hrok Hp Hrun.
  { injection Hrun as <-. split; [done|]. split; [done|]. intros j p Hj. by destruct (Hp j p Hj) as [_ [Hn|?]]; [apply not_elem_of_nil in Hn|]. }
  cbn [map] in Hrok, Hrun. change (mjoin (turn ids now id :: map (turn ids now) todo))
    with (turn ids now id ++ mjoin (map (turn ids now) todo)) in Hrok, Hrun.
  rewrite room_run_app in Hrun. apply obind_Ok in Hrun as (w1 & E1 & Hrun).
  destruct (room_run_ok_app _ _ _ _ Hrok E1) as [Hrok1 Hrok2].
  assert (map_Forall (fun _ => at_rest) (rm_pages w)) as Hrest by (intros j p Hj; apply (Hp j p Hj)).
  destruct (page_turn_ok ids now id w w1) as (Hok1 & Hall1 & Hc1); [done|done|apply Hsub; by left|done..|].
  apply (IH w1); try done; [intros j Hj; apply Hsub; by right|]. intros j q' Hq'.
  destruct (proj1 (Hall j)) as [q Hq]; [by rewrite Hall1|]. destruct (Hc1 j q q' Hq Hq') as [Hr Hc].
  split; [done|]. destruct (Hp j q Hq) as [_ [[->|Hin]%elem_of_cons|Hcq]]; auto.
Qed.

(** ** What is under way is brought to an end *)

Lemma commits js w w' :
  room_ok init w -> (forall j, j ∈ js -> is_Some (rm_pages w !! j)) ->
  room_run_ok init w (map (fun j => Acts j CommitOwn) js) -> room_run w (map (fun j => Acts j CommitOwn) js) = Ok w' ->
  (forall j, is_Some (rm_pages w' !! j) <-> is_Some (rm_pages w !! j)) /\
  forall j q q', rm_pages w !! j = Some q -> rm_pages w' !! j = Some q' ->
    (length (pg_down q') <= length (pg_down q) + length js)%nat /\ (pg_up q = [] \/ j ∈ js -> pg_up q' = []).
Proof.
  revert w. induction js as [|id js IH]; intros w Hok Hin Hrok Hrun.
  { injection Hrun as <-. split; [done|]. intros j q q' Hq Hq'. assert (q' = q) as -> by congruence.
    split; [lia|]. intros [?|Hn]; [done|]. by apply not_elem_of_nil in Hn. }
  cbn [map room_run] in Hrun, Hrok. apply obind_Ok in Hrun as (w1 & E & Hrun).
  destruct (room_run_ok_cons _ _ _ _ Hrok E) as (Hsm & Hev & Hrok1).
  destruct (room_step_ok w _ Hok Hsm Hev) as (w1' & E' & Hok1). rewrite E in E'. injection E' as <-.
  destruct (Hin id) as [p Hp]; [by left|].
  destruct (turn_commit w id p w1 Hok Hp (Hev p Hp) E) as (Hdom1 & (p1 & Hp1 & Ep1) & Hoth).
  destruct (IH w1) as (Hdom & Hlen); [done|intros j Hj; rewrite Hdom1; apply Hin; by right|done..|].
  split; [intros j; by rewrite Hdom|]. intros j q q' Hq Hq'.
  destruct (proj1 (Hdom j)) as [q1 Hq1]; [by eexists|]. destruct (Hlen j q1 q' Hq1 Hq') as [Hl Hu]. cbn [length].
  assert ((length (pg_down q1) <= S (length (pg_down q)))%nat /\ (pg_up q = [] \/ j = id -> pg_up q1 = [])) as [Hl1 Hu1].
  { destruct (decide (j = id)) as [->|Hne].
    - assert (q = p) as -> by congruence. assert (q1 = p1) as -> by congruence.
      by destruct (commit_own_up id init _ _ (ro_pages _ _ Hok id p Hp) Ep1).
    - destruct (Hoth j q Hq Hne) as (q2 & Hq2 & Hcase). assert (q1 = q2) as -> by congruence.
      destruct Hcase as [[= _ _ Eu Ed]|(e & _ & Ee)].
      + rewrite Eu, Ed. split; [lia|]. by intros [?|?].
      + apply commit_other_fields in Ee as (_ & Eu & El). cbn in Eu, El. split; [done|]. rewrite Eu. by intros [?|?]. }
  split; [lia|]. intros H. apply Hu. destruct H as [H|[->|H]%elem_of_cons]; auto.
Qed.

Lemma receive_rounds js n w w' :
  NoDup js -> (forall j, j ∈ js <-> is_Some (rm_pages w !! j)) ->
  map_Forall (fun _ p => pg_up p = [] /\ (length (pg_down p) <= n)%nat) (rm_pages w) ->
  room_run w (mjoin (replicate n (map (fun j => Acts j Receive) js))) = Ok w' ->
  (forall j, j ∈ js <-> is_Some (rm_pages w' !! j)) /\ map_Forall (fun _ => at_rest) (rm_pages w').
Proof.
  intros Hnd. revert w. induction n as [|n IH]; intros w Hall Hp.
  { intros [= <-]. split; [done|]. intros j p Hj. destruct (Hp j p Hj) as [Hu Hd]. split; [done|].
    destruct (pg_down p); simpl in *; [done|lia]. }
  cbn [replicate]. change (mjoin (?x :: ?l)) with (x ++ mjoin l). rewrite room_run_app. intros (w1 & E1 & Hrun)%obind_Ok.
  destruct (receives js w w1 Hnd E1) as (_ & Hdom & _ & Hin). apply (IH w1); [intros j; by rewrite Hdom|..|done].
  intros j q Hq. destruct (proj1 (Hdom j)) as [p Hj]; [by eexists|].
  destruct (Hin j p Hj) as (q' & Hq' & Eq); [by rewrite Hall; eexists|]. assert (q' = q) as -> by congruence.
  apply receive_fields in Eq as (_ & Eu & Ed). cbn in Eu, Ed. destruct (Hp j p Hj) as [Hu Hd].
  split; [congruence|]. rewrite Ed. destruct (pg_down p); simpl in *; lia.
Qed.

Lemma flush_ok ids n w w' :
  NoDup ids -> (forall j, j ∈ ids <-> is_Some (rm_pages w !! j)) ->
  map_Forall (fun _ p => (length (pg_down p) + length ids <= n)%nat) (rm_pages w) ->
  room_ok init w -> room_run_ok init w (flush ids n) -> room_run w (flush ids n) = Ok w' ->
  (forall j, j ∈ ids <-> is_Some (rm_pages w' !! j)) /\ map_Forall (fun _ => at_rest) (rm_pages w').
Proof.
  intros Hnd Hall Hn Hok Hrok Hrun. unfold flush in *. rewrite room_run_app in Hrun. apply obind_Ok in Hrun as (w1 & E1 & Hrun).
  destruct (room_run_ok_app _ _ _ _ Hrok E1) as [Hrok1 _].
  destruct (commits ids w w1) as (Hdom & Hlen); [done|intros j; apply Hall|done..|].
  apply (receive_rounds ids n w1); [done|intros j; by rewrite Hdom| |done].
  intros j q' Hq'. destruct (proj1 (Hdom j)) as [q Hq]; [by eexists|]. destruct (Hlen j q q' Hq Hq') as [Hl Hu].
  split; [apply Hu; right; apply Hall; by eexists|]. specialize (Hn j q Hq). cbn beta in Hn. lia.
Qed.

End room.

(** ** Theorems *)

(** C5: every page shows the document.  Any number of pages open a document and
    each goes through any run of typing, submissions and received messages, in
    any interleaving, with the changes of further, well behaved clients in
    between, as long as ASCII without carriage returns is written, no page
    submits twice (its time to send again does not come) and the texts stay
    below [MaxText].  Then nothing fails; every page has at every moment the
    text of a revision as its base, the messages for the later revisions are on
    their way to it, and what it submits the server accepts; and all the pages
    that have received everything, wait for nothing and find nothing to submit
    show the same text, that of the server. *)
Theorem pages_agree init fsm evs :
  fsm_inv init fsm -> is_ascii init = true -> Forall (fun x => ascii_cs (rr_Changeset x)) (revisionLog fsm) ->
  room_run_ok init (mkRoom fsm ∅) evs ->
  exists w, room_run (mkRoom fsm ∅) evs = Ok w /\
    forall id p, rm_pages w !! id = Some p ->
      (exists r d, textAt init (rm_fsm w) r d /\ st_baseText (pg_client p) = ju d /\
         (r + length (pg_down p) = length (revisionLog (rm_fsm w)))%nat) /\
      Forall (fun m => Validate (sm_Changeset m) = Ok tt) (pg_up p) /\
      forall now, pg_down p = [] -> st_waitingForAck (pg_client p) = false ->
        submitTick (pg_client p) now = Ok (pg_client p, None) ->
        editor_value (pg_client p) = ju (headText (rm_fsm w)).
Proof.
  intros Hi Hii Ha Hrok. destruct (room_run_ok_sync init _ evs (room_start init fsm Hi Hii Ha) Hrok) as (w & E & Hok & Hsm).
  exists w. split; [done|]. intros id p Hp.
  destruct (in_sync_sees id init _ (ro_pages _ _ Hok id p Hp) (tame_small _ (Hsm id p Hp))) as (r & d & Ht & Hb & Hr & Hv & Hs).
  split; [by exists r, d|]. split; [done|]. intros now Hd Hw Hk. by apply (Hs Hd) with now.
Qed.

(** C6: all that is typed arrives everywhere.  In a run as in [pages_agree],
    under its conditions, wherever it has come to: when the submissions under
    way are committed and all messages are received and then each page in turn
    submits what it holds, which is committed and of which everybody is told,
    none of this fails, nothing is under way any more and every page shows the
    text of the server. *)
Theorem pages_settle init fsm evs ids n now :
  fsm_inv init fsm -> is_ascii init = true -> Forall (fun x => ascii_cs (rr_Changeset x)) (revisionLog fsm) ->
  room_run_ok init (mkRoom fsm ∅) (evs ++ settle_all ids n now) -> NoDup ids ->
  exists w, room_run (mkRoom fsm ∅) evs = Ok w /\
    ((forall j, j ∈ ids <-> is_Some (rm_pages w !! j)) ->
     map_Forall (fun _ p => (length (pg_down p) + length ids <= n)%nat) (rm_pages w) ->
     exists w', room_run w (settle_all ids n now) = Ok w' /\ (forall j, j ∈ ids <-> is_Some (rm_pages w' !! j)) /\
       forall id p, rm_pages w' !! id = Some p ->
         pg_up p = [] /\ pg_down p = [] /\ editor_value (pg_client p) = ju (headText (rm_fsm w'))).
Proof.
  intros Hi Hii Ha Hrok Hnd. pose proof (room_start init fsm Hi Hii Ha) as Hok0.
  destruct (room_run_ok_sync init _ _ Hok0 Hrok) as (w2 & E & _). rewrite room_run_app in E. apply obind_Ok in E as (w & Hrun & _).
  exists w. split; [done|]. intros Hall Hn.
  destruct (room_run_ok_app _ _ _ _ _ Hrok Hrun) as [Hrok0 Hrok1].
  destruct (room_run_ok_sync init _ evs Hok0 Hrok0) as (w_ & E & Hok & _). rewrite Hrun in E. injection E as <-.
  destruct (room_run_ok_sync init w _ Hok Hrok1) as (w' & E & _). exists w'. split; [done|].
  unfold settle_all in *. rewrite room_run_app in E. apply obind_Ok in E as (w1 & E1 & E2).
  destruct (room_run_ok_app _ _ _ _ _ Hrok1 E1) as [Hrokf Hrokt].
  destruct (room_run_ok_sync init w _ Hok Hrokf) as (w_ & E & Hok1 & _). rewrite E1 in E. injection E as <-.
  destruct (flush_ok init ids n w w1) as [Hall1 Hr1]; [done..|].
  destruct (turns_ok init ids now ids w1 w') as (Hok' & Hall' & Hc); try done.
  { intros j p Hp. split; [exact (Hr1 j p Hp)|]. left. apply Hall1. by eexists. }
  split; [done|]. intros id p Hp. destruct (Hc id p Hp) as [[Hu Hd] He]. split; [done|]. split; [done|]. rewrite He.
  by apply (rest_base init id (view w' p)); [exact (ro_pages _ _ Hok' id p Hp)|].
Qed.

(** ** Witnesses

    Two pages open the text "axb" of [Fsm.wit_fsm]; one appends a "c" and the
    other writes a "y" in front, both submit, a third client writes a "z" in
    front, the second submission is committed, one page receives and goes
    on. *)

Definition room_of (o : js Room) : Room := match o with Ok w => w | _ => mkRoom (NewDocumentStateMachine []) ∅ end.
Definition went (o : js Room) : bool := match o with Ok _ => true | _ => false end.
Definition page_at (w : Room) (id : bytes) : Page := default (mkOpenPage (new_page 0) [] []) (rm_pages w !! id).

Lemma room_of_ok o : went o = true -> o = Ok (room_of o).
Proof. by destruct o. Qed.

Lemma room_run_ok_step init w ev evs :
  room_tame w -> room_event_ok init w ev -> went (room_step w ev) = true ->
  room_run_ok init (room_of (room_step w ev)) evs -> room_run_ok init w (ev :: evs).
Proof. intros Hs He E Hr. split; [done|]. split; [done|]. intros w2 E2. by rewrite E2 in Hr. Qed.

Lemma room_event_at init w id ev :
  event_ok id init (view w (page_at w id)) ev -> room_event_ok init w (Acts id ev).
Proof. intros H. destruct ev; try done; intros p Hp; unfold page_at in H; by rewrite Hp in H. Qed.

#[export] Instance tame_dec s : Decision (tame s).
Proof. unfold tame. apply _. Defined.

#[export] Instance room_tame_dec w : Decision (room_tame w).
Proof. unfold room_tame. apply _. Defined.

Ltac room_event_by_compute :=
  lazymatch goal with
  | |- room_event_ok _ _ (Opens _ _) =>
      let last := fresh "last" in let E := fresh "E" in intros last E; vm_compute in E; discriminate E
  | |- room_event_ok _ _ (Acts _ _) => apply room_event_at; event_by_compute
  | |- room_event_ok _ _ (Enters _) => split; [vm_compute; reflexivity|entry_by_compute]
  end.

Ltac room_run_by_compute :=
  lazymatch goal with
  | |- room_run_ok _ _ [] => split; [apply (@bool_decide_unpack _ (room_tame_dec _)); vm_compute; exact I|exact I]
  | |- room_run_ok _ _ (_ :: _) =>
      apply room_run_ok_step;
        [apply (@bool_decide_unpack _ (room_tame_dec _)); vm_compute; exact I|room_event_by_compute|vm_compute; reflexivity|room_run_by_compute]
  end.

Definition wit_ids : list bytes := [str "u8"; str "u9"].
Definition wit_room_events : list room_event :=
  [Opens (str "u8") 0; Opens (str "u9") 0;
   Acts (str "u8") (UserTypes (str "axbc")); Acts (str "u9") (UserTypes (str "yaxb"));
   Acts (str "u8") (Tick 1000); Acts (str "u9") (Tick 1010);
   Enters wit_other; Acts (str "u9") CommitOwn; Acts (str "u8") Receive;
   Acts (str "u8") (UserTypes (str "zaxbcd"))].

Definition wit_room : Room := room_of (room_run (mkRoom wit_fsm ∅) wit_room_events).

Lemma wit_room_ok : room_run (mkRoom wit_fsm ∅) wit_room_events = Ok wit_room.
Proof. apply room_of_ok. vm_compute. reflexivity. Qed.

Lemma wit_room_run_ok : room_run_ok (str "ab") (mkRoom wit_fsm ∅) (wit_room_events ++ settle_all wit_ids 4 2000).
Proof.
  change (wit_room_events ++ settle_all wit_ids 4 2000) with ltac:(let e := eval vm_compute in (wit_room_events ++ settle_all wit_ids 4 2000) in exact e).
  room_run_by_compute.
Qed.

Lemma wit_room_ids : NoDup wit_ids /\ (forall j, j ∈ wit_ids <-> is_Some (rm_pages wit_room !! j)) /\
  map_Forall (fun _ p => (length (pg_down p) + length wit_ids <= 4)%nat) (rm_pages wit_room).
Proof.
  split; [apply (bool_decide_unpack _); vm_compute; exact I|]. split.
  - assert (dom (rm_pages wit_room) = list_to_set wit_ids) as Hd by (apply (bool_decide_unpack _); vm_compute; exact I).
    intros j. rewrite <-elem_of_dom, Hd. by rewrite elem_of_list_to_set.
  - apply (bool_decide_unpack _). vm_compute. exact I.
Qed.

Lemma pages_agree_witness :
  exists w, room_run (mkRoom wit_fsm ∅) wit_room_events = Ok w /\
    forall id p, rm_pages w !! id = Some p -> Forall (fun m => Validate (sm_Changeset m) = Ok tt) (pg_up p).
Proof.
  destruct (pages_agree (str "ab") wit_fsm wit_room_events wit_inv eq_refl wit_log_ascii
    (proj1 (room_run_ok_app _ _ _ _ _ wit_room_run_ok wit_room_ok))) as (w & E & H).
  exists w. split; [exact E|]. intros id p Hp. exact (proj1 (proj2 (H id p Hp))).
Defined.

(** Both pages end with what was typed at either and by the third client. *)
Lemma pages_settle_witness :
  (exists w, room_run wit_room (settle_all wit_ids 4 2000) = Ok w /\
    (forall j, j ∈ wit_ids <-> is_Some (rm_pages w !! j)) /\
    forall id p, rm_pages w !! id = Some p ->
      pg_up p = [] /\ pg_down p = [] /\ editor_value (pg_client p) = ju (headText (rm_fsm w))) /\
  headText (rm_fsm (room_of (room_run wit_room (settle_all wit_ids 4 2000)))) = str "yzaxbcd".
Proof.
  split; [|vm_compute; reflexivity]. destruct wit_room_ids as (Hnd & Hall & Hn).
  destruct (pages_settle (str "ab") wit_fsm wit_room_events wit_ids 4 2000 wit_inv eq_refl wit_log_ascii
    wit_room_run_ok Hnd) as (w & E & H).
  rewrite wit_room_ok in E. apply ok_inj in E as <-. exact (H Hall Hn).
Defined.
