(* ===== verification/Inmem.v ===== *)
(** * The in-memory stores ([internal/raft/inmem.go])

    [InmemLogStore] and [InmemStableStore], and the proof that they keep the
    promises of [Store.v]. *)

From S2P Require Import Prelude Binary Store.

(** ** [InmemLogStore] *)

Module Log.

Record InmemLogStore : Type := mkInmemLog {
  entries : gmap Z LogEntry;
  lowIdx : Z;
  highIdx : Z
}.

Definition NewInmemLogStore : InmemLogStore := mkInmemLog ∅ 0 0.

Definition FirstIndex (s : InmemLogStore) : outcome Empty_set (Z * option error) :=
  Ok (lowIdx s, None).

Definition LastIndex (s : InmemLogStore) : outcome Empty_set (Z * option error) :=
  Ok (highIdx s, None).

Definition GetLog (s : InmemLogStore) (index : Z)
    : outcome Empty_set (option LogEntry * option error) :=
  match entries s !! index with
  | Some entry => Ok (Some entry, None)
  | None => Ok (None, Some (ErrNoEntry index))
  end.

(** One turn of the loop of [StoreLogs]. *)
Definition store_entry (s : InmemLogStore) (e : LogEntry) : InmemLogStore :=
  let i := log_Index e in
  mkInmemLog (<[i := e]> (entries s))
    (if (lowIdx s =? 0) || (i <? lowIdx s) then i else lowIdx s)
    (if highIdx s <? i then i else highIdx s).

Definition StoreLogs (s : InmemLogStore) (es : list LogEntry) : store_call InmemLogStore :=
  Ok (foldl store_entry s es, None).

Definition StoreLog (s : InmemLogStore) (e : LogEntry) : store_call InmemLogStore :=
  StoreLogs s [e].

(** [for i := min; i <= max; i++ { delete(s.entries, i) }]; the counter
    wraps, so with the greatest [max] the loop never ends. *)
Fixpoint delete_loop (fuel : nat) (m : gmap Z LogEntry) (i max : Z)
    : outcome Empty_set (gmap Z LogEntry) :=
  match fuel with
  | O => Diverge
  | S fuel =>
      if i <=? max then delete_loop fuel (delete i m) (uint64 (i + 1)) max else Ok m
  end.

(** One turn of the loop that finds the bounds again. *)
Definition bound (idx : Z) (_ : LogEntry) (b : Z * Z) : Z * Z :=
  (if (b.1 =? 0) || (idx <? b.1) then idx else b.1, if b.2 <? idx then idx else b.2).

Definition DeleteRange (s : InmemLogStore) (min max : Z) : store_call InmemLogStore :=
  let! m := delete_loop (S (Z.to_nat (max - min + 1))) (entries s) min max in
  let b := map_fold bound (0, 0) m in
  Ok (mkInmemLog m b.1 b.2, None).

#[global] Instance InmemLogStore_ops : LogStore InmemLogStore := {
  Store.FirstIndex := FirstIndex;
  Store.LastIndex := LastIndex;
  Store.GetLog := GetLog;
  Store.StoreLog := StoreLog;
  Store.StoreLogs := StoreLogs;
  Store.DeleteRange := DeleteRange
}.

(** What a store holds. *)
Record repr (s : InmemLogStore) (l : list LogEntry) : Prop := {
  repr_num : numbered l;
  repr_len : len l < MaxUint64;
  repr_terms : terms_ok l;
  repr_entries : forall i, entries s !! i = entry_at l i;
  repr_low : lowIdx s = match l with [] => 0 | _ => 1 end;
  repr_high : highIdx s = len l
}.

Lemma store_entry_repr s l e :
  repr s l -> log_Index e = len l + 1 -> len l + 1 < MaxUint64 -> is_uint64 (log_Term e) ->
  repr (store_entry s e) (l ++ [e]).
Proof.
  intros [Hn Hl Ht He Hlo Hhi] Hi Hm Hte. pose proof (len_nonneg l). split; simpl.
  - by apply numbered_snoc.
  - by autorewrite with len.
  - apply Forall_app. split; [done|by constructor].
  - intros i. rewrite Hi. destruct (decide (i = len l + 1)) as [->|Hne].
    + rewrite lookup_insert_eq. symmetry. apply entry_at_last.
    + rewrite lookup_insert_ne, He by done.
      destruct (Z.le_gt_cases i (len l)); [by rewrite entry_at_app_l|].
      rewrite !(proj2 (entry_at_None _ _)); [done| |]; autorewrite with len; lia.
  - rewrite Hlo, Hi. destruct l as [|x l]; [done|]. simpl. autorewrite with len.
    pose proof (len_nonneg l). by rewrite (proj2 (Z.ltb_ge _ _)) by lia.
  - rewrite Hhi, Hi. rewrite (proj2 (Z.ltb_lt _ _)) by lia. autorewrite with len. lia.
Qed.

Lemma StoreLogs_repr s l es :
  repr s l -> numbered (l ++ es) -> len (l ++ es) < MaxUint64 -> terms_ok es ->
  repr (foldl store_entry s es) (l ++ es).
Proof.
  revert s l. induction es as [|e es IH]; intros s l Hr Hn Hm Ht; [by rewrite app_nil_r|].
  apply Forall_cons in Ht as [Hte Ht].
  simpl. replace (l ++ e :: es) with ((l ++ [e]) ++ es) in * by (by rewrite <-app_assoc).
  apply IH; [|done..]. autorewrite with len in Hm. pose proof (len_nonneg es).
  apply store_entry_repr; [done| |lia|done].
  rewrite <-app_assoc in Hn. apply numbered_app in Hn as [_ Hn].
  rewrite (Hn 0%nat e); [lia|done].
Qed.

Lemma delete_loop_ok fuel m i max :
  (Z.to_nat (max - i + 1) < fuel)%nat -> 0 <= i -> max < MaxUint64 ->
  exists m', delete_loop fuel m i max = Ok m' /\
    forall k, m' !! k = if (i <=? k) && (k <=? max) then None else m !! k.
Proof.
  revert m i. induction fuel as [|fuel IH]; intros m i Hf Hi Hm; [lia|]. simpl.
  destruct (Z.leb_spec i max) as [Hle|Hgt].
  - rewrite uint64_id by (int_unfold; lia).
    destruct (IH (delete i m) (i + 1)) as (m' & -> & Hk); [lia..|]. exists m'. split; [done|].
    intros k. rewrite Hk. destruct (decide (k = i)) as [->|Hne].
    + rewrite lookup_delete_eq. rewrite Z.leb_refl, (proj2 (Z.leb_le i max)) by done. simpl.
      by destruct (_ && _).
    + rewrite lookup_delete_ne by done.
      destruct (Z.leb_spec (i + 1) k), (Z.leb_spec i k), (Z.leb_spec k max); done || lia.
  - exists m. split; [done|]. intros k.
    destruct (Z.leb_spec i k), (Z.leb_spec k max); done || lia.
Qed.

(** The scan finds the least and the greatest key. *)
Lemma bounds_spec m :
  (forall k, is_Some (m !! k) -> 1 <= k) ->
  let b := map_fold bound (0, 0) m in
  (m = ∅ -> b = (0, 0)) /\ (m <> ∅ -> is_Some (m !! b.1) /\ is_Some (m !! b.2)) /\
  forall k, is_Some (m !! k) -> b.1 <= k <= b.2.
Proof.
  intros Hpos b. subst b. revert Hpos. apply (map_fold_weak_ind (fun b m =>
    (forall k, is_Some (m !! k) -> 1 <= k) ->
    (m = ∅ -> b = (0, 0)) /\ (m <> ∅ -> is_Some (m !! b.1) /\ is_Some (m !! b.2)) /\
    forall k, is_Some (m !! k) -> b.1 <= k <= b.2)).
  - intros _. split_and!; [done|done|]. intros k [? E]. by rewrite lookup_empty in E.
  - intros i x m0 [lo hi] Hi IH Hpos.
    assert (1 <= i) as Hi1 by (apply Hpos; rewrite lookup_insert_eq; eauto).
    destruct IH as (H0 & Hin & Hb).
    { intros k Hk. apply Hpos. destruct (decide (k = i)) as [->|]; [rewrite lookup_insert_eq; eauto|].
      by rewrite lookup_insert_ne. }
    simpl in *. split_and!.
    + intros E. exfalso. pose proof (f_equal (fun m => m !! i) E) as E'. simpl in E'.
      by rewrite lookup_insert_eq, lookup_empty in E'.
    + intros _. destruct (decide (m0 = ∅)) as [->|Hne].
      * injection (H0 eq_refl) as -> ->. simpl. rewrite (proj2 (Z.ltb_lt 0 i)) by lia.
        rewrite lookup_insert_eq. eauto.
      * destruct (Hin Hne) as [Hl Hh].
        split; case_match; (destruct (decide (i = lo)) as [<-|]; try (rewrite lookup_insert_eq; eauto));
          try (rewrite lookup_insert_ne by done; done);
          destruct (decide (i = hi)) as [<-|]; try (rewrite lookup_insert_eq; eauto);
          rewrite lookup_insert_ne by done; done.
    + intros k Hk. destruct (decide (k = i)) as [->|Hne].
      * destruct (Z.eqb_spec lo 0), (Z.ltb_spec i lo), (Z.ltb_spec hi i); simpl; lia.
      * rewrite lookup_insert_ne in Hk by done. pose proof (Hb _ Hk).
        assert (m0 <> ∅) as Hm by (intros ->; destruct Hk as [? E]; by rewrite lookup_empty in E).
        destruct (Hin Hm) as [Hl _].
        assert (1 <= lo).
        { apply Hpos. destruct (decide (lo = i)) as [->|]; [rewrite lookup_insert_eq; eauto|].
          by rewrite lookup_insert_ne. }
        destruct (Z.eqb_spec lo 0), (Z.ltb_spec i lo), (Z.ltb_spec hi i); simpl; lia.
Qed.

Lemma DeleteRange_repr s l lo :
  repr s l -> 1 <= lo <= len l ->
  exists s', DeleteRange s lo (len l) = Ok (s', None) /\ repr s' (take (Z.to_nat (lo - 1)) l).
Proof.
  intros [Hn Hl Ht He Hlo Hhi] Hr. unfold DeleteRange.
  destruct (delete_loop_ok (S (Z.to_nat (len l - lo + 1))) (entries s) lo (len l)) as (m & -> & Hk); [lia..|].
  simpl. set (l' := take (Z.to_nat (lo - 1)) l).
  assert (len l' = lo - 1) as Hlen by (apply len_take; lia).
  assert (forall k, m !! k = entry_at l' k) as Hm.
  { intros k. rewrite Hk, He.
    destruct (Z.leb_spec lo k), (Z.leb_spec k (len l)); simpl.
    1: symmetry; apply entry_at_None; lia.
    1: rewrite !(proj2 (entry_at_None _ _)); [done|lia..].
    all: unfold l'; rewrite entry_at_take by lia; done. }
  assert (forall k, is_Some (m !! k) <-> 1 <= k <= lo - 1) as Hd.
  { intros k. rewrite Hm. split; [intros [e E]; apply entry_at_Some in E; lia|].
    intros. destruct (entry_at_in l' k) as [e ->]; [lia|eauto]. }
  destruct (bounds_spec m) as (H0 & Hin & Hb); [intros k Hk'; apply Hd in Hk'; lia|].
  eexists. split; [done|]. split; simpl.
  - by apply numbered_take.
  - lia.
  - by apply terms_take.
  - exact Hm.
  - destruct (decide (m = ∅)) as [E|Hne].
    + rewrite (H0 E). destruct l' as [|e l'']; [done|].
      assert (is_Some (m !! 1)) as [e' E1] by (apply Hd; autorewrite with len in Hlen; pose proof (len_nonneg l''); lia).
      by rewrite E, lookup_empty in E1.
    + destruct (Hin Hne) as [H1 _]. apply Hd in H1.
      assert (is_Some (m !! 1)) as H2 by (apply Hd; lia). apply Hb in H2.
      destruct l'; [autorewrite with len in Hlen; lia|lia].
  - destruct (decide (m = ∅)) as [E|Hne].
    + rewrite (H0 E). destruct (Z.eq_dec lo 1) as [->|]; [simpl; lia|].
      assert (is_Some (m !! 1)) as [e' E1] by (apply Hd; lia). by rewrite E, lookup_empty in E1.
    + destruct (Hin Hne) as [_ H1]. apply Hd in H1.
      assert (is_Some (m !! (lo - 1))) as H2 by (apply Hd; lia). apply Hb in H2. lia.
Qed.

#[global] Program Instance InmemLogStore_laws : LogStoreLaws InmemLogStore := {
  log_repr := repr
}.
Next Obligation. by intros s l []. Qed.
Next Obligation. by intros s l []. Qed.
Next Obligation. by intros s l []. Qed.
Next Obligation. intros s l []. simpl. unfold FirstIndex. congruence. Qed.
Next Obligation. intros s l []. simpl. unfold LastIndex. congruence. Qed.
Next Obligation. intros s l i e [] E. simpl. unfold GetLog. rewrite repr_entries0, E. done. Qed.
Next Obligation.
  intros s l i [] _ E. simpl. unfold GetLog. rewrite repr_entries0, E. eauto.
Qed.
Next Obligation.
  intros s l es Hr Hn Hm Ht. eexists _, None. split; [done|]. by apply StoreLogs_repr.
Qed.
Next Obligation. done. Qed.

#[global] Instance InmemLogStore_truncates : LogStoreTruncates InmemLogStore.
Proof.
  intros s l lo Hr Hlo. destruct (DeleteRange_repr s l lo Hr Hlo) as (s' & E & H).
  exists s', None. done.
Qed.

#[global] Instance InmemLogStore_reliable : LogStoreReliable InmemLogStore.
Proof.
  split.
  - intros s l es s' err _ _ _ _. simpl. unfold StoreLogs. congruence.
  - intros s l lo s' err Hr Hlo. simpl.
    destruct (DeleteRange_repr s l lo Hr Hlo) as (s1 & -> & _). congruence.
Qed.

Lemma repr_new : repr NewInmemLogStore [].
Proof.
  split; simpl; [apply numbered_nil|done|constructor| |done|done].
  intros i. rewrite lookup_empty. symmetry. apply entry_at_None. unfold len. simpl. lia.
Qed.

End Log.

(** ** [InmemStableStore] *)

Module Stable.

Abbreviation InmemStableStore := (gmap bytes bytes).

Definition NewInmemStableStore : InmemStableStore := ∅.

Definition Set_ (s : InmemStableStore) (key val : bytes) : store_call InmemStableStore :=
  Ok (<[key := val]> s, None).

Definition Get (s : InmemStableStore) (key : bytes) : outcome Empty_set (bytes * option error) :=
  match s !! key with
  | Some val => Ok (val, None)
  | None => Ok ([], None)
  end.

Definition SetUint64 (s : InmemStableStore) (key : bytes) (val : Z) : store_call InmemStableStore :=
  Set_ s key (PutUint64 val).

(** A value shorter than eight bytes makes [binary.BigEndian.Uint64] panic. *)
Definition GetUint64 (s : InmemStableStore) (key : bytes) : outcome Empty_set (Z * option error) :=
  let! (val, err) := Get s key in
  match err with
  | Some e => Ok (0, Some e)
  | None => if len val =? 0 then Ok (0, None) else let! v := or_panic (Uint64 val) in Ok (v, None)
  end.

#[global] Instance InmemStableStore_ops : StableStore InmemStableStore := {
  SetKey := Set_;
  GetKey := Get;
  Store.SetUint64 := SetUint64;
  Store.GetUint64 := GetUint64
}.

#[global] Program Instance InmemStableStore_laws : StableStoreLaws InmemStableStore := {
  stable_repr := eq
}.
Next Obligation. intros s m k v <-. by eexists _, None. Qed.
Next Obligation. intros s m k <-. simpl. unfold Get. by destruct (s !! k). Qed.
Next Obligation. done. Qed.
Next Obligation. intros s m k <- E. simpl. unfold GetUint64, Get. by rewrite E. Qed.
Next Obligation.
  intros s m k v <- Hv E. simpl. unfold GetUint64, Get. rewrite E.
  cbn [obind]. by rewrite Uint64_Put.
Qed.

#[global] Instance InmemStableStore_reliable : StableStoreReliable InmemStableStore.
Proof. intros s m k v <-. by eexists. Qed.

End Stable.
