(* ===== verification/RaftWire.v ===== *)
(** * The JSON of Raft's data ([internal/raft/types.go])

    Log entries, which the bbolt store keeps, and the messages of the TCP
    transport. *)

From S2P Require Import Prelude Utf8 Json Base64 Codec Wire Binary Store RaftTypes.

(** [LogEntry] has no tags: the keys are the names of the fields. *)
Definition log_codec : Codec LogEntry :=
  struct_codec
    (fun e => [(key "Index", enc uint64_codec (log_Index e));
               (key "Term", enc uint64_codec (log_Term e));
               (key "Data", enc bytes_codec (log_Data e))])
    [(key "Index", ok uint64_codec); (key "Term", ok uint64_codec); (key "Data", ok bytes_codec)]
    (fun ms => mkLog (field uint64_codec (key "Index") ms) (field uint64_codec (key "Term") ms)
       (field bytes_codec (key "Data") ms)).

Definition append_req_codec : Codec AppendEntriesRequest :=
  struct_codec
    (fun r => [(key "term", enc uint64_codec (ae_Term r));
               (key "leader_id", enc string_codec (ae_LeaderID r));
               (key "prev_log_index", enc uint64_codec (ae_PrevLogIndex r));
               (key "prev_log_term", enc uint64_codec (ae_PrevLogTerm r));
               (key "entries", enc (slice_codec log_codec) (ae_Entries r));
               (key "leader_commit", enc uint64_codec (ae_LeaderCommit r))])
    [(key "term", ok uint64_codec); (key "leader_id", ok string_codec);
     (key "prev_log_index", ok uint64_codec); (key "prev_log_term", ok uint64_codec);
     (key "entries", ok (slice_codec log_codec)); (key "leader_commit", ok uint64_codec)]
    (fun ms => mkAppendReq (field uint64_codec (key "term") ms) (field string_codec (key "leader_id") ms)
       (field uint64_codec (key "prev_log_index") ms) (field uint64_codec (key "prev_log_term") ms)
       (field (slice_codec log_codec) (key "entries") ms) (field uint64_codec (key "leader_commit") ms)).

Definition append_resp_codec : Codec AppendEntriesResponse :=
  struct_codec
    (fun r => [(key "term", enc uint64_codec (ar_Term r));
               (key "success", enc bool_codec (ar_Success r));
               (key "conflict_term", enc uint64_codec (ar_ConflictTerm r));
               (key "conflict_index", enc uint64_codec (ar_ConflictIndex r))])
    [(key "term", ok uint64_codec); (key "success", ok bool_codec);
     (key "conflict_term", ok uint64_codec); (key "conflict_index", ok uint64_codec)]
    (fun ms => mkAppendResp (field uint64_codec (key "term") ms) (field bool_codec (key "success") ms)
       (field uint64_codec (key "conflict_term") ms) (field uint64_codec (key "conflict_index") ms)).

Definition vote_req_codec : Codec RequestVoteRequest :=
  struct_codec
    (fun r => [(key "term", enc uint64_codec (rv_Term r));
               (key "candidate_id", enc string_codec (rv_CandidateID r));
               (key "last_log_index", enc uint64_codec (rv_LastLogIndex r));
               (key "last_log_term", enc uint64_codec (rv_LastLogTerm r))])
    [(key "term", ok uint64_codec); (key "candidate_id", ok string_codec);
     (key "last_log_index", ok uint64_codec); (key "last_log_term", ok uint64_codec)]
    (fun ms => mkVoteReq (field uint64_codec (key "term") ms) (field string_codec (key "candidate_id") ms)
       (field uint64_codec (key "last_log_index") ms) (field uint64_codec (key "last_log_term") ms)).

Definition vote_resp_codec : Codec RequestVoteResponse :=
  struct_codec
    (fun r => [(key "term", enc uint64_codec (vr_Term r));
               (key "vote_granted", enc bool_codec (vr_VoteGranted r))])
    [(key "term", ok uint64_codec); (key "vote_granted", ok bool_codec)]
    (fun ms => mkVoteResp (field uint64_codec (key "term") ms) (field bool_codec (key "vote_granted") ms)).

(** ** Specification: values that survive the encoding *)

Record log_good (e : LogEntry) : Prop := {
  lg_index : is_uint64 (log_Index e);
  lg_term : is_uint64 (log_Term e)
}.

Record append_req_good (r : AppendEntriesRequest) : Prop := {
  ag_term : is_uint64 (ae_Term r);
  ag_leader : utf8_valid (ae_LeaderID r);
  ag_prev : is_uint64 (ae_PrevLogIndex r);
  ag_prev_term : is_uint64 (ae_PrevLogTerm r);
  ag_entries : Forall log_good (ae_Entries r);
  ag_commit : is_uint64 (ae_LeaderCommit r)
}.

Record append_resp_good (r : AppendEntriesResponse) : Prop := {
  arg_term : is_uint64 (ar_Term r);
  arg_conflict_term : is_uint64 (ar_ConflictTerm r);
  arg_conflict_index : is_uint64 (ar_ConflictIndex r)
}.

Record vote_req_good (r : RequestVoteRequest) : Prop := {
  vg_term : is_uint64 (rv_Term r);
  vg_candidate : utf8_valid (rv_CandidateID r);
  vg_index : is_uint64 (rv_LastLogIndex r);
  vg_last_term : is_uint64 (rv_LastLogTerm r)
}.

Definition vote_resp_good (r : RequestVoteResponse) : Prop := is_uint64 (vr_Term r).

(** * Lemmas *)

Lemma log_law : codec_law log_codec log_good 1.
Proof.
  apply struct_law.
  - intros e [Hi Ht]. write_members; first [member uint64_law|member bytes_law].
  - intros e [Hi Ht]. look_up. by rewrite !(law_ok _ _ _ uint64_law), (law_ok _ _ _ bytes_law).
  - intros [i t d] [Hi Ht]. cbn [log_Index log_Term log_Data] in *. look_up.
    by rewrite !(law_dec _ _ _ uint64_law), (law_dec _ _ _ bytes_law).
  - intros ms Hc Hok. split; cbn [log_Index log_Term]; read_field uint64_law Hc Hok.
Qed.

Definition logs_law := slice_law _ _ _ log_law.

Lemma append_req_law : codec_law append_req_codec append_req_good 3.
Proof.
  apply struct_law.
  - intros r [Ht Hl Hp Hq He Hc]. write_members; first [member uint64_law|member string_law|member logs_law].
  - intros r [Ht Hl Hp Hq He Hc]. look_up.
    by rewrite !(law_ok _ _ _ uint64_law), (law_ok _ _ _ string_law), (law_ok _ _ _ logs_law).
  - intros [t l p q e c] [Ht Hl Hp Hq He Hc].
    cbn [ae_Term ae_LeaderID ae_PrevLogIndex ae_PrevLogTerm ae_Entries ae_LeaderCommit] in *. look_up.
    by rewrite !(law_dec _ _ _ uint64_law), (law_dec _ _ _ string_law), (law_dec _ _ _ logs_law).
  - intros ms Hc Hok. split; cbn [ae_Term ae_LeaderID ae_PrevLogIndex ae_PrevLogTerm ae_Entries ae_LeaderCommit];
      first [read_field uint64_law Hc Hok|read_field string_law Hc Hok|read_field logs_law Hc Hok].
Qed.

Lemma append_resp_law : codec_law append_resp_codec append_resp_good 1.
Proof.
  apply struct_law.
  - intros r [Ht Hc Hi]. write_members; first [member uint64_law|member bool_law].
  - intros r [Ht Hc Hi]. look_up. by rewrite !(law_ok _ _ _ uint64_law), (law_ok _ _ _ bool_law).
  - intros [t s c i] [Ht Hc Hi]. cbn [ar_Term ar_Success ar_ConflictTerm ar_ConflictIndex] in *. look_up.
    by rewrite !(law_dec _ _ _ uint64_law), (law_dec _ _ _ bool_law).
  - intros ms Hc Hok. split; cbn [ar_Term ar_ConflictTerm ar_ConflictIndex]; read_field uint64_law Hc Hok.
Qed.

Lemma vote_req_law : codec_law vote_req_codec vote_req_good 1.
Proof.
  apply struct_law.
  - intros r [Ht Hc Hi Hl]. write_members; first [member uint64_law|member string_law].
  - intros r [Ht Hc Hi Hl]. look_up. by rewrite !(law_ok _ _ _ uint64_law), (law_ok _ _ _ string_law).
  - intros [t c i l] [Ht Hc Hi Hl]. cbn [rv_Term rv_CandidateID rv_LastLogIndex rv_LastLogTerm] in *. look_up.
    by rewrite !(law_dec _ _ _ uint64_law), (law_dec _ _ _ string_law).
  - intros ms Hc Hok. split; cbn [rv_Term rv_CandidateID rv_LastLogIndex rv_LastLogTerm];
      first [read_field uint64_law Hc Hok|read_field string_law Hc Hok].
Qed.

Lemma vote_resp_law : codec_law vote_resp_codec vote_resp_good 1.
Proof.
  apply struct_law.
  - intros r Ht. write_members; first [member uint64_law|member bool_law].
  - intros r Ht. look_up. by rewrite (law_ok _ _ _ uint64_law), (law_ok _ _ _ bool_law).
  - intros [t g] Ht. unfold vote_resp_good in Ht. cbn [vr_Term vr_VoteGranted] in *. look_up.
    by rewrite (law_dec _ _ _ uint64_law), (law_dec _ _ _ bool_law).
  - intros ms Hc Hok. unfold vote_resp_good. cbn [vr_Term]. read_field uint64_law Hc Hok.
Qed.
