(* ===== verification/InmemTransport.v ===== *)
(** * The in-memory transport ([internal/raft/inmem.go])

    Transports of one process that hold pointers to each other, and calls
    between them.  A pointer is a position in [transports]; an [*RPC], with
    the response channel made for it, is the position of its call in [calls].
    A call is at one of its two [select]s; time is the event that a second
    has passed. *)

From S2P Require Import Prelude Binary Store RaftTypes.

(** ** Data *)

(** [rpcCh] has room for 256 requests. *)
Record InmemTransport : Type := mkTransport {
  localAddr : bytes;
  rpcCh : list nat;
  peers : gmap bytes nat;
  shutdown : bool
}.

Inductive InmemErr : Type :=
| NotConnected (target : bytes)
| SendTimeout (target : bytes)
| WaitTimeout (target : bytes)
| RemoteError.

(** Waiting for room in the peer's channel; for the answer; or done. *)
Inductive stage : Type :=
| Sending
| Waiting
| Returned (result : outcome InmemErr RPCResponse).

Record call : Type := mkCall {
  c_target : bytes;
  c_cmd : Command;
  c_peer : nat;
  c_stage : stage;
  c_respCh : option RPCResponse
}.

Record network : Type := mkNetwork {
  transports : list InmemTransport;
  calls : list call
}.

(** ** Operations *)

Definition NewInmemTransport (addr : bytes) : InmemTransport := mkTransport addr [] ∅ false.

Definition LocalAddr (t : InmemTransport) : bytes := localAddr t.

(** [Connect], [Disconnect], [DisconnectAll], [Shutdown], which nothing looks at. *)
Definition Connect (t : InmemTransport) (addr : bytes) (peer : nat) : InmemTransport :=
  mkTransport (localAddr t) (rpcCh t) (<[addr := peer]> (peers t)) (shutdown t).
Definition Disconnect (t : InmemTransport) (addr : bytes) : InmemTransport :=
  mkTransport (localAddr t) (rpcCh t) (delete addr (peers t)) (shutdown t).
Definition DisconnectAll (t : InmemTransport) : InmemTransport :=
  mkTransport (localAddr t) (rpcCh t) ∅ (shutdown t).
Definition Shutdown (t : InmemTransport) : InmemTransport :=
  mkTransport (localAddr t) (rpcCh t) ∅ true.

Definition set_rpcCh (t : InmemTransport) (ch : list nat) : InmemTransport :=
  mkTransport (localAddr t) ch (peers t) (shutdown t).

Definition set_stage (c : call) (s : stage) : call := mkCall (c_target c) (c_cmd c) (c_peer c) s (c_respCh c).

(** [SendAppendEntries] and [SendRequestVote], by the command: the look at
    the table of peers. *)
Definition begin_call (n : network) (t : nat) (target : bytes) (cmd : Command)
    : network * option InmemErr :=
  match transports n !! t with
  | None => (n, None)
  | Some tr =>
      match peers tr !! target with
      | None => (n, Some (NotConnected target))
      | Some peer => (mkNetwork (transports n) (calls n ++ [mkCall target cmd peer Sending None]), None)
      end
  end.

(** The first [select]: the request into the channel, or a second passes. *)
Definition offer (n : network) (k : nat) : network :=
  match calls n !! k with
  | Some c =>
      match c_stage c, transports n !! c_peer c with
      | Sending, Some peer =>
          if len (rpcCh peer) <? 256 then
            mkNetwork (<[c_peer c := set_rpcCh peer (rpcCh peer ++ [k])]> (transports n))
              (<[k := set_stage c Waiting]> (calls n))
          else n
      | _, _ => n
      end
  | None => n
  end.

Definition send_timeout (n : network) (k : nat) : network :=
  match calls n !! k with
  | Some c =>
      match c_stage c with
      | Sending => mkNetwork (transports n) (<[k := set_stage c (Returned (Err (SendTimeout (c_target c))))]> (calls n))
      | _ => n
      end
  | None => n
  end.

(** What the caller makes of the response: an error is returned, and the type
    assertion panics on an answer of the other kind. *)
Definition call_result (cmd : Command) (resp : RPCResponse) : outcome InmemErr RPCResponse :=
  match resp, cmd with
  | RespUnknownRPC, _ => Err RemoteError
  | RespAppendEntries _, CmdAppendEntries _ => Ok resp
  | RespRequestVote _, CmdRequestVote _ => Ok resp
  | _, _ => Panic
  end.

(** The second [select]: the answer, or a second passes. *)
Definition finish (n : network) (k : nat) : network :=
  match calls n !! k with
  | Some c =>
      match c_stage c, c_respCh c with
      | Waiting, Some resp =>
          mkNetwork (transports n)
            (<[k := mkCall (c_target c) (c_cmd c) (c_peer c) (Returned (call_result (c_cmd c) resp)) None]> (calls n))
      | _, _ => n
      end
  | None => n
  end.

Definition wait_timeout (n : network) (k : nat) : network :=
  match calls n !! k with
  | Some c =>
      match c_stage c with
      | Waiting => mkNetwork (transports n) (<[k := set_stage c (Returned (Err (WaitTimeout (c_target c))))]> (calls n))
      | _ => n
      end
  | None => n
  end.

(** The node takes a request from [Consumer]. *)
Definition receive (n : network) (t : nat) : option (nat * network) :=
  match transports n !! t with
  | Some tr =>
      match rpcCh tr with
      | k :: ch => Some (k, mkNetwork (<[t := set_rpcCh tr ch]> (transports n)) (calls n))
      | [] => None
      end
  | None => None
  end.

(** [RPC.Respond]: the channel holds one response; a second send blocks. *)
Definition Respond (n : network) (k : nat) (resp : RPCResponse) : network :=
  match calls n !! k with
  | Some c =>
      match c_respCh c with
      | None => mkNetwork (transports n) (<[k := mkCall (c_target c) (c_cmd c) (c_peer c) (c_stage c) (Some resp)]> (calls n))
      | Some _ => n
      end
  | None => n
  end.

(** ** Specification *)

(** The network with its history: which transport's node has received which
    request, and what was answered. *)
Record world : Type := mkWorld {
  net : network;
  received : list (nat * nat);
  answers : list (nat * RPCResponse)
}.

(** Whatever happens: calls begin, get on, run out of time; nodes receive
    requests and answer those they have, once each; tables of peers change. *)
Inductive step (w : world) : world -> Prop :=
| step_begin t target cmd : step w (mkWorld (begin_call (net w) t target cmd).1 (received w) (answers w))
| step_offer k : step w (mkWorld (offer (net w) k) (received w) (answers w))
| step_send_timeout k : step w (mkWorld (send_timeout (net w) k) (received w) (answers w))
| step_finish k : step w (mkWorld (finish (net w) k) (received w) (answers w))
| step_wait_timeout k : step w (mkWorld (wait_timeout (net w) k) (received w) (answers w))
| step_receive t k n : receive (net w) t = Some (k, n) -> step w (mkWorld n (received w ++ [(t, k)]) (answers w))
| step_respond t k resp :
    (t, k) ∈ received w -> ~ (k ∈ (answers w).*1) ->
    step w (mkWorld (Respond (net w) k resp) (received w) (answers w ++ [(k, resp)]))
| step_table t tr f :
    transports (net w) !! t = Some tr -> rpcCh (f tr) = rpcCh tr ->
    step w (mkWorld (mkNetwork (<[t := f tr]> (transports (net w))) (calls (net w))) (received w) (answers w)).

(** A call that has put its request into the channel of transport [t]. *)
Definition sent (n : network) (t k : nat) : Prop :=
  exists c, calls n !! k = Some c /\ c_peer c = t /\ c_stage c <> Sending.

Record good (w : world) : Prop := {
  gd_queue : forall t tr, transports (net w) !! t = Some tr -> NoDup (rpcCh tr);
  gd_queued : forall t tr k, transports (net w) !! t = Some tr -> k ∈ rpcCh tr -> sent (net w) t k;
  gd_received : forall t k, (t, k) ∈ received w ->
    sent (net w) t k /\ forall tr, transports (net w) !! t = Some tr -> ~ (k ∈ rpcCh tr);
  gd_once : NoDup (received w).*2;
  gd_resp : forall k c resp, calls (net w) !! k = Some c -> c_respCh c = Some resp -> (k, resp) ∈ answers w;
  gd_ok : forall k c resp, calls (net w) !! k = Some c -> c_stage c = Returned (Ok resp) ->
    (k, resp) ∈ answers w /\ call_result (c_cmd c) resp = Ok resp;
  gd_answered : forall k resp, (k, resp) ∈ answers w -> exists t, (t, k) ∈ received w;
  gd_single : NoDup (answers w).*1
}.

(** * Lemmas *)

(** A change of the calls that forgets none of their requests. *)
Lemma good_calls w cs :
  good w ->
  (forall k c, calls (net w) !! k = Some c -> exists c', cs !! k = Some c' /\ c_peer c' = c_peer c /\
     (c_stage c <> Sending -> c_stage c' <> Sending)) ->
  (forall k c resp, cs !! k = Some c -> c_respCh c = Some resp -> (k, resp) ∈ answers w) ->
  (forall k c resp, cs !! k = Some c -> c_stage c = Returned (Ok resp) ->
     (k, resp) ∈ answers w /\ call_result (c_cmd c) resp = Ok resp) ->
  good (mkWorld (mkNetwork (transports (net w)) cs) (received w) (answers w)).
Proof.
  intros [Hq Hqd Hrc Ho Hr Hok Ha Hs] Hk Hr' Hok'.
  assert (forall t k, sent (net w) t k -> sent (mkNetwork (transports (net w)) cs) t k) as Hsent.
  { intros t k (c & Hc & Hp & Hst). destruct (Hk k c Hc) as (c' & Hc' & Hp' & Hst').
    exists c'. split; [done|]. split; [congruence|auto]. }
  split; cbn [net received answers transports calls]; try done.
  - intros t tr k Ht Hin. eapply Hsent, Hqd; done.
  - intros t k Hin. destruct (Hrc t k Hin) as [? ?]. split; [by apply Hsent|done].
Qed.

(** One call changes its stage, or gets or gives away a response. *)
Lemma good_call w k c c' :
  good w -> calls (net w) !! k = Some c -> c_peer c' = c_peer c ->
  (c_stage c <> Sending -> c_stage c' <> Sending) ->
  (forall resp, c_respCh c' = Some resp -> (k, resp) ∈ answers w) ->
  (forall resp, c_stage c' = Returned (Ok resp) -> (k, resp) ∈ answers w /\ call_result (c_cmd c') resp = Ok resp) ->
  good (mkWorld (mkNetwork (transports (net w)) (<[k := c']> (calls (net w)))) (received w) (answers w)).
Proof.
  intros Hg Hc Hp Hst Hr Hok. pose proof Hg as [_ _ _ _ Hr0 Hok0 _ _].
  assert ((k < length (calls (net w)))%nat) as Hlt by (by eapply lookup_lt_Some).
  apply good_calls; [done|..].
  - intros i x Hx. destruct (decide (i = k)) as [->|Hne].
    + rewrite list_lookup_insert_eq by done. exists c'. split; [done|]. by simplify_eq.
    + rewrite list_lookup_insert_ne by done. by exists x.
  - intros i x resp Hx. destruct (decide (i = k)) as [->|Hne].
    + rewrite list_lookup_insert_eq in Hx by done. injection Hx as <-. apply Hr.
    + rewrite list_lookup_insert_ne in Hx by done. by eapply Hr0.
  - intros i x resp Hx. destruct (decide (i = k)) as [->|Hne].
    + rewrite list_lookup_insert_eq in Hx by done. injection Hx as <-. apply Hok.
    + rewrite list_lookup_insert_ne in Hx by done. by eapply Hok0.
Qed.

(** A change of the tables that leaves the channels alone. *)
Lemma good_table w t tr tr' :
  good w -> transports (net w) !! t = Some tr -> rpcCh tr' = rpcCh tr ->
  good (mkWorld (mkNetwork (<[t := tr']> (transports (net w))) (calls (net w))) (received w) (answers w)).
Proof.
  intros [Hq Hqd Hrc Ho Hr Hok Ha Hs] Ht E.
  assert (forall u x, <[t := tr']> (transports (net w)) !! u = Some x ->
    exists y, transports (net w) !! u = Some y /\ rpcCh x = rpcCh y) as Hold.
  { intros u x Hx. apply list_lookup_insert_Some in Hx as [(<- & <- & _)|[_ Hx]]; eauto. }
  split; cbn [net received answers transports calls]; try done.
  - intros u x Hx. destruct (Hold u x Hx) as (y & Hy & ->). by eapply Hq.
  - intros u x k Hx Hin. destruct (Hold u x Hx) as (y & Hy & Ex). rewrite Ex in Hin. by eapply Hqd.
  - intros u k Hin. destruct (Hrc u k Hin) as [? Hno]. split; [done|]. intros x Hx.
    destruct (Hold u x Hx) as (y & Hy & ->). by apply Hno.
Qed.

(** A request gets into a channel: for the first time, since its call was
    still sending. *)
Lemma good_offer w k :
  good w -> good (mkWorld (offer (net w) k) (received w) (answers w)).
Proof.
  intros Hg. unfold offer. destruct (calls (net w) !! k) as [c|] eqn:Ec; [|by destruct w].
  destruct (c_stage c) eqn:Est; [|by destruct w..].
  destruct (transports (net w) !! c_peer c) as [peer|] eqn:Ep; [|by destruct w].
  destruct (_ <? 256); [|by destruct w]. pose proof Hg as [Hq Hqd Hrc Ho Hr Hok Ha Hs].
  assert (forall t, ~ sent (net w) t k) as Hno by (intros t (x & Hx & _ & Hst); congruence).
  assert (good (mkWorld (mkNetwork (transports (net w)) (<[k := set_stage c Waiting]> (calls (net w))))
    (received w) (answers w))) as [_ Hqd' Hrc' _ Hr' Hok' _ _].
  { eapply good_call; [done|done|done|done| |done]. intros resp E. by eapply Hr. }
  cbn [net received answers transports calls] in *.
  split; cbn [net received answers transports calls]; try done.
  - intros t x Hx. apply list_lookup_insert_Some in Hx as [(<- & <- & _)|[_ Hx]]; [|by eapply Hq].
    cbn [set_rpcCh rpcCh]. apply NoDup_app. split; [by eapply Hq|]. split; [|apply NoDup_singleton].
    intros i Hi ->%list_elem_of_singleton. by eapply Hno, Hqd.
  - intros t x i Hx Hin. apply list_lookup_insert_Some in Hx as [(<- & <- & _)|[_ Hx]]; [|by eapply Hqd'].
    cbn [set_rpcCh rpcCh] in Hin. apply elem_of_app in Hin as [Hin| ->%list_elem_of_singleton]; [by eapply Hqd'|].
    exists (set_stage c Waiting). cbn [calls].
    split; [apply list_lookup_insert_eq; by eapply lookup_lt_Some|done].
  - intros t i Hin. destruct (Hrc' t i Hin) as [Hst Hnq]. split; [done|]. intros x Hx.
    apply list_lookup_insert_Some in Hx as [(<- & <- & _)|[_ Hx]]; [|by apply Hnq].
    cbn [set_rpcCh rpcCh]. rewrite elem_of_app, list_elem_of_singleton. intros [Hi| ->]; [by eapply Hnq|].
    by eapply Hno, (Hrc _ _ Hin).
Qed.

Lemma good_receive w t k n :
  good w -> receive (net w) t = Some (k, n) -> good (mkWorld n (received w ++ [(t, k)]) (answers w)).
Proof.
  intros [Hq Hqd Hrc Ho Hr Hok Ha Hs]. unfold receive.
  destruct (transports (net w) !! t) as [tr|] eqn:Et; [|done]. destruct (rpcCh tr) as [|k' ch] eqn:Ech; [done|].
  intros [= -> <-]. pose proof (Hq t tr Et) as Hnd. rewrite Ech in Hnd. apply NoDup_cons in Hnd as [Hk Hnd].
  assert (sent (net w) t k) as Hsent by (eapply Hqd; [done|]; rewrite Ech; left).
  assert (forall u, ~ (u, k) ∈ received w) as Hnew.
  { intros u Hin. destruct (Hrc u k Hin) as [(c & Hc & Hp & _) Hno]. destruct Hsent as (c' & Hc' & Hp' & _).
    assert (u = t) as -> by congruence. apply (Hno tr Et). rewrite Ech. left. }
  split; cbn [net received answers transports calls]; try done.
  - intros u x Hx. apply list_lookup_insert_Some in Hx as [(<- & <- & _)|[_ Hx]]; [done|by eapply Hq].
  - intros u x i Hx Hin. apply list_lookup_insert_Some in Hx as [(<- & <- & _)|[_ Hx]]; [|by eapply Hqd].
    eapply Hqd; [exact Et|]. rewrite Ech. by right.
  - intros u i Hin. apply elem_of_app in Hin as [Hin|[= -> ->]%list_elem_of_singleton].
    + destruct (Hrc u i Hin) as [? Hno]. split; [done|]. intros x Hx.
      apply list_lookup_insert_Some in Hx as [(<- & <- & _)|[_ Hx]]; [|by apply Hno].
      cbn [set_rpcCh rpcCh]. intros Hi. apply (Hno tr Et). rewrite Ech. by right.
    + split; [done|]. intros x Hx. apply list_lookup_insert_Some in Hx as [(_ & <- & _)|[Hne _]]; done.
  - rewrite fmap_app. change ([(t, k)].*2) with [k]. apply NoDup_app. split; [done|]. split; [|apply NoDup_singleton].
    intros i Hi ->%list_elem_of_singleton. apply list_elem_of_fmap in Hi as ([u i] & -> & Hi). by apply (Hnew u).
  - intros i resp Hi. destruct (Ha i resp Hi) as [u Hu]. exists u. apply elem_of_app. by left.
Qed.

Lemma good_respond w t k resp :
  good w -> (t, k) ∈ received w -> ~ (k ∈ (answers w).*1) ->
  good (mkWorld (Respond (net w) k resp) (received w) (answers w ++ [(k, resp)])).
Proof.
  intros Hg Hin Hnew.
  assert (good (mkWorld (net w) (received w) (answers w ++ [(k, resp)]))) as Hg'.
  { destruct Hg as [Hq Hqd Hrc Ho Hr Hok Ha Hs]. split; cbn [net received answers]; try done.
    - intros i c r Hc Hr0. apply elem_of_app. left. by eapply Hr.
    - intros i c r Hc Hst. destruct (Hok i c r Hc Hst). split; [|done]. apply elem_of_app. by left.
    - intros i r [Hi|[= -> ->]%list_elem_of_singleton]%elem_of_app; [by eapply Ha|by exists t].
    - rewrite fmap_app. change ([(k, resp)].*1) with [k]. apply NoDup_app. split; [done|]. split; [|apply NoDup_singleton].
      intros i Hi ->%list_elem_of_singleton. by apply Hnew. }
  unfold Respond. destruct (calls (net w) !! k) as [c|] eqn:Ec; [|done].
  destruct (c_respCh c) eqn:Er; [done|].
  apply (good_call (mkWorld (net w) (received w) (answers w ++ [(k, resp)])) k c); cbn [net received answers]; try done.
  - intros r [= <-]. apply elem_of_app. right. by apply list_elem_of_singleton.
  - intros r Hst. by apply (gd_ok _ Hg' k c r).
Qed.

Lemma call_result_Ok cmd resp r : call_result cmd resp = Ok r -> r = resp.
Proof. destruct resp, cmd; simpl; congruence. Qed.

Lemma good_step w w' : good w -> step w w' -> good w'.
Proof.
  intros Hg Hstep. pose proof Hg as [_ _ _ _ Hr Hok _ _]. destruct Hstep.
  - unfold begin_call. destruct (transports (net w) !! t) as [tr|]; [|by destruct w].
    destruct (peers tr !! target) as [peer|]; [|by destruct w]. cbn [fst].
    apply good_calls; [done|..].
    + intros k c Hc. exists c. split; [by apply lookup_app_l_Some|done].
    + intros k c resp [Hc|[_ Hc]]%lookup_app_Some; [by eapply Hr|].
      destruct (k - length (calls (net w)))%nat; [|done]. by injection Hc as <-.
    + intros k c resp [Hc|[_ Hc]]%lookup_app_Some; [by eapply Hok|].
      destruct (k - length (calls (net w)))%nat; [|done]. by injection Hc as <-.
  - by apply good_offer.
  - unfold send_timeout. destruct (calls (net w) !! k) as [c|] eqn:Ec; [|by destruct w].
    destruct (c_stage c) eqn:Est; [|by destruct w..].
    eapply good_call; [done|done|done|done| |done]. intros resp E. by eapply Hr.
  - unfold finish. destruct (calls (net w) !! k) as [c|] eqn:Ec; [|by destruct w].
    destruct (c_stage c) eqn:Est; [by destruct w| |by destruct w].
    destruct (c_respCh c) as [resp|] eqn:Er; [|by destruct w].
    eapply good_call; [done|done|done|done|done|]. cbn [c_stage c_cmd]. intros r [= E].
    pose proof (call_result_Ok _ _ _ E) as ->. split; [by eapply Hr|done].
  - unfold wait_timeout. destruct (calls (net w) !! k) as [c|] eqn:Ec; [|by destruct w].
    destruct (c_stage c) eqn:Est; [by destruct w| |by destruct w].
    eapply good_call; [done|done|done|done| |done]. intros resp E. by eapply Hr.
  - by eapply good_receive.
  - by eapply good_respond.
  - by eapply good_table.
Qed.

Lemma reachable_good w w' : good w -> rtc step w w' -> good w'.
Proof. intros Hg H. induction H as [|w1 w2 w3 Hs _ IH]; [done|]. apply IH. by eapply good_step. Qed.

(** Transports that have just been made, or connected since. *)
Definition fresh (w : world) : Prop :=
  calls (net w) = [] /\ received w = [] /\ answers w = [] /\
  forall t tr, transports (net w) !! t = Some tr -> rpcCh tr = [].

Lemma fresh_good w : fresh w -> good w.
Proof.
  intros (Hc & Hrc & Ha & Hq). split; rewrite ?Hc, ?Hrc, ?Ha; simpl; try done; try apply NoDup_nil_2.
  - intros t tr Ht. rewrite (Hq t tr Ht). apply NoDup_nil_2.
  - intros t tr k Ht. rewrite (Hq t tr Ht). by intros ?%elem_of_nil.
  - intros t k Hin. by apply elem_of_nil in Hin.
  - intros k resp Hin. by apply elem_of_nil in Hin.
Qed.

(** ** Theorems *)

(** C27: calls through the in-memory transport.  Whatever happens in whatever
    order, time running out and peers disconnected included, a node receives
    each request at most once, and only the node for which its call was begun
    receives it; and a call that returns an answer returns the one
    that node gave to that very request, of the kind that was asked for. *)
Theorem inmem_calls w w' :
  fresh w -> rtc step w w' ->
  NoDup (received w').*2 /\
  (forall t k, (t, k) ∈ received w' -> exists c, calls (net w') !! k = Some c /\ c_peer c = t) /\
  (forall k c resp, calls (net w') !! k = Some c -> c_stage c = Returned (Ok resp) ->
     (c_peer c, k) ∈ received w' /\ (k, resp) ∈ answers w' /\ call_result (c_cmd c) resp = Ok resp /\
     forall other, (k, other) ∈ answers w' -> other = resp).
Proof.
  intros Hf Hrun. pose proof (reachable_good _ _ (fresh_good _ Hf) Hrun) as [_ _ Hrc Ho _ Hok Ha Hs].
  split; [done|]. split.
  - intros t k Hin. destruct (Hrc t k Hin) as [(c & Hc & Hp & _) _]. by exists c.
  - intros k c resp Hc Hst. destruct (Hok k c resp Hc Hst) as [Hin Hres].
    split; [|split; [done|split; [done|]]].
    + destruct (Ha k resp Hin) as [t Ht]. destruct (Hrc t k Ht) as [(c' & Hc' & Hp & _) _].
      assert (c_peer c = t) as -> by congruence. done.
    + intros other Hoth. apply list_elem_of_lookup in Hin as [i Hi], Hoth as [j Hj].
      assert (i = j) as ->.
      { eapply NoDup_lookup; [exact Hs|..]; rewrite list_lookup_fmap, ?Hi, ?Hj; done. }
      congruence.
Qed.

(** Two transports; a call over a connection that is cut before its answer. *)
Definition wit_start : world :=
  mkWorld (mkNetwork [Connect (NewInmemTransport (str "a")) (str "b") 1; NewInmemTransport (str "b")] []) [] [].

Definition wit_cmd : Command := CmdRequestVote (mkVoteReq 1 (str "a") 0 0).
Definition wit_resp : RPCResponse := RespRequestVote (mkVoteResp 1 true).

Definition wit_end : world :=
  mkWorld (mkNetwork [DisconnectAll (Connect (NewInmemTransport (str "a")) (str "b") 1); NewInmemTransport (str "b")]
             [mkCall (str "b") wit_cmd 1 (Returned (Ok wit_resp)) None]) [(1, 0)]%nat [(0%nat, wit_resp)].

Lemma wit_run : rtc step wit_start wit_end.
Proof.
  eapply rtc_l; [apply (step_begin _ 0 (str "b") wit_cmd)|].
  eapply rtc_l; [apply (step_offer _ 0)|].
  eapply rtc_l; [eapply (step_table _ 0 _ DisconnectAll); reflexivity|].
  eapply rtc_l; [apply (step_receive _ 1 0); reflexivity|].
  eapply rtc_l; [apply (step_respond _ 1 0 wit_resp); [vm_compute; left|by intros ?%elem_of_nil]|].
  eapply rtc_l; [apply (step_finish _ 0)|]. apply rtc_refl.
Qed.

Lemma wit_fresh : fresh wit_start.
Proof. split_and!; try done. intros [|[|t]] tr H; by simplify_eq/=. Qed.

Lemma inmem_calls_witness :
  NoDup (received wit_end).*2 /\ (1, 0)%nat ∈ received wit_end /\ call_result wit_cmd wit_resp = Ok wit_resp.
Proof.
  destruct (inmem_calls wit_start wit_end wit_fresh wit_run) as (Hn & _ & H).
  destruct (H 0%nat _ wit_resp eq_refl eq_refl) as (Hr & _ & Hc & _). exact (conj Hn (conj Hr Hc)).
Defined.
