(* ===== verification/Transport.v ===== *)
(** * The TCP transport ([internal/raft/transport.go])

    Framing, the two ends of a call, and the life of the listener.  A
    connection is what can still be read from it, a string of bytes after
    which reading fails (the peer closed it, or a deadline passed), and
    whether a write succeeds.  What the Raft node does with a request is a
    parameter of the handler.  That the caller reads for five seconds while the
    handler waits ten for the node is not tied together: an answer that comes
    after the deadline is one that is not there to be read. *)

From S2P Require Import Prelude Binary Utf8 Json Base64 Codec Wire Store RaftTypes RaftWire.

(** ** Messages *)

Definition msgAppendEntriesReq : Z := 0.
Definition msgAppendEntriesResp : Z := 1.
Definition msgRequestVoteReq : Z := 2.
Definition msgRequestVoteResp : Z := 3.

(** Ten megabytes. *)
Definition maxPayload : Z := 10 * 1024 * 1024.

Inductive transport_error : Type :=
| ErrDial
| ErrWrite
| ErrReadHeader
| ErrWrongType (expected got : Z)
| ErrTooLarge (n : Z)
| ErrReadPayload
| ErrUnmarshal.

(** [io.ReadFull] of [n] bytes: the bytes and what is left, or an error. *)
Definition ReadFull (n : nat) (input : bytes) : option (bytes * bytes) :=
  if (n <=? length input)%nat then Some (take n input, drop n input) else None.

(** The bytes [sendMessage] writes for a type and a body. *)
Definition frame (msgType : Z) (body : bytes) : bytes :=
  Zbyte msgType :: PutUint32 (uint32 (len body)) ++ body.

(** [sendMessage]: what goes out, or the error of the write. *)
Definition sendMessage {A} (writable : bool) (msgType : Z) (c : Codec A) (payload : A)
    : outcome transport_error bytes :=
  if writable then Ok (frame msgType (MarshalAs c payload)) else Err ErrWrite.

(** Type and payload length of a header; the header is five bytes long. *)
Definition header_type (header : bytes) : Z := default 0 (byteZ <$> head header).
Definition header_len (header : bytes) : Z := default 0 (Uint32 (drop 1 header)).

(** [readMessage]. *)
Definition readMessage {A} (input : bytes) (expectedType : Z) (c : Codec A)
    : outcome transport_error A :=
  match ReadFull 5 input with
  | None => Err ErrReadHeader
  | Some (header, input) =>
      let msgType := header_type header in
      if negb (msgType =? expectedType) then Err (ErrWrongType expectedType msgType)
      else
        let payloadLen := header_len header in
        if maxPayload <? payloadLen then Err (ErrTooLarge payloadLen)
        else
          match ReadFull (Z.to_nat payloadLen) input with
          | None => Err ErrReadPayload
          | Some (payload, _) =>
              match Unmarshal c payload with Some a => Ok a | None => Err ErrUnmarshal end
          end
  end.

(** ** Calls

    [dial target] is the connection to a server: [None] when it cannot be
    had; else whether it can be written to, and what can be read from it
    after a message was written. *)
Definition dialer : Type := bytes -> option (bool * (bytes -> bytes)).

Definition call {A B} (dial : dialer) (target : bytes) (reqType respType : Z)
    (creq : Codec A) (cresp : Codec B) (req : A) : outcome transport_error B :=
  match dial target with
  | None => Err ErrDial
  | Some (writable, reply) =>
      let! sent := sendMessage writable reqType creq req in
      readMessage (reply sent) respType cresp
  end.

Definition SendAppendEntries (dial : dialer) (target : bytes) (req : AppendEntriesRequest)
    : outcome transport_error AppendEntriesResponse :=
  call dial target msgAppendEntriesReq msgAppendEntriesResp append_req_codec append_resp_codec req.

Definition SendRequestVote (dial : dialer) (target : bytes) (req : RequestVoteRequest)
    : outcome transport_error RequestVoteResponse :=
  call dial target msgRequestVoteReq msgRequestVoteResp vote_req_codec vote_resp_codec req.

(** ** The handler of a connection *)

(** Why it closes the connection. *)
Inductive conn_end : Type :=
| EndHeader
| EndTooLarge (n : Z)
| EndPayload
| EndUnmarshal
| EndUnanswered
| EndWrite
| EndUnknownType (t : Z).

(** The JSON of [rpcResp.Response]; the answer to an unknown RPC is [nil]. *)
Definition response_body (r : RPCResponse) : bytes :=
  match r with
  | RespAppendEntries resp => MarshalAs append_resp_codec resp
  | RespRequestVote resp => MarshalAs vote_resp_codec resp
  | RespUnknownRPC => Marshal JNull
  end.

(** The request in a message, and the type of its answer. *)
Definition request_of (msgType : Z) (payload : bytes) : conn_end + Command * Z :=
  if msgType =? msgAppendEntriesReq then
    match Unmarshal append_req_codec payload with
    | Some req => inr (CmdAppendEntries req, msgAppendEntriesResp)
    | None => inl EndUnmarshal
    end
  else if msgType =? msgRequestVoteReq then
    match Unmarshal vote_req_codec payload with
    | Some req => inr (CmdRequestVote req, msgRequestVoteResp)
    | None => inl EndUnmarshal
    end
  else inl (EndUnknownType msgType).

(** One turn of the loop: the request read and what is left to read. *)
Definition read_request (input : bytes) : conn_end + (Command * Z) * bytes :=
  match ReadFull 5 input with
  | None => inl EndHeader
  | Some (header, input) =>
      let msgType := header_type header in
      let payloadLen := header_len header in
      if maxPayload <? payloadLen then inl (EndTooLarge payloadLen)
      else
        match ReadFull (Z.to_nat payloadLen) input with
        | None => inl EndPayload
        | Some (payload, input) =>
            match request_of msgType payload with
            | inl e => inl e
            | inr c => inr (c, input)
            end
        end
  end.

Section Handler.
Context {N : Type}.

(** The node with the request in its channel: its next state and the answer,
    or none within ten seconds or before the shutdown; and whether a write to
    the connection succeeds. *)
Variable node : N -> Command -> N * option RPCResponse.
Variable writable : N -> bool.

(** [handleConn]: the node afterwards, what was written, and why it ended.
    Every turn consumes a header, so there are not more turns than bytes. *)
Fixpoint handleConn_loop (fuel : nat) (n : N) (input : bytes)
    : outcome Empty_set (N * bytes * conn_end) :=
  match fuel with
  | O => Diverge
  | S fuel =>
      match read_request input with
      | inl e => Ok (n, [], e)
      | inr (cmd, respType, input) =>
          let (n, resp) := node n cmd in
          match resp with
          | None => Ok (n, [], EndUnanswered)
          | Some resp =>
              if writable n then
                let! (n, out, e) := handleConn_loop fuel n input in
                Ok (n, frame respType (response_body resp) ++ out, e)
              else Ok (n, [], EndWrite)
          end
      end
  end.

Definition handleConn (n : N) (input : bytes) : outcome Empty_set (N * bytes * conn_end) :=
  handleConn_loop (S (length input)) n input.

End Handler.

(** ** The listener *)

(** [shutdownCh] is closed and the listener gone exactly when [shutdown]. *)
Record TCPTransport : Type := mkTransport {
  tt_localAddr : bytes;
  tt_shutdown : bool
}.

(** [NewTCPTransport]: [None] when the address cannot be listened on. *)
Definition NewTCPTransport (listens : bytes -> bool) (bindAddr : bytes) : option TCPTransport :=
  if listens bindAddr then Some (mkTransport bindAddr false) else None.

Definition LocalAddr (t : TCPTransport) : bytes := tt_localAddr t.

Definition Shutdown (t : TCPTransport) : TCPTransport :=
  if tt_shutdown t then t else mkTransport (tt_localAddr t) true.

(** [acceptLoop] over what the listener gives: a connection, or an error at a
    time when the transport is, or is not, shut down.  The connections whose
    handlers are started, and whether the loop has returned. *)
Inductive accept_event {C : Type} : Type :=
| Accepted (conn : C)
| AcceptError (down : bool).
Arguments accept_event : clear implicits.

Fixpoint acceptLoop {C} (es : list (accept_event C)) : list C * bool :=
  match es with
  | [] => ([], false)
  | Accepted conn :: es => let (cs, r) := acceptLoop es in (conn :: cs, r)
  | AcceptError true :: _ => ([], true)
  | AcceptError false :: es => acceptLoop es
  end.

(** * Lemmas *)

Lemma ReadFull_app a b : ReadFull (length a) (a ++ b) = Some (a, b).
Proof.
  unfold ReadFull. rewrite (proj2 (Nat.leb_le _ _)) by (rewrite length_app; lia).
  by rewrite take_app_length, drop_app_length.
Qed.

Lemma ReadFull_len n input a b : ReadFull n input = Some (a, b) -> (length b + n = length input)%nat.
Proof.
  unfold ReadFull. destruct (Nat.leb_spec n (length input)); [|done]. intros [= <- <-].
  rewrite length_drop. lia.
Qed.

(** The header of a frame. *)
Definition header (t : Z) (n : Z) : bytes := Zbyte t :: PutUint32 n.

Lemma frame_header t body rest : frame t body ++ rest = header t (uint32 (len body)) ++ body ++ rest.
Proof. unfold frame, header. cbn [app]. by rewrite <-app_assoc. Qed.

Lemma header_length t n : length (header t n) = 5%nat.
Proof. unfold header, PutUint32. simpl. done. Qed.

Lemma header_type_ok t n : 0 <= t < 256 -> header_type (header t n) = t.
Proof. intros. unfold header_type, header. simpl. by apply byteZ_small. Qed.

Lemma header_len_ok t n : 0 <= n < 4294967296 -> header_len (header t n) = n.
Proof.
  intros. unfold header_len. change (drop 1 (header t n)) with (PutUint32 n). by rewrite Uint32_Put.
Qed.

Lemma ReadFull_header t n rest : ReadFull 5 (header t n ++ rest) = Some (header t n, rest).
Proof. rewrite <-(header_length t n) at 1. apply ReadFull_app. Qed.

Lemma uint32_small n : 0 <= n <= maxPayload -> uint32 n = n.
Proof. unfold maxPayload. intros. unfold uint32. apply Z.mod_small. lia. Qed.

(** A message that is not too large is read as it was sent. *)
Lemma readMessage_frame {A} (c : Codec A) good depth t a rest :
  codec_law c good depth -> Z.of_nat depth <= maxNestingDepth -> good a -> 0 <= t < 256 ->
  len (MarshalAs c a) <= maxPayload ->
  readMessage (frame t (MarshalAs c a) ++ rest) t c = Ok a.
Proof.
  intros Hc Hd Ha Ht Hl. pose proof (len_nonneg (MarshalAs c a)). unfold readMessage.
  rewrite frame_header, ReadFull_header, header_type_ok, Z.eqb_refl by done. cbn [negb].
  rewrite uint32_small, header_len_ok by (unfold maxPayload in *; lia).
  rewrite (proj2 (Z.ltb_ge _ _)), to_nat_len, ReadFull_app by done.
  by rewrite (Unmarshal_Marshal c good depth).
Qed.

Lemma read_request_frame t body rest :
  0 <= t < 256 -> len body <= maxPayload ->
  read_request (frame t body ++ rest) =
    match request_of t body with inl e => inl e | inr c => inr (c, rest) end.
Proof.
  intros Ht Hl. pose proof (len_nonneg body). unfold read_request.
  rewrite frame_header, ReadFull_header, header_type_ok by done.
  rewrite uint32_small, header_len_ok by (unfold maxPayload in *; lia).
  by rewrite (proj2 (Z.ltb_ge _ _)), to_nat_len, ReadFull_app by done.
Qed.

Lemma read_request_shrinks input c rest :
  read_request input = inr (c, rest) -> (length rest < length input)%nat.
Proof.
  unfold read_request. destruct (ReadFull 5 input) as [[h i]|] eqn:E1; [|done].
  destruct (maxPayload <? _); [done|]. destruct (ReadFull _ i) as [[p j]|] eqn:E2; [|done].
  destruct (request_of _ _); [done|]. intros [= <- <-].
  apply ReadFull_len in E1, E2. lia.
Qed.

(** ** Serving *)

Definition command_body (cmd : Command) : bytes :=
  match cmd with
  | CmdAppendEntries req => MarshalAs append_req_codec req
  | CmdRequestVote req => MarshalAs vote_req_codec req
  | CmdUnknown => []
  end.

Definition command_type (cmd : Command) : Z :=
  match cmd with CmdAppendEntries _ => msgAppendEntriesReq | _ => msgRequestVoteReq end.

(** The bytes of a request on the wire, and of its answer. *)
Definition request_bytes (cmd : Command) : bytes := frame (command_type cmd) (command_body cmd).

Definition answer_bytes (cmd : Command) (resp : RPCResponse) : bytes :=
  frame (command_type cmd + 1) (response_body resp).

(** A request that fits into a message. *)
Definition sendable (cmd : Command) : Prop :=
  match cmd with
  | CmdAppendEntries req => append_req_good req
  | CmdRequestVote req => vote_req_good req
  | CmdUnknown => False
  end /\ len (command_body cmd) <= maxPayload.

Lemma request_of_body cmd :
  sendable cmd -> request_of (command_type cmd) (command_body cmd) = inr (cmd, command_type cmd + 1).
Proof.
  intros [Hg _]. destruct cmd as [req|req|]; [| |done]; unfold request_of; cbn [command_type command_body].
  - rewrite Z.eqb_refl. by rewrite (Unmarshal_Marshal _ _ _ _ append_req_law).
  - change (msgRequestVoteReq =? msgAppendEntriesReq) with false. rewrite Z.eqb_refl.
    by rewrite (Unmarshal_Marshal _ _ _ _ vote_req_law).
Qed.

Lemma read_request_bytes cmd rest :
  sendable cmd -> read_request (request_bytes cmd ++ rest) = inr (cmd, command_type cmd + 1, rest).
Proof.
  intros Hs. unfold request_bytes. rewrite read_request_frame; [|by destruct cmd|apply Hs].
  by rewrite request_of_body.
Qed.

Section Serving.
Context {N : Type} (node : N -> Command -> N * option RPCResponse) (writable : N -> bool).

(** The loop ends for every input; one turn per byte is more than enough. *)
Lemma handleConn_loop_total fuel n input :
  (length input < fuel)%nat -> exists x, handleConn_loop node writable fuel n input = Ok x.
Proof.
  revert n input. induction fuel as [|fuel IH]; intros n input Hf; [lia|]. cbn [handleConn_loop].
  destruct (read_request input) as [e|[[cmd t] rest]] eqn:E; [by eexists|].
  apply read_request_shrinks in E. destruct (node n cmd) as [n1 [resp|]]; [|by eexists].
  destruct (writable n1); [|by eexists]. destruct (IH n1 rest) as [[[n2 out] e] ->]; [lia|]. by eexists.
Qed.

Lemma handleConn_loop_fuel fuel fuel' n input :
  (length input < fuel)%nat -> (length input < fuel')%nat ->
  handleConn_loop node writable fuel n input = handleConn_loop node writable fuel' n input.
Proof.
  revert fuel' n input. induction fuel as [|fuel IH]; intros [|fuel'] n input Hf Hf'; try lia.
  cbn [handleConn_loop]. destruct (read_request input) as [e|[[cmd t] rest]] eqn:E; [done|].
  apply read_request_shrinks in E. destruct (node n cmd) as [n1 [resp|]]; [|done].
  destruct (writable n1); [|done]. by rewrite (IH fuel') by lia.
Qed.

(** A request, and what comes after it. *)
Lemma handleConn_cons n cmd n1 resp rest :
  sendable cmd -> node n cmd = (n1, Some resp) -> writable n1 = true ->
  handleConn node writable n (request_bytes cmd ++ rest) =
    let! (n2, out, e) := handleConn node writable n1 rest in Ok (n2, answer_bytes cmd resp ++ out, e).
Proof.
  intros Hs Hn Hw. unfold handleConn at 1. cbn [handleConn_loop].
  rewrite read_request_bytes, Hn, Hw by done. unfold handleConn.
  rewrite (handleConn_loop_fuel _ (S (length rest))); [done| |lia].
  unfold request_bytes, frame. rewrite length_app. simpl. lia.
Qed.

(** The node after a sequence of requests it answers, and the answers. *)
Inductive served : N -> list Command -> bytes -> N -> Prop :=
| served_nil n : served n [] [] n
| served_cons n cmd n1 resp cmds out n2 :
    sendable cmd -> node n cmd = (n1, Some resp) -> writable n1 = true ->
    served n1 cmds out n2 -> served n (cmd :: cmds) (answer_bytes cmd resp ++ out) n2.

Lemma handleConn_served n cmds out n' :
  served n cmds out n' -> handleConn node writable n (mjoin (map request_bytes cmds)) = Ok (n', out, EndHeader).
Proof.
  induction 1 as [|n cmd n1 resp cmds out n2 Hs Hn Hw _ IH]; [done|].
  change (mjoin (map request_bytes (cmd :: cmds))) with (request_bytes cmd ++ mjoin (map request_bytes cmds)).
  by rewrite (handleConn_cons _ _ n1 resp), IH.
Qed.

(** A connection to this node. *)
Definition serving (n : N) : dialer :=
  fun _ => Some (true, fun sent =>
    match handleConn node writable n sent with Ok (_, out, _) => out | _ => [] end).

(** ** Theorems *)

(** The handler of a connection serves requests in order.  Whatever
    requests are written one after the other, the node gets exactly these,
    each once and in order, the answers are written in the same order, and
    the loop ends; on any other input it ends, too. *)
Theorem handleConn_serves :
  (forall n cmds out n', served n cmds out n' ->
     handleConn node writable n (mjoin (map request_bytes cmds)) = Ok (n', out, EndHeader)) /\
  (forall n input, exists n' out e, handleConn node writable n input = Ok (n', out, e)).
Proof.
  split; [apply handleConn_served|]. intros n input.
  destruct (handleConn_loop_total (S (length input)) n input) as [[[n' out] e] E]; [lia|].
  by exists n', out, e.
Qed.

(** C23: a call brings the node's answer.  What [SendAppendEntries] or
    [SendRequestVote] returns is what the node at the other end answers to
    that very request, provided both messages fit into ten megabytes, the
    leader's and candidate's names are valid UTF-8, and the answer is there
    before the caller's deadline, which is what [serving] stands for. *)
Theorem call_answered n n' target :
  (forall req resp, append_req_good req -> append_resp_good resp -> writable n' = true ->
     len (MarshalAs append_req_codec req) <= maxPayload ->
     len (MarshalAs append_resp_codec resp) <= maxPayload ->
     node n (CmdAppendEntries req) = (n', Some (RespAppendEntries resp)) ->
     SendAppendEntries (serving n) target req = Ok resp) /\
  (forall req resp, vote_req_good req -> vote_resp_good resp -> writable n' = true ->
     len (MarshalAs vote_req_codec req) <= maxPayload ->
     len (MarshalAs vote_resp_codec resp) <= maxPayload ->
     node n (CmdRequestVote req) = (n', Some (RespRequestVote resp)) ->
     SendRequestVote (serving n) target req = Ok resp).
Proof.
  split; intros req resp Hq Hr Hw Hlq Hlr Hn.
  - unfold SendAppendEntries, call, serving, sendMessage. cbn [obind].
    change (frame msgAppendEntriesReq _) with (request_bytes (CmdAppendEntries req)).
    rewrite <-(app_nil_r (request_bytes _)), (handleConn_cons n _ n' (RespAppendEntries resp)) by done.
    cbn [handleConn handleConn_loop read_request ReadFull length Nat.leb obind].
    by apply (readMessage_frame _ _ _ _ _ _ append_resp_law).
  - unfold SendRequestVote, call, serving, sendMessage. cbn [obind].
    change (frame msgRequestVoteReq _) with (request_bytes (CmdRequestVote req)).
    rewrite <-(app_nil_r (request_bytes _)), (handleConn_cons n _ n' (RespRequestVote resp)) by done.
    cbn [handleConn handleConn_loop read_request ReadFull length Nat.leb obind].
    by apply (readMessage_frame _ _ _ _ _ _ vote_resp_law).
Qed.

(** A message that is too large is not read. *)
Lemma oversized_refused n t body :
  0 <= t < 256 -> maxPayload < len body < 4294967296 ->
  handleConn node writable n (frame t body) = Ok (n, [], EndTooLarge (len body)).
Proof.
  intros Ht Hl. unfold handleConn. cbn [handleConn_loop]. unfold read_request.
  rewrite <-(app_nil_r (frame t body)), frame_header, ReadFull_header.
  assert (uint32 (len body) = len body) as -> by (unfold uint32, maxPayload in *; apply Z.mod_small; lia).
  rewrite header_len_ok by (unfold maxPayload in *; lia).
  by rewrite (proj2 (Z.ltb_lt _ _)) by lia.
Qed.


End Serving.

(** ** Sizes *)

Lemma length_of_runes rs : (length rs <= length (of_runes rs))%nat.
Proof.
  induction rs as [|r rs IH]; [done|]. rewrite of_runes_cons, length_app. pose proof (len_of_rune r).
  unfold len in *. simpl. lia.
Qed.

Lemma length_commas xs x : In x xs -> (length x <= length (commas xs))%nat.
Proof.
  induction xs as [|y xs IH]; [done|]. destruct xs as [|z xs]; [by intros [->|[]]|].
  change (commas (y :: z :: xs)) with (y ++ 44 :: commas (z :: xs)).
  rewrite length_app, length_cons. intros [->|H%IH]; lia.
Qed.

Lemma length_commas_sum {A} (f : A -> nat) (g : A -> list Z) xs :
  (forall x, (f x <= length (g x))%nat) -> (sum_list_with f xs <= length (commas (map g xs)))%nat.
Proof.
  intros H. induction xs as [|y xs IH]; [done|]. specialize (H y). destruct xs as [|z xs]; [simpl; lia|].
  change (commas (map g (y :: z :: xs))) with (g y ++ 44 :: commas (map g (z :: xs))).
  rewrite length_app, length_cons. change (sum_list_with f (y :: z :: xs)) with (f y + sum_list_with f (z :: xs))%nat.
  lia.
Qed.

(** The text of an object is no shorter than that of a member. *)
Lemma length_print_member ms k j : In (k, j) ms -> (length (print j) <= length (print (JObj ms)))%nat.
Proof.
  intros Hin. cbn [print]. rewrite length_cons, length_app.
  pose proof (length_commas _ _ (in_map (fun m => quote (fst m) ++ 58 :: print (snd m)) _ _ Hin)) as H.
  cbn [fst snd] in H. rewrite length_app, length_cons in H. lia.
Qed.

Lemma utf8_scan_ascii s : Forall (fun b => byteZ b < 128) s -> length (utf8_scan s) = length s.
Proof.
  induction 1 as [|b s Hb _ IH]; [done|]. cbn [utf8_scan]. rewrite (proj2 (Z.ltb_lt _ _)) by done.
  simpl. by rewrite IH.
Qed.

Lemma length_quote s : Forall (fun b => byteZ b < 128) s -> (length s <= length (quote s))%nat.
Proof.
  intros Hs. unfold quote. rewrite length_cons, length_app. rewrite <-(utf8_scan_ascii s Hs) at 1.
  assert (forall os, (length os <= length (mjoin (map escape os)))%nat) as H; [|specialize (H (utf8_scan s)); lia].
  induction os as [|o os IH]; [done|].
  change (mjoin (map escape (o :: os))) with (escape o ++ mjoin (map escape os)).
  rewrite length_app, length_cons. cut (1 <= length (escape o))%nat; [lia|].
  unfold escape. destruct o; [|simpl; lia]. repeat case_match; simpl; lia.
Qed.

Lemma length_b64 s : (length s <= length (b64_encode s))%nat.
Proof. induction s using list_ind3; simpl; lia. Qed.

Lemma length_enc_bytes s : (length s <= length (print (enc bytes_codec s)))%nat.
Proof.
  destruct s as [|b s]; [simpl; lia|]. pose proof (length_b64 (b :: s)) as H.
  pose proof (length_quote _ (b64_encode_ascii (b :: s))). cbn [enc bytes_codec print]. lia.
Qed.

(** The data of the entries of a request. *)
Definition data_size (req : AppendEntriesRequest) : nat :=
  sum_list_with (fun e => length (log_Data e)) (ae_Entries req).

Lemma length_enc_entry e : (length (log_Data e) <= length (print (enc log_codec e)))%nat.
Proof.
  etrans; [apply length_enc_bytes|]. cbn [enc log_codec struct_codec].
  eapply length_print_member. by right; right; left.
Qed.

Lemma data_size_body req : (data_size req <= length (MarshalAs append_req_codec req))%nat.
Proof.
  unfold MarshalAs, Marshal. etrans; [|apply length_of_runes]. cbn [enc append_req_codec struct_codec].
  etrans; [|eapply length_print_member; by right; right; right; right; left].
  unfold data_size. cbn [enc slice_codec]. destruct (ae_Entries req) as [|e es] eqn:E; [simpl; lia|].
  cbn [print]. rewrite length_cons, length_app, map_map.
  pose proof (length_commas_sum (fun e => length (log_Data e)) (fun e => print (enc log_codec e)) (e :: es)
    length_enc_entry). lia.
Qed.

(** C39: a backlog too large for one message is never sent.  The request for a
    follower holds everything the follower lacks; once this is more than ten
    megabytes of data, the follower closes the connection without having seen
    the request, and the call fails, however often it is repeated.  (A body of
    four gigabytes or more does not fit its length field.) *)
Theorem backlog_never_sent {N} (node : N -> Command -> N * option RPCResponse) writable n target req :
  maxPayload < Z.of_nat (data_size req) -> len (MarshalAs append_req_codec req) < 4294967296 ->
  handleConn node writable n (request_bytes (CmdAppendEntries req)) =
    Ok (n, [], EndTooLarge (len (MarshalAs append_req_codec req))) /\
  SendAppendEntries (serving node writable n) target req = Err ErrReadHeader.
Proof.
  intros Hd Hl. pose proof (data_size_body req) as Hs.
  assert (handleConn node writable n (request_bytes (CmdAppendEntries req)) =
    Ok (n, [], EndTooLarge (len (MarshalAs append_req_codec req)))) as E.
  { apply oversized_refused; [done|]. unfold len in *. cbn [command_body]. lia. }
  split; [done|]. unfold SendAppendEntries, call, serving, sendMessage. cbn [obind].
  change (frame msgAppendEntriesReq _) with (request_bytes (CmdAppendEntries req)). by rewrite E.
Qed.

(** An upper bound for the size of a text. *)
Fixpoint print_size (j : json) : nat :=
  match j with
  | JNull => 4
  | JBool _ => 5
  | JNum lit => length lit
  | JStr s => 6 * length s + 2
  | JArr js => 2 + sum_list_with (fun j => S (print_size j)) js
  | JObj ms => 2 + sum_list_with (fun m => 6 * length (fst m) + 4 + print_size (snd m))%nat ms
  end.

Lemma length_commas_le {A} (f : A -> nat) (g : A -> list Z) xs :
  Forall (fun x => (S (length (g x)) <= f x)%nat) xs ->
  (length (commas (map g xs)) <= sum_list_with f xs)%nat.
Proof.
  induction 1 as [|y xs Hy _ IH]; [done|]. destruct xs as [|z xs]; [simpl in *; lia|].
  change (commas (map g (y :: z :: xs))) with (g y ++ 44 :: commas (map g (z :: xs))).
  rewrite length_app, length_cons. change (sum_list_with f (y :: z :: xs)) with (f y + sum_list_with f (z :: xs))%nat.
  lia.
Qed.

Lemma length_utf8_scan s : (length (utf8_scan s) <= length s)%nat.
Proof.
  induction s as [[|b0 s1] IH] using bytes_len_ind; [done|]. cbn [utf8_scan].
  repeat case_match; subst; cbn [length] in *; try lia;
    match goal with |- context [utf8_scan ?t] => pose proof (IH t); cbn [length] in *; lia end.
Qed.

Lemma length_quote_le s : (length (quote s) <= 6 * length s + 2)%nat.
Proof.
  unfold quote. rewrite length_cons, length_app. pose proof (length_utf8_scan s).
  assert (forall os, (length (mjoin (map escape os)) <= 6 * length os)%nat) as H1; [|specialize (H1 (utf8_scan s)); simpl; lia].
  induction os as [|o os IH]; [done|].
  change (mjoin (map escape (o :: os))) with (escape o ++ mjoin (map escape os)).
  rewrite length_app, length_cons. cut (length (escape o) <= 6)%nat; [lia|].
  unfold escape. destruct o; [|simpl; lia]. repeat case_match; simpl; lia.
Qed.

Lemma length_print_le j : (length (print j) <= print_size j)%nat.
Proof.
  induction j as [| [] |lit|s|js IH|ms IH] using json_ind; cbn [print print_size]; try (simpl; lia).
  - apply length_quote_le.
  - rewrite length_cons, length_app.
    cut (length (commas (map print js)) <= sum_list_with (fun j => S (print_size j)) js)%nat; [simpl; lia|].
    apply length_commas_le. eapply Forall_impl; [exact IH|]. simpl. lia.
  - rewrite length_cons, length_app.
    cut (length (commas (map (fun m => quote (fst m) ++ 58%Z :: print (snd m)) ms)) <=
      sum_list_with (fun m => 6 * length (fst m) + 4 + print_size (snd m))%nat ms)%nat; [simpl; lia|].
    apply length_commas_le. eapply Forall_impl; [exact IH|]. intros m Hm.
    rewrite length_app, length_cons. pose proof (length_quote_le (fst m)).
    simpl in Hm. lia.
Qed.

Lemma length_of_runes_le rs : (length (of_runes rs) <= 4 * length rs)%nat.
Proof.
  induction rs as [|r rs IH]; [done|]. rewrite of_runes_cons, length_app, length_cons.
  pose proof (len_of_rune r). unfold len in *. lia.
Qed.

Lemma length_b64_le s : (length (b64_encode s) <= 4 * length s)%nat.
Proof. induction s using list_ind3; simpl; lia. Qed.

(** ** Concrete calls *)

(** A follower's node behind a connection: it grants every vote. *)
Definition granting (n : Z) (cmd : Command) : Z * option RPCResponse :=
  match cmd with
  | CmdRequestVote req => (n + 1, Some (RespRequestVote (mkVoteResp (rv_Term req) true)))
  | CmdAppendEntries req => (n + 1, Some (RespAppendEntries (mkAppendResp (ae_Term req) true 0 0)))
  | CmdUnknown => (n, Some RespUnknownRPC)
  end.

Definition wit_vote_req : RequestVoteRequest := mkVoteReq 7 (str "a:1") 3 2.

Lemma wit_vote_sendable : sendable (CmdRequestVote wit_vote_req).
Proof.
  split; [|vm_compute; discriminate].
  split; [vm_compute; split; discriminate| |vm_compute; split; discriminate|vm_compute; split; discriminate].
  apply ascii_valid. repeat (apply Forall_cons_2; [reflexivity|]). apply Forall_nil_2.
Qed.

Lemma handleConn_serves_witness :
  handleConn granting (fun _ => true) 0 (mjoin (map request_bytes [CmdRequestVote wit_vote_req; CmdRequestVote wit_vote_req])) =
    Ok (2, mjoin [answer_bytes (CmdRequestVote wit_vote_req) (RespRequestVote (mkVoteResp 7 true));
                  answer_bytes (CmdRequestVote wit_vote_req) (RespRequestVote (mkVoteResp 7 true))], EndHeader).
Proof.
  apply (proj1 (handleConn_serves granting (fun _ => true))).
  apply (served_cons _ _ 0 _ 1); [exact wit_vote_sendable|reflexivity|reflexivity|].
  apply (served_cons _ _ 1 _ 2); [exact wit_vote_sendable|reflexivity|reflexivity|]. constructor.
Defined.

Lemma call_answered_witness :
  SendRequestVote (serving granting (fun _ => true) 0) (str "b:1") wit_vote_req = Ok (mkVoteResp 7 true).
Proof.
  apply (proj2 (call_answered granting (fun _ => true) 0 1 (str "b:1")));
    [apply wit_vote_sendable|vm_compute; split; discriminate|reflexivity|vm_compute; discriminate|vm_compute; discriminate|reflexivity].
Defined.

(** A request with one entry. *)
Definition one_entry (data : bytes) : AppendEntriesRequest := mkAppendReq 1 (str "a:1") 0 0 [mkLog 1 1 data] 0.

Lemma one_entry_body data : len (MarshalAs append_req_codec (one_entry data)) <= 96 * len data + 4000.
Proof.
  pose proof (length_of_runes_le (print (enc append_req_codec (one_entry data)))) as H1.
  pose proof (length_print_le (enc append_req_codec (one_entry data))) as H2.
  pose proof (length_b64_le data) as H3.
  assert (print_size (enc append_req_codec (one_entry data)) <= 6 * length (b64_encode data) + 1000)%nat as H4.
  { destruct data as [|b data]; [vm_compute; lia|].
    change (enc append_req_codec (one_entry (b :: data))) with
      (JObj [(key "term", JNum (itoa 1)); (key "leader_id", JStr (str "a:1"));
             (key "prev_log_index", JNum (itoa 0)); (key "prev_log_term", JNum (itoa 0));
             (key "entries", JArr [JObj [(key "Index", JNum (itoa 1)); (key "Term", JNum (itoa 1));
                                         (key "Data", JStr (b64_encode (b :: data)))]]);
             (key "leader_commit", JNum (itoa 0))]).
    generalize (b64_encode (b :: data)). intros s. cbn -[Nat.mul]. lia. }
  unfold MarshalAs, Marshal, len. lia.
Qed.

Lemma backlog_never_sent_witness :
  let req := one_entry (replicate (Z.to_nat 10485761) Byte.x00) in
  SendAppendEntries (serving granting (fun _ => true) 0) (str "b:1") req = Err ErrReadHeader.
Proof.
  intros req. refine (proj2 (backlog_never_sent granting (fun _ => true) 0 (str "b:1") req _ _)).
  - unfold data_size, req, one_entry. cbn [ae_Entries sum_list_with log_Data]. rewrite length_replicate.
    unfold maxPayload. lia.
  - pose proof (one_entry_body (replicate (Z.to_nat 10485761) Byte.x00)) as H. fold req in H.
    unfold len in *. rewrite length_replicate in H. lia.
Defined.
