(* ===== verification/Bolt.v ===== *)
(** * The bbolt store ([internal/store/boltstore.go])

    [BoltStore] over the database [go.etcd.io/bbolt], which is a parameter: a
    class of the operations the store calls, and a class of what the store
    relies on, as the package documents it.  A database is a set of buckets, a
    bucket a map from keys to values that a cursor runs through in the order
    of the keys; a transaction works on its own view, and committing it
    installs the view or fails and leaves the database as it was.

    The store is then shown to keep the promises of [Store]; that of truncation
    only if a cursor goes on after a deletion, which is not documented. *)

From S2P Require Import Prelude Binary Utf8 Json Base64 Codec Wire Store RaftTypes RaftWire.

(** ** The database *)

(** A bucket is known by its name; [None] for a key or cursor is [nil]. *)
Class Bolt (DB Tx Cursor : Type) : Type := {
  db_Begin : DB -> Tx;
  db_Commit : DB -> Tx -> DB + error;
  tx_CreateBucketIfNotExists : Tx -> bytes -> Tx + error;
  b_Get : Tx -> bytes -> bytes -> option bytes;
  b_Put : Tx -> bytes -> bytes -> bytes -> Tx + error;
  c_First : Tx -> bytes -> Cursor * option bytes;
  c_Last : Tx -> bytes -> Cursor * option bytes;
  c_Seek : Tx -> bytes -> bytes -> Cursor * option bytes;
  c_Next : Tx -> Cursor -> Cursor * option bytes;
  c_Delete : Tx -> Cursor -> (Tx * Cursor) + error
}.

(** A key with a property that no other key with it precedes. *)
Definition least (m : gmap bytes bytes) (P : bytes -> Prop) (k : option bytes) : Prop :=
  match k with
  | Some k => is_Some (m !! k) /\ P k /\ forall k', is_Some (m !! k') -> P k' -> str_leb k k' = true
  | None => forall k', is_Some (m !! k') -> ~ P k'
  end.

Definition greatest (m : gmap bytes bytes) (k : option bytes) : Prop :=
  match k with
  | Some k => is_Some (m !! k) /\ forall k', is_Some (m !! k') -> str_leb k' k = true
  | None => m = ∅
  end.

(** The documented behaviour.  [cursor_at tx c b k]: the cursor is in bucket
    [b] at key [k], and the data has not changed since it was positioned. *)
Class BoltLaws (DB Tx Cursor : Type) `{!Bolt DB Tx Cursor} : Type := {
  buckets : DB -> gmap bytes (gmap bytes bytes);
  view : Tx -> gmap bytes (gmap bytes bytes);
  cursor_at : Tx -> Cursor -> bytes -> bytes -> Prop;
  Begin_law db : view (db_Begin db) = buckets db;
  Commit_law db tx db' : db_Commit db tx = inl db' -> buckets db' = view tx;
  Create_law tx b tx' :
    tx_CreateBucketIfNotExists tx b = inl tx' ->
    view tx' = match view tx !! b with Some _ => view tx | None => <[b := ∅]> (view tx) end;
  bGet_law tx b m k : view tx !! b = Some m -> b_Get tx b k = m !! k;
  bPut_law tx b m k v tx' :
    view tx !! b = Some m -> b_Put tx b k v = inl tx' -> view tx' = <[b := <[k := v]> m]> (view tx);
  First_law tx b m :
    view tx !! b = Some m ->
    least m (fun _ => True) (c_First tx b).2 /\
    forall k, (c_First tx b).2 = Some k -> cursor_at tx (c_First tx b).1 b k;
  Last_law tx b m : view tx !! b = Some m -> greatest m (c_Last tx b).2;
  Seek_law tx b m k0 :
    view tx !! b = Some m ->
    least m (fun k => str_leb k0 k = true) (c_Seek tx b k0).2 /\
    forall k, (c_Seek tx b k0).2 = Some k -> cursor_at tx (c_Seek tx b k0).1 b k;
  Next_law tx c b m k0 :
    view tx !! b = Some m -> cursor_at tx c b k0 ->
    least m (fun k => str_leb k0 k = true /\ k <> k0) (c_Next tx c).2 /\
    forall k, (c_Next tx c).2 = Some k -> cursor_at tx (c_Next tx c).1 b k;
  Delete_law tx c b m k tx' c' :
    view tx !! b = Some m -> cursor_at tx c b k -> c_Delete tx c = inl (tx', c') ->
    view tx' = <[b := delete k m]> (view tx)
}.

(** What [DeleteRange] relies on besides: a cursor that has deleted the key it
    was at goes on with the next one.  The package documents no such thing;
    a cursor has to be positioned again once the data has changed.  Nothing
    but truncation uses this, and [truncation_leaves_entries] shows what may
    happen without it. *)
Class BoltResumes (DB Tx Cursor : Type) `{BoltLaws DB Tx Cursor} : Prop :=
  Resume_law tx c b m k tx' c' :
    view tx !! b = Some m -> cursor_at tx c b k -> c_Delete tx c = inl (tx', c') ->
    least (delete k m) (fun k' => str_leb k k' = true /\ k' <> k) (c_Next tx' c').2 /\
    forall k', (c_Next tx' c').2 = Some k' -> cursor_at tx' (c_Next tx' c').1 b k'.

(** ** The store *)

Definition bucketLog : bytes := str "raft-log".
Definition bucketStable : bytes := str "raft-stable".

Definition uint64ToBytes (v : Z) : bytes := PutUint64 v.

(** Panics on fewer than eight bytes. *)
Definition bytesToUint64 (b : bytes) : outcome Empty_set Z := or_panic (Uint64 b).

(** An error of the database, or of decoding. *)
Definition ErrDecode : error := ErrIO (str "unmarshal").

(** The struct; the types of transactions and cursors are those of the database. *)
Record BoltStore (DB Tx Cursor : Type) : Type := mkBolt { bs_db : DB }.
Arguments mkBolt {DB Tx Cursor}.
Arguments bs_db {DB Tx Cursor}.

Section Operations.
Context {DB Tx Cursor : Type} `{!Bolt DB Tx Cursor}.
Abbreviation BoltStore := (BoltStore DB Tx Cursor).

(** [db.Update]: the function's view is committed if it returns no error. *)
Definition Update (s : BoltStore) (f : Tx -> outcome Empty_set (Tx + error)) : store_call BoltStore :=
  let! r := f (db_Begin (bs_db s)) in
  match r with
  | inr err => Ok (s, Some err)
  | inl tx =>
      match db_Commit (bs_db s) tx with
      | inl db => Ok (mkBolt db, None)
      | inr err => Ok (s, Some err)
      end
  end.

(** [db.View]. *)
Definition View {A} (s : BoltStore) (f : Tx -> outcome Empty_set A) : outcome Empty_set A :=
  f (db_Begin (bs_db s)).

(** [NewBoltStore], from the open database on: it closes the database again
    on an error. *)
Definition NewBoltStore (db : DB) : outcome Empty_set (BoltStore + error) :=
  let! (s, err) :=
    Update (mkBolt db) (fun tx =>
      match tx_CreateBucketIfNotExists tx bucketLog with
      | inr err => Ok (inr err)
      | inl tx => Ok (tx_CreateBucketIfNotExists tx bucketStable)
      end) in
  Ok (match err with None => inl s | Some err => inr err end).

Definition index_of_key (k : option bytes) : outcome Empty_set (Z * option error) :=
  match k with
  | None => Ok (0, None)
  | Some k => let! idx := bytesToUint64 k in Ok (idx, None)
  end.

Definition FirstIndex (s : BoltStore) : outcome Empty_set (Z * option error) :=
  View s (fun tx => index_of_key (c_First tx bucketLog).2).

Definition LastIndex (s : BoltStore) : outcome Empty_set (Z * option error) :=
  View s (fun tx => index_of_key (c_Last tx bucketLog).2).

(** The pointer is to a local variable, which is zero unless decoding got
    somewhere; nobody looks at it when there is an error. *)
Definition GetLog (s : BoltStore) (index : Z) : outcome Empty_set (option LogEntry * option error) :=
  View s (fun tx =>
    match b_Get tx bucketLog (uint64ToBytes index) with
    | None => Ok (Some (mkLog 0 0 []), Some ErrLogNotFound)
    | Some v =>
        match Unmarshal log_codec v with
        | Some out => Ok (Some out, None)
        | None => Ok (Some (mkLog 0 0 []), Some ErrDecode)
        end
    end).

(** The loop of [StoreLogs] over its transaction. *)
Fixpoint put_logs (tx : Tx) (logs : list LogEntry) : Tx + error :=
  match logs with
  | [] => inl tx
  | l :: logs =>
      match b_Put tx bucketLog (uint64ToBytes (log_Index l)) (MarshalAs log_codec l) with
      | inr err => inr err
      | inl tx => put_logs tx logs
      end
  end.

Definition StoreLogs (s : BoltStore) (logs : list LogEntry) : store_call BoltStore :=
  Update s (fun tx => Ok (put_logs tx logs)).

Definition StoreLog (s : BoltStore) (log : LogEntry) : store_call BoltStore := StoreLogs s [log].

(** The loop of [DeleteRange]: from key [k] of the cursor on.  Each turn
    deletes a key that is not above [max], the next one greater than the last,
    so there are no more turns than indexes. *)
Fixpoint delete_from (fuel : nat) (tx : Tx) (c : Cursor) (k : option bytes) (max : Z)
    : outcome Empty_set (Tx + error) :=
  match fuel with
  | O => Diverge
  | S fuel =>
      match k with
      | None => Ok (inl tx)
      | Some k =>
          let! idx := bytesToUint64 k in
          if max <? idx then Ok (inl tx)
          else
            match c_Delete tx c with
            | inr err => Ok (inr err)
            | inl (tx, c) => let (c, k) := c_Next tx c in delete_from fuel tx c k max
            end
      end
  end.

Definition DeleteRange (s : BoltStore) (min max : Z) : store_call BoltStore :=
  Update s (fun tx =>
    let (c, k) := c_Seek tx bucketLog (uint64ToBytes min) in
    delete_from (S (S (Z.to_nat (max - min)))) tx c k max).

Definition Set_ (s : BoltStore) (key val : bytes) : store_call BoltStore :=
  Update s (fun tx => Ok (b_Put tx bucketStable key val)).

Definition Get (s : BoltStore) (key : bytes) : outcome Empty_set (bytes * option error) :=
  View s (fun tx => Ok (default [] (b_Get tx bucketStable key), None)).

Definition SetUint64 (s : BoltStore) (key : bytes) (val : Z) : store_call BoltStore := Set_ s key (uint64ToBytes val).

Definition GetUint64 (s : BoltStore) (key : bytes) : outcome Empty_set (Z * option error) :=
  let! (val, err) := Get s key in
  match err with
  | Some err => Ok (0, Some err)
  | None =>
      if len val =? 0 then Ok (0, None)
      else if negb (len val =? 8) then Ok (0, Some ErrInvalidUint64)
      else let! v := bytesToUint64 val in Ok (v, None)
  end.

#[export] Instance BoltStore_log : LogStore BoltStore := {
  Store.FirstIndex := FirstIndex;
  Store.LastIndex := LastIndex;
  Store.GetLog := GetLog;
  Store.StoreLog := StoreLog;
  Store.StoreLogs := StoreLogs;
  Store.DeleteRange := DeleteRange
}.

#[export] Instance BoltStore_stable : StableStore BoltStore := {
  Store.SetKey := Set_;
  Store.GetKey := Get;
  Store.SetUint64 := SetUint64;
  Store.GetUint64 := GetUint64
}.

End Operations.


(** ** Specification *)

(** What the log bucket of a view holds. *)
Record log_bucket (m : gmap bytes bytes) (l : list LogEntry) : Prop := {
  lb_entry : forall i e, entry_at l i = Some e -> m !! uint64ToBytes i = Some (MarshalAs log_codec e);
  lb_key : forall k, is_Some (m !! k) -> exists i, 1 <= i <= len l /\ k = uint64ToBytes i
}.

(** The two buckets of a view. *)
Definition holds (v : gmap bytes (gmap bytes bytes)) (l : list LogEntry) (m : gmap bytes bytes) : Prop :=
  v !! bucketStable = Some m /\ exists b, v !! bucketLog = Some b /\ log_bucket b l.

(** A log of machine integers. *)
Record log_wf (l : list LogEntry) : Prop := {
  lw_numbered : numbered l;
  lw_small : len l < MaxUint64;
  lw_terms : terms_ok l
}.

(** * Lemmas *)

Lemma buckets_differ : bucketLog <> bucketStable.
Proof. done. Qed.

Lemma key_index i : is_uint64 i -> bytesToUint64 (uint64ToBytes i) = Ok i.
Proof. intros Hi. unfold bytesToUint64, uint64ToBytes. by rewrite Uint64_Put. Qed.

Lemma log_bucket_some m l i : log_bucket m l -> 1 <= i <= len l -> is_Some (m !! uint64ToBytes i).
Proof. intros [He _] Hi. destruct (entry_at_in l i Hi) as [e E]. rewrite (He _ _ E). by eexists. Qed.

Lemma log_bucket_none m l i :
  log_bucket m l -> len l < MaxUint64 -> is_uint64 i -> entry_at l i = None -> m !! uint64ToBytes i = None.
Proof.
  intros [_ Hk] Hl Hi E. destruct (m !! uint64ToBytes i) eqn:Em; [|done].
  destruct (Hk (uint64ToBytes i)) as (j & Hj & Ej); [by eexists|].
  apply PutUint64_inj in Ej; [|done|int_unfold; lia]. subst j. apply entry_at_None in E. lia.
Qed.

Lemma entry_good_at l i e : log_wf l -> entry_at l i = Some e -> log_good e.
Proof.
  intros [Hn Hs Ht] E. pose proof (entry_at_Some _ _ _ E). split.
  - rewrite (entry_at_index _ _ _ Hn E). int_unfold. lia.
  - unfold entry_at in E. case_match; [|done]. apply list_elem_of_lookup_2 in E.
    unfold terms_ok in Ht. rewrite Forall_forall in Ht. by apply Ht.
Qed.

Lemma log_decodes e : log_good e -> Unmarshal log_codec (MarshalAs log_codec e) = Some e.
Proof. by apply (Unmarshal_Marshal _ _ _ _ log_law). Qed.

Lemma log_bucket_snoc m l e :
  log_bucket m l -> log_Index e = len l + 1 -> len l + 1 < MaxUint64 ->
  log_bucket (<[uint64ToBytes (log_Index e) := MarshalAs log_codec e]> m) (l ++ [e]).
Proof.
  intros [He Hk] Hi Hl. pose proof (len_nonneg l). split.
  - intros i x E. pose proof (entry_at_Some _ _ _ E) as Hb. rewrite len_app in Hb. change (len [e]) with 1 in Hb.
    destruct (decide (i = len l + 1)) as [->|Hne].
    + rewrite entry_at_last in E. injection E as <-. rewrite Hi. apply lookup_insert_eq.
    + rewrite lookup_insert_ne.
      * apply He. by rewrite entry_at_app_l in E by lia.
      * intros Ek. apply PutUint64_inj in Ek; int_unfold; lia.
  - intros k [v [[<- _]|[_ E]]%lookup_insert_Some].
    + exists (log_Index e). rewrite len_app. change (len [e]) with 1. split; [lia|done].
    + destruct (Hk k) as (i & Hr & ->); [by eexists|]. exists i. rewrite len_app. change (len [e]) with 1.
      split; [lia|done].
Qed.

Lemma log_wf_snoc l e :
  log_wf l -> log_Index e = len l + 1 -> len l + 1 < MaxUint64 -> is_uint64 (log_Term e) -> log_wf (l ++ [e]).
Proof.
  intros [Hn Hs Ht] Hi Hl He. split.
  - by apply numbered_snoc.
  - by autorewrite with len.
  - apply Forall_app. split; [done|by apply Forall_singleton].
Qed.

Section Laws.
Context {DB Tx Cursor : Type} `{!Bolt DB Tx Cursor} `{!BoltLaws DB Tx Cursor}.

(** ** Writing the log *)

Lemma put_logs_ok tx l m es tx' :
  holds (view tx) l m -> log_wf l -> numbered (l ++ es) -> len (l ++ es) < MaxUint64 -> terms_ok es ->
  put_logs tx es = inl tx' -> holds (view tx') (l ++ es) m /\ log_wf (l ++ es).
Proof.
  revert tx l. induction es as [|e es IH]; intros tx l Hh Hw Hn Hl Ht E; cbn [put_logs] in E.
  { injection E as <-. by rewrite app_nil_r. }
  apply Forall_cons in Ht as [Hte Ht]. destruct (b_Put _ _ _ _) as [tx1|] eqn:E1; [|done].
  destruct Hh as (Hst & b & Hb & Hlb). pose proof (bPut_law _ _ _ _ _ _ Hb E1) as Ev.
  assert (log_Index e = len l + 1) as Hi.
  { apply numbered_app in Hn as [_ Hn]. rewrite (Hn 0%nat e); [lia|done]. }
  assert (len l + 1 < MaxUint64) as Hm.
  { rewrite len_app, len_cons in Hl. pose proof (len_nonneg es). lia. }
  replace (l ++ e :: es) with ((l ++ [e]) ++ es) in * by (by rewrite <-app_assoc).
  apply (IH tx1); try done; [|by apply log_wf_snoc].
  split; [rewrite Ev, lookup_insert_ne; [done|apply buckets_differ]|].
  eexists. split; [rewrite Ev; apply lookup_insert_eq|]. by apply log_bucket_snoc.
Qed.

(** ** Deleting the end of the log *)

(** The bucket while the keys from [lo] on are being deleted, up to [i]. *)
Record partly_deleted (b : gmap bytes bytes) (l : list LogEntry) (lo i : Z) : Prop := {
  pd_entry : forall j e, entry_at l j = Some e -> j < lo \/ i <= j -> b !! uint64ToBytes j = Some (MarshalAs log_codec e);
  pd_key : forall k, is_Some (b !! k) -> exists j, 1 <= j <= len l /\ (j < lo \/ i <= j) /\ k = uint64ToBytes j
}.

Lemma partly_deleted_next b l lo i :
  len l < MaxUint64 -> 1 <= lo <= i -> i <= len l ->
  partly_deleted b l lo i -> partly_deleted (delete (uint64ToBytes i) b) l lo (i + 1).
Proof.
  intros Hl Hlo Hi [He Hk]. split.
  - intros j e E Hj. pose proof (entry_at_Some _ _ _ E). rewrite lookup_delete_ne.
    + apply (He _ _ E). lia.
    + intros Ek. apply PutUint64_inj in Ek; int_unfold; lia.
  - intros k [v [Hne E]%lookup_delete_Some]. destruct (Hk k) as (j & Hj & Hc & ->); [by eexists|].
    exists j. split; [done|]. split; [|done]. destruct (decide (j = i)) as [->|]; [done|lia].
Qed.

(** The key at the cursor while the loop is at [i]. *)
Definition at_index (l : list LogEntry) (i : Z) : option bytes :=
  if i <=? len l then Some (uint64ToBytes i) else None.

Lemma least_at_index b l lo i (P : bytes -> Prop) k :
  len l < MaxUint64 -> 1 <= lo <= i -> partly_deleted b l lo i ->
  (forall j, is_uint64 j -> P (uint64ToBytes j) <-> i <= j) -> least b P k -> k = at_index l i.
Proof.
  intros Hl Hlo [He Hk] HP Hleast. unfold at_index. destruct (Z.leb_spec i (len l)) as [Hi|Hi].
  - destruct (entry_at_in l i) as [e E]; [lia|].
    assert (is_Some (b !! uint64ToBytes i)) as Hs by (rewrite (He i e E) by lia; by eexists).
    destruct k as [k|]; simpl in Hleast.
    + destruct Hleast as (Hin & Hp & Hmin). destruct (Hk k Hin) as (j & Hj & _ & ->).
      apply HP in Hp; [|int_unfold; lia].
      specialize (Hmin _ Hs). rewrite HP in Hmin by (int_unfold; lia). specialize (Hmin ltac:(lia)).
      unfold uint64ToBytes in Hmin. rewrite str_leb_PutUint64 in Hmin by (int_unfold; lia).
      by replace j with i by lia.
    + destruct (Hleast _ Hs). apply HP; [int_unfold; lia|lia].
  - destruct k as [k|]; [|done]. simpl in Hleast. destruct Hleast as (Hin & Hp & _).
    destruct (Hk k Hin) as (j & Hj & Hc & ->). apply HP in Hp; [lia|int_unfold; lia].
Qed.

Lemma delete_from_ok `{!BoltResumes DB Tx Cursor} fuel tx c l m lo i b :
  (Z.to_nat (len l + 1 - i) < fuel)%nat -> len l < MaxUint64 -> 1 <= lo <= i -> i <= len l + 1 ->
  view tx !! bucketStable = Some m -> view tx !! bucketLog = Some b -> partly_deleted b l lo i ->
  (forall k, at_index l i = Some k -> cursor_at tx c bucketLog k) ->
  exists r, delete_from fuel tx c (at_index l i) (len l) = Ok r /\
    forall tx', r = inl tx' -> view tx' !! bucketStable = Some m /\
      exists b', view tx' !! bucketLog = Some b' /\ partly_deleted b' l lo (len l + 1).
Proof.
  revert tx c i b. induction fuel as [|fuel IH]; intros tx c i b Hf Hl Hlo Hi Hst Hb Hpd Hc; [lia|].
  cbn [delete_from]. unfold at_index in Hc |- *. destruct (Z.leb_spec i (len l)) as [Hle|Hgt].
  2: { exists (inl tx). split; [done|]. intros ? [= <-]. split; [done|]. exists b.
       by replace (len l + 1) with i by lia. }
  rewrite key_index by (int_unfold; lia). cbn [obind]. rewrite (proj2 (Z.ltb_ge _ _)) by done.
  specialize (Hc _ eq_refl). destruct (c_Delete tx c) as [[tx1 c1]|err] eqn:Ed; [|by eexists].
  pose proof (Delete_law _ _ _ _ _ _ _ Hb Hc Ed) as Ev.
  set (b1 := delete (uint64ToBytes i) b) in *.
  assert (view tx1 !! bucketLog = Some b1) as Hb1 by (rewrite Ev; apply lookup_insert_eq).
  assert (partly_deleted b1 l lo (i + 1)) as Hpd1 by (by apply partly_deleted_next).
  destruct (Resume_law _ _ _ _ _ _ _ Hb Hc Ed) as [Hleast Hcur]. fold b1 in Hleast.
  destruct (c_Next tx1 c1) as [c2 k] eqn:En. cbn [fst snd] in Hleast, Hcur.
  assert (k = at_index l (i + 1)) as ->.
  { eapply least_at_index; [done| |exact Hpd1| |exact Hleast]; [lia|]. intros j Hj. cbv beta.
    unfold uint64ToBytes. rewrite str_leb_PutUint64, Z.leb_le by (done || int_unfold; lia).
    split; [intros [? Hne]|]; [|intros; split; [lia|]].
    - destruct (decide (j = i)) as [->|]; [done|lia].
    - intros E. apply PutUint64_inj in E; int_unfold; lia. }
  apply (IH tx1 c2 (i + 1) b1); try done; try lia.
  rewrite Ev, lookup_insert_ne by apply buckets_differ. done.
Qed.

(** ** The promises *)

Implicit Types s : BoltStore DB Tx Cursor.

Definition bolt_repr s (l : list LogEntry) : Prop :=
  log_wf l /\ exists m, holds (buckets (bs_db s)) l m.

Definition bolt_stable s (m : gmap bytes bytes) : Prop := buckets (bs_db s) !! bucketStable = Some m.

(** An update commits the view of its function, or changes nothing. *)
Lemma Update_cases s f r :
  f (db_Begin (bs_db s)) = Ok r ->
  exists s' err, Update s f = Ok (s', err) /\
    match err with
    | None => exists tx, r = inl tx /\ buckets (bs_db s') = view tx
    | Some _ => s' = s
    end.
Proof.
  intros E. unfold Update. rewrite E. cbn [obind]. destruct r as [tx|e]; [|by eexists _, _].
  destruct (db_Commit _ tx) as [db'|e] eqn:Ec; [|by eexists _, _].
  eexists _, None. split; [done|]. exists tx. split; [done|]. by apply (Commit_law (bs_db s)).
Qed.

Lemma bolt_view s l :
  bolt_repr s l -> exists b, view (db_Begin (bs_db s)) !! bucketLog = Some b /\ log_bucket b l.
Proof. intros (_ & m & _ & b & Hb & Hlb). exists b. by rewrite Begin_law. Qed.

Lemma bolt_FirstIndex s l :
  bolt_repr s l -> FirstIndex s = Ok (match l with [] => 0 | _ => 1 end, None).
Proof.
  intros Hr. pose proof Hr as [[_ Hsm _] _]. destruct (bolt_view s l Hr) as (b & Hb & Hlb).
  destruct (First_law _ _ _ Hb) as [Hl _]. unfold FirstIndex, View.
  destruct (c_First _ _).2 as [k|]; cbn [least index_of_key] in *.
  - destruct Hl as (Hk & _ & Hmin). destruct (lb_key _ _ Hlb k Hk) as (i & Hi & ->).
    rewrite key_index by (int_unfold; lia). cbn [obind].
    destruct l as [|e l]; [change (len []) with 0 in Hi; lia|]. do 2 f_equal.
    assert (is_Some (b !! uint64ToBytes 1)) as H1 by (apply (log_bucket_some b (e :: l)); [done|lia]).
    specialize (Hmin _ H1 I). unfold uint64ToBytes in Hmin. rewrite str_leb_PutUint64 in Hmin by (int_unfold; lia). lia.
  - destruct l as [|e l]; [done|]. destruct (Hl (uint64ToBytes 1)); [|done].
    apply (log_bucket_some b (e :: l)); [done|]. rewrite len_cons. pose proof (len_nonneg l). lia.
Qed.

Lemma bolt_LastIndex s l : bolt_repr s l -> LastIndex s = Ok (len l, None).
Proof.
  intros Hr. pose proof Hr as [[_ Hsm _] _]. destruct (bolt_view s l Hr) as (b & Hb & Hlb).
  pose proof (Last_law _ _ _ Hb) as Hl. pose proof (len_nonneg l). unfold LastIndex, View.
  destruct (c_Last _ _).2 as [k|]; cbn [greatest index_of_key] in *.
  - destruct Hl as (Hk & Hmax). destruct (lb_key _ _ Hlb k Hk) as (i & Hi & ->).
    rewrite key_index by (int_unfold; lia). cbn [obind]. do 2 f_equal.
    specialize (Hmax _ (log_bucket_some b l (len l) Hlb ltac:(lia))).
    unfold uint64ToBytes in Hmax. rewrite str_leb_PutUint64 in Hmax by (int_unfold; lia). lia.
  - destruct (decide (len l = 0)) as [->|Hne]; [done|].
    destruct (log_bucket_some b l (len l) Hlb) as [v Hv]; [lia|]. by rewrite Hl, lookup_empty in Hv.
Qed.

Lemma bolt_GetLog_hit s l i e :
  bolt_repr s l -> entry_at l i = Some e -> GetLog s i = Ok (Some e, None).
Proof.
  intros Hr E. destruct (bolt_view s l Hr) as (b & Hb & Hlb). unfold GetLog, View.
  rewrite (bGet_law _ _ _ _ Hb), (lb_entry _ _ Hlb _ _ E), log_decodes; [done|].
  destruct Hr as [Hw _]. by eapply entry_good_at.
Qed.

Lemma bolt_GetLog_miss s l i :
  bolt_repr s l -> is_uint64 i -> entry_at l i = None -> exists p err, GetLog s i = Ok (p, Some err).
Proof.
  intros Hr Hi E. pose proof Hr as [[_ Hsm _] _]. destruct (bolt_view s l Hr) as (b & Hb & Hlb).
  unfold GetLog, View. rewrite (bGet_law _ _ _ _ Hb), (log_bucket_none b l) by done. by eexists _, _.
Qed.

Lemma bolt_StoreLogs s l es :
  bolt_repr s l -> numbered (l ++ es) -> len (l ++ es) < MaxUint64 -> terms_ok es ->
  exists s' err, StoreLogs s es = Ok (s', err) /\
    bolt_repr s' (match err with None => l ++ es | Some _ => l end) /\
    (forall m, bolt_stable s m -> bolt_stable s' m).
Proof.
  intros Hr Hn Hl Ht. pose proof Hr as [Hw (m0 & Hh)].
  destruct (Update_cases s (fun tx => Ok (put_logs tx es)) _ eq_refl) as (s' & err & E & Hc).
  exists s', err. split; [done|]. destruct err as [err|]; [by subst s'|].
  destruct Hc as (tx & Hp & Ev). rewrite <-Begin_law in Hh.
  destruct (put_logs_ok _ l m0 es tx Hh Hw Hn Hl Ht Hp) as [Hh' Hw'].
  split; [split; [done|]; exists m0; by rewrite Ev|].
  intros m Hm. unfold bolt_stable in *. destruct Hh as [Hst _]. destruct Hh' as [Hst' _].
  rewrite Begin_law, Hm in Hst. injection Hst as ->. by rewrite Ev.
Qed.

Lemma bolt_DeleteRange `{!BoltResumes DB Tx Cursor} s l lo :
  bolt_repr s l -> 1 <= lo <= len l ->
  exists s' err, DeleteRange s lo (len l) = Ok (s', err) /\
    bolt_repr s' (match err with None => take (Z.to_nat (lo - 1)) l | Some _ => l end) /\
    (forall m, bolt_stable s m -> bolt_stable s' m).
Proof.
  intros Hr Hlo. pose proof Hr as [Hw (m0 & Hst & b & Hb & Hlb)]. pose proof Hw as [Hn Hsm Ht].
  rewrite <-Begin_law in Hst, Hb. set (tx0 := db_Begin (bs_db s)) in *.
  assert (partly_deleted b l lo lo) as Hpd.
  { split; [intros; by apply (lb_entry _ _ Hlb)|]. intros k Hk.
    destruct (lb_key _ _ Hlb k Hk) as (j & Hj & ->). exists j. split; [done|]. split; [lia|done]. }
  destruct (Seek_law tx0 bucketLog b (uint64ToBytes lo) Hb) as [Hleast Hcur].
  destruct (c_Seek tx0 bucketLog (uint64ToBytes lo)) as [c k] eqn:Es. cbn [fst snd] in Hleast, Hcur.
  assert (k = at_index l lo) as ->.
  { eapply least_at_index; [done| |exact Hpd| |exact Hleast]; [lia|]. intros j Hj. cbv beta.
    unfold uint64ToBytes. rewrite str_leb_PutUint64, Z.leb_le by (done || int_unfold; lia). done. }
  destruct (delete_from_ok (Datatypes.S (Datatypes.S (Z.to_nat (len l - lo)))) tx0 c l m0 lo lo b)
    as (r & Er & Hres); try done; try lia.
  destruct (Update_cases s (fun tx => let (c, k) := c_Seek tx bucketLog (uint64ToBytes lo) in
      delete_from (Datatypes.S (Datatypes.S (Z.to_nat (len l - lo)))) tx c k (len l)) r) as (s' & err & E & Hc).
  { fold tx0. by rewrite Es. }
  exists s', err. split; [exact E|]. destruct err as [err|]; [by subst s'|].
  destruct Hc as (tx & -> & Ev). destruct (Hres tx eq_refl) as (Hst' & b' & Hb' & Hpd').
  set (l' := take (Z.to_nat (lo - 1)) l). assert (len l' = lo - 1) as Hlen by (apply len_take; lia).
  split; [split|].
  - split; [by apply numbered_take|lia|by apply terms_take].
  - exists m0. rewrite Ev. split; [done|]. exists b'. split; [done|]. split.
    + intros i e Ei. pose proof (entry_at_Some _ _ _ Ei). apply (pd_entry _ _ _ _ Hpd'); [|lia].
      unfold l' in Ei. by rewrite entry_at_take in Ei by lia.
    + intros k Hk. destruct (pd_key _ _ _ _ Hpd' k Hk) as (j & Hj & Hd & ->). exists j. split; [lia|done].
  - intros m Hm. unfold bolt_stable, tx0 in *. rewrite Begin_law, Hm in Hst. injection Hst as ->. by rewrite Ev.
Qed.

Lemma bolt_Set s m k v :
  bolt_stable s m ->
  exists s' err, Set_ s k v = Ok (s', err) /\
    bolt_stable s' (match err with None => <[k := v]> m | Some _ => m end) /\
    (forall l, bolt_repr s l -> bolt_repr s' l).
Proof.
  intros Hm. destruct (Update_cases s (fun tx => Ok (b_Put tx bucketStable k v)) _ eq_refl) as (s' & err & E & Hc).
  exists s', err. split; [done|]. destruct err as [err|]; [by subst s'|].
  destruct Hc as (tx & Hp & Ev). unfold bolt_stable in *. rewrite <-Begin_law in Hm.
  pose proof (bPut_law _ _ _ _ _ _ Hm Hp) as Hv. split; [by rewrite Ev, Hv, lookup_insert_eq|].
  intros l [Hw (m0 & _ & b & Hb & Hlb)]. split; [done|]. eexists. split.
  - rewrite Ev, Hv. apply lookup_insert_eq.
  - exists b. split; [|done]. pose proof buckets_differ.
    by rewrite Ev, Hv, lookup_insert_ne, Begin_law by done.
Qed.

Lemma bolt_Get s m k : bolt_stable s m -> Get s k = Ok (default [] (m !! k), None).
Proof.
  intros Hm. unfold bolt_stable in Hm. rewrite <-Begin_law in Hm.
  unfold Get, View. by rewrite (bGet_law _ _ _ _ Hm).
Qed.

#[export] Program Instance BoltStore_log_laws : LogStoreLaws (BoltStore DB Tx Cursor) := {
  log_repr := bolt_repr
}.
Next Obligation. by intros s l [[] _]. Qed.
Next Obligation. by intros s l [[] _]. Qed.
Next Obligation. by intros s l [[] _]. Qed.
Next Obligation. apply bolt_FirstIndex. Qed.
Next Obligation. apply bolt_LastIndex. Qed.
Next Obligation. apply bolt_GetLog_hit. Qed.
Next Obligation. apply bolt_GetLog_miss. Qed.
Next Obligation.
  intros s l es Hr Hn Hl Ht. destruct (bolt_StoreLogs s l es Hr Hn Hl Ht) as (s' & err & ? & ? & _). eauto.
Qed.
Next Obligation. done. Qed.

#[export] Instance BoltStore_truncates `{!BoltResumes DB Tx Cursor} : LogStoreTruncates (BoltStore DB Tx Cursor).
Proof. intros s l lo Hr Hlo. destruct (bolt_DeleteRange s l lo Hr Hlo) as (s' & err & ? & ? & _). eauto. Qed.

#[export] Program Instance BoltStore_stable_laws : StableStoreLaws (BoltStore DB Tx Cursor) := {
  stable_repr := bolt_stable
}.
Next Obligation. intros s m k v Hm. destruct (bolt_Set s m k v Hm) as (s' & err & ? & ? & _). eauto. Qed.
Next Obligation. apply bolt_Get. Qed.
Next Obligation. done. Qed.
Next Obligation. intros s m k Hm E. simpl. unfold GetUint64. by rewrite (bolt_Get s m), E. Qed.
Next Obligation.
  intros s m k v Hm Hv E. simpl. unfold GetUint64. rewrite (bolt_Get s m), E by done. cbn [obind default from_option]. unfold id.
  change (len (PutUint64 v)) with 8. cbn [Z.eqb Pos.eqb negb].
  change (PutUint64 v) with (uint64ToBytes v). by rewrite key_index.
Qed.

(** ** Opening again *)

Lemma view_create (v : gmap bytes (gmap bytes bytes)) (b : bytes) : is_Some (v !! b) ->
  match v !! b with Some _ => v | None => <[b := ∅ : gmap bytes bytes]> v end = v.
Proof. by intros [x ->]. Qed.

(** Opening the database again. *)
Lemma bolt_reopen s l m s' :
  bolt_repr s l -> bolt_stable s m -> NewBoltStore (bs_db s) = Ok (inl s') ->
  bolt_repr s' l /\ bolt_stable s' m.
Proof.
  intros Hr Hm E. unfold NewBoltStore in E. apply obind_Ok in E as ([s1 err] & E & Es).
  destruct err as [err|]; [done|]. injection Es as ->.
  destruct Hr as [Hw (m0 & Hst & b & Hb & Hlb)]. rewrite <-Begin_law in Hst, Hb.
  unfold bolt_stable in Hm. rewrite <-Begin_law, Hst in Hm. injection Hm as ->.
  unfold Update in E. cbn [bs_db] in E. set (tx0 := db_Begin (bs_db s)) in *.
  destruct (tx_CreateBucketIfNotExists tx0 bucketLog) as [tx1|] eqn:E1; [|done]. cbn [obind] in E.
  destruct (tx_CreateBucketIfNotExists tx1 bucketStable) as [tx2|] eqn:E2; [|done].
  destruct (db_Commit (bs_db s) tx2) as [db'|] eqn:E3; [|done]. injection E as <-.
  apply Create_law in E1, E2. rewrite view_create in E1 by (by eexists).
  rewrite view_create in E2 by (rewrite E1; by eexists). apply Commit_law in E3. cbn [bs_db].
  unfold bolt_repr, bolt_stable, holds. cbn [bs_db]. rewrite E3, E2, E1. eauto 10.
Qed.

(** ** Theorems *)

(** C22: the bbolt store refines the abstract stores.  On a store that holds a
    log and a map: reading gives what they hold; an append to the log and a
    write of a key do what they should or report an error and change nothing,
    and touch only their own half; and what was written is found again when
    the database is opened by another store. *)
Theorem bolt_refines s l m :
  bolt_repr s l -> bolt_stable s m ->
  (forall i, is_uint64 i -> exists p err, GetLog s i = Ok (p, err) /\
     match entry_at l i with Some e => p = Some e /\ err = None | None => err <> None end) /\
  (LastIndex s = Ok (len l, None) /\ forall k, Get s k = Ok (default [] (m !! k), None)) /\
  (forall es, numbered (l ++ es) -> len (l ++ es) < MaxUint64 -> terms_ok es ->
     exists s' err, StoreLogs s es = Ok (s', err) /\ bolt_stable s' m /\
       bolt_repr s' (match err with None => l ++ es | Some _ => l end)) /\
  (forall k v, exists s' err, Set_ s k v = Ok (s', err) /\ bolt_repr s' l /\
     bolt_stable s' (match err with None => <[k := v]> m | Some _ => m end)) /\
  (forall s', NewBoltStore (bs_db s) = Ok (inl s') -> bolt_repr s' l /\ bolt_stable s' m).
Proof.
  intros Hr Hm. split_and!.
  - intros i Hi. destruct (entry_at l i) as [e|] eqn:E.
    + exists (Some e), None. by rewrite (bolt_GetLog_hit s l i e).
    + destruct (bolt_GetLog_miss s l i Hr Hi E) as (p & err & ->). exists p, (Some err). by split.
  - by apply bolt_LastIndex.
  - intros k. by apply bolt_Get.
  - intros es Hn Hl Ht. destruct (bolt_StoreLogs s l es Hr Hn Hl Ht) as (s' & err & ? & ? & ?). eauto 6.
  - intros k v. destruct (bolt_Set s m k v Hm) as (s' & err & ? & ? & ?). eauto 6.
  - intros s' E. by eapply bolt_reopen.
Qed.

(** Truncation, on a database whose cursors go on after a deletion. *)
Theorem bolt_truncates `{!BoltResumes DB Tx Cursor} s l m lo :
  bolt_repr s l -> bolt_stable s m -> 1 <= lo <= len l ->
  exists s' err, DeleteRange s lo (len l) = Ok (s', err) /\ bolt_stable s' m /\
    bolt_repr s' (match err with None => take (Z.to_nat (lo - 1)) l | Some _ => l end).
Proof. intros Hr Hm Hlo. destruct (bolt_DeleteRange s l lo Hr Hlo) as (s' & err & ? & ? & ?). eauto 6. Qed.

(** A new database. *)
Lemma bolt_new db s :
  buckets db = ∅ -> NewBoltStore db = Ok (inl s) -> bolt_repr s [] /\ bolt_stable s ∅.
Proof.
  intros Hdb E. unfold NewBoltStore in E. apply obind_Ok in E as ([s1 err] & E & Es).
  destruct err as [err|]; [done|]. injection Es as ->. unfold Update in E. cbn [bs_db] in E.
  destruct (tx_CreateBucketIfNotExists (db_Begin db) bucketLog) as [tx1|] eqn:E1; [|done]. cbn [obind] in E.
  destruct (tx_CreateBucketIfNotExists tx1 bucketStable) as [tx2|] eqn:E2; [|done].
  destruct (db_Commit db tx2) as [db'|] eqn:E3; [|done]. injection E as <-.
  apply Create_law in E1, E2. rewrite Begin_law, Hdb, lookup_empty in E1.
  rewrite E1, lookup_insert_ne, lookup_empty in E2 by apply buckets_differ. apply Commit_law in E3.
  unfold bolt_repr, bolt_stable, holds. cbn [bs_db]. rewrite E3, E2, lookup_insert_eq.
  pose proof buckets_differ. split; [|done]. split; [split; [apply numbered_nil|done|constructor]|].
  exists ∅. split; [done|]. exists ∅. split; [by rewrite lookup_insert_ne, lookup_insert_eq|]. split.
  - intros i e Ei. apply entry_at_Some in Ei. change (len []) with 0 in Ei. lia.
  - intros k [v Hv]. by rewrite lookup_empty in Hv.
Qed.

End Laws.

(** ** A database in memory

    That the laws can hold: a database is its buckets, a transaction a copy,
    a cursor a bucket and a key. *)

Module Mem.

Abbreviation db := (gmap bytes (gmap bytes bytes)).

Definition key_le (a b : bytes) : Prop := str_leb a b = true.
#[export] Instance key_le_dec : RelDecision key_le.
Proof. intros a b. unfold key_le. apply _. Defined.

Definition bucket (d : db) (b : bytes) : gmap bytes bytes := default ∅ (d !! b).

Definition keys (m : gmap bytes bytes) : list bytes := merge_sort key_le (map fst (map_to_list m)).

Definition from (P : bytes -> Prop) `{!forall k, Decision (P k)} (m : gmap bytes bytes) : option bytes :=
  head (filter P (keys m)).

#[export] Instance Mem_bolt : Bolt db db (bytes * bytes) := {
  db_Begin d := d;
  db_Commit _ tx := inl tx;
  tx_CreateBucketIfNotExists tx b := inl (match tx !! b with Some _ => tx | None => <[b := ∅]> tx end);
  b_Get tx b k := bucket tx b !! k;
  b_Put tx b k v := inl (<[b := <[k := v]> (bucket tx b)]> tx);
  c_First tx b := let k := from (fun _ => True) (bucket tx b) in ((b, default [] k), k);
  c_Last tx b := let k := last (keys (bucket tx b)) in ((b, default [] k), k);
  c_Seek tx b k0 := let k := from (key_le k0) (bucket tx b) in ((b, default [] k), k);
  c_Next tx c := let k := from (fun k => key_le c.2 k /\ k <> c.2) (bucket tx c.1) in ((c.1, default [] k), k);
  c_Delete tx c := inl (<[c.1 := delete c.2 (bucket tx c.1)]> tx, c)
}.

Lemma key_le_trans : Transitive key_le.
Proof.
  intros a. unfold key_le. induction a as [|x a IH]; intros [|y b] [|z c]; try done.
  rewrite !str_leb_cons.
  destruct (N.compare_spec (Byte.to_N x) (Byte.to_N y)), (N.compare_spec (Byte.to_N y) (Byte.to_N z)),
    (N.compare_spec (Byte.to_N x) (Byte.to_N z)); try done; try lia. by apply IH.
Qed.

Lemma key_le_total : Total key_le.
Proof. intros a b. unfold key_le. destruct (str_leb a b) eqn:E; [by left|right]. by apply str_leb_total. Qed.

Lemma keys_sorted m : StronglySorted key_le (keys m).
Proof. apply StronglySorted_merge_sort; [apply key_le_trans|apply key_le_total]. Qed.

Lemma keys_in m k : k ∈ keys m <-> is_Some (m !! k).
Proof.
  unfold keys. rewrite merge_sort_Permutation, list_elem_of_fmap. split.
  - intros ([k' v] & -> & H%elem_of_map_to_list). by eexists.
  - intros [v H%elem_of_map_to_list]. by exists (k, v).
Qed.

Lemma head_filter_sorted (P : bytes -> Prop) `{!forall k, Decision (P k)} l :
  StronglySorted key_le l ->
  match head (filter P l) with
  | Some k => k ∈ l /\ P k /\ forall k', k' ∈ l -> P k' -> key_le k k'
  | None => forall k', k' ∈ l -> ~ P k'
  end.
Proof.
  induction 1 as [|x l Hs IH Hall]; [by intros k' ?%elem_of_nil|]. rewrite Forall_forall in Hall.
  destruct (decide (P x)) as [Hp|Hp].
  - rewrite filter_cons_True by done. simpl. split; [left|]. split; [done|].
    intros k' [->|Hk]%elem_of_cons _; [apply str_leb_refl|by apply Hall].
  - rewrite filter_cons_False by done. destruct (head (filter P l)) as [k|].
    + destruct IH as (Hk & Hpk & Hmin). split; [by right|]. split; [done|].
      intros k' [->|Hk']%elem_of_cons; [done|by apply Hmin].
    + intros k' [->|Hk']%elem_of_cons; [done|by apply IH].
Qed.

Lemma from_least (P : bytes -> Prop) `{!forall k, Decision (P k)} m : least m P (from P m).
Proof.
  unfold from. pose proof (head_filter_sorted P (keys m) (keys_sorted m)) as Hf.
  destruct (head (filter P (keys m))) as [k|]; simpl.
  - destruct Hf as (Hk & Hp & Hmin). split; [by apply keys_in|]. split; [done|].
    intros k' Hk'. by apply Hmin, keys_in.
  - intros k' Hk'. by apply Hf, keys_in.
Qed.

Lemma last_greatest m : greatest m (last (keys m)).
Proof.
  assert (forall k, is_Some (m !! k) -> k ∈ keys m) as Hin by (intros; by apply keys_in).
  destruct (last (keys m)) as [k|] eqn:E; simpl.
  - split; [apply keys_in, last_Some_elem_of, E|]. intros k' Hk'%Hin.
    apply last_Some in E as [l' E]. pose proof (keys_sorted m) as Hs. rewrite E in Hk', Hs.
    apply elem_of_app in Hk' as [Hk'|Hk'].
    + apply StronglySorted_app_1_elem_of with (2 := Hk') (x2 := k) in Hs; [done|left].
    + apply list_elem_of_singleton in Hk' as ->. apply str_leb_refl.
  - apply last_None in E. apply map_eq. intros k. rewrite lookup_empty. destruct (m !! k) eqn:Ek; [|done].
    assert (k ∈ keys m) as H by (apply Hin; by eexists). rewrite E in H. by apply elem_of_nil in H.
Qed.

#[export] Program Instance Mem_laws : BoltLaws db db (bytes * bytes) := {
  buckets d := d;
  view d := d;
  cursor_at _ c b k := c = (b, k)
}.
Next Obligation. done. Qed.
Next Obligation. by intros d tx d' [= <-]. Qed.
Next Obligation. by intros tx b tx' [= <-]. Qed.
Next Obligation. intros tx b m k E. simpl. unfold bucket. by rewrite E. Qed.
Next Obligation. intros tx b m k v tx' E [= <-]. unfold bucket. by rewrite E. Qed.
Next Obligation.
  intros tx b m E. simpl. unfold bucket. rewrite E. simpl. split; [apply from_least|]. by intros k ->.
Qed.
Next Obligation. intros tx b m E. simpl. unfold bucket. rewrite E. apply last_greatest. Qed.
Next Obligation.
  intros tx b m k0 E. simpl. unfold bucket. rewrite E. simpl. split; [apply from_least|]. by intros k ->.
Qed.
Next Obligation.
  intros tx c b m k0 E ->. simpl. unfold bucket. rewrite E. simpl. split; [apply from_least|]. by intros k ->.
Qed.
Next Obligation.
  intros tx c b m k tx' c' E -> [= <- <-]. simpl. unfold bucket. by rewrite E.
Qed.

#[export] Instance Mem_resumes : BoltResumes db db (bytes * bytes).
Proof.
  intros tx c b m k tx' c' E -> [= <- <-]. simpl in *.
  assert (bucket (<[b := delete k (bucket tx b)]> tx) b = delete k m) as Hb by (unfold bucket; by rewrite lookup_insert_eq, E).
  rewrite !Hb. split; [apply from_least|]. by intros k' ->.
Qed.

(** It grants every write. *)
Lemma put_logs_granted (tx : db) es err : put_logs (Cursor := bytes * bytes) tx es <> inr err.
Proof. revert tx. induction es as [|e es IH]; intros tx; cbn [put_logs]; [done|]. apply IH. Qed.

Lemma delete_from_granted (fuel : nat) (tx : db) (c : bytes * bytes) (k : option bytes) (max : Z) (err : error) :
  delete_from fuel tx c k max <> Ok (inr err).
Proof.
  revert tx c k. induction fuel as [|fuel IH]; intros tx c k; cbn [delete_from]; [done|].
  destruct k as [k|]; [|done]. destruct (bytesToUint64 k) as [i| | |]; cbn [obind]; try done.
  destruct (_ <? _); [done|]. cbn [c_Delete Mem_bolt]. destruct (c_Next (Tx := db) _ _). apply IH.
Qed.

#[export] Instance Mem_log_reliable : LogStoreReliable (BoltStore db db (bytes * bytes)).
Proof.
  split.
  - intros s l es s' err _ _ _ _. simpl. unfold StoreLogs, Update. cbn [obind].
    destruct (put_logs _ _) as [tx|e] eqn:E; [by intros [= _ <-]|by apply put_logs_granted in E].
  - intros s l lo s' err _ _. simpl. unfold DeleteRange, Update. destruct (c_Seek _ _ _) as [c k].
    destruct (delete_from _ _ _ _ _) as [[tx|e]| | |] eqn:E; cbn [obind]; try done; [by intros [= _ <-]|].
    by apply delete_from_granted in E.
Qed.

#[export] Instance Mem_stable_reliable : StableStoreReliable (BoltStore db db (bytes * bytes)).
Proof. intros s m k v _. by eexists. Qed.

(** A store with a log of two entries and a vote. *)
Definition wit_log : list LogEntry := [mkLog 1 1 []; mkLog 2 1 (str "x")].

Definition wit_store : BoltStore db db (bytes * bytes) :=
  match NewBoltStore (∅ : db) with
  | Ok (inl s) =>
      match StoreLogs s wit_log with
      | Ok (s, _) => match Set_ s KeyVotedFor (str "a:1") with Ok (s, _) => s | _ => s end
      | _ => s
      end
  | _ => mkBolt ∅
  end.

Lemma wit_store_ok : bolt_repr wit_store wit_log /\ bolt_stable wit_store {[KeyVotedFor := str "a:1"]}.
Proof.
  unfold wit_store. destruct (NewBoltStore (∅ : db)) as [[s|]|[]| |] eqn:E; try done.
  destruct (bolt_new (∅ : db) s) as [Hr Hm]; [reflexivity|exact E|].
  destruct (bolt_StoreLogs s [] wit_log Hr) as (s1 & err1 & E1 & Hr1 & Hk1).
  { intros [|[|i]] e Hi; simpl in Hi; [injection Hi as <-|injection Hi as <-|done]; reflexivity. }
  { reflexivity. }
  { repeat (apply Forall_cons_2; [vm_compute; split; discriminate|]). apply Forall_nil_2. }
  injection E as <-. rewrite E1. injection E1 as Es1 <-.
  destruct (bolt_Set s1 ∅ KeyVotedFor (str "a:1") (Hk1 _ Hm)) as (s2 & err2 & E2 & Hm2 & Hk2).
  rewrite E2. injection E2 as Es2 <-. split; [by apply Hk2|exact Hm2].
Qed.

Lemma bolt_refines_witness :
  exists s' err, StoreLogs wit_store [mkLog 3 2 (str "y")] = Ok (s', err) /\
    bolt_stable s' {[KeyVotedFor := str "a:1"]} /\
    bolt_repr s' (match err with None => wit_log ++ [mkLog 3 2 (str "y")] | Some _ => wit_log end).
Proof.
  destruct wit_store_ok as [Hr Hm].
  destruct (bolt_refines wit_store wit_log {[KeyVotedFor := str "a:1"]} Hr Hm) as (_ & _ & Happ & _).
  apply (Happ [mkLog 3 2 (str "y")]).
  - intros [|[|[|i]]] e Hi; simpl in Hi; [injection Hi as <-|injection Hi as <-|injection Hi as <-|done]; reflexivity.
  - reflexivity.
  - repeat (apply Forall_cons_2; [vm_compute; split; discriminate|]). apply Forall_nil_2.
Defined.

Lemma bolt_truncates_witness :
  exists s' err, DeleteRange wit_store 2 2 = Ok (s', err) /\ bolt_stable s' {[KeyVotedFor := str "a:1"]} /\
    bolt_repr s' (match err with None => [mkLog 1 1 []] | Some _ => wit_log end).
Proof.
  destruct wit_store_ok as [Hr Hm].
  apply (bolt_truncates wit_store wit_log {[KeyVotedFor := str "a:1"]} 2 Hr Hm). vm_compute. split; discriminate.
Defined.

End Mem.

(** ** A database that forgets where its cursor was

    The same, but a cursor that has deleted its key is at no key, and has no
    next one, until it is positioned again: the documentation allows this. *)

Module Forgetful.

Import Mem.

#[export] Instance Forgetful_bolt : Bolt db db (option (bytes * bytes)) := {
  db_Begin d := d;
  db_Commit _ tx := inl tx;
  tx_CreateBucketIfNotExists tx b := inl (match tx !! b with Some _ => tx | None => <[b := ∅]> tx end);
  b_Get tx b k := bucket tx b !! k;
  b_Put tx b k v := inl (<[b := <[k := v]> (bucket tx b)]> tx);
  c_First tx b := let k := from (fun _ => True) (bucket tx b) in (pair b <$> k, k);
  c_Last tx b := let k := last (keys (bucket tx b)) in (pair b <$> k, k);
  c_Seek tx b k0 := let k := from (key_le k0) (bucket tx b) in (pair b <$> k, k);
  c_Next tx c :=
    match c with
    | Some (b, k0) => let k := from (fun k => key_le k0 k /\ k <> k0) (bucket tx b) in (pair b <$> k, k)
    | None => (None, None)
    end;
  c_Delete tx c :=
    match c with
    | Some (b, k) => inl (<[b := delete k (bucket tx b)]> tx, None)
    | None => inl (tx, None)
    end
}.

#[export] Program Instance Forgetful_laws : BoltLaws db db (option (bytes * bytes)) := {
  buckets d := d;
  view d := d;
  cursor_at _ c b k := c = Some (b, k)
}.
Next Obligation. done. Qed.
Next Obligation. by intros d tx d' [= <-]. Qed.
Next Obligation. by intros tx b tx' [= <-]. Qed.
Next Obligation. intros tx b m k E. simpl. unfold bucket. by rewrite E. Qed.
Next Obligation. intros tx b m k v tx' E [= <-]. unfold bucket. by rewrite E. Qed.
Next Obligation.
  intros tx b m E. simpl. unfold bucket. rewrite E. simpl. split; [apply from_least|]. by intros k ->.
Qed.
Next Obligation. intros tx b m E. simpl. unfold bucket. rewrite E. apply last_greatest. Qed.
Next Obligation.
  intros tx b m k0 E. simpl. unfold bucket. rewrite E. simpl. split; [apply from_least|]. by intros k ->.
Qed.
Next Obligation.
  intros tx c b m k0 E ->. simpl. unfold bucket. rewrite E. simpl. split; [apply from_least|]. by intros k ->.
Qed.
Next Obligation. intros tx c b m k tx' c' E -> [= <- <-]. simpl. unfold bucket. by rewrite E. Qed.

(** A log of three entries. *)
Definition three : BoltStore db db (option (bytes * bytes)) :=
  match NewBoltStore (∅ : db) with
  | Ok (inl s) =>
      match StoreLogs s [mkLog 1 1 []; mkLog 2 1 (str "x"); mkLog 3 1 (str "y")] with Ok (s, _) => s | _ => s end
  | _ => mkBolt ∅
  end.

(** Truncation relies on more than the documentation.  On a database that does
    all that is documented, cutting the last two of three entries off reports
    no error, deletes the second and leaves the third. *)
Theorem truncation_leaves_entries :
  match DeleteRange three 2 3 with
  | Ok (s, err) =>
      err = None /\ LastIndex s = Ok (3, None) /\
      GetLog s 2 = Ok (Some (mkLog 0 0 []), Some ErrLogNotFound) /\ GetLog s 3 = Ok (Some (mkLog 3 1 (str "y")), None)
  | _ => False
  end.
Proof. vm_compute. auto. Qed.

End Forgetful.
