(* ===== verification/Node.v ===== *)
(** * Raft: the node ([internal/raft/raft.go], state and helpers)

    [RaftNode], the setters the handlers are written with, the persistent
    state ([persistState], [restoreState]), [NewRaftNode], [stepDown] and
    [lastLogInfo].  Every critical section of the code runs under [r.mu], so a
    handler is a function from node to node; the later Raft files follow the
    same convention. *)

From S2P Require Import Prelude Binary Store RaftTypes.

(** ** Data *)

(** Replication state of a peer; [ps_triggerCh] is a channel of capacity one. *)
Record peerState : Type := mkPeerState {
  ps_id : bytes;
  ps_addr : bytes;
  nextIndex : Z;
  matchIndex : Z;
  ps_triggerCh : bool
}.

(** [peers] and [pendingFutures] hold pointers: positions in [heap] and
    [futures].  A replicator keeps its pointer when [peers] is replaced. *)
Record RaftNode (L S F R : Type) : Type := mkNode {
  config : Config L S F;
  currentTerm : Z;
  votedFor : bytes;
  logStore : L;
  stableStore : S;
  state : ServerState;
  commitIndex : Z;
  lastApplied : Z;
  peers : gmap bytes nat;
  heap : list peerState;
  leaderID : bytes;
  leaderAddr : bytes;
  fsm : F;
  pendingFutures : gmap Z nat;
  futures : list (ApplyFuture R);
  applyCh : list applyRequest;
  commitNotifyCh : bool;
  shutdownCh : bool
}.
Arguments mkNode {L S F R}.
Arguments config {L S F R}.
Arguments currentTerm {L S F R}.
Arguments votedFor {L S F R}.
Arguments logStore {L S F R}.
Arguments stableStore {L S F R}.
Arguments state {L S F R}.
Arguments commitIndex {L S F R}.
Arguments lastApplied {L S F R}.
Arguments peers {L S F R}.
Arguments heap {L S F R}.
Arguments leaderID {L S F R}.
Arguments leaderAddr {L S F R}.
Arguments fsm {L S F R}.
Arguments pendingFutures {L S F R}.
Arguments futures {L S F R}.
Arguments applyCh {L S F R}.
Arguments commitNotifyCh {L S F R}.
Arguments shutdownCh {L S F R}.

(** ** Assignments to fields *)

Section Setters.
Context {L S F R : Type}.
Implicit Types r : RaftNode L S F R.

Definition set_vote r (term : Z) (vote : bytes) : RaftNode L S F R :=
  mkNode (config r) term vote (logStore r) (stableStore r) (state r) (commitIndex r)
    (lastApplied r) (peers r) (heap r) (leaderID r) (leaderAddr r) (fsm r) (pendingFutures r)
    (futures r) (applyCh r) (commitNotifyCh r) (shutdownCh r).
Definition set_log r (l : L) : RaftNode L S F R :=
  mkNode (config r) (currentTerm r) (votedFor r) l (stableStore r) (state r) (commitIndex r)
    (lastApplied r) (peers r) (heap r) (leaderID r) (leaderAddr r) (fsm r) (pendingFutures r)
    (futures r) (applyCh r) (commitNotifyCh r) (shutdownCh r).
Definition set_stable r (s : S) : RaftNode L S F R :=
  mkNode (config r) (currentTerm r) (votedFor r) (logStore r) s (state r) (commitIndex r)
    (lastApplied r) (peers r) (heap r) (leaderID r) (leaderAddr r) (fsm r) (pendingFutures r)
    (futures r) (applyCh r) (commitNotifyCh r) (shutdownCh r).
Definition set_state r (st : ServerState) : RaftNode L S F R :=
  mkNode (config r) (currentTerm r) (votedFor r) (logStore r) (stableStore r) st
    (commitIndex r) (lastApplied r) (peers r) (heap r) (leaderID r) (leaderAddr r) (fsm r)
    (pendingFutures r) (futures r) (applyCh r) (commitNotifyCh r) (shutdownCh r).
Definition set_commit r (ci : Z) : RaftNode L S F R :=
  mkNode (config r) (currentTerm r) (votedFor r) (logStore r) (stableStore r) (state r) ci
    (lastApplied r) (peers r) (heap r) (leaderID r) (leaderAddr r) (fsm r) (pendingFutures r)
    (futures r) (applyCh r) (commitNotifyCh r) (shutdownCh r).
Definition set_applied r (la : Z) (f : F) : RaftNode L S F R :=
  mkNode (config r) (currentTerm r) (votedFor r) (logStore r) (stableStore r) (state r)
    (commitIndex r) la (peers r) (heap r) (leaderID r) (leaderAddr r) f (pendingFutures r)
    (futures r) (applyCh r) (commitNotifyCh r) (shutdownCh r).
Definition set_peers r (ps : gmap bytes nat) (h : list peerState) : RaftNode L S F R :=
  mkNode (config r) (currentTerm r) (votedFor r) (logStore r) (stableStore r) (state r)
    (commitIndex r) (lastApplied r) ps h (leaderID r) (leaderAddr r) (fsm r)
    (pendingFutures r) (futures r) (applyCh r) (commitNotifyCh r) (shutdownCh r).
Definition set_leader r (li ld : bytes) : RaftNode L S F R :=
  mkNode (config r) (currentTerm r) (votedFor r) (logStore r) (stableStore r) (state r)
    (commitIndex r) (lastApplied r) (peers r) (heap r) li ld (fsm r) (pendingFutures r)
    (futures r) (applyCh r) (commitNotifyCh r) (shutdownCh r).
Definition set_futures r (pf : gmap Z nat) (fs : list (ApplyFuture R)) : RaftNode L S F R :=
  mkNode (config r) (currentTerm r) (votedFor r) (logStore r) (stableStore r) (state r)
    (commitIndex r) (lastApplied r) (peers r) (heap r) (leaderID r) (leaderAddr r) (fsm r) pf
    fs (applyCh r) (commitNotifyCh r) (shutdownCh r).
Definition set_applyCh r (ac : list applyRequest) : RaftNode L S F R :=
  mkNode (config r) (currentTerm r) (votedFor r) (logStore r) (stableStore r) (state r)
    (commitIndex r) (lastApplied r) (peers r) (heap r) (leaderID r) (leaderAddr r) (fsm r)
    (pendingFutures r) (futures r) ac (commitNotifyCh r) (shutdownCh r).
Definition set_notify r (cn : bool) : RaftNode L S F R :=
  mkNode (config r) (currentTerm r) (votedFor r) (logStore r) (stableStore r) (state r)
    (commitIndex r) (lastApplied r) (peers r) (heap r) (leaderID r) (leaderAddr r) (fsm r)
    (pendingFutures r) (futures r) (applyCh r) cn (shutdownCh r).
Definition set_shutdown r (sd : bool) : RaftNode L S F R :=
  mkNode (config r) (currentTerm r) (votedFor r) (logStore r) (stableStore r) (state r)
    (commitIndex r) (lastApplied r) (peers r) (heap r) (leaderID r) (leaderAddr r) (fsm r)
    (pendingFutures r) (futures r) (applyCh r) (commitNotifyCh r) sd.

End Setters.

Section Node.
Context {L S F R : Type} `{!LogStore L} `{!StableStore S}.
Abbreviation Node := (RaftNode L S F R).
Implicit Types r : Node.

(** ** Helpers *)

(** Errors of the two writes are only logged. *)
Definition persistState r : outcome Empty_set Node :=
  let! (s, _) := SetUint64 (stableStore r) KeyCurrentTerm (currentTerm r) in
  let! (s, _) := SetKey s KeyVotedFor (votedFor r) in
  Ok (set_stable r s).

Definition stepDown r (newTerm : Z) : outcome Empty_set Node :=
  persistState (set_leader (set_state (set_vote r newTerm []) Follower) [] []).

Definition lastLogInfo r : outcome Empty_set (Z * Z) :=
  let! (lastIdx, err) := LastIndex (logStore r) in
  if negb (is_nil err) || (lastIdx =? 0) then Ok (0, 0)
  else
    let! (entry, err) := GetLog (logStore r) lastIdx in
    match err with
    | Some _ => Ok (0, 0)
    | None => let! e := or_panic entry in Ok (log_Index e, log_Term e)
    end.

(** [notifyCommit] and [triggerReplication]: sends that do not block. *)
Definition notifyCommit r : Node := set_notify r true.

Definition trigger (p : peerState) : peerState :=
  mkPeerState (ps_id p) (ps_addr p) (nextIndex p) (matchIndex p) true.

Definition triggerReplication r : Node :=
  set_peers r (peers r) (map_fold (fun _ loc h => alter trigger loc h) (heap r) (peers r)).

(** The address of a server in the list of peers: the loops that look for it
    stop at the first match and leave the variable alone without one. *)
Definition peerAddr r (id old : bytes) : bytes :=
  match List.find (fun p => bool_decide (pc_ID p = id)) (Peers (config r)) with
  | Some p => pc_Address p
  | None => old
  end.

(** [future.respond] through a pointer. *)
Definition respondTo r (fut : nat) (err : option RaftErr) (response : option R) : Node :=
  set_futures r (pendingFutures r) (alter (fun f => respond f err response) fut (futures r)).

(** ** Start and restart *)

(** [NewRaftNode] does not return a node when the configuration is bad or the
    persistent state cannot be read. *)
Inductive NewErr : Type :=
| NewConfig (f : ConfigField)
| NewRestoreTerm (e : error)
| NewRestoreVote (e : error).

Definition restoreState r : outcome NewErr Node :=
  let! (term, err) := no_err (GetUint64 (stableStore r) KeyCurrentTerm) in
  match err with
  | Some e => Err (NewRestoreTerm e)
  | None =>
      let! (vote, err) := no_err (GetKey (stableStore r) KeyVotedFor) in
      match err with
      | Some e => Err (NewRestoreVote e)
      | None => Ok (set_vote r term vote)
      end
  end.

Definition NewRaftNode (c : Config L S F) : outcome NewErr Node :=
  match validate c with
  | Err f => Err (NewConfig f)
  | Ok _ =>
      match cfg_LogStore c, cfg_StableStore c, cfg_FSM c with
      | Some l, Some s, Some f =>
          restoreState (mkNode c 0 [] l s Follower 0 0 ∅ [] [] [] f ∅ [] [] false false)
      | _, _, _ => Panic
      end
  | Panic => Panic
  | Diverge => Diverge
  end.

(** ** Specification *)

(** Index and term of the last entry of a log. *)
Definition last_info (l : list LogEntry) : Z * Z :=
  match last l with Some e => (log_Index e, log_Term e) | None => (0, 0) end.

(** What the stable store holds: the current term and vote. *)
Definition persisted `{!StableStoreLaws S} (s : S) (term : Z) (vote : bytes) : Prop :=
  exists m, stable_repr s m /\
    (m !! KeyCurrentTerm = Some (PutUint64 term) \/ m !! KeyCurrentTerm = None /\ term = 0) /\
    default [] (m !! KeyVotedFor) = vote.

(** The stable store is readable. *)
Definition stable `{!StableStoreLaws S} (s : S) : Prop := exists m, stable_repr s m.

Context `{!LogStoreLaws L} `{!LogStoreTruncates L} `{!StableStoreLaws S}.

(** ** Lemmas *)

Lemma keys_differ : KeyCurrentTerm <> KeyVotedFor.
Proof. by vm_compute. Qed.

(** [persistState] only touches the stable store. *)
Lemma persistState_spec r :
  stable (stableStore r) -> is_uint64 (currentTerm r) ->
  exists s, persistState r = Ok (set_stable r s) /\ stable s /\
    (StableStoreReliable S -> persisted s (currentTerm r) (votedFor r)).
Proof.
  intros [m Hm] Ht. unfold persistState. rewrite SetUint64_law by done.
  destruct (Set_law _ m KeyCurrentTerm (PutUint64 (currentTerm r)) Hm) as (s1 & e1 & E1 & H1).
  rewrite E1. simpl.
  destruct (Set_law _ _ KeyVotedFor (votedFor r) H1) as (s2 & e2 & E2 & H2).
  rewrite E2. simpl. exists s2. split; [done|]. split; [by eexists|]. intros Hrel.
  destruct (Set_reliable _ _ KeyCurrentTerm (PutUint64 (currentTerm r)) Hm) as [? E1'].
  rewrite E1 in E1'. injection E1' as _ ->.
  destruct (Set_reliable _ _ KeyVotedFor (votedFor r) H1) as [? E2'].
  rewrite E2 in E2'. injection E2' as _ ->.
  eexists. split; [exact H2|]. pose proof keys_differ. split.
  - left. by rewrite lookup_insert_ne, lookup_insert_eq.
  - by rewrite lookup_insert_eq.
Qed.

Lemma stepDown_spec r t :
  stable (stableStore r) -> is_uint64 t ->
  exists s, stepDown r t =
      Ok (set_stable (set_leader (set_state (set_vote r t []) Follower) [] []) s) /\
    stable s /\ (StableStoreReliable S -> persisted s t []).
Proof. intros Hs Ht. apply persistState_spec; done. Qed.

Lemma last_info_snoc l e : last_info (l ++ [e]) = (log_Index e, log_Term e).
Proof. unfold last_info. by rewrite last_snoc. Qed.

Lemma lastLogInfo_spec r l :
  log_repr (logStore r) l -> lastLogInfo r = Ok (last_info l).
Proof.
  intros Hl. unfold lastLogInfo. rewrite (LastIndex_law _ _ Hl). simpl.
  destruct l as [|e l' _] using rev_ind; [done|].
  destruct (Z.eqb_spec (len (l' ++ [e])) 0) as [E|E].
  { autorewrite with len in E. pose proof (len_nonneg l'). lia. }
  rewrite (GetLog_hit _ _ _ e Hl); [|autorewrite with len; apply entry_at_last].
  simpl. by rewrite last_info_snoc.
Qed.

(** Restarting from what [persistState] wrote gives the term and vote back. *)
Lemma restoreState_spec r t v :
  persisted (stableStore r) t v -> is_uint64 t -> restoreState r = Ok (set_vote r t v).
Proof.
  intros (m & Hm & Ht & Hv) Hu. unfold restoreState.
  destruct Ht as [Ht|[Ht ->]].
  - rewrite (GetUint64_some _ _ _ _ Hm Hu Ht). simpl. rewrite (Get_law _ _ _ Hm), Hv. done.
  - rewrite (GetUint64_none _ _ _ Hm Ht). simpl. rewrite (Get_law _ _ _ Hm), Hv. done.
Qed.

End Node.
