(* ===== verification/Election.v ===== *)
(** * Raft: elections ([internal/raft/election.go])

    Both sides of a vote: the request a candidate sends and the voter's
    answer.  The RPCs themselves are the transport's; what comes back is an
    argument of the candidate loop in [Loops.v]. *)

From S2P Require Import Prelude Binary Store RaftTypes Node.

Definition isLogUpToDate (candidateLastTerm candidateLastIndex voterLastTerm voterLastIndex : Z)
    : bool :=
  if voterLastTerm <? candidateLastTerm then true
  else (candidateLastTerm =? voterLastTerm) && (voterLastIndex <=? candidateLastIndex).

Section Election.
Context {L S F R : Type} `{!LogStore L} `{!StableStore S}.
Abbreviation Node := (RaftNode L S F R).
Implicit Types r : Node.

(** The new node, the request, and the addresses it goes to. *)
Definition startElection r : outcome Empty_set (Node * RequestVoteRequest * list bytes) :=
  let r := set_vote r (uint64 (currentTerm r + 1)) (ServerID (config r)) in
  let! r := persistState r in
  let term := currentTerm r in
  let candidateID := ServerID (config r) in
  let! (lastLogIndex, lastLogTerm) := lastLogInfo r in
  let others := List.filter (fun p => negb (bool_decide (pc_ID p = ServerID (config r))))
                  (Peers (config r)) in
  Ok (r, mkVoteReq term candidateID lastLogIndex lastLogTerm, map pc_Address others).

(** The second component tells the caller to reset the election timer. *)
Definition handleRequestVote r (req : RequestVoteRequest)
    : outcome Empty_set (Node * RequestVoteResponse * bool) :=
  if rv_Term req <? currentTerm r then Ok (r, mkVoteResp (currentTerm r) false, false)
  else
    let! r := if currentTerm r <? rv_Term req then stepDown r (rv_Term req) else Ok r in
    if negb (bool_decide (votedFor r = [])) && negb (bool_decide (votedFor r = rv_CandidateID req))
    then Ok (r, mkVoteResp (currentTerm r) false, false)
    else
      let! (myLastIndex, myLastTerm) := lastLogInfo r in
      if negb (isLogUpToDate (rv_LastLogTerm req) (rv_LastLogIndex req) myLastTerm myLastIndex)
      then Ok (r, mkVoteResp (currentTerm r) false, false)
      else
        let! r := persistState (set_vote r (currentTerm r) (rv_CandidateID req)) in
        Ok (r, mkVoteResp (currentTerm r) true, true).

(** ** Specification *)

(** A log is at least as up to date as another: later last term, or equal
    last terms and no shorter. *)
Definition up_to_date (cand voter : Z * Z) : Prop :=
  voter.2 < cand.2 \/ voter.2 = cand.2 /\ voter.1 <= cand.1.

(** Who gets the vote of a node at [term] that voted for [vote]. *)
Definition grants (term : Z) (vote : bytes) (l : list LogEntry) (req : RequestVoteRequest) : Prop :=
  term <= rv_Term req /\
  (term < rv_Term req \/ vote = [] \/ vote = rv_CandidateID req) /\
  up_to_date (rv_LastLogIndex req, rv_LastLogTerm req) (last_info l).

Context `{!LogStoreLaws L} `{!LogStoreTruncates L} `{!StableStoreLaws S}.

(** What every handler keeps: readable stores and machine terms. *)
Record node_ok r (l : list LogEntry) : Prop := {
  ok_log : log_repr (logStore r) l;
  ok_stable : stable (stableStore r);
  ok_term : is_uint64 (currentTerm r)
}.

(** The stable store holds the term and the vote of the node. *)
Definition durable r : Prop := persisted (stableStore r) (currentTerm r) (votedFor r).

(** Everything but the term, the vote and who leads. *)
Definition same_rest r r' : Prop :=
  config r' = config r /\ logStore r' = logStore r /\ commitIndex r' = commitIndex r /\
  lastApplied r' = lastApplied r /\ peers r' = peers r /\ heap r' = heap r /\
  fsm r' = fsm r /\ pendingFutures r' = pendingFutures r /\ futures r' = futures r /\
  applyCh r' = applyCh r /\ commitNotifyCh r' = commitNotifyCh r /\ shutdownCh r' = shutdownCh r.

(** ** Lemmas *)

Lemma isLogUpToDate_spec ct ci vt vi :
  isLogUpToDate ct ci vt vi = true <-> up_to_date (ci, ct) (vi, vt).
Proof.
  unfold isLogUpToDate, up_to_date. simpl.
  destruct (Z.ltb_spec vt ct), (Z.eqb_spec ct vt), (Z.leb_spec vi ci); simpl; split; (lia || done).
Qed.

#[export] Instance up_to_date_dec a b : Decision (up_to_date a b).
Proof. unfold up_to_date. apply _. Defined.

#[export] Instance grants_dec t v l req : Decision (grants t v l req).
Proof. unfold grants. apply _. Defined.

Lemma up_to_date_total a b : up_to_date a b \/ up_to_date b a.
Proof. unfold up_to_date. lia. Qed.

Lemma up_to_date_trans a b c : up_to_date a b -> up_to_date b c -> up_to_date a c.
Proof. unfold up_to_date. lia. Qed.

Lemma same_rest_refl r : same_rest r r.
Proof. by split_and!. Qed.

(** The steps that change the term and the vote, as one shape. *)
Lemma stepDown_ok r l t :
  node_ok r l -> is_uint64 t ->
  exists r', stepDown r t = Ok r' /\ node_ok r' l /\ same_rest r r' /\
    currentTerm r' = t /\ votedFor r' = [] /\ state r' = Follower /\
    leaderID r' = [] /\ leaderAddr r' = [] /\
    (StableStoreReliable S -> durable r').
Proof.
  intros [Hl Hs _] Ht. destruct (stepDown_spec r t Hs Ht) as (s & -> & Hs' & Hp).
  eexists. split; [done|]. by split_and!.
Qed.

Lemma vote_ok r l t v :
  node_ok r l -> is_uint64 t ->
  exists r', persistState (set_vote r t v) = Ok r' /\ node_ok r' l /\ same_rest r r' /\
    currentTerm r' = t /\ votedFor r' = v /\ state r' = state r /\
    leaderID r' = leaderID r /\ leaderAddr r' = leaderAddr r /\
    (StableStoreReliable S -> durable r').
Proof.
  intros [Hl Hs _] Ht. destruct (persistState_spec (set_vote r t v) Hs Ht) as (s & -> & Hs' & Hp).
  eexists. split; [done|]. by split_and!.
Qed.

Lemma same_rest_trans r1 r2 r3 : same_rest r1 r2 -> same_rest r2 r3 -> same_rest r1 r3.
Proof. unfold same_rest. intuition congruence. Qed.

(** ** Theorems *)

Lemma handleRequestVote_effect r l req :
  node_ok r l -> is_uint64 (rv_Term req) ->
  exists r' g,
    handleRequestVote r req = Ok (r', mkVoteResp (Z.max (currentTerm r) (rv_Term req)) g, g) /\
    (g = true <-> grants (currentTerm r) (votedFor r) l req) /\
    node_ok r' l /\ same_rest r r' /\
    currentTerm r' = Z.max (currentTerm r) (rv_Term req) /\
    votedFor r' = (if g then rv_CandidateID req
                   else if currentTerm r <? rv_Term req then [] else votedFor r) /\
    state r' = (if currentTerm r <? rv_Term req then Follower else state r) /\
    (StableStoreReliable S -> durable r -> durable r').
Proof.
  intros Hok Hreq. unfold handleRequestVote, grants.
  destruct (Z.ltb_spec (rv_Term req) (currentTerm r)) as [Hst|Hge].
  { exists r, false. rewrite Z.max_l by lia. split_and!; try done; [split; [done|lia]|..];
      by rewrite (proj2 (Z.ltb_ge _ _)) by lia. }
  assert (exists r1, (if currentTerm r <? rv_Term req then stepDown r (rv_Term req) else Ok r) = Ok r1 /\
    node_ok r1 l /\ same_rest r r1 /\ currentTerm r1 = rv_Term req /\
    votedFor r1 = (if currentTerm r <? rv_Term req then [] else votedFor r) /\
    state r1 = (if currentTerm r <? rv_Term req then Follower else state r) /\
    (StableStoreReliable S -> durable r -> durable r1)) as (r1 & -> & Hok1 & Hsr & Ht & Hv & Hst & Hd).
  { destruct (Z.ltb_spec (currentTerm r) (rv_Term req)).
    - destruct (stepDown_ok r l (rv_Term req) Hok Hreq) as (r1 & E & ? & ? & ? & ? & ? & _ & _ & ?).
      exists r1. by split_and!; auto.
    - exists r. split_and!; try done. lia. }
  rewrite Z.max_r by lia. simpl.
  assert (votedFor r1 = [] \/ votedFor r1 = rv_CandidateID req <->
    currentTerm r < rv_Term req \/ votedFor r = [] \/ votedFor r = rv_CandidateID req) as Hcan.
  { rewrite Hv. destruct (Z.ltb_spec (currentTerm r) (rv_Term req)); [tauto|]. intuition lia. }
  destruct (negb (bool_decide (votedFor r1 = [])) && negb (bool_decide (votedFor r1 = rv_CandidateID req))) eqn:Eb.
  { exists r1, false. rewrite Ht. split_and!; try done. split; [done|]. intros (_ & H & _).
    apply Hcan in H. rewrite andb_true_iff, !negb_true_iff, !bool_decide_eq_false in Eb. tauto. }
  assert (votedFor r1 = [] \/ votedFor r1 = rv_CandidateID req) as Hv1.
  { rewrite andb_false_iff, !negb_false_iff, !bool_decide_eq_true in Eb. done. }
  rewrite (lastLogInfo_spec _ _ (ok_log _ _ Hok1)). cbn [obind]. destruct (last_info l) as [vi vt].
  destruct (isLogUpToDate _ _ _ _) eqn:Eu; cbn [negb].
  - destruct (vote_ok r1 l (currentTerm r1) (rv_CandidateID req) Hok1 (ok_term _ _ Hok1))
      as (r2 & -> & Hok2 & Hsr2 & Ht2 & Hv2 & Hst2 & _ & _ & Hd2).
    exists r2, true. cbn [obind]. rewrite Ht2, Ht. split_and!; try done; try congruence.
    + split; [intros _|done]. split_and!; [lia|by apply Hcan|by apply isLogUpToDate_spec].
    + by eapply same_rest_trans.
    + auto.
  - exists r1, false. rewrite Ht. split_and!; try done. split; [done|].
    intros (_ & _ & H). apply isLogUpToDate_spec in H. congruence.
Qed.

(** C16: the voter.  Whatever the request, the vote is given exactly to a
    candidate whose term is not behind, to whom or to nobody this term's vote
    already belongs, and whose log is at least as up to date; the node moves
    to the greater of the two terms, in which it then follows with its old
    vote forgotten; its log and all else stay; and if the writes of the
    stable store succeed, and term and vote were on disk before, the new ones
    are on disk when the answer is sent.  (A failed write is only logged.) *)
Theorem handleRequestVote_spec r l req :
  node_ok r l -> is_uint64 (rv_Term req) ->
  exists r' g,
    handleRequestVote r req = Ok (r', mkVoteResp (Z.max (currentTerm r) (rv_Term req)) g, g) /\
    (g = true <-> grants (currentTerm r) (votedFor r) l req) /\
    node_ok r' l /\ same_rest r r' /\
    currentTerm r' = Z.max (currentTerm r) (rv_Term req) /\
    votedFor r' = (if g then rv_CandidateID req
                   else if currentTerm r <? rv_Term req then [] else votedFor r) /\
    state r' = (if currentTerm r <? rv_Term req then Follower else state r) /\
    (StableStoreReliable S -> durable r -> durable r').
Proof. apply handleRequestVote_effect. Qed.

(** The candidate.  An election starts the next term with a vote for
    itself, on disk before any request is sent; the request carries the term,
    the candidate and the end of its log, and goes to every other server of
    the configuration. *)
Lemma startElection_effect r l :
  node_ok r l -> currentTerm r < MaxUint64 ->
  exists r',
    startElection r =
      Ok (r', mkVoteReq (currentTerm r + 1) (ServerID (config r)) (last_info l).1 (last_info l).2,
          map pc_Address (filter (fun p => pc_ID p <> ServerID (config r)) (Peers (config r)))) /\
    node_ok r' l /\ same_rest r r' /\ currentTerm r' = currentTerm r + 1 /\
    votedFor r' = ServerID (config r) /\ state r' = state r /\
    (StableStoreReliable S -> durable r').
Proof.
  intros Hok Hmax. pose proof (ok_term _ _ Hok) as Ht. unfold startElection.
  assert (uint64 (currentTerm r + 1) = currentTerm r + 1) as -> by (apply uint64_id; int_unfold; lia).
  destruct (vote_ok r l (currentTerm r + 1) (ServerID (config r)) Hok)
    as (r1 & -> & Hok1 & Hsr & Ht1 & Hv1 & Hs1 & _ & _ & Hd1); [int_unfold; lia|].
  cbn [obind]. rewrite (lastLogInfo_spec _ _ (ok_log _ _ Hok1)). cbn [obind].
  destruct (last_info l) as [li lt]. exists r1.
  replace (config r1) with (config r) by (symmetry; apply Hsr).
  rewrite Ht1. split_and!; try done. do 3 f_equal.
  induction (Peers (config r)) as [|p ps IH]; [done|]. simpl. rewrite filter_cons.
  case_bool_decide; simpl; case_decide; try done; by f_equal.
Qed.

End Election.
