(* ===== verification/Logs.v ===== *)
(** * Raft logs as lists

    The abstract view of the log store: what [handleAppendEntries] makes of a
    log ([merge]), the Log Matching property, and the facts about the two that
    the node theorems rest on. *)

From S2P Require Import Prelude Store.

(** What appending entries makes of a log: the ones already there are
    skipped, the first one that is missing or of another term replaces
    everything from its index on. *)
Fixpoint merge (l es : list LogEntry) : list LogEntry :=
  match es with
  | [] => l
  | e :: rest =>
      match entry_at l (log_Index e) with
      | None => l ++ es
      | Some x =>
          if log_Term x =? log_Term e then merge l rest
          else take (Z.to_nat (log_Index e - 1)) l ++ es
      end
  end.

(** [es] continues a log after its first [p] entries. *)
Definition continues (l : list LogEntry) (p : Z) (es : list LogEntry) : Prop :=
  0 <= p <= len l /\ forall i e, es !! i = Some e -> log_Index e = p + Z.of_nat i + 1.

Definition term_at (l : list LogEntry) (i : Z) : option Z := log_Term <$> entry_at l i.

(** Log Matching: equal terms at an index mean equal logs up to it. *)
Definition log_matching (l k : list LogEntry) : Prop :=
  forall i t, term_at l i = Some t -> term_at k i = Some t ->
    take (Z.to_nat i) l = take (Z.to_nat i) k.

(** The first index of the run of entries of one term that ends at [i]. *)
Definition run_start (l : list LogEntry) (i t j : Z) : Prop :=
  1 <= j <= i /\ (forall k, j <= k <= i -> term_at l k = Some t) /\
  (j = 1 \/ term_at l (j - 1) <> Some t).

(** * Lemmas *)

Lemma term_at_in l i : 1 <= i <= len l -> exists t, term_at l i = Some t.
Proof. intros Hi. destruct (entry_at_in l i Hi) as [e E]. unfold term_at. rewrite E. by eexists. Qed.

Lemma term_at_Some l i t : term_at l i = Some t -> 1 <= i <= len l.
Proof. unfold term_at. intros (e & E & _)%fmap_Some. by eapply entry_at_Some. Qed.

Lemma entry_at_take_eq l k n i :
  take (Z.to_nat n) l = take (Z.to_nat n) k -> 0 <= n -> i <= n -> entry_at l i = entry_at k i.
Proof. intros E ? ?. by rewrite <-(entry_at_take l n), <-(entry_at_take k n), E. Qed.

Lemma continues_tail l p e es : continues l p (e :: es) -> p < len l -> continues l (p + 1) es.
Proof.
  intros [Hp He] Hlt. split; [lia|]. intros i x Hx. rewrite (He (S i) x Hx). lia.
Qed.

Lemma continues_head l p e es : continues l p (e :: es) -> log_Index e = p + 1.
Proof. intros [_ He]. rewrite (He 0%nat e eq_refl). lia. Qed.

Lemma continues_numbered l p es : numbered l -> continues l p es -> numbered (take (Z.to_nat p) l ++ es).
Proof.
  intros Hn [Hp He]. apply numbered_app. split; [by apply numbered_take|].
  intros i e E. rewrite len_take by lia. by apply He.
Qed.

Lemma take_S_entry l p e :
  0 <= p -> entry_at l (p + 1) = Some e ->
  take (Z.to_nat (p + 1)) l = take (Z.to_nat p) l ++ [e].
Proof.
  intros Hp E. replace (Z.to_nat (p + 1)) with (S (Z.to_nat p)) by lia. apply take_S_r.
  rewrite <-E, <-entry_at_nat. f_equal. lia.
Qed.

(** The shape of [merge]: the first [k] entries are there already, the rest
    is missing or in conflict. *)
Lemma merge_shape l p es :
  continues l p es ->
  exists k, 0 <= k <= len es /\ p + k <= len l /\
    (forall j e, es !! j = Some e -> Z.of_nat j < k -> term_at l (p + Z.of_nat j + 1) = Some (log_Term e)) /\
    ((k = len es /\ merge l es = l) \/
     (k < len es /\ merge l es = take (Z.to_nat (p + k)) l ++ drop (Z.to_nat k) es /\
      (p + k = len l \/
       exists e t, es !! Z.to_nat k = Some e /\ term_at l (p + k + 1) = Some t /\ t <> log_Term e))).
Proof.
  revert p. induction es as [|e es IH]; intros p Hc.
  { exists 0. destruct Hc as [Hp _]. change (len []) with 0. split_and!; try lia; by left. }
  pose proof (continues_head _ _ _ _ Hc) as He. pose proof Hc as [Hp _]. simpl. rewrite He.
  pose proof (len_nonneg es). rewrite len_cons.
  destruct (entry_at l (p + 1)) as [x|] eqn:E.
  - pose proof (entry_at_Some _ _ _ E).
    destruct (Z.eqb_spec (log_Term x) (log_Term e)) as [Et|Et].
    + destruct (IH (p + 1)) as (k & Hk & Hk' & Hm & Hcase); [by apply (continues_tail l p e); [|lia]|].
      exists (k + 1). split_and!; try lia.
      * intros [|j] e' Hj Hlt; simpl in Hj.
        -- injection Hj as <-. unfold term_at. replace (p + Z.of_nat 0 + 1) with (p + 1) by lia.
           rewrite E. simpl. by rewrite Et.
        -- rewrite <-(Hm j e') by (done || lia). f_equal. lia.
      * replace (p + (k + 1)) with (p + 1 + k) by lia.
        destruct Hcase as [[-> ->]|(Hlt & -> & Hr)]; [left; split; [lia|done]|right].
        replace (Z.to_nat (k + 1)) with (S (Z.to_nat k)) by lia. split_and!; [lia|done|done].
    + exists 0. rewrite !Z.add_0_r. split_and!; try lia. right.
      split_and!; [lia|f_equal; f_equal; lia|]. right. exists e, (log_Term x).
      unfold term_at. rewrite E. done.
  - apply entry_at_None in E. exists 0. rewrite !Z.add_0_r. split_and!; try lia. right.
    split_and!; [lia| |left; lia]. rewrite take_ge; [done|]. unfold len in *. lia.
Qed.

Lemma merge_numbered l p es : numbered l -> continues l p es -> numbered (merge l es).
Proof.
  intros Hn Hc. destruct (merge_shape l p es Hc) as (k & Hk & Hk' & Hm & [[_ ->]|(Hlt & -> & _)]); [done|].
  apply continues_numbered; [done|]. split; [pose proof (proj1 Hc); lia|].
  intros i e E. rewrite lookup_drop in E. rewrite (proj2 Hc _ _ E). lia.
Qed.

(** What a request asks for is in the log afterwards, the part before it is
    untouched, and nothing is dropped without a conflict. *)
Lemma merge_before l p es : continues l p es -> take (Z.to_nat p) (merge l es) = take (Z.to_nat p) l.
Proof.
  intros Hc. destruct (merge_shape l p es Hc) as (k & Hk & Hk' & _ & [[_ ->]|(Hlt & -> & _)]); [done|].
  pose proof (proj1 Hc). rewrite take_app_le by (rewrite length_take; unfold len in *; lia).
  rewrite take_take. f_equal. lia.
Qed.

Lemma merge_terms l p es j e :
  continues l p es -> es !! j = Some e -> term_at (merge l es) (p + Z.of_nat j + 1) = Some (log_Term e).
Proof.
  intros Hc Hj. destruct (merge_shape l p es Hc) as (k & Hk & Hk' & Hm & [[-> ->]|(Hlt & -> & _)]).
  - apply Hm; [done|]. apply lookup_lt_Some in Hj. unfold len. lia.
  - pose proof (proj1 Hc). destruct (Z.lt_ge_cases (Z.of_nat j) k) as [Hjk|Hjk].
    + unfold term_at. rewrite entry_at_app_l by (rewrite len_take; lia).
      rewrite entry_at_take by lia. by apply Hm.
    + unfold term_at. replace (p + Z.of_nat j + 1) with (Z.of_nat (Z.to_nat p + j) + 1) by lia.
      rewrite entry_at_nat, lookup_app_r by (rewrite length_take; unfold len in *; lia).
      rewrite lookup_drop. replace (_ + _)%nat with j; [by rewrite Hj|].
      rewrite length_take. unfold len in *. lia.
Qed.

Lemma merge_len l p es : continues l p es -> p + len es <= len (merge l es).
Proof.
  intros Hc. destruct (merge_shape l p es Hc) as (k & Hk & Hk' & Hm & [[-> ->]|(Hlt & -> & _)]); [lia|].
  pose proof (proj1 Hc). autorewrite with len. rewrite len_take by lia. unfold len in *. rewrite length_drop. lia.
Qed.

Lemma merge_bound l p es :
  continues l p es -> len (merge l es) <= Z.max (len l) (p + len es).
Proof.
  intros Hc. destruct (merge_shape l p es Hc) as (k & Hk & Hk' & Hm & [[-> ->]|(Hlt & -> & _)]); [lia|].
  pose proof (proj1 Hc). autorewrite with len. rewrite len_take by lia. unfold len in *. rewrite length_drop. lia.
Qed.

(** ** Log Matching *)

Lemma log_matching_sym l k : log_matching l k -> log_matching k l.
Proof. intros H i t H1 H2. symmetry. by eapply H. Qed.

Lemma log_matching_refl l : log_matching l l.
Proof. done. Qed.

Lemma log_matching_take l k n : log_matching l k -> log_matching l (take n k).
Proof.
  intros H i t H1 H2. pose proof (term_at_Some _ _ _ H1). pose proof (term_at_Some _ _ _ H2) as Hl.
  unfold len in Hl. rewrite length_take in Hl. rewrite take_take. replace (_ `min` _)%nat with (Z.to_nat i) by lia.
  apply (H i t); [done|]. unfold term_at in *. rewrite <-H2. f_equal.
  destruct (entry_at k i) as [e|] eqn:E.
  - unfold entry_at in *. destruct (Z.leb_spec 1 i); [|lia]. rewrite lookup_take_lt by lia. by symmetry.
  - apply entry_at_None in E. unfold len in E. lia.
Qed.

(** A prefix that matches reaches as far as the terms agree. *)
Lemma matching_extend L l p es k :
  continues l p es -> 0 <= k <= len es -> p + k <= len l ->
  take (Z.to_nat p) l = take (Z.to_nat p) L -> es = take (length es) (drop (Z.to_nat p) L) ->
  log_matching L l ->
  (forall j e, es !! j = Some e -> Z.of_nat j < k -> term_at l (p + Z.of_nat j + 1) = Some (log_Term e)) ->
  take (Z.to_nat (p + k)) l = take (Z.to_nat (p + k)) L.
Proof.
  intros [Hp _] Hk Hk' Epre Ees Hlm Hm. destruct (Z.eq_dec k 0) as [->|Hne]; [by rewrite Z.add_0_r|].
  destruct (lookup_lt_is_Some_2 es (Z.to_nat (k - 1))) as [e He]; [unfold len in *; lia|].
  symmetry. apply (Hlm _ (log_Term e)).
  - rewrite Ees in He. apply lookup_take_Some in He as [He _]. rewrite lookup_drop in He.
    unfold term_at. replace (p + k) with (Z.of_nat (Z.to_nat p + Z.to_nat (k - 1)) + 1) by lia.
    by rewrite entry_at_nat, He.
  - rewrite <-(Hm _ _ He) by lia. f_equal. lia.
Qed.

(** Entries taken from a log that matches, put where the logs agree, make the
    follower's log agree with it that far; then the follower's log is either
    what it was or a prefix of the leader's. *)
Lemma merge_matching L l p es :
  continues l p es -> es = take (length es) (drop (Z.to_nat p) L) ->
  (p = 0 \/ exists t, term_at l p = Some t /\ term_at L p = Some t) ->
  log_matching L l ->
  take (Z.to_nat (p + len es)) (merge l es) = take (Z.to_nat (p + len es)) L /\
  (merge l es = l \/ merge l es = take (Z.to_nat (p + len es)) L).
Proof.
  intros Hc Ees Hpre Hlm. pose proof (proj1 Hc) as Hp.
  assert (take (Z.to_nat p) l = take (Z.to_nat p) L) as Epre.
  { destruct Hpre as [->|(t & H1 & H2)]; [done|]. symmetry. by eapply Hlm. }
  destruct (merge_shape l p es Hc) as (k & Hk & Hk' & Hm & Hcase).
  pose proof (matching_extend L l p es k Hc Hk Hk' Epre Ees Hlm Hm) as Ek.
  destruct Hcase as [[-> ->]|(Hlt & -> & _)]; [split; [done|by left]|].
  assert (take (Z.to_nat (p + k)) l ++ drop (Z.to_nat k) es = take (Z.to_nat (p + len es)) L) as Em.
  { rewrite Ek, Ees at 1. unfold len. rewrite skipn_firstn_comm, drop_drop.
    replace (Z.to_nat (p + Z.of_nat (length es)))
      with (Z.to_nat (p + k) + (length es - Z.to_nat k))%nat by (unfold len in *; lia).
    rewrite <-take_take_drop. do 3 f_equal. lia. }
  split; [|by right]. rewrite Em, take_take. f_equal. lia.
Qed.

(** So Log Matching survives, with the leader's log and with any third log. *)
Lemma merge_keeps_matching K L l p es :
  continues l p es -> es = take (length es) (drop (Z.to_nat p) L) ->
  (p = 0 \/ exists t, term_at l p = Some t /\ term_at L p = Some t) ->
  log_matching L l -> log_matching K L -> log_matching K l -> log_matching K (merge l es).
Proof.
  intros Hc Ees Hpre Hlm HKL HKl.
  destruct (merge_matching L l p es Hc Ees Hpre Hlm) as [_ [->| ->]]; [done|].
  by apply log_matching_take.
Qed.

(** And entries both logs hold are not lost. *)
Lemma merge_keeps_prefix L l p es c :
  continues l p es -> es = take (length es) (drop (Z.to_nat p) L) ->
  take (Z.to_nat c) l = take (Z.to_nat c) L -> 0 <= c <= len l ->
  take (Z.to_nat c) (merge l es) = take (Z.to_nat c) l.
Proof.
  intros Hc Ees Epre Hle. pose proof (proj1 Hc) as Hp.
  destruct (merge_shape l p es Hc) as (k & Hk & Hk' & Hm & [[-> ->]|(Hlt & -> & Hr)]); [done|].
  assert (c <= p + k) as Hck.
  { destruct Hr as [Hr|(e & t & He & Ht & Hne)]; [lia|].
    destruct (Z.le_gt_cases c (p + k)) as [|Hgt]; [done|]. exfalso. apply Hne.
    assert (term_at L (p + k + 1) = Some t) as HL.
    { rewrite <-Ht. unfold term_at. f_equal. symmetry. apply (entry_at_take_eq l L c); [done|lia|lia]. }
    rewrite Ees in He. apply lookup_take_Some in He as [He _]. rewrite lookup_drop in He.
    unfold term_at in HL. replace (p + k + 1) with (Z.of_nat (Z.to_nat p + Z.to_nat k) + 1) in HL by lia.
    rewrite entry_at_nat, He in HL. by injection HL. }
  rewrite take_app_le by (rewrite length_take; unfold len in *; lia).
  rewrite take_take. f_equal. lia.
Qed.
