(* ===== verification/Replication.v ===== *)
(** * Raft: replication ([internal/raft/replication.go])

    The leader's exchange with a peer, its commit rule, and the follower's
    [handleAppendEntries].  [replicateOnce] has two critical sections with an
    RPC between them; they are [replicate_request] and [replicate_response],
    and other handlers may run in between. *)

From S2P Require Import Prelude Binary Store RaftTypes Node Election Logs.

Section Definitions.
Context {L S F R : Type} `{!LogStore L} `{!StableStore S}.
Abbreviation Node := (RaftNode L S F R).
Implicit Types r : Node.

(** ** The leader *)

(** [for i := peer.nextIndex; i <= lastIdx; i++]; it stops at an error. *)
Fixpoint collect (fuel : nat) (s : L) (i lastIdx : Z) : outcome Empty_set (list LogEntry) :=
  match fuel with
  | O => Diverge
  | Datatypes.S fuel =>
      if i <=? lastIdx then
        let! (entry, err) := GetLog s i in
        match err with
        | Some _ => Ok []
        | None =>
            let! e := or_panic entry in
            let! es := collect fuel s (uint64 (i + 1)) lastIdx in
            Ok (e :: es)
        end
      else Ok []
  end.

(** First critical section: the request for a peer, unless no longer leader. *)
Definition replicate_request r (peer : nat) : outcome Empty_set (option AppendEntriesRequest) :=
  if negb (bool_decide (state r = Leader)) then Ok None
  else
    let! p := or_panic (heap r !! peer) in
    let prevLogIndex := uint64 (nextIndex p - 1) in
    let! prevLogTerm :=
      if 0 <? prevLogIndex then
        let! (entry, err) := GetLog (logStore r) prevLogIndex in
        match err with
        | Some _ => Ok 0
        | None => let! e := or_panic entry in Ok (log_Term e)
        end
      else Ok 0 in
    let! (lastIdx, _) := LastIndex (logStore r) in
    let! entries :=
      if nextIndex p <=? lastIdx
      then collect (Datatypes.S (Z.to_nat (lastIdx - nextIndex p + 1))) (logStore r) (nextIndex p) lastIdx
      else Ok [] in
    Ok (Some (mkAppendReq (currentTerm r) (ServerID (config r)) prevLogIndex prevLogTerm
                entries (commitIndex r))).

(** [matchIndex] of every peer. *)
Fixpoint match_indexes (h : list peerState) (locs : list nat) : outcome Empty_set (list Z) :=
  match locs with
  | [] => Ok []
  | loc :: locs =>
      let! p := or_panic (h !! loc) in
      let! ms := match_indexes h locs in
      Ok (matchIndex p :: ms)
  end.

(** The order [sort.Slice] is given. *)
Definition descending (a b : Z) : Prop := b <= a.
#[export] Instance descending_dec : RelDecision descending.
Proof. intros a b. unfold descending. apply _. Defined.

#[export] Instance descending_trans : Transitive descending.
Proof. intros a b c. unfold descending. lia. Qed.
#[export] Instance descending_total : Total descending.
Proof. intros a b. unfold descending. lia. Qed.

Definition advanceCommitIndex r : outcome Empty_set Node :=
  let! (lastIdx, _) := LastIndex (logStore r) in
  let! ms := match_indexes (heap r) (map_to_list (peers r)).*2 in
  let matches := merge_sort descending (lastIdx :: ms) in
  let majority := len matches / 2 + 1 in
  let! newCommit := or_panic (index matches (majority - 1)) in
  if newCommit <=? commitIndex r then Ok r
  else
    let! (entry, err) := GetLog (logStore r) newCommit in
    match err with
    | Some _ => Ok r
    | None =>
        let! e := or_panic entry in
        if log_Term e =? currentTerm r then Ok (notifyCommit (set_commit r newCommit)) else Ok r
    end.

(** [for i := lastIdx; i >= 1; i--]: the last entry of a term, 0 if none. *)
Fixpoint find_term (fuel : nat) (s : L) (i t : Z) : outcome Empty_set Z :=
  match fuel with
  | O => Diverge
  | Datatypes.S fuel =>
      if 1 <=? i then
        let! (entry, err) := GetLog s i in
        match err with
        | Some _ => Ok 0
        | None =>
            let! e := or_panic entry in
            if log_Term e =? t then Ok i else find_term fuel s (i - 1) t
        end
      else Ok 0
  end.

Definition set_peer r (peer : nat) (p : peerState) : Node :=
  set_peers r (peers r) (<[peer := p]> (heap r)).

(** Second critical section: what a response does; [None] is a failed RPC. *)
Definition replicate_response r (peer : nat) (entries : list LogEntry)
    (resp : option AppendEntriesResponse) : outcome Empty_set Node :=
  match resp with
  | None => Ok r
  | Some resp =>
      if currentTerm r <? ar_Term resp then stepDown r (ar_Term resp)
      else
        let! p := or_panic (heap r !! peer) in
        if ar_Success resp then
          let r :=
            match last entries with
            | Some e =>
                set_peer r peer
                  (mkPeerState (ps_id p) (ps_addr p) (uint64 (log_Index e + 1)) (log_Index e)
                     (ps_triggerCh p))
            | None => r
            end in
          advanceCommitIndex r
        else
          let! next :=
            if 0 <? ar_ConflictTerm resp then
              let! (lastIdx, _) := LastIndex (logStore r) in
              let! conflictIdx :=
                find_term (Datatypes.S (Z.to_nat lastIdx)) (logStore r) lastIdx (ar_ConflictTerm resp) in
              if 0 <? conflictIdx then Ok (uint64 (conflictIdx + 1)) else Ok (ar_ConflictIndex resp)
            else Ok (ar_ConflictIndex resp) in
          let next := if next <? 1 then 1 else next in
          Ok (set_peer r peer
                (mkPeerState (ps_id p) (ps_addr p) next (matchIndex p) (ps_triggerCh p)))
  end.

(** One turn without interference: [send] is the RPC to this peer. *)
Definition replicateOnce r (peer : nat)
    (send : AppendEntriesRequest -> option AppendEntriesResponse) : outcome Empty_set Node :=
  let! req := replicate_request r peer in
  match req with
  | None => Ok r
  | Some req => replicate_response r peer (ae_Entries req) (send req)
  end.

(** ** The follower *)

(** [for i := req.PrevLogIndex - 1; i >= 1; i--]: the first index of the
    run of entries of term [t] that ends above [i]. *)
Fixpoint first_of_term (fuel : nat) (s : L) (i t found : Z) : outcome Empty_set Z :=
  match fuel with
  | O => Diverge
  | Datatypes.S fuel =>
      if 1 <=? i then
        let! (entry, err) := GetLog s i in
        match err with
        | Some _ => Ok found
        | None =>
            let! e := or_panic entry in
            if log_Term e =? t then first_of_term fuel s (i - 1) t i else Ok found
        end
      else Ok found
  end.

(** The loop of step 3; the flag is false when a write failed. *)
Fixpoint append_loop (s : L) (es : list LogEntry) : outcome Empty_set (L * bool) :=
  match es with
  | [] => Ok (s, true)
  | entry :: rest =>
      let! (existing, err) := GetLog s (log_Index entry) in
      match err with
      | Some _ => let! (s, err) := StoreLogs s es in Ok (s, is_nil err)
      | None =>
          let! x := or_panic existing in
          if negb (log_Term x =? log_Term entry) then
            let! (lastIdx, _) := LastIndex s in
            let! (s, err) := DeleteRange s (log_Index entry) lastIdx in
            match err with
            | Some _ => Ok (s, false)
            | None => let! (s, err) := StoreLogs s es in Ok (s, is_nil err)
            end
          else append_loop s rest
      end
  end.

(** Step 2: the conflict to report, if the logs do not meet at the previous
    entry. *)
Definition check_prev r (req : AppendEntriesRequest) : outcome Empty_set (option (Z * Z)) :=
  let prev := ae_PrevLogIndex req in
  if 0 <? prev then
    let! (lastIdx, _) := LastIndex (logStore r) in
    if lastIdx <? prev then Ok (Some (0, uint64 (lastIdx + 1)))
    else
      let! (prevEntry, err) := GetLog (logStore r) prev in
      match err, prevEntry with
      | None, Some e =>
          if negb (log_Term e =? ae_PrevLogTerm req) then
            let! first := first_of_term (Datatypes.S (Z.to_nat prev)) (logStore r) (prev - 1)
                            (log_Term e) prev in
            Ok (Some (log_Term e, first))
          else Ok None
      | None, None => Panic
      | Some _, Some e =>
          let! first := first_of_term (Datatypes.S (Z.to_nat prev)) (logStore r) (prev - 1)
                          (log_Term e) prev in
          Ok (Some (log_Term e, first))
      | Some _, None => Ok (Some (0, prev))
      end
  else Ok None.

(** Step 4. *)
Definition update_commit r (leaderCommit : Z) : outcome Empty_set Node :=
  if commitIndex r <? leaderCommit then
    let! (lastIdx, _) := LastIndex (logStore r) in
    let newCommit := if lastIdx <? leaderCommit then lastIdx else leaderCommit in
    Ok (notifyCommit (set_commit r newCommit))
  else Ok r.

(** The second component tells the caller to reset the election timer. *)
Definition handleAppendEntries r (req : AppendEntriesRequest)
    : outcome Empty_set (Node * AppendEntriesResponse * bool) :=
  if ae_Term req <? currentTerm r
  then Ok (r, mkAppendResp (currentTerm r) false 0 0, false)
  else
    let! r :=
      if currentTerm r <? ae_Term req then stepDown r (ae_Term req)
      else if negb (bool_decide (state r = Follower)) then stepDown r (ae_Term req)
      else Ok r in
    let r := set_leader (set_state r Follower) (ae_LeaderID req)
               (peerAddr r (ae_LeaderID req) (leaderAddr r)) in
    let! conflict := check_prev r req in
    match conflict with
    | Some (t, i) => Ok (r, mkAppendResp (currentTerm r) false t i, true)
    | None =>
        let! (s, ok) := append_loop (logStore r) (ae_Entries req) in
        let r := set_log r s in
        if ok then
          let! r := update_commit r (ae_LeaderCommit req) in
          Ok (r, mkAppendResp (currentTerm r) true 0 0, true)
        else Ok (r, mkAppendResp (currentTerm r) false 0 0, true)
    end.

(** ** Specification *)

(** How many servers have an index. *)
Definition replicated (ms : list Z) (n : Z) : nat := length (filter (fun m => n <= m) ms).

(** The greatest index a majority has. *)
Definition quorum_index (ms : list Z) (n : Z) : Prop :=
  (length ms < 2 * replicated ms n)%nat /\
  forall n', n < n' -> ~ (length ms < 2 * replicated ms n')%nat.

(** A request whose entries are numbered from [PrevLogIndex] on and whose
    numbers are machine integers, as [replicate_request] builds them. *)
Record req_ok (req : AppendEntriesRequest) : Prop := {
  rq_term : is_uint64 (ae_Term req);
  rq_prev : 0 <= ae_PrevLogIndex req;
  rq_numbered : forall i e, ae_Entries req !! i = Some e ->
    log_Index e = ae_PrevLogIndex req + Z.of_nat i + 1;
  rq_small : ae_PrevLogIndex req + len (ae_Entries req) < MaxUint64;
  rq_terms : terms_ok (ae_Entries req)
}.

(** What step 2 finds in a log. *)
Inductive prev_check (l : list LogEntry) (req : AppendEntriesRequest) : option (Z * Z) -> Prop :=
| prev_start : ae_PrevLogIndex req = 0 -> prev_check l req None
| prev_match :
    term_at l (ae_PrevLogIndex req) = Some (ae_PrevLogTerm req) -> prev_check l req None
| prev_short :
    len l < ae_PrevLogIndex req -> prev_check l req (Some (0, len l + 1))
| prev_conflict t j :
    term_at l (ae_PrevLogIndex req) = Some t -> t <> ae_PrevLogTerm req ->
    run_start l (ae_PrevLogIndex req) t j -> prev_check l req (Some (t, j)).

End Definitions.

(** * Lemmas: the loops over the log *)

Section Loops.
Context {L : Type} `{!LogStore L} `{!LogStoreLaws L} `{!LogStoreTruncates L}.
Implicit Types s : L.

Lemma repr_index s l i : log_repr s l -> 1 <= i <= len l + 1 -> is_uint64 i.
Proof. intros Hr Hi. pose proof (repr_small _ _ Hr). int_unfold. lia. Qed.

Lemma GetLog_term s l i t :
  log_repr s l -> term_at l i = Some t ->
  exists e, GetLog s i = Ok (Some e, None) /\ entry_at l i = Some e /\ log_Term e = t.
Proof.
  intros Hr Ht. unfold term_at in Ht. apply fmap_Some in Ht as (e & E & ->).
  exists e. split_and!; [by eapply GetLog_hit|done|done].
Qed.

Lemma drop_entry l i e :
  entry_at l i = Some e -> drop (Z.to_nat (i - 1)) l = e :: drop (Z.to_nat i) l.
Proof.
  intros E. pose proof (entry_at_Some _ _ _ E). unfold entry_at in E.
  destruct (Z.leb_spec 1 i); [|done]. rewrite (drop_S _ _ _ E). do 2 f_equal. lia.
Qed.

Lemma collect_spec fuel s l i :
  log_repr s l -> (Z.to_nat (len l - i + 1) < fuel)%nat -> 1 <= i <= len l + 1 ->
  collect fuel s i (len l) = Ok (drop (Z.to_nat (i - 1)) l).
Proof.
  intros Hr. revert i. induction fuel as [|fuel IH]; intros i Hf Hi; [lia|]. cbn [collect].
  destruct (Z.leb_spec i (len l)) as [Hle|Hgt].
  - destruct (entry_at_in l i) as [e E]; [lia|]. rewrite (GetLog_hit _ _ _ _ Hr E). cbn [obind or_panic].
    rewrite uint64_id by (apply (repr_index s l); [done|lia]). rewrite IH by lia. cbn [obind].
    rewrite (drop_entry _ _ _ E). do 4 f_equal. lia.
  - rewrite drop_ge; [done|]. unfold len in *. lia.
Qed.

Lemma find_term_spec fuel s l i t :
  log_repr s l -> (Z.to_nat i < fuel)%nat -> 0 <= i <= len l ->
  exists j, find_term fuel s i t = Ok j /\ 0 <= j <= i /\
    (0 < j -> term_at l j = Some t) /\ (forall k, j < k <= i -> term_at l k <> Some t).
Proof.
  intros Hr. revert i. induction fuel as [|fuel IH]; intros i Hf Hi; [lia|]. cbn [find_term].
  destruct (Z.leb_spec 1 i) as [Hle|Hgt].
  - destruct (term_at_in l i) as [t' Ht]; [lia|].
    destruct (GetLog_term _ _ _ _ Hr Ht) as (e & -> & _ & Het). cbn [obind or_panic].
    destruct (Z.eqb_spec (log_Term e) t) as [<-|Hne].
    + exists i. split_and!; [done|lia|lia|congruence|intros; lia].
    + destruct (IH (i - 1)) as (j & -> & Hj & H1 & H2); [lia..|].
      exists j. split_and!; [done|lia|lia|done|]. intros k Hk.
      destruct (Z.eq_dec k i) as [->|]; [congruence|]. apply H2. lia.
  - exists 0. split_and!; [done|lia|lia|lia|intros; lia].
Qed.

Lemma first_of_term_spec fuel s l i t n :
  log_repr s l -> (Z.to_nat i < fuel)%nat -> 0 <= i < n -> n <= len l ->
  (forall k, i < k <= n -> term_at l k = Some t) ->
  exists j, first_of_term fuel s i t (i + 1) = Ok j /\ run_start l n t j.
Proof.
  intros Hr. revert i. induction fuel as [|fuel IH]; intros i Hf Hi Hn Hrun; [lia|].
  cbn [first_of_term].
  destruct (Z.leb_spec 1 i) as [Hle|Hgt].
  - destruct (term_at_in l i) as [t' Ht]; [lia|].
    destruct (GetLog_term _ _ _ _ Hr Ht) as (e & -> & _ & Het). cbn [obind or_panic].
    destruct (Z.eqb_spec (log_Term e) t) as [E|Hne].
    + specialize (IH (i - 1)). replace (i - 1 + 1) with i in IH by lia. apply IH; [lia..|]. intros k Hk.
      destruct (Z.eq_dec k i) as [->|]; [congruence|]. apply Hrun. lia.
    + exists (i + 1). unfold run_start. split_and!; [done|lia|lia|intros; apply Hrun; lia|].
      right. replace (i + 1 - 1) with i by lia. congruence.
  - exists (i + 1). unfold run_start. split_and!; [done|lia|lia|intros; apply Hrun; lia|left; lia].
Qed.

(** The follower's loop makes the log what [merge] says, unless a write
    fails; then the log is the old one or a prefix of it that still has
    everything before the first entry. *)
Lemma append_loop_spec s l p es :
  log_repr s l -> continues l p es -> p + len es < MaxUint64 -> terms_ok es ->
  exists s' ok l', append_loop s es = Ok (s', ok) /\ log_repr s' l' /\
    (ok = true -> l' = merge l es) /\
    (ok = false -> exists n, p <= n /\ l' = take (Z.to_nat n) l) /\
    (LogStoreReliable L -> ok = true).
Proof.
  intros Hr. revert p. induction es as [|e es IH]; intros p Hc Hm Hte.
  { exists s, true, l. by split_and!. }
  pose proof (continues_head _ _ _ _ Hc) as He. pose proof Hc as [Hp Hidx].
  pose proof (repr_small _ _ Hr) as Hsm. rewrite len_cons in Hm. pose proof (len_nonneg es).
  cbn [append_loop merge]. rewrite He.
  destruct (entry_at l (p + 1)) as [x|] eqn:E.
  - pose proof (entry_at_Some _ _ _ E). rewrite (GetLog_hit _ _ _ _ Hr E). cbn [obind or_panic].
    destruct (Z.eqb_spec (log_Term x) (log_Term e)) as [Et|Et]; cbn [negb].
    + destruct (IH (p + 1)) as (s' & ok & l' & -> & Hr' & Hok & Hko & Hrel);
        [apply (continues_tail l p e); [done|lia]|lia|by apply Forall_cons in Hte as [_ ?]|].
      exists s', ok, l'. split_and!; [done..| |done]. intros F0. destruct (Hko F0) as (n & ? & ->).
      exists n. split; [lia|done].
    + rewrite (LastIndex_law _ _ Hr). cbn [obind].
      destruct (DeleteRange_law _ _ (p + 1) Hr) as (s1 & err & Ed & Hr1); [lia|].
      rewrite Ed. cbn [obind]. destruct err as [err|].
      { exists s1, false, l. split_and!; [done..| |].
        - intros _. exists (len l). split; [lia|]. rewrite take_ge; [done|]. unfold len. lia.
        - intros Hrel. by apply (DeleteRange_reliable _ _ _ _ _ Hr) in Ed; [|lia]. }
      replace (p + 1 - 1) with p in * by lia.
      assert (numbered (take (Z.to_nat p) l ++ e :: es)) as Hnum
        by (apply continues_numbered; [by eapply repr_numbered|done]).
      assert (len (take (Z.to_nat p) l ++ e :: es) < MaxUint64) as Hlen
        by (autorewrite with len; rewrite len_take; lia).
      destruct (StoreLogs_law _ _ (e :: es) Hr1 Hnum Hlen Hte) as (s2 & err & Es & Hr2).
      rewrite Es. cbn [obind]. eexists s2, _, _. split; [done|]. split; [exact Hr2|].
      destruct err; simpl; split_and!; try done; [intros _; exists p; split; [lia|done]|].
      intros Hrel. by apply (StoreLogs_reliable _ _ _ _ _ Hr1 Hnum Hlen Hte) in Es.
  - destruct (GetLog_miss _ _ (p + 1) Hr) as (q & err & ->); [int_unfold; lia|done|]. cbn [obind].
    apply entry_at_None in E.
    assert (take (Z.to_nat p) l = l) as Etake by (apply take_ge; unfold len in *; lia).
    assert (numbered (l ++ e :: es)) as Hnum
      by (rewrite <-Etake; apply continues_numbered; [by eapply repr_numbered|done]).
    assert (len (l ++ e :: es) < MaxUint64) as Hlen by (autorewrite with len; lia).
    destruct (StoreLogs_law _ _ (e :: es) Hr Hnum Hlen Hte) as (s2 & err2 & Es & Hr2).
    rewrite Es. cbn [obind]. eexists s2, _, _. split; [done|]. split; [exact Hr2|].
    destruct err2; simpl; split_and!; try done; [intros _; exists p; split; [lia|done]|].
    intros Hrel. by apply (StoreLogs_reliable _ _ _ _ _ Hr Hnum Hlen Hte) in Es.
Qed.

End Loops.

(** * Lemmas: counting *)

Lemma replicated_perm a b n : a ≡ₚ b -> replicated a n = replicated b n.
Proof. intros Hp. unfold replicated. by rewrite Hp. Qed.

Lemma replicated_app a b n : replicated (a ++ b) n = (replicated a n + replicated b n)%nat.
Proof. unfold replicated. by rewrite filter_app, length_app. Qed.

Lemma replicated_all a n : (forall m, m ∈ a -> n <= m) -> replicated a n = length a.
Proof.
  intros H. unfold replicated. induction a as [|x a IH]; [done|].
  rewrite filter_cons_True by (apply H; left). simpl. rewrite IH; [done|]. intros. apply H. by right.
Qed.

Lemma replicated_none a n : (forall m, m ∈ a -> m < n) -> replicated a n = 0%nat.
Proof.
  intros H. unfold replicated. induction a as [|x a IH]; [done|].
  rewrite filter_cons_False by (specialize (H x ltac:(left)); lia). apply IH. intros. apply H. by right.
Qed.

Lemma replicated_le a n : (replicated a n <= length a)%nat.
Proof. apply length_filter. Qed.

(** Position [k] of a descending list is the greatest value that more than
    [k] of its elements reach. *)
Lemma descending_nth s k x :
  StronglySorted descending s -> s !! k = Some x ->
  (k < replicated s x)%nat /\ forall y, x < y -> (replicated s y <= k)%nat.
Proof.
  intros Hs Hk. rewrite <-(take_drop_middle _ _ _ Hk) in Hs |- *.
  assert (length (take k s) = k) as Hlen.
  { rewrite length_take. apply lookup_lt_Some in Hk. lia. }
  assert (forall m, m ∈ take k s -> x <= m) as Hbefore.
  { intros m Hm. apply (StronglySorted_app_1_elem_of _ _ _ m x Hs Hm). left. }
  assert (forall m, m ∈ drop (S k) s -> m <= x) as Hafter.
  { intros m Hm. apply StronglySorted_app_1_r in Hs. inversion Hs as [|? ? _ Hall]; subst.
    rewrite Forall_forall in Hall. by apply Hall. }
  rewrite !replicated_app. split.
  - rewrite (replicated_all (take k s)) by done. rewrite Hlen. unfold replicated.
    rewrite filter_cons_True by done. simpl. lia.
  - intros y Hy. rewrite replicated_app, (replicated_none (x :: drop (S k) s)).
    + pose proof (replicated_le (take k s) y). lia.
    + intros m [->|Hm]%elem_of_cons; [done|]. specialize (Hafter _ Hm). lia.
Qed.
