(* ===== verification/Append.v ===== *)
(** * Raft: the follower

    Theorems about [handleAppendEntries]: its answer and effect on every
    branch, and what it does for Log Matching. *)

From S2P Require Import Prelude Binary Store RaftTypes Node Election Logs Replication.

Section Append.
Context {L S F R : Type} `{!LogStore L} `{!StableStore S} `{!LogStoreLaws L} `{!LogStoreTruncates L} `{!StableStoreLaws S}.
Abbreviation Node := (RaftNode L S F R).
Implicit Types r : Node.

(** ** Lemmas *)

Lemma check_prev_spec r l req :
  log_repr (logStore r) l -> req_ok req ->
  exists c, check_prev r req = Ok c /\ prev_check l req c.
Proof.
  intros Hl [_ Hp _ _ _]. unfold check_prev.
  destruct (Z.ltb_spec 0 (ae_PrevLogIndex req)) as [Hpos|Hz].
  2: { exists None. split; [done|]. apply prev_start. lia. }
  rewrite (LastIndex_law _ _ Hl). cbn [obind].
  destruct (Z.ltb_spec (len l) (ae_PrevLogIndex req)) as [Hsh|Hle].
  { eexists. split; [done|]. rewrite uint64_id; [by apply prev_short|].
    pose proof (repr_small _ _ Hl). pose proof (len_nonneg l). int_unfold. lia. }
  destruct (term_at_in l (ae_PrevLogIndex req)) as [t Ht]; [lia|].
  destruct (GetLog_term _ _ _ _ Hl Ht) as (e & -> & _ & Et). cbn [obind].
  destruct (Z.eqb_spec (log_Term e) (ae_PrevLogTerm req)) as [E|Hne]; cbn [negb].
  { exists None. split; [done|]. apply prev_match. congruence. }
  destruct (first_of_term_spec (Datatypes.S (Z.to_nat (ae_PrevLogIndex req))) _ l
    (ae_PrevLogIndex req - 1) t (ae_PrevLogIndex req) Hl) as (j & E & Hj); [lia..| |].
  { intros k Hk. by replace k with (ae_PrevLogIndex req) by lia. }
  replace (ae_PrevLogIndex req - 1 + 1) with (ae_PrevLogIndex req) in E by lia.
  rewrite Et, E. eexists. split; [done|]. apply prev_conflict; [done|congruence|done].
Qed.

(** Entries of a request that passed the check continue the log. *)
Lemma check_continues l req :
  req_ok req -> prev_check l req None -> continues l (ae_PrevLogIndex req) (ae_Entries req).
Proof.
  intros [_ Hp Hn _] Hc. split; [|done].
  inversion Hc as [E|Ht| |]; [pose proof (len_nonneg l); lia|].
  apply term_at_Some in Ht. lia.
Qed.

Lemma update_commit_spec r l lc :
  log_repr (logStore r) l ->
  exists r', update_commit r lc = Ok r' /\
    r' = (if commitIndex r <? lc then notifyCommit (set_commit r (Z.min lc (len l))) else r).
Proof.
  intros Hl. unfold update_commit. destruct (commitIndex r <? lc); [|by eexists].
  rewrite (LastIndex_law _ _ Hl). eexists. split; [done|]. simpl.
  destruct (Z.ltb_spec (len l) lc); do 2 f_equal; lia.
Qed.

(** The part of the handler before the log is looked at. *)
Lemma accept_leader r l req :
  node_ok r l -> req_ok req -> currentTerm r <= ae_Term req ->
  exists r1,
    (if currentTerm r <? ae_Term req then stepDown r (ae_Term req)
     else if negb (bool_decide (state r = Follower)) then stepDown r (ae_Term req) else Ok r) = Ok r1 /\
    node_ok r1 l /\ same_rest r r1 /\ currentTerm r1 = ae_Term req /\
    votedFor r1 = (if (currentTerm r <? ae_Term req) || negb (bool_decide (state r = Follower))
                   then [] else votedFor r) /\
    (StableStoreReliable S -> durable r -> durable r1).
Proof.
  intros Hok [Ht _ _ _] Hle.
  destruct (stepDown_ok r l (ae_Term req) Hok Ht) as (r1 & E & H1 & H2 & H3 & H4 & H5 & _ & _ & H6).
  destruct (Z.ltb_spec (currentTerm r) (ae_Term req)); [exists r1; by split_and!; auto|].
  case_bool_decide; simpl; [|exists r1; by split_and!; auto].
  exists r. split_and!; try done; lia.
Qed.

(** What a handler that accepts the sender leaves alone. *)
Definition append_rest r r' : Prop :=
  config r' = config r /\ lastApplied r' = lastApplied r /\ peers r' = peers r /\
  heap r' = heap r /\ fsm r' = fsm r /\ pendingFutures r' = pendingFutures r /\
  futures r' = futures r /\ applyCh r' = applyCh r /\ shutdownCh r' = shutdownCh r.

(** ** Theorems *)

Lemma handleAppendEntries_effect r l req :
  node_ok r l -> req_ok req ->
  exists r' resp reset l',
    handleAppendEntries r req = Ok (r', resp, reset) /\ node_ok r' l' /\
    (ae_Term req < currentTerm r ->
       r' = r /\ l' = l /\ reset = false /\ resp = mkAppendResp (currentTerm r) false 0 0) /\
    (currentTerm r <= ae_Term req ->
       reset = true /\ currentTerm r' = ae_Term req /\ ar_Term resp = ae_Term req /\
       state r' = Follower /\ leaderID r' = ae_LeaderID req /\ append_rest r r' /\
       votedFor r' = (if (currentTerm r <? ae_Term req) || negb (bool_decide (state r = Follower))
                      then [] else votedFor r) /\
       exists c, prev_check l req c /\
         match c with
         | Some (t, j) =>
             resp = mkAppendResp (ae_Term req) false t j /\ l' = l /\ commitIndex r' = commitIndex r
         | None =>
             if ar_Success resp then
               l' = merge l (ae_Entries req) /\
               commitIndex r' = (if commitIndex r <? ae_LeaderCommit req
                                 then Z.min (ae_LeaderCommit req) (len l') else commitIndex r)
             else commitIndex r' = commitIndex r /\ ~ LogStoreReliable L /\
               exists n, ae_PrevLogIndex req <= n /\ l' = take (Z.to_nat n) l
         end) /\
    (StableStoreReliable S -> durable r -> durable r').
Proof.
  intros Hok Hreq. unfold handleAppendEntries.
  destruct (Z.ltb_spec (ae_Term req) (currentTerm r)) as [Hst|Hge].
  { eexists r, _, _, l. split_and!; try done. intros; lia. }
  destruct (accept_leader r l req Hok Hreq Hge) as (r1 & -> & Hok1 & Hsr & Ht1 & Hv1 & Hd1).
  cbn [obind]. set (r2 := set_leader _ _ _).
  assert (node_ok r2 l) as Hok2 by (destruct Hok1; by split).
  assert (StableStoreReliable S -> durable r -> durable r2) as Hd2 by exact Hd1.
  assert (append_rest r r2) as Hrest by (unfold same_rest in Hsr; unfold append_rest; simpl; tauto).
  assert (commitIndex r2 = commitIndex r) as Hci by apply Hsr.
  destruct (check_prev_spec r2 l req (ok_log _ _ Hok2) Hreq) as (c & -> & Hc). cbn [obind].
  change (currentTerm r2) with (currentTerm r1). rewrite Ht1.
  destruct c as [[t j]|].
  { eexists r2, _, _, l. split_and!; try done; [intros; lia|]. intros _. split_and!; try done.
    exists (Some (t, j)). by split_and!. }
  destruct (append_loop_spec (logStore r2) l _ _ (ok_log _ _ Hok2) (check_continues _ _ Hreq Hc)
    (rq_small _ Hreq) (rq_terms _ Hreq)) as (s' & ok & l' & -> & Hl' & Htrue & Hfalse & Hrel). cbn [obind].
  assert (node_ok (set_log r2 s') l') as Hok3 by (destruct Hok2; by split).
  destruct ok.
  - destruct (update_commit_spec (set_log r2 s') l' (ae_LeaderCommit req) Hl') as (r3 & -> & Er3).
    cbn [obind]. eexists r3, _, _, l'. split; [done|].
    change (commitIndex (set_log r2 s')) with (commitIndex r2) in Er3. rewrite Hci in Er3.
    assert (node_ok r3 l') as Hok4.
    { rewrite Er3. destruct (commitIndex r <? _); [|done]. destruct Hok3. by split. }
    split_and!; try done; [intros; lia| |rewrite Er3; by destruct (commitIndex r <? _)].
    intros _. rewrite Er3. destruct (commitIndex r <? ae_LeaderCommit req) eqn:Ecl; split_and!; try done;
      exists None; (split; [done|]); simpl; rewrite Htrue by done; done.
  - eexists _, _, _, l'. split_and!; try done; [intros; lia|]. intros _. split_and!; try done.
    exists None. split; [done|]. simpl. split_and!; [done|by intros Hx; apply Hrel in Hx|]. by apply Hfalse.
Qed.

(** C14: the follower.  A stale sender is turned away with nothing changed.
    Any other is accepted as the leader of its term: the term, the role, the
    known leader and, on a change of term or role, the cleared vote are set;
    then the previous entry decides: where the logs do not meet there, the
    answer names the conflicting term and the first index of its run, or the
    end of a log that is too short, and log and commit index stay; where they
    meet, the log becomes [merge] of itself and the entries, and the commit
    index follows the leader's up to the end of the log; if the store fails a
    write, which a reliable one does not, the answer is a failure, the log at
    most cut back to what precedes the entries.  If term and vote on disk were those in memory, and the
    writes of the stable store do not fail, they still are. *)
Theorem handleAppendEntries_spec r l req :
  node_ok r l -> req_ok req ->
  exists r' resp reset l',
    handleAppendEntries r req = Ok (r', resp, reset) /\ node_ok r' l' /\
    (ae_Term req < currentTerm r ->
       r' = r /\ l' = l /\ reset = false /\ resp = mkAppendResp (currentTerm r) false 0 0) /\
    (currentTerm r <= ae_Term req ->
       reset = true /\ currentTerm r' = ae_Term req /\ ar_Term resp = ae_Term req /\
       state r' = Follower /\ leaderID r' = ae_LeaderID req /\ append_rest r r' /\
       votedFor r' = (if (currentTerm r <? ae_Term req) || negb (bool_decide (state r = Follower))
                      then [] else votedFor r) /\
       exists c, prev_check l req c /\
         match c with
         | Some (t, j) =>
             resp = mkAppendResp (ae_Term req) false t j /\ l' = l /\ commitIndex r' = commitIndex r
         | None =>
             if ar_Success resp then
               l' = merge l (ae_Entries req) /\
               commitIndex r' = (if commitIndex r <? ae_LeaderCommit req
                                 then Z.min (ae_LeaderCommit req) (len l') else commitIndex r)
             else commitIndex r' = commitIndex r /\ ~ LogStoreReliable L /\
               exists n, ae_PrevLogIndex req <= n /\ l' = take (Z.to_nat n) l
         end) /\
    (StableStoreReliable S -> durable r -> durable r').
Proof. apply handleAppendEntries_effect. Qed.

(** A request cut from a leader's log. *)
Definition from_leader (Lg : list LogEntry) (req : AppendEntriesRequest) : Prop :=
  ae_Entries req = take (length (ae_Entries req)) (drop (Z.to_nat (ae_PrevLogIndex req)) Lg) /\
  (0 < ae_PrevLogIndex req -> term_at Lg (ae_PrevLogIndex req) = Some (ae_PrevLogTerm req)).

Lemma check_meets l Lg req :
  req_ok req -> from_leader Lg req -> prev_check l req None ->
  ae_PrevLogIndex req = 0 \/
  exists t, term_at l (ae_PrevLogIndex req) = Some t /\ term_at Lg (ae_PrevLogIndex req) = Some t.
Proof.
  intros [_ Hp _ _ _] [_ Hpt] Hc. destruct (Z.eq_dec (ae_PrevLogIndex req) 0); [by left|right].
  inversion Hc as [|Ht| |]; [lia|]. eexists. split; [done|]. apply Hpt. lia.
Qed.

(** C12: Log Matching.  Let a request be cut from a leader's log that
    matches the follower's.  Whatever the answer, the follower's log matches
    the leader's and every third log that matched both; and when the answer
    is success, the follower has exactly the leader's log up to the last
    entry sent, has lost nothing it had in common with the leader, and what
    it now holds committed is in the leader's log. *)
Theorem handleAppendEntries_log_matching r l Lg req r' resp reset :
  node_ok r l -> req_ok req -> from_leader Lg req -> log_matching Lg l ->
  handleAppendEntries r req = Ok (r', resp, reset) ->
  exists l', node_ok r' l' /\ log_matching Lg l' /\
    (forall K, log_matching K Lg -> log_matching K l -> log_matching K l') /\
    (ar_Success resp = true ->
       let upto := ae_PrevLogIndex req + len (ae_Entries req) in
       take (Z.to_nat upto) l' = take (Z.to_nat upto) Lg /\ upto <= len l' /\
       (forall c, 0 <= c <= len l -> take (Z.to_nat c) l = take (Z.to_nat c) Lg ->
          take (Z.to_nat c) l' = take (Z.to_nat c) l)).
Proof.
  intros Hok Hreq Hfrom Hlm E.
  destruct (handleAppendEntries_effect r l req Hok Hreq) as (r1 & resp1 & b & l' & E1 & Hok' & Hst & Hge & _).
  rewrite E in E1. injection E1 as <- <- <-. exists l'. split; [done|].
  assert (forall K, log_matching K Lg -> log_matching K l -> log_matching K l') as HK.
  { intros K HKL HKl. destruct (Z.lt_ge_cases (ae_Term req) (currentTerm r)) as [Hlt|Hle].
    { by destruct (Hst Hlt) as (_ & -> & _). }
    destruct (Hge Hle) as (_ & _ & _ & _ & _ & _ & _ & [[t j]|] & Hc & Hcase).
    { by destruct Hcase as (_ & -> & _). }
    destruct (ar_Success resp).
    - destruct Hcase as [-> _]. destruct Hfrom as [Hes Hpt] eqn:Ef.
      eapply (merge_keeps_matching K Lg); eauto; [by apply check_continues|].
      by apply check_meets.
    - destruct Hcase as (_ & _ & n & _ & ->). by apply log_matching_take. }
  split; [by apply HK|]. split; [done|]. intros Hs.
  destruct (Z.lt_ge_cases (ae_Term req) (currentTerm r)) as [Hlt|Hle].
  { destruct (Hst Hlt) as (_ & _ & _ & ->). done. }
  destruct (Hge Hle) as (_ & _ & _ & _ & _ & _ & _ & [[t j]|] & Hc & Hcase).
  { destruct Hcase as (-> & _). done. }
  rewrite Hs in Hcase. destruct Hcase as [-> _].
  pose proof (check_continues _ _ Hreq Hc) as Hcont. pose proof Hfrom as [Hes _].
  split_and!.
  - apply (merge_matching Lg l _ _ Hcont Hes); [by apply check_meets|done].
  - by apply merge_len.
  - intros c Hcl Ec. by apply (merge_keeps_prefix Lg l _ _ c Hcont Hes).
Qed.

End Append.
