(* ===== verification/Leader.v ===== *)
(** * Raft: the leader

    Theorems about the leader's side of replication: the request it builds,
    the commit rule, what a response does, and that the exchange with one
    follower ends with the leader's log on the follower. *)

From S2P Require Import Prelude Binary Store RaftTypes Node Election Logs Replication Append.

Section Leader.
Context {L S F R : Type} `{!LogStore L} `{!StableStore S} `{!LogStoreLaws L} `{!LogStoreTruncates L} `{!StableStoreLaws S}.
Abbreviation Node := (RaftNode L S F R).
Implicit Types r : Node.

(** ** Specification *)

(** A peer record within the leader's log. *)
Definition peer_ok (l : list LogEntry) (p : peerState) : Prop :=
  1 <= nextIndex p <= len l + 1 /\ 0 <= matchIndex p <= len l.

(** Every pointer of [peers] leads somewhere, to machine integers. *)
Definition peers_ok r : Prop :=
  forall id loc, peers r !! id = Some loc ->
    exists p, heap r !! loc = Some p /\ is_uint64 (matchIndex p).

Definition matchIndexes r : list Z :=
  map (fun loc => from_option matchIndex 0 (heap r !! loc)) (map_to_list (peers r)).*2.

(** The request for a peer of a leader with the log [l]. *)
Definition request_for r (l : list LogEntry) (p : peerState) : AppendEntriesRequest :=
  let prev := nextIndex p - 1 in
  mkAppendReq (currentTerm r) (ServerID (config r)) prev (default 0 (term_at l prev))
    (drop (Z.to_nat prev) l) (commitIndex r).

(** The commit rule. *)
Definition may_commit r (l : list LogEntry) (n : Z) : Prop :=
  commitIndex r < n /\ term_at l n = Some (currentTerm r).

#[export] Instance may_commit_dec r l n : Decision (may_commit r l n).
Proof. unfold may_commit. apply _. Defined.

(** ** Lemmas *)

Lemma replicate_request_ok r l peer p :
  log_repr (logStore r) l -> state r = Leader -> heap r !! peer = Some p ->
  1 <= nextIndex p <= len l + 1 ->
  replicate_request r peer = Ok (Some (request_for r l p)).
Proof.
  intros Hl Hst Hp Hn. pose proof (repr_small _ _ Hl) as Hsm.
  unfold replicate_request, request_for. rewrite Hst, Hp. cbn [bool_decide decide negb obind or_panic].
  rewrite bool_decide_true by done. cbn [negb].
  rewrite uint64_id by (int_unfold; lia).
  assert ((if 0 <? nextIndex p - 1
           then let! (entry, err) := GetLog (logStore r) (nextIndex p - 1) in
                match err with
                | Some _ => Ok 0
                | None => let! e := or_panic entry in Ok (log_Term e)
                end
           else Ok 0) = Ok (E := Empty_set) (default 0 (term_at l (nextIndex p - 1)))) as ->.
  { destruct (Z.ltb_spec 0 (nextIndex p - 1)) as [H0|H0].
    - destruct (term_at_in l (nextIndex p - 1)) as [t Ht]; [lia|].
      destruct (GetLog_term _ _ _ _ Hl Ht) as (e & -> & _ & <-). cbn [obind or_panic]. by rewrite Ht.
    - destruct (term_at l (nextIndex p - 1)) eqn:E; [|done]. apply term_at_Some in E. lia. }
  cbn [obind]. rewrite (LastIndex_law _ _ Hl). cbn [obind].
  destruct (Z.leb_spec (nextIndex p) (len l)) as [Hle|Hgt].
  - rewrite (collect_spec _ _ l) by (done || lia). done.
  - cbn [obind]. rewrite drop_ge; [done|]. unfold len in *. lia.
Qed.

Lemma request_for_ok r l p :
  node_ok r l -> 1 <= nextIndex p <= len l + 1 ->
  req_ok (request_for r l p) /\ from_leader l (request_for r l p).
Proof.
  intros [Hl _ Ht] Hn. pose proof (repr_small _ _ Hl) as Hsm. pose proof (repr_numbered _ _ Hl) as Hnum.
  split; [split; simpl; [done|lia| | |]|split; simpl].
  - intros i e E. rewrite lookup_drop in E. rewrite (Hnum _ _ E). lia.
  - unfold len in *. rewrite length_drop. lia.
  - apply Forall_drop. by eapply repr_terms.
  - by rewrite take_ge.
  - intros H0. destruct (term_at_in l (nextIndex p - 1)) as [t ->]; [lia|done].
Qed.

Lemma match_indexes_ok (h : list peerState) locs :
  (forall loc, loc ∈ locs -> is_Some (h !! loc)) ->
  match_indexes h locs = Ok (map (fun loc => from_option matchIndex 0 (h !! loc)) locs).
Proof.
  induction locs as [|loc locs IH]; intros H; [done|]. cbn [match_indexes map].
  destruct (H loc) as [p Hp]; [left|]. rewrite Hp. cbn [or_panic obind].
  rewrite IH by (intros; apply H; by right). done.
Qed.

Lemma matchIndexes_in r m : peers_ok r -> m ∈ matchIndexes r -> is_uint64 m.
Proof.
  intros Hp (loc & -> & Hl)%list_elem_of_fmap. apply list_elem_of_fmap in Hl as ([id loc'] & -> & Hl).
  apply elem_of_map_to_list in Hl. destruct (Hp _ _ Hl) as (p & E & Hu). simpl. by rewrite E.
Qed.

Lemma quorum_index_exists ms :
  ms <> [] ->
  exists n, index (merge_sort descending ms) (len (merge_sort descending ms) / 2 + 1 - 1) = Some n /\
    quorum_index ms n /\ n ∈ ms.
Proof.
  intros Hne. set (s := merge_sort descending ms).
  assert (s ≡ₚ ms) as Hp by apply merge_sort_Permutation.
  assert (StronglySorted descending s) as Hs by (apply StronglySorted_merge_sort; apply _).
  assert (length s = length ms) as Hlen by (by rewrite Hp).
  assert (0 < length ms)%nat by (destruct ms; [done|simpl; lia]).
  replace (len s / 2 + 1 - 1) with (Z.of_nat (length s / 2)).
  2: { unfold len. rewrite Nat2Z.inj_div. simpl. lia. }
  rewrite index_nat. destruct (lookup_lt_is_Some_2 s (length s / 2)) as [n Hn].
  { apply Nat.div_lt; lia. }
  exists n. split; [done|]. destruct (descending_nth s _ n Hs Hn) as [H1 H2].
  pose proof (Nat.div_mod_eq (length s) 2). pose proof (Nat.mod_upper_bound (length s) 2).
  unfold quorum_index. split; [split|].
  - rewrite <-(replicated_perm s ms) by done. lia.
  - intros n' Hn'. rewrite <-(replicated_perm s ms) by done. specialize (H2 n' Hn'). lia.
  - rewrite <-Hp. by eapply list_elem_of_lookup_2.
Qed.

(** ** Theorems *)

Lemma advanceCommitIndex_effect r l :
  node_ok r l -> peers_ok r ->
  exists n, quorum_index (len l :: matchIndexes r) n /\
    advanceCommitIndex r =
      Ok (if decide (may_commit r l n) then notifyCommit (set_commit r n) else r).
Proof.
  intros [Hl _ _] Hp. unfold advanceCommitIndex. rewrite (LastIndex_law _ _ Hl). cbn [obind].
  rewrite match_indexes_ok.
  2: { intros loc ([id loc'] & -> & Hi)%list_elem_of_fmap. apply elem_of_map_to_list in Hi.
       destruct (Hp _ _ Hi) as (p & E & _). simpl. rewrite E. by eexists. }
  cbn [obind]. fold (matchIndexes r).
  destruct (quorum_index_exists (len l :: matchIndexes r)) as (n & -> & Hq & Hin); [done|].
  cbn [or_panic obind]. exists n. split; [done|].
  destruct (Z.leb_spec n (commitIndex r)) as [Hle|Hgt].
  { rewrite decide_False; [done|]. intros [? _]. lia. }
  destruct (entry_at l n) as [e|] eqn:E.
  - assert (term_at l n = Some (log_Term e)) as Et by (unfold term_at; by rewrite E).
    rewrite (GetLog_hit _ _ _ _ Hl E). cbn [obind or_panic].
    destruct (Z.eqb_spec (log_Term e) (currentTerm r)) as [Ht|Hne].
    + rewrite decide_True; [done|]. split; [done|congruence].
    + rewrite decide_False; [done|]. intros [_ ?]. congruence.
  - assert (term_at l n = None) as Et by (unfold term_at; by rewrite E).
    destruct (GetLog_miss _ _ n Hl) as (q & err & ->); [|done|].
    + apply elem_of_cons in Hin as [->|Hin]; [|by eapply matchIndexes_in].
      pose proof (repr_small _ _ Hl). pose proof (len_nonneg l). int_unfold. lia.
    + cbn [obind]. rewrite decide_False; [done|]. intros [_ ?]. congruence.
Qed.

(** C15: the commit rule.  [advanceCommitIndex] finds the greatest index that
    a majority of the servers, the leader among them, has, and moves the
    commit index to it, waking the apply loop, exactly if that is forward and
    the entry there is of the current term. *)
Theorem advanceCommitIndex_spec r l :
  node_ok r l -> peers_ok r ->
  exists n, quorum_index (len l :: matchIndexes r) n /\
    advanceCommitIndex r =
      Ok (if decide (may_commit r l n) then notifyCommit (set_commit r n) else r).
Proof. apply advanceCommitIndex_effect. Qed.

(** The next index after a refusal. *)
Definition backed_up (Lg : list LogEntry) (resp : AppendEntriesResponse) (next : Z) : Prop :=
  1 <= next /\
  ((0 < ar_ConflictTerm resp /\ term_at Lg (next - 1) = Some (ar_ConflictTerm resp) /\
    forall k, next <= k <= len Lg -> term_at Lg k <> Some (ar_ConflictTerm resp)) \/
   (next = Z.max 1 (ar_ConflictIndex resp) /\
    (0 < ar_ConflictTerm resp -> forall k, term_at Lg k <> Some (ar_ConflictTerm resp)))).

Lemma refused_spec r l peer p es resp :
  node_ok r l -> heap r !! peer = Some p -> ar_Term resp <= currentTerm r -> ar_Success resp = false ->
  exists next, replicate_response r peer es (Some resp) =
      Ok (set_peer r peer (mkPeerState (ps_id p) (ps_addr p) next (matchIndex p) (ps_triggerCh p))) /\
    backed_up l resp next.
Proof.
  intros [Hl _ _] Hp Ht Hs. unfold replicate_response, backed_up.
  rewrite (proj2 (Z.ltb_ge _ _)), Hp, Hs by lia. cbn [or_panic obind].
  pose proof (repr_small _ _ Hl) as Hsm. pose proof (len_nonneg l).
  assert (forall n, (if n <? 1 then 1 else n) = Z.max 1 n) as Hmax.
  { intros n. destruct (Z.ltb_spec n 1); lia. }
  destruct (Z.ltb_spec 0 (ar_ConflictTerm resp)) as [H0|H0].
  2: { eexists. split; [done|]. rewrite Hmax. split; [lia|]. right. split; [done|lia]. }
  rewrite (LastIndex_law _ _ Hl). cbn [obind].
  destruct (find_term_spec (Datatypes.S (Z.to_nat (len l))) _ l (len l) (ar_ConflictTerm resp) Hl)
    as (j & -> & Hj & Hat & Habs); [lia..|]. cbn [obind].
  destruct (Z.ltb_spec 0 j) as [Hpos|Hz]; cbn [obind]; eexists; (split; [done|]); rewrite Hmax.
  - rewrite uint64_id, Z.max_r by (int_unfold; lia). split; [lia|]. left.
    replace (j + 1 - 1) with j by lia. split_and!; [done|auto|]. intros k Hk. apply Habs. lia.
  - split; [lia|]. right. split; [done|]. intros _ k Hk. pose proof (term_at_Some _ _ _ Hk).
    apply (Habs k); [lia|done].
Qed.

(** Responses.  A failed RPC changes nothing; a response of a later term
    makes the leader a follower of that term; an acceptance records the last
    entry sent as matched, the one after it as next, and lets the commit rule
    look again; a refusal moves the next index, never below 1, to just after
    the leader's last entry of the conflicting term, or to the index the
    follower names when there is none. *)
Lemma replicate_response_effect r l peer p es resp :
  node_ok r l -> heap r !! peer = Some p ->
  replicate_response r peer es None = Ok r /\
  (currentTerm r < ar_Term resp ->
     replicate_response r peer es (Some resp) = stepDown r (ar_Term resp)) /\
  (ar_Term resp <= currentTerm r -> ar_Success resp = true ->
     replicate_response r peer es (Some resp) =
       advanceCommitIndex
         (match last es with
          | None => r
          | Some e => set_peer r peer (mkPeerState (ps_id p) (ps_addr p) (uint64 (log_Index e + 1))
                                         (log_Index e) (ps_triggerCh p))
          end)) /\
  (ar_Term resp <= currentTerm r -> ar_Success resp = false ->
     exists next, replicate_response r peer es (Some resp) =
         Ok (set_peer r peer (mkPeerState (ps_id p) (ps_addr p) next (matchIndex p) (ps_triggerCh p))) /\
       backed_up l resp next).
Proof.
  intros Hok Hp. split_and!.
  - done.
  - intros Ht. unfold replicate_response. by rewrite (proj2 (Z.ltb_lt _ _)).
  - intros Ht Hs. unfold replicate_response.
    rewrite (proj2 (Z.ltb_ge _ _)), Hp, Hs by lia. cbn [or_panic obind]. by destruct (last es).
  - intros Ht Hs. by apply refused_spec.
Qed.

(** ** The exchange with one follower *)

(** Turns of the replicator of [peer] against the follower [f], as long as
    it refuses. *)
Fixpoint exchange (n : nat) r (f : Node) (peer : nat) : outcome Empty_set (Node * Node * bool) :=
  match n with
  | O => Ok (r, f, false)
  | Datatypes.S n =>
      let! req := replicate_request r peer in
      match req with
      | None => Ok (r, f, false)
      | Some req =>
          let! (f, resp, _) := handleAppendEntries f req in
          let! r := replicate_response r peer (ae_Entries req) (Some resp) in
          if ar_Success resp then Ok (r, f, true) else exchange n r f peer
      end
  end.

(** Entries of one term come from one log, its leader's, which only grows. *)
Definition coherent (l k : list LogEntry) : Prop :=
  forall i j t, term_at l i = Some t -> term_at k j = Some t ->
    take (Z.to_nat (Z.min i j)) l = take (Z.to_nat (Z.min i j)) k.

Lemma coherent_matching l k : coherent l k -> log_matching l k.
Proof. intros H i t H1 H2. pose proof (H i i t H1 H2) as E. by rewrite Z.min_id in E. Qed.

(** A refusal moves the next index down. *)
Lemma backed_up_less r l Lg p t j next :
  coherent Lg l -> 1 <= nextIndex p <= len Lg + 1 ->
  prev_check l (request_for r Lg p) (Some (t, j)) ->
  backed_up Lg (mkAppendResp (currentTerm r) false t j) next ->
  1 <= next < nextIndex p.
Proof.
  intros Hco Hn Hc [H1 Hb]. split; [done|]. simpl in Hb.
  set (prev := nextIndex p - 1) in *.
  inversion Hc as [| |Hsh|t' j' Ht Hne [Hj _]]; subst; simpl in *; fold prev in Hsh || fold prev in Ht, Hne, Hj.
  - pose proof (len_nonneg l). lia.
  - destruct Hb as [(_ & Hat & _)|[-> _]]; [|lia].
    destruct (Z.lt_ge_cases next (nextIndex p)) as [|Hge]; [done|]. exfalso. apply Hne.
    pose proof (Hco _ _ _ Hat Ht) as E. rewrite Z.min_r in E by lia.
    assert (term_at Lg prev = Some t) as Et.
    { rewrite <-Ht. unfold term_at. f_equal. apply (entry_at_take_eq Lg l prev); [done|lia|lia]. }
    by rewrite Et.
Qed.

Lemma set_peer_peers_ok r peer p :
  peers_ok r -> is_Some (heap r !! peer) -> is_uint64 (matchIndex p) -> peers_ok (set_peer r peer p).
Proof.
  intros H [q Hq] Hp id loc Hl. destruct (H id loc Hl) as (p' & Hp' & Hu). simpl.
  destruct (decide (loc = peer)) as [->|Hne].
  - rewrite list_lookup_insert_eq by (by eapply lookup_lt_Some). by eexists.
  - rewrite list_lookup_insert_ne by done. by eexists.
Qed.

(** What a success does to the leader's state. *)
Lemma accepted_spec r l peer p resp :
  node_ok r l -> peers_ok r -> heap r !! peer = Some p -> 1 <= nextIndex p <= len l + 1 ->
  ar_Term resp <= currentTerm r -> ar_Success resp = true ->
  exists r' p', replicate_response r peer (drop (Z.to_nat (nextIndex p - 1)) l) (Some resp) = Ok r' /\
    node_ok r' l /\ state r' = state r /\ heap r' !! peer = Some p' /\
    nextIndex p' = len l + 1 /\ (nextIndex p <= len l -> matchIndex p' = len l) /\
    (nextIndex p = len l + 1 -> p' = p).
Proof.
  intros Hok Hpk Hp Hn Ht Hs. pose proof (repr_small _ _ (ok_log _ _ Hok)) as Hsm.
  destruct (replicate_response_effect r l peer p (drop (Z.to_nat (nextIndex p - 1)) l) resp Hok Hp)
    as (_ & _ & Hacc & _). rewrite (Hacc Ht Hs). clear Hacc.
  set (r1 := match last _ with None => _ | Some _ => _ end).
  assert (node_ok r1 l /\ peers_ok r1 /\ state r1 = state r /\ exists p', heap r1 !! peer = Some p' /\
    nextIndex p' = len l + 1 /\ (nextIndex p <= len l -> matchIndex p' = len l) /\
    (nextIndex p = len l + 1 -> p' = p)) as (Hok1 & Hpk1 & Hst1 & p' & Hp' & Hnext & Hmatch & Hsame).
  { subst r1. destruct (Z.eq_dec (nextIndex p) (len l + 1)) as [E|Hne].
    - rewrite drop_ge by (unfold len in *; lia). simpl. split_and!; try done. exists p.
      split_and!; try done. lia.
    - destruct (entry_at_in l (len l)) as [e He]; [lia|].
      pose proof (entry_at_index _ _ _ (repr_numbered _ _ (ok_log _ _ Hok)) He) as Hi.
      assert (last (drop (Z.to_nat (nextIndex p - 1)) l) = Some e) as ->.
      { rewrite last_lookup, lookup_drop, length_drop. unfold entry_at in He.
        destruct (Z.leb_spec 1 (len l)); [|done]. rewrite <-He. f_equal. unfold len in *. lia. }
      rewrite Hi, uint64_id by (int_unfold; lia). split_and!.
      + destruct Hok. by split.
      + apply set_peer_peers_ok; [done|by eexists|]. simpl. pose proof (len_nonneg l). int_unfold. lia.
      + done.
      + eexists. simpl. rewrite list_lookup_insert_eq by (by eapply lookup_lt_Some). split; [done|].
        simpl. split_and!; [done..|lia]. }
  destruct (advanceCommitIndex_effect r1 l Hok1 Hpk1) as (n & _ & ->).
  eexists _, p'. split; [done|]. destruct (decide _); split_and!; try done. destruct Hok1. by split.
Qed.

(** C13: replication succeeds.  Take a leader and a follower whose terms are
    not ahead of the leader's, whose logs are coherent and whose stores do
    not fail.  Wherever the leader believes the follower's log to end, no
    more turns than that index are refused before the follower accepts; it
    then holds the whole log of the leader, and the leader knows. *)
Theorem exchange_converges r Lg f l peer p :
  LogStoreReliable L ->
  node_ok r Lg -> node_ok f l -> state r = Leader -> currentTerm f <= currentTerm r ->
  peers_ok r -> heap r !! peer = Some p -> is_uint64 (matchIndex p) ->
  1 <= nextIndex p <= len Lg + 1 -> coherent Lg l ->
  exists r' f' l' p',
    exchange (Z.to_nat (nextIndex p)) r f peer = Ok (r', f', true) /\
    node_ok r' Lg /\ state r' = Leader /\ node_ok f' l' /\ take (length Lg) l' = Lg /\
    heap r' !! peer = Some p' /\ nextIndex p' = len Lg + 1 /\
    (nextIndex p <= len Lg -> matchIndex p' = len Lg).
Proof.
  intros Hrel Hr Hf Hst Hterm Hpk Hp Hm Hn Hco.
  remember (Z.to_nat (nextIndex p)) as n eqn:En.
  assert (Z.to_nat (nextIndex p) <= n)%nat as Hle by lia. clear En.
  revert r f p Hr Hf Hst Hterm Hpk Hp Hm Hn Hle.
  induction n as [|n IH]; intros r f p Hr Hf Hst Hterm Hpk Hp Hm Hn Hle; [lia|].
  cbn [exchange]. rewrite (replicate_request_ok r Lg peer p (ok_log _ _ Hr) Hst Hp Hn). cbn [obind].
  destruct (request_for_ok r Lg p Hr Hn) as [Hreq Hfrom].
  destruct (handleAppendEntries_effect f l (request_for r Lg p) Hf Hreq)
    as (f' & resp & b & l' & E & Hf' & _ & Hge & _).
  rewrite E. cbn [obind].
  destruct (Hge Hterm) as (_ & Ht' & Hrt & _ & _ & _ & _ & c & Hc & Hcase). simpl in Ht', Hrt.
  destruct c as [[t j]|].
  - destruct Hcase as (-> & -> & _).
    destruct (refused_spec r Lg peer p (ae_Entries (request_for r Lg p))
      (mkAppendResp (ae_Term (request_for r Lg p)) false t j) Hr Hp) as (next & -> & Hb); [done|done|].
    cbn [obind ar_Success]. pose proof (backed_up_less _ _ _ _ _ _ _ Hco Hn Hc Hb) as Hnext.
    set (p1 := mkPeerState _ _ next _ _).
    assert (heap (set_peer r peer p1) !! peer = Some p1) as Hp1
      by (simpl; apply list_lookup_insert_eq; by eapply lookup_lt_Some).
    destruct (IH (set_peer r peer p1) f' p1) as (r' & f2 & l2 & p' & E' & H1 & H2 & H3 & H4 & H5 & H6 & H7);
      simpl; try done; try lia.
    + destruct Hr. by split.
    + apply set_peer_peers_ok; [done|by eexists|done].
    + exists r', f2, l2, p'. split_and!; try done. intros _. apply H7. simpl. lia.
  - destruct (ar_Success resp) eqn:Es; [|by destruct Hcase as (_ & [] & _)].
    change (ae_Entries (request_for r Lg p)) with (drop (Z.to_nat (nextIndex p - 1)) Lg).
    destruct (accepted_spec r Lg peer p resp Hr Hpk Hp Hn) as (r' & p' & -> & H1 & H2 & H3 & H4 & H5 & _);
      [rewrite Hrt; simpl; lia|done|].
    cbn [obind]. exists r', f', l', p'. split_and!; try done; [congruence|].
    destruct Hcase as [-> _]. pose proof (check_continues _ _ Hreq Hc) as Hcont.
    destruct (merge_matching Lg l _ _ Hcont (proj1 Hfrom) (check_meets _ _ _ Hreq Hfrom Hc)
      (coherent_matching _ _ Hco)) as [E' _].
    replace (Z.to_nat (ae_PrevLogIndex (request_for r Lg p) + len (ae_Entries (request_for r Lg p))))
      with (length Lg) in E'; [by rewrite E', firstn_all|].
    simpl. unfold len in *. rewrite length_drop. lia.
Qed.

End Leader.
