(* ===== verification/Loops.v ===== *)
(** * Raft: the loops of the node ([internal/raft/raft.go])

    The public [Apply] and [Shutdown], the leader's appends, the apply loop,
    RPC dispatch and the three role loops.  What a [select] receives is an
    argument: each loop runs over the list of things that happen to it, and
    reports whether it has returned. *)

From S2P Require Import Prelude Binary Store RaftTypes Node Election Replication.

Section Loops.
Context {L S F R : Type} `{!LogStore L} `{!StableStore S} `{!FSM F R}.
Abbreviation Node := (RaftNode L S F R).
Implicit Types r : Node.

(** ** Public interface *)

(** Which case of the [select] in [Apply] fires. *)
Inductive apply_case : Type := Sent | TimedOut | ShutdownSeen.

(** The channel holds 256 requests. *)
Definition case_enabled r (c : apply_case) : Prop :=
  match c with
  | Sent => len (applyCh r) < 256
  | TimedOut => True
  | ShutdownSeen => shutdownCh r = true
  end.

Definition Apply r (data : bytes) (c : apply_case) : Node * nat :=
  let future := length (futures r) in
  let r := set_futures r (pendingFutures r) (futures r ++ [newApplyFuture]) in
  if negb (bool_decide (state r = Leader)) then (respondTo r future (Some ErrNotLeader) None, future)
  else
    match c with
    | Sent => (set_applyCh r (applyCh r ++ [mkApplyReq data future]), future)
    | TimedOut => (respondTo r future (Some ErrTimeout) None, future)
    | ShutdownSeen => (respondTo r future (Some ErrShutdown) None, future)
    end.

(** The goroutine [Apply] leaves behind, when it wakes. *)
Definition apply_watch r (future : nat) (timedOut : bool) : Node :=
  respondTo r future (Some (if timedOut then ErrTimeout else ErrShutdown)) None.

Definition State r : ServerState := state r.
Definition IsLeader r : bool := bool_decide (state r = Leader).
Definition LeaderAddr r : bytes := leaderAddr r.
Definition LeaderID r : bytes := leaderID r.
Definition CurrentTerm r : Z := currentTerm r.

(** [for idx, f := range r.pendingFutures]: respond and delete. *)
Definition fail_pending r (err : RaftErr) : Node :=
  set_futures r ∅
    (map_fold (fun _ fut fs => alter (fun f => respond f (Some err) None) fut fs)
       (futures r) (pendingFutures r)).

Definition failPendingFutures r : Node := fail_pending r ErrLeaderLost.

(** [shutdownOnce]. *)
Definition Shutdown r : Node :=
  if shutdownCh r then r
  else fail_pending (set_state (set_shutdown r true) Follower) ErrShutdown.

(** [Int63n n] is a random number in [0, n); it panics unless [n] is
    positive. *)
Definition randomElectionTimeout r (Int63n : Z -> Z) : outcome Empty_set Z :=
  let min := ElectionTimeoutMin (config r) in
  let max := ElectionTimeoutMax (config r) in
  let delta := int64 (max - min) in
  if delta <=? 0 then Panic else Ok (int64 (min + Int63n delta)).

(** ** The leader's appends *)

Definition handleApplyRequest r (req : applyRequest) : outcome Empty_set Node :=
  if negb (bool_decide (state r = Leader)) then Ok (respondTo r (rq_future req) (Some ErrNotLeader) None)
  else
    let! (lastIdx, _) := LastIndex (logStore r) in
    let entry := mkLog (uint64 (lastIdx + 1)) (currentTerm r) (rq_data req) in
    let! (s, err) := StoreLog (logStore r) entry in
    let r := set_log r s in
    match err with
    | Some e => Ok (respondTo r (rq_future req) (Some (ErrStoreLog e)) None)
    | None =>
        let r := set_futures r (<[log_Index entry := rq_future req]> (pendingFutures r)) (futures r) in
        Ok (triggerReplication r)
    end.

Definition appendNoOp r : outcome Empty_set Node :=
  let! (lastIdx, _) := LastIndex (logStore r) in
  let entry := mkLog (uint64 (lastIdx + 1)) (currentTerm r) [] in
  let! (s, err) := StoreLog (logStore r) entry in
  let r := set_log r s in
  match err with
  | Some _ => Ok r
  | None => Ok (triggerReplication r)
  end.

(** ** The apply loop *)

(** A no-op has no data and is not shown to the state machine. *)
Definition fsm_step (f : F) (e : LogEntry) : outcome Empty_set (F * option R) :=
  if 0 <? len (log_Data e)
  then let! (f, x) := FSM_Apply f (log_Data e) in Ok (f, Some x)
  else Ok (f, None).

(** One turn: an entry that cannot be read is skipped. *)
Definition apply_one r (idx : Z) : outcome Empty_set Node :=
  let! (entry, err) := GetLog (logStore r) idx in
  match err with
  | Some _ => Ok r
  | None =>
      let! e := or_panic entry in
      let! (f, response) := fsm_step (fsm r) e in
      let r := set_applied r idx f in
      match pendingFutures r !! idx with
      | Some fut =>
          Ok (respondTo (set_futures r (delete idx (pendingFutures r)) (futures r)) fut None response)
      | None => Ok r
      end
  end.

Fixpoint apply_loop (fuel : nat) r (idx commit : Z) : outcome Empty_set Node :=
  match fuel with
  | O => Diverge
  | Datatypes.S fuel =>
      if idx <=? commit then
        let! r := apply_one r idx in
        apply_loop fuel r (uint64 (idx + 1)) commit
      else Ok r
  end.

Definition applyCommitted r : outcome Empty_set Node :=
  apply_loop (Datatypes.S (Z.to_nat (commitIndex r - lastApplied r))) r
    (uint64 (lastApplied r + 1)) (commitIndex r).

(** ** RPC dispatch *)

Definition handleRPC r (cmd : Command) : outcome Empty_set (Node * RPCResponse * bool) :=
  match cmd with
  | CmdAppendEntries req =>
      let! (r, resp, reset) := handleAppendEntries r req in
      Ok (r, RespAppendEntries resp, reset)
  | CmdRequestVote req =>
      let! (r, resp, reset) := handleRequestVote r req in
      Ok (r, RespRequestVote resp, reset)
  | CmdUnknown => Ok (r, RespUnknownRPC, false)
  end.

(** ** The role loops *)

(** A run of a loop: the node, the answers it gave, and whether it returned. *)
Record run_result : Type := mkRun {
  run_node : Node;
  run_answers : list RPCResponse;
  run_returned : bool
}.

Definition returned r : outcome Empty_set run_result := Ok (mkRun r [] true).
Definition waiting r : outcome Empty_set run_result := Ok (mkRun r [] false).
Definition answer (a : RPCResponse) (m : outcome Empty_set run_result) : outcome Empty_set run_result :=
  let! x := m in Ok (mkRun (run_node x) (a :: run_answers x) (run_returned x)).

Inductive follower_event : Type :=
| FeRPC (cmd : Command)
| FeTimeout
| FeShutdown.

(** [for r.State() == Follower { select ... }]. *)
Fixpoint runFollower r (evs : list follower_event) : outcome Empty_set run_result :=
  if negb (bool_decide (state r = Follower)) then returned r
  else
    match evs with
    | [] => waiting r
    | FeRPC cmd :: evs =>
        let! (r, resp, _) := handleRPC r cmd in
        answer resp (runFollower r evs)
    | FeTimeout :: _ => returned (set_state r Candidate)
    | FeShutdown :: _ => returned r
    end.

(** What a candidate may meet while it waits; [CeReplicator] is not a case of
    its [select] but a replicator of an earlier leadership of this node whose
    RPC returns meanwhile. *)
Inductive candidate_event : Type :=
| CeVote (vote : RequestVoteResponse)
| CeVotesClosed
| CeRPC (cmd : Command)
| CeTimeout
| CeShutdown
| CeReplicator (peer : nat) (entries : list LogEntry) (resp : option AppendEntriesResponse).

Definition becomeLeader r : Node :=
  set_leader (set_state r Leader) (ServerID (config r))
    (peerAddr r (ServerID (config r)) (leaderAddr r)).

(** The [select]; after a case that does not return, the loop condition is
    looked at again. *)
Fixpoint candidate_select r (votes quorum : Z) (evs : list candidate_event)
    : outcome Empty_set run_result :=
  match evs with
  | [] => waiting r
  | CeReplicator peer entries resp :: evs =>
      let! r := replicate_response r peer entries resp in
      candidate_select r votes quorum evs
  | CeVote vote :: evs =>
      if currentTerm r <? vr_Term vote then let! r := stepDown r (vr_Term vote) in returned r
      else if vr_VoteGranted vote then
        if quorum <=? votes + 1 then returned (becomeLeader r)
        else if bool_decide (state r = Candidate) then candidate_select r (votes + 1) quorum evs
        else returned r
      else if bool_decide (state r = Candidate) then candidate_select r votes quorum evs
      else returned r
  | CeVotesClosed :: evs =>
      if bool_decide (state r = Candidate) then candidate_select r votes quorum evs else returned r
  | CeRPC cmd :: evs =>
      let! (r, resp, _) := handleRPC r cmd in
      answer resp
        (if bool_decide (state r = Candidate) then candidate_select r votes quorum evs
         else returned r)
  | CeTimeout :: _ | CeShutdown :: _ => returned r
  end.

(** The run and the vote requests sent. *)
Definition runCandidate r (evs : list candidate_event)
    : outcome Empty_set (run_result * RequestVoteRequest * list bytes) :=
  let! (r, req, addrs) := startElection r in
  let votes := 1 in
  let quorum := len (Peers (config r)) / 2 + 1 in
  let! x :=
    if quorum <=? votes then returned (becomeLeader r)
    else if bool_decide (state r = Candidate) then candidate_select r votes quorum evs
    else returned r in
  Ok (x, req, addrs).

(** The fresh records of [runLeader]. *)
Definition leader_peer (self : bytes) (lastIdx : Z) (ph : gmap bytes nat * list peerState)
    (p : PeerConfig) : gmap bytes nat * list peerState :=
  if bool_decide (pc_ID p = self) then ph
  else (<[pc_ID p := length ph.2]> ph.1,
        ph.2 ++ [mkPeerState (pc_ID p) (pc_Address p) (uint64 (lastIdx + 1)) 0 false]).

Definition leader_init r : outcome Empty_set Node :=
  let! (lastIdx, _) := LastIndex (logStore r) in
  let '(ps, h) := foldl (leader_peer (ServerID (config r)) lastIdx) (∅, heap r) (Peers (config r)) in
  Ok (set_peers r ps h).

(** [LeReplicator] is the second half of a replicator's turn. *)
Inductive leader_event : Type :=
| LeRPC (cmd : Command)
| LeApply
| LeShutdown
| LeReplicator (peer : nat) (entries : list LogEntry) (resp : option AppendEntriesResponse).

Fixpoint leader_select r (evs : list leader_event) : outcome Empty_set run_result :=
  match evs with
  | [] => waiting r
  | LeReplicator peer entries resp :: evs =>
      let! r := replicate_response r peer entries resp in
      leader_select r evs
  | LeRPC cmd :: evs =>
      let! (r, resp, _) := handleRPC r cmd in
      answer resp
        (if bool_decide (state r = Leader) then leader_select r evs
         else returned (failPendingFutures r))
  | LeApply :: evs =>
      match applyCh r with
      | [] => leader_select r evs
      | req :: rest =>
          let! r := handleApplyRequest (set_applyCh r rest) req in
          if bool_decide (state r = Leader) then leader_select r evs
          else returned (failPendingFutures r)
      end
  | LeShutdown :: _ => returned (failPendingFutures r)
  end.

Definition runLeader r (evs : list leader_event) : outcome Empty_set run_result :=
  let! r := leader_init r in
  let! r := appendNoOp r in
  if bool_decide (state r = Leader) then leader_select r evs
  else returned (failPendingFutures r).

End Loops.
