(* ===== verification/Cluster.v ===== *)
(** * The cluster: servers, calls in flight, schedules

    Every server is a node and the place its main goroutine is at
    ([raft.go], [run] and the role loops); the network is the calls made and
    what has become of them.  An event is one critical section, or one case
    of a [select], somewhere in the cluster: [turn] is the function the
    events are steps of.  An event that is not enabled changes nothing. *)

From S2P Require Import Prelude Binary Store RaftTypes Node Election Logs Replication Loops.

Section Cluster.
Context {L S F R : Type} `{!LogStore L} `{!StableStore S} `{!FSM F R}.
Abbreviation Node := (RaftNode L S F R).
Implicit Types r : Node.

(** ** Data *)

(** Where the main goroutine is: at the top of [run]; in the [select] of
    [runFollower]; about to run [runCandidate]; in its [select], with the term
    asked for and the votes counted; at the start of [runLeader], and between
    its two critical sections there; in its [select]; returned. *)
Inductive position : Type :=
| AtRun
| Following
| Electing
| Campaigning (term votes : Z)
| TakingOffice
| Announcing
| Leading
| Stopped.

Record server : Type := mkSv {
  sv_node : Node;
  sv_pos : position
}.

(** A call of [SendRequestVote], its answer, and whether the candidate has
    taken the answer from [voteCh]. *)
Record vote_call : Type := mkVoteCall {
  vc_from : bytes;
  vc_to : bytes;
  vc_req : RequestVoteRequest;
  vc_resp : option RequestVoteResponse;
  vc_taken : bool
}.

(** A call of [SendAppendEntries] by the replicator of a peer record. *)
Record append_call : Type := mkAppendCall {
  ac_from : bytes;
  ac_to : bytes;
  ac_peer : nat;
  ac_req : AppendEntriesRequest;
  ac_resp : option AppendEntriesResponse;
  ac_taken : bool
}.

(** [elected] is history: who became leader, and of which term. *)
Record cluster : Type := mkCluster {
  servers : gmap bytes server;
  vote_calls : list vote_call;
  append_calls : list append_call;
  elected : list (Z * bytes)
}.

(** A call is handled at most once; an answer may never arrive.  Everything
    else may happen at any time. *)
Inductive event : Type :=
| EvDispatch (id : bytes)
| EvElect (id : bytes)
| EvTimeout (id : bytes)
| EvStop (id : bytes)
| EvTakeOffice (id : bytes)
| EvAnnounce (id : bytes)
| EvVoteRequest (k : nat)
| EvVote (k : nat)
| EvVotesClosed (id : bytes)
| EvReplicate (id : bytes) (peer : nat)
| EvAppendRequest (k : nat)
| EvAppendResponse (k : nat)
| EvApplyRequest (id : bytes)
| EvApplied (id : bytes)
| EvClient (id : bytes) (data : bytes) (c : apply_case)
| EvWatch (id : bytes) (future : nat) (timedOut : bool)
| EvShutdown (id : bytes)
| EvRestart (id : bytes) (f : F).

(** ** Servers *)

(** Who listens at an address. *)
Definition server_at (members : list PeerConfig) (addr : bytes) : option bytes :=
  pc_ID <$> List.find (fun p => bool_decide (pc_Address p = addr)) members.

Definition quorum_of r : Z := len (Peers (config r)) / 2 + 1.

(** Where a turn of a loop leaves the goroutine. *)
Definition after (x : run_result) (stay : position) : server :=
  mkSv (run_node x) (if run_returned x then AtRun else stay).

(** [run] looks at the state. *)
Definition dispatch (s : server) : server :=
  match sv_pos s with
  | AtRun =>
      mkSv (sv_node s)
        (if shutdownCh (sv_node s) then Stopped
         else match state (sv_node s) with
              | Follower => Following
              | Candidate => Electing
              | Leader => TakingOffice
              end)
  | _ => s
  end.

(** An RPC reaches a [select]. *)
Definition rpc_turn (s : server) (cmd : Command) : outcome Empty_set (server * option RPCResponse) :=
  let r := sv_node s in
  let! x :=
    match sv_pos s with
    | Following => runFollower r [FeRPC cmd]
    | Campaigning _ votes => candidate_select r votes (quorum_of r) [CeRPC cmd]
    | Leading => leader_select r [LeRPC cmd]
    | _ => waiting r
    end in
  Ok (after x (sv_pos s), head (run_answers x)).

Definition timeout (s : server) : outcome Empty_set server :=
  let r := sv_node s in
  match sv_pos s with
  | Following => let! x := runFollower r [FeTimeout] in Ok (after x Following)
  | Campaigning t votes =>
      let! x := candidate_select r votes (quorum_of r) [CeTimeout] in Ok (after x (Campaigning t votes))
  | _ => Ok s
  end.

(** A [select] sees the shutdown. *)
Definition stop (s : server) : outcome Empty_set server :=
  let r := sv_node s in
  if negb (shutdownCh r) then Ok s
  else
    match sv_pos s with
    | Following => let! x := runFollower r [FeShutdown] in Ok (after x Following)
    | Campaigning t votes =>
        let! x := candidate_select r votes (quorum_of r) [CeShutdown] in Ok (after x (Campaigning t votes))
    | Leading => let! x := leader_select r [LeShutdown] in Ok (after x Leading)
    | _ => Ok s
    end.

(** A turn of the candidate on an answer. *)
Definition count_vote (s : server) (t votes : Z) (v : RequestVoteResponse) : outcome Empty_set server :=
  let! x := candidate_select (sv_node s) votes (quorum_of (sv_node s)) [CeVote v] in
  Ok (after x (Campaigning t (if vr_VoteGranted v then votes + 1 else votes))).

(** A crash and a new process on the same stores; it starts only if the
    configuration and the stores are good. *)
Definition restart (s : server) (f : F) : server :=
  let r := sv_node s in
  let c := config r in
  match NewRaftNode (mkConfig (ServerID c) (Peers c) (HeartbeatInterval c) (ElectionTimeoutMin c)
          (ElectionTimeoutMax c) (Some (logStore r)) (Some (stableStore r)) (Some f)) with
  | Ok n => mkSv n AtRun
  | _ => mkSv r Stopped
  end.

(** ** The cluster *)

Definition set_server (c : cluster) (id : bytes) (s : server) : cluster :=
  mkCluster (<[id := s]> (servers c)) (vote_calls c) (append_calls c) (elected c).
Definition set_votes (c : cluster) (vs : list vote_call) : cluster :=
  mkCluster (servers c) vs (append_calls c) (elected c).
Definition set_appends (c : cluster) (cs : list append_call) : cluster :=
  mkCluster (servers c) (vote_calls c) cs (elected c).

(** A server that has just become leader enters history. *)
Definition note_leader (c : cluster) (id : bytes) (s : server) : cluster :=
  mkCluster (servers c) (vote_calls c) (append_calls c)
    (if bool_decide (state (sv_node s) = Leader) then (currentTerm (sv_node s), id) :: elected c
     else elected c).

(** An event of one server. *)
Definition at_server (c : cluster) (id : bytes) (f : server -> outcome Empty_set server)
    : outcome Empty_set cluster :=
  match servers c !! id with
  | Some s => let! s := f s in Ok (set_server c id s)
  | None => Ok c
  end.

(** One of its node, wherever the main goroutine is. *)
Definition at_node (c : cluster) (id : bytes) (f : Node -> outcome Empty_set Node)
    : outcome Empty_set cluster :=
  at_server c id (fun s => let! r := f (sv_node s) in Ok (mkSv r (sv_pos s))).

Definition elect (members : list PeerConfig) (c : cluster) (id : bytes) (s : server) : outcome Empty_set cluster :=
  let! (x, req, addrs) := runCandidate (sv_node s) [] in
  let s := after x (Campaigning (rv_Term req) 1) in
  let calls := map (fun to => mkVoteCall id to req None false) (omap (server_at members) addrs) in
  Ok (note_leader (set_votes (set_server c id s) (vote_calls c ++ calls)) id s).

Definition answer_vote (c : cluster) (k : nat) (v : vote_call) : outcome Empty_set cluster :=
  match servers c !! vc_to v, vc_resp v with
  | Some s, None =>
      let! (s, a) := rpc_turn s (CmdRequestVote (vc_req v)) in
      match a with
      | Some (RespRequestVote resp) =>
          Ok (set_votes (set_server c (vc_to v) s)
                (<[k := mkVoteCall (vc_from v) (vc_to v) (vc_req v) (Some resp) (vc_taken v)]> (vote_calls c)))
      | _ => Ok c
      end
  | _, _ => Ok c
  end.

(** [voteCh] is made anew for each campaign. *)
Definition take_vote (c : cluster) (k : nat) (v : vote_call) : outcome Empty_set cluster :=
  match servers c !! vc_from v, vc_resp v, vc_taken v with
  | Some s, Some resp, false =>
      match sv_pos s with
      | Campaigning t votes =>
          if rv_Term (vc_req v) =? t then
            let! s := count_vote s t votes resp in
            Ok (note_leader
                  (set_votes (set_server c (vc_from v) s)
                     (<[k := mkVoteCall (vc_from v) (vc_to v) (vc_req v) (Some resp) true]> (vote_calls c)))
                  (vc_from v) s)
          else Ok c
      | _ => Ok c
      end
  | _, _, _ => Ok c
  end.

(** First half of [replicateOnce]. *)
Definition send_append (members : list PeerConfig) (c : cluster) (id : bytes) (peer : nat) (s : server)
    : outcome Empty_set cluster :=
  match heap (sv_node s) !! peer with
  | None => Ok c
  | Some p =>
      let! req := replicate_request (sv_node s) peer in
      match req, server_at members (ps_addr p) with
      | Some req, Some to =>
          Ok (set_appends c (append_calls c ++ [mkAppendCall id to peer req None false]))
      | _, _ => Ok c
      end
  end.

Definition answer_append (c : cluster) (k : nat) (v : append_call) : outcome Empty_set cluster :=
  match servers c !! ac_to v, ac_resp v with
  | Some s, None =>
      let! (s, a) := rpc_turn s (CmdAppendEntries (ac_req v)) in
      match a with
      | Some (RespAppendEntries resp) =>
          Ok (set_appends (set_server c (ac_to v) s)
                (<[k := mkAppendCall (ac_from v) (ac_to v) (ac_peer v) (ac_req v) (Some resp) (ac_taken v)]>
                   (append_calls c)))
      | _ => Ok c
      end
  | _, _ => Ok c
  end.

(** Second half of [replicateOnce]. *)
Definition take_append (c : cluster) (k : nat) (v : append_call) : outcome Empty_set cluster :=
  match ac_resp v, ac_taken v with
  | Some resp, false =>
      let! c := at_node c (ac_from v)
        (fun r => replicate_response r (ac_peer v) (ae_Entries (ac_req v)) (Some resp)) in
      Ok (set_appends c
            (<[k := mkAppendCall (ac_from v) (ac_to v) (ac_peer v) (ac_req v) (Some resp) true]>
               (append_calls c)))
  | _, _ => Ok c
  end.

(** The calls of a process end with it. *)
Definition forget_appends (id : bytes) (cs : list append_call) : list append_call :=
  map (fun v => if bool_decide (ac_from v = id)
                then mkAppendCall (ac_from v) (ac_to v) (ac_peer v) (ac_req v) (ac_resp v) true
                else v) cs.

Definition turn (members : list PeerConfig) (c : cluster) (e : event) : outcome Empty_set cluster :=
  match e with
  | EvDispatch id => at_server c id (fun s => Ok (dispatch s))
  | EvElect id =>
      match servers c !! id with
      | Some (mkSv _ Electing as s) => elect members c id s
      | _ => Ok c
      end
  | EvTimeout id => at_server c id timeout
  | EvStop id => at_server c id stop
  | EvTakeOffice id =>
      at_server c id (fun s =>
        match sv_pos s with
        | TakingOffice => let! r := leader_init (sv_node s) in Ok (mkSv r Announcing)
        | _ => Ok s
        end)
  | EvAnnounce id =>
      at_server c id (fun s =>
        match sv_pos s with
        | Announcing =>
            let! r := appendNoOp (sv_node s) in
            Ok (if bool_decide (state r = Leader) then mkSv r Leading else mkSv (failPendingFutures r) AtRun)
        | _ => Ok s
        end)
  | EvVoteRequest k =>
      match vote_calls c !! k with Some v => answer_vote c k v | None => Ok c end
  | EvVote k => match vote_calls c !! k with Some v => take_vote c k v | None => Ok c end
  | EvVotesClosed id =>
      at_server c id (fun s =>
        match sv_pos s with
        | Campaigning t votes =>
            let! x := candidate_select (sv_node s) votes (quorum_of (sv_node s)) [CeVotesClosed] in
            Ok (after x (Campaigning t votes))
        | _ => Ok s
        end)
  | EvReplicate id peer =>
      match servers c !! id with Some s => send_append members c id peer s | None => Ok c end
  | EvAppendRequest k =>
      match append_calls c !! k with Some v => answer_append c k v | None => Ok c end
  | EvAppendResponse k =>
      match append_calls c !! k with Some v => take_append c k v | None => Ok c end
  | EvApplyRequest id =>
      at_server c id (fun s =>
        match sv_pos s with
        | Leading => let! x := leader_select (sv_node s) [LeApply] in Ok (after x Leading)
        | _ => Ok s
        end)
  | EvApplied id =>
      at_node c id (fun r =>
        if lastApplied r <? commitIndex r then apply_one r (uint64 (lastApplied r + 1)) else Ok r)
  | EvClient id data case => at_node c id (fun r => Ok (Apply r data case).1)
  | EvWatch id future timedOut => at_node c id (fun r => Ok (apply_watch r future timedOut))
  | EvShutdown id => at_node c id (fun r => Ok (Shutdown r))
  | EvRestart id f =>
      match servers c !! id with
      | Some s => Ok (set_appends (set_server c id (restart s f)) (forget_appends id (append_calls c)))
      | None => Ok c
      end
  end.

Fixpoint turns (members : list PeerConfig) (c : cluster) (es : list event) : outcome Empty_set cluster :=
  match es with
  | [] => Ok c
  | e :: es => let! c := turn members c e in turns members c es
  end.

End Cluster.
