(* ===== verification/Runs.v ===== *)
(** * Raft: a node's life as a step relation

    One step per critical section.  The invariant of the node holds along
    every run: the stores are readable, the term never goes back, the term
    and the vote in memory are those on disk, a resolved future is final. *)

From S2P Require Import Prelude Binary Store RaftTypes Node Election Logs Replication Append Leader Loops.

Section Steps.
Context {L S F R : Type} `{!LogStore L} `{!StableStore S} `{!FSM F R}.
Context `{!LogStoreLaws L} `{!LogStoreTruncates L} `{!StableStoreLaws S}.
Abbreviation Node := (RaftNode L S F R).
Implicit Types r : Node.

Definition cmd_ok (cmd : Command) : Prop :=
  match cmd with
  | CmdAppendEntries req => req_ok req
  | CmdRequestVote req => is_uint64 (rv_Term req)
  | CmdUnknown => True
  end.

Definition entries_ok (es : list LogEntry) : Prop := forall e, e ∈ es -> is_uint64 (log_Index e).

(** Room for one more entry. *)
Definition log_room r : Prop := forall l, log_repr (logStore r) l -> len l + 1 < MaxUint64.

Inductive step : Node -> Node -> Prop :=
| step_rpc r cmd r' resp b : cmd_ok cmd -> handleRPC r cmd = Ok (r', resp, b) -> step r r'
| step_timeout r : state r = Follower -> step r (set_state r Candidate)
| step_election r r' req addrs :
    currentTerm r < MaxUint64 -> startElection r = Ok (r', req, addrs) -> step r r'
| step_outvoted r t r' : is_uint64 t -> currentTerm r < t -> stepDown r t = Ok r' -> step r r'
| step_win r : step r (becomeLeader r)
| step_init r r' : leader_init r = Ok r' -> step r r'
| step_noop r r' : log_room r -> appendNoOp r = Ok r' -> step r r'
| step_append r req r' : log_room r -> handleApplyRequest r req = Ok r' -> step r r'
| step_response r peer es resp r' :
    entries_ok es -> (forall x, resp = Some x -> is_uint64 (ar_Term x)) ->
    replicate_response r peer es resp = Ok r' -> step r r'
| step_applied r r' :
    lastApplied r < commitIndex r -> apply_one r (uint64 (lastApplied r + 1)) = Ok r' -> step r r'
| step_client r data c : case_enabled r c -> step r (Apply r data c).1
| step_watch r fut b : step r (apply_watch r fut b)
| step_fail r : step r (failPendingFutures r)
| step_shutdown r : step r (Shutdown r).

Definition node_inv r : Prop :=
  (exists l, node_ok r l) /\ peers_ok r /\ (StableStoreReliable S -> durable r).

(** ** Lemmas *)

(** Steps that leave the term, the vote and the stable store alone. *)
Definition same_vote r r' : Prop :=
  currentTerm r' = currentTerm r /\ votedFor r' = votedFor r /\ stableStore r' = stableStore r.

Definition futures_final (fs fs' : list (ApplyFuture R)) : Prop :=
  forall i f, fs !! i = Some f -> resolved f -> fs' !! i = Some f.

Lemma inv_frame r r' l :
  node_inv r -> same_vote r r' -> log_repr (logStore r') l -> peers_ok r' -> node_inv r'.
Proof.
  intros ((l0 & [_ Hs Ht]) & _ & Hd) (E1 & E2 & E3) Hl Hp. split; [|split].
  - exists l. split; [done|by rewrite E3|by rewrite E1].
  - done.
  - unfold durable in *. by rewrite E1, E2, E3.
Qed.

Lemma inv_rest r r' l :
  node_inv r -> node_ok r' l -> same_rest r r' -> (StableStoreReliable S -> durable r') -> node_inv r'.
Proof.
  intros (_ & Hp & _) Hok Hsr Hd. split; [by exists l|]. split; [|done].
  unfold peers_ok. destruct Hsr as (_ & _ & _ & _ & -> & -> & _). done.
Qed.

Lemma final_refl fs : futures_final fs fs.
Proof. by intros i f. Qed.

Lemma final_trans a b c : futures_final a b -> futures_final b c -> futures_final a c.
Proof. intros H1 H2 i f Hi Hr. apply H2; [|done]. by apply H1. Qed.

Lemma final_respond fs n err resp : futures_final fs (alter (fun f => respond f err resp) n fs).
Proof.
  intros i f Hi Hr. destruct (decide (i = n)) as [->|Hne].
  - by rewrite list_lookup_alter_eq, Hi; simpl; rewrite respond_again.
  - by rewrite list_lookup_alter_ne.
Qed.

Lemma final_app fs x : futures_final fs (fs ++ [x]).
Proof. intros i f Hi _. by apply lookup_app_l_Some. Qed.

Lemma final_fail r err : futures_final (futures r) (futures (fail_pending r err)).
Proof.
  unfold fail_pending. simpl. apply (map_fold_weak_ind (fun fs _ => futures_final (futures r) fs)).
  - apply final_refl.
  - intros i n m fs _ IH. eapply final_trans; [exact IH|]. apply final_respond.
Qed.

Lemma trigger_lookup (h : list peerState) (ps : gmap bytes nat) loc p :
  h !! loc = Some p ->
  exists p', map_fold (fun _ loc h => alter trigger loc h) h ps !! loc = Some p' /\
    matchIndex p' = matchIndex p /\ nextIndex p' = nextIndex p.
Proof.
  intros Hp. apply (map_fold_weak_ind (fun h' _ => exists p', h' !! loc = Some p' /\
    matchIndex p' = matchIndex p /\ nextIndex p' = nextIndex p)); [eauto|].
  intros i n m h' _ (p' & Hp' & H1 & H2). destruct (decide (n = loc)) as [->|Hne].
  - rewrite list_lookup_alter_eq, Hp'. eexists. by split_and!.
  - rewrite list_lookup_alter_ne by done. eauto.
Qed.

Lemma trigger_set (h : list peerState) (ps : gmap bytes nat) id loc p :
  ps !! id = Some loc -> h !! loc = Some p ->
  exists p', map_fold (fun _ loc h => alter trigger loc h) h ps !! loc = Some p' /\
    ps_triggerCh p' = true /\ nextIndex p' = nextIndex p /\ matchIndex p' = matchIndex p.
Proof.
  intros Hid Hp.
  assert (exists p', map_fold (fun _ loc h => alter trigger loc h) h ps !! loc = Some p' /\
    (is_Some (ps !! id) -> ps !! id = Some loc -> ps_triggerCh p' = true) /\
    nextIndex p' = nextIndex p /\ matchIndex p' = matchIndex p) as (p' & E & Ht & ? & ?).
  2: { exists p'. split_and!; eauto. }
  clear Hid. apply (map_fold_weak_ind (fun h' m => exists p', h' !! loc = Some p' /\
    (is_Some (m !! id) -> m !! id = Some loc -> ps_triggerCh p' = true) /\
    nextIndex p' = nextIndex p /\ matchIndex p' = matchIndex p)).
  - exists p. split_and!; [done| |done|done]. intros [? H]. by rewrite lookup_empty in H.
  - intros i n m h' Hi (p' & Hp' & H1 & H2 & H3). destruct (decide (n = loc)) as [->|Hne].
    + rewrite list_lookup_alter_eq, Hp'. eexists. split; [done|]. simpl. by split_and!.
    + rewrite list_lookup_alter_ne by done. exists p'. split_and!; [done| |done|done].
      intros _ E. destruct (decide (i = id)) as [->|].
      * rewrite lookup_insert_eq in E. congruence.
      * rewrite lookup_insert_ne in E by done. apply H1; [by eexists|done].
Qed.

Lemma trigger_peers_ok r : peers_ok r -> peers_ok (triggerReplication r).
Proof.
  intros H id loc Hl. simpl in *. destruct (H id loc Hl) as (p & Hp & Hu).
  destruct (trigger_lookup (heap r) (peers r) loc p Hp) as (p' & E & Em & _).
  exists p'. by rewrite E, Em.
Qed.

Lemma leader_peers_ok self lastIdx cfg ps h ps' h' :
  foldl (leader_peer self lastIdx) (ps, h) cfg = (ps', h') ->
  (forall id loc, ps !! id = Some loc -> exists p, h !! loc = Some p /\ is_uint64 (matchIndex p)) ->
  forall id loc, ps' !! id = Some loc -> exists p, h' !! loc = Some p /\ is_uint64 (matchIndex p).
Proof.
  revert ps h. induction cfg as [|c cfg IH]; intros ps h E H; simpl in E; [by injection E as <- <-|].
  unfold leader_peer at 2 in E. simpl in E. case_bool_decide; [by eapply IH|].
  eapply IH; [exact E|]. intros id loc Hl. destruct (decide (id = pc_ID c)) as [->|Hne].
  - rewrite lookup_insert_eq in Hl. injection Hl as <-. rewrite lookup_app_r, Nat.sub_diag by done.
    eexists. split; [done|]. simpl. int_unfold. lia.
  - rewrite lookup_insert_ne in Hl by done. destruct (H _ _ Hl) as (p & Hp & Hu).
    exists p. split; [by apply lookup_app_l_Some|done].
Qed.

(** One more entry at the end of the log. *)
Lemma StoreLog_ok r l t d :
  log_repr (logStore r) l -> log_room r -> is_uint64 t ->
  exists s (err : option error), StoreLog (logStore r) (mkLog (uint64 (len l + 1)) t d) = Ok (s, err) /\
    uint64 (len l + 1) = len l + 1 /\
    log_repr s (match err with None => l ++ [mkLog (len l + 1) t d] | Some _ => l end).
Proof.
  intros Hl Hroom Ht. specialize (Hroom l Hl). pose proof (len_nonneg l).
  assert (uint64 (len l + 1) = len l + 1) as -> by (apply uint64_id; int_unfold; lia).
  rewrite StoreLog_law.
  destruct (StoreLogs_law _ l [mkLog (len l + 1) t d] Hl) as (s & err & -> & Hs).
  - apply numbered_snoc; [by eapply repr_numbered|done].
  - autorewrite with len. lia.
  - by apply Forall_singleton.
  - by exists s, err.
Qed.

(** What an append of the leader does. *)
Lemma appendNoOp_ok r l :
  log_repr (logStore r) l -> log_room r -> is_uint64 (currentTerm r) ->
  exists s (err : option error),
    log_repr s (match err with None => l ++ [mkLog (len l + 1) (currentTerm r) []] | Some _ => l end) /\
    appendNoOp r = Ok (match err with None => triggerReplication (set_log r s) | Some _ => set_log r s end).
Proof.
  intros Hl Hroom Ht. unfold appendNoOp. rewrite (LastIndex_law _ _ Hl). cbn [obind].
  destruct (StoreLog_ok r l (currentTerm r) [] Hl Hroom Ht) as (s & err & -> & _ & Hs).
  exists s, err. split; [done|]. cbn [obind]. by destruct err.
Qed.

(** What a client's request does, and the future it is tied to. *)
Definition appended r (s : L) (l : list LogEntry) (req : applyRequest) : Node :=
  triggerReplication
    (set_futures (set_log r s) (<[len l + 1 := rq_future req]> (pendingFutures r)) (futures r)).

Lemma handleApplyRequest_ok r l req :
  log_repr (logStore r) l -> log_room r -> is_uint64 (currentTerm r) -> state r = Leader ->
  exists s (err : option error),
    log_repr s (match err with None => l ++ [mkLog (len l + 1) (currentTerm r) (rq_data req)] | Some _ => l end) /\
    handleApplyRequest r req =
      Ok (match err with
          | None => appended r s l req
          | Some e => respondTo (set_log r s) (rq_future req) (Some (ErrStoreLog e)) None
          end).
Proof.
  intros Hl Hroom Ht Hst. unfold handleApplyRequest. rewrite bool_decide_true by done. cbn [negb].
  rewrite (LastIndex_law _ _ Hl). cbn [obind].
  destruct (StoreLog_ok r l (currentTerm r) (rq_data req) Hl Hroom Ht) as (s & err & -> & Ei & Hs).
  exists s, err. split; [done|]. cbn [obind]. destruct err; [done|]. unfold appended. simpl.
  by rewrite Ei.
Qed.

(** One turn of the apply loop. *)
Definition applied_one r (idx : Z) (f : F) (response : option R) : Node :=
  let r := set_applied r idx f in
  match pendingFutures r !! idx with
  | Some fut => respondTo (set_futures r (delete idx (pendingFutures r)) (futures r)) fut None response
  | None => r
  end.

Lemma apply_one_cases r idx r' :
  apply_one r idx = Ok r' -> r' = r \/ exists f x, r' = applied_one r idx f x.
Proof.
  unfold apply_one. intros ([e err] & _ & H)%obind_Ok. destruct err; [injection H; by left|right].
  apply obind_Ok in H as (e' & _ & H). apply obind_Ok in H as ([f x] & _ & H).
  exists f, x. unfold applied_one. destruct (_ !! _); by injection H.
Qed.

Lemma applied_one_same r idx f x :
  same_vote r (applied_one r idx f x) /\ logStore (applied_one r idx f x) = logStore r /\
  peers (applied_one r idx f x) = peers r /\ heap (applied_one r idx f x) = heap r /\
  commitIndex (applied_one r idx f x) = commitIndex r /\
  futures_final (futures r) (futures (applied_one r idx f x)).
Proof.
  unfold applied_one. simpl. destruct (pendingFutures r !! idx); split_and!; try done.
  - apply final_respond.
  - apply final_refl.
Qed.

Lemma append_rest_peers r r' : append_rest r r' -> peers_ok r -> peers_ok r'.
Proof. intros (_ & _ & E1 & E2 & _). unfold peers_ok. by rewrite E1, E2. Qed.

Lemma handleRPC_good r cmd r' resp b l :
  node_inv r -> node_ok r l -> cmd_ok cmd -> handleRPC r cmd = Ok (r', resp, b) ->
  node_inv r' /\ currentTerm r <= currentTerm r' /\ futures r' = futures r.
Proof.
  intros Hi Hok Hc E. destruct cmd as [req|req|]; simpl in E.
  - apply obind_Ok in E as ([[r1 resp1] b1] & E & [= <- _ _]).
    destruct (handleAppendEntries_effect r l req Hok Hc) as (r2 & resp2 & b2 & l' & E2 & Hok' & Hlt & Hge & Hd).
    rewrite E in E2. injection E2 as <- <- <-.
    destruct (Z.lt_ge_cases (ae_Term req) (currentTerm r)) as [H|H].
    { destruct (Hlt H) as (-> & _). split_and!; done || lia. }
    destruct (Hge H) as (_ & Ht & _ & _ & _ & Hrest & _). destruct Hi as (_ & Hp & Hd0).
    split; [|split; [lia|apply Hrest]]. split; [by exists l'|]. split; [by eapply append_rest_peers|auto].
  - apply obind_Ok in E as ([[r1 resp1] b1] & E & [= <- _ _]).
    destruct (handleRequestVote_effect r l req Hok Hc) as (r2 & g & E2 & _ & Hok' & Hsr & Ht & _ & _ & Hd).
    rewrite E in E2. injection E2 as <- _ _.
    pose proof Hi as (_ & Hp & Hd0). split_and!; [|lia|by apply Hsr].
    eapply inv_rest; eauto.
  - injection E as <- _ _. split_and!; done || lia.
Qed.

Lemma advance_good r l r' :
  node_inv r -> node_ok r l -> peers_ok r -> advanceCommitIndex r = Ok r' ->
  node_inv r' /\ currentTerm r <= currentTerm r' /\ futures r' = futures r.
Proof.
  intros Hi Hok Hp E. destruct (advanceCommitIndex_effect r l Hok Hp) as (n & _ & E').
  rewrite E in E'. injection E' as ->. destruct (decide _); split_and!; try done; try lia.
  by apply (inv_frame r _ l Hi); [|apply Hok|].
Qed.

Lemma set_peer_same_match r peer p p' :
  peers_ok r -> heap r !! peer = Some p -> matchIndex p' = matchIndex p -> peers_ok (set_peer r peer p').
Proof.
  intros H Hp Em id loc Hl. destruct (H id loc Hl) as (q & Hq & Hu). simpl.
  destruct (decide (loc = peer)) as [->|Hne].
  - rewrite list_lookup_insert_eq by (by eapply lookup_lt_Some). eexists. split; [done|]. congruence.
  - rewrite list_lookup_insert_ne by done. by eexists.
Qed.

Lemma last_entries es e : entries_ok es -> last es = Some e -> is_uint64 (log_Index e).
Proof. intros H E. apply H. by apply last_Some_elem_of. Qed.

Lemma response_good r l peer es resp r' :
  node_inv r -> node_ok r l -> entries_ok es -> (forall x, resp = Some x -> is_uint64 (ar_Term x)) ->
  replicate_response r peer es resp = Ok r' ->
  node_inv r' /\ currentTerm r <= currentTerm r' /\ futures r' = futures r.
Proof.
  intros Hi Hok Hes Hresp E. pose proof Hi as (_ & Hp & _).
  destruct resp as [resp|]; [|injection E as <-; split_and!; done || lia].
  destruct (Z.lt_ge_cases (currentTerm r) (ar_Term resp)) as [Hlt|Hge].
  { unfold replicate_response in E. rewrite (proj2 (Z.ltb_lt _ _)) in E by done.
    destruct (stepDown_ok r l (ar_Term resp) Hok (Hresp _ eq_refl)) as (r1 & E1 & Hok1 & Hsr & Ht & _ & _ & _ & _ & Hd).
    rewrite E in E1. injection E1 as <-. split_and!; [|lia|by apply Hsr]. eapply inv_rest; eauto. }
  destruct (heap r !! peer) as [p|] eqn:Hpeer.
  2: { unfold replicate_response in E. rewrite (proj2 (Z.ltb_ge _ _)), Hpeer in E by done. done. }
  destruct (replicate_response_effect r l peer p es resp Hok Hpeer) as (_ & _ & Hacc & Href).
  destruct (ar_Success resp) eqn:Es.
  - rewrite (Hacc Hge eq_refl) in E. destruct (last es) as [e|] eqn:El; [|by eapply advance_good].
    set (r1 := set_peer _ _ _) in E.
    assert (peers_ok r1) as Hp1 by (apply set_peer_peers_ok; [done|by eexists|by eapply last_entries]).
    assert (node_inv r1) as Hi1 by (apply (inv_frame r r1 l Hi); [done|apply Hok|done]).
    assert (node_ok r1 l) as Hok1 by (destruct Hok; by split).
    by apply (advance_good r1 l).
  - destruct (Href Hge eq_refl) as (next & E' & _). rewrite E in E'. injection E' as ->.
    split_and!; [|simpl; lia|done]. apply (inv_frame r _ l Hi); [done|apply Hok|].
    by apply (set_peer_same_match r peer p).
Qed.

Lemma leader_init_good r l r' :
  node_inv r -> node_ok r l -> leader_init r = Ok r' ->
  node_inv r' /\ currentTerm r <= currentTerm r' /\ futures r' = futures r.
Proof.
  intros Hi Hok E. unfold leader_init in E. rewrite (LastIndex_law _ _ (ok_log _ _ Hok)) in E.
  cbn [obind] in E. destruct (foldl _ _ _) as [ps h] eqn:Ef. injection E as <-.
  split_and!; [|simpl; lia|done]. apply (inv_frame r _ l Hi); [done|apply Hok|].
  unfold peers_ok. simpl. eapply leader_peers_ok; [exact Ef|]. intros id loc Hl. by rewrite lookup_empty in Hl.
Qed.

Lemma restate_good r r' l :
  node_inv r -> same_vote r r' -> log_repr (logStore r') l -> peers r' = peers r -> heap r' = heap r ->
  node_inv r' /\ currentTerm r <= currentTerm r'.
Proof.
  intros Hi Hs Hl E1 E2. split; [|destruct Hs as [-> _]; lia].
  apply (inv_frame r r' l Hi Hs Hl). unfold peers_ok. rewrite E1, E2. apply Hi.
Qed.

Lemma appended_good r r1 l :
  node_inv r -> same_vote r r1 -> log_repr (logStore r1) l -> peers r1 = peers r -> heap r1 = heap r ->
  node_inv (triggerReplication r1) /\ currentTerm r <= currentTerm (triggerReplication r1).
Proof.
  intros Hi Hs Hl E1 E2. destruct (restate_good r r1 l Hi Hs Hl E1 E2) as [(_ & Hp & Hd) Hle].
  split; [|done]. apply (inv_frame r _ l Hi); [done|done|by apply trigger_peers_ok].
Qed.

Lemma Apply_same r data c :
  let r' := (Apply r data c).1 in
  same_vote r r' /\ logStore r' = logStore r /\ peers r' = peers r /\ heap r' = heap r /\
  futures_final (futures r) (futures r').
Proof.
  assert (forall err, futures_final (futures r)
    (alter (fun f : ApplyFuture R => respond f err None) (length (futures r)) (futures r ++ [newApplyFuture]))) as Hf.
  { intros err. eapply final_trans; [apply final_app|apply final_respond]. }
  unfold Apply. destruct (negb _); [|destruct c]; split_and!; try done; apply Hf || apply final_app.
Qed.

Lemma advance_vote r l r' :
  node_ok r l -> peers_ok r -> advanceCommitIndex r = Ok r' -> votedFor r' = votedFor r.
Proof.
  intros Hok Hp E. destruct (advanceCommitIndex_effect r l Hok Hp) as (n & _ & E').
  rewrite E in E'. injection E' as ->. by destruct (decide _).
Qed.

(** ** One step *)

Lemma step_good r r' : node_inv r -> step r r' ->
  node_inv r' /\ currentTerm r <= currentTerm r' /\ futures_final (futures r) (futures r').
Proof.
  intros Hi Hs. pose proof Hi as ([l Hok] & Hp & Hd). pose proof (ok_log _ _ Hok) as Hl.
  destruct Hs as [r cmd r' resp b Hc E|r Hst|r r' req addrs Hm E|r t r' Ht Hlt E|r|r r' E|r r' Hr E
    |r req r' Hr E|r peer es resp r' Hes Hresp E|r r' Hlt E|r data c Hc|r fut b|r|r].
  - destruct (handleRPC_good _ _ _ _ _ l Hi Hok Hc E) as (? & ? & ->). split_and!; auto using final_refl.
  - destruct (restate_good r (set_state r Candidate) l); auto using final_refl; by split_and!.
  - destruct (startElection_effect r l Hok Hm) as (r1 & E1 & Hok1 & Hsr & Ht & _ & _ & Hd1).
    rewrite E in E1. injection E1 as <- _ _. split_and!; [by eapply inv_rest|lia|].
    destruct Hsr as (_ & _ & _ & _ & _ & _ & _ & _ & -> & _). apply final_refl.
  - destruct (stepDown_ok r l t Hok Ht) as (r1 & E1 & Hok1 & Hsr & Et & _ & _ & _ & _ & Hd1).
    rewrite E in E1. injection E1 as <-. split_and!; [by eapply inv_rest|lia|].
    destruct Hsr as (_ & _ & _ & _ & _ & _ & _ & _ & -> & _). apply final_refl.
  - destruct (restate_good r (becomeLeader r) l); auto using final_refl; by split_and!.
  - destruct (leader_init_good _ _ _ Hi Hok E) as (? & ? & ->). auto using final_refl.
  - destruct (appendNoOp_ok r l Hl Hr (ok_term _ _ Hok)) as (s & err & Hs & E1). rewrite E in E1. injection E1 as ->.
    destruct err; [destruct (restate_good r (set_log r s) _ Hi ltac:(done) Hs)
                  |destruct (appended_good r (set_log r s) _ Hi ltac:(done) Hs)]; auto using final_refl.
  - destruct (decide (state r = Leader)) as [Hst|Hst].
    + destruct (handleApplyRequest_ok r l req Hl Hr (ok_term _ _ Hok) Hst) as (s & err & Hs & E1).
      rewrite E in E1. injection E1 as ->. destruct err.
      * edestruct (restate_good r (respondTo (set_log r s) (rq_future req) (Some (ErrStoreLog e)) None) l Hi);
          [done|exact Hs|done|done|]. split_and!; [done..|apply final_respond].
      * edestruct (appended_good r (set_futures (set_log r s) (<[len l + 1 := rq_future req]> (pendingFutures r)) (futures r))
          (l ++ [mkLog (len l + 1) (currentTerm r) (rq_data req)]) Hi);
          [done|exact Hs|done|done|]. split_and!; [done..|apply final_refl].
    + unfold handleApplyRequest in E. rewrite bool_decide_false in E by done. injection E as <-.
      edestruct (restate_good r (respondTo r (rq_future req) (Some ErrNotLeader) None) l Hi); try done.
      split_and!; [done..|apply final_respond].
  - destruct (response_good _ _ _ _ _ _ Hi Hok Hes Hresp E) as (? & ? & ->). auto using final_refl.
  - destruct (apply_one_cases _ _ _ E) as [->|(f & x & ->)]; [split_and!; auto using final_refl; lia|].
    destruct (applied_one_same r (uint64 (lastApplied r + 1)) f x) as (Hsv & El & E1 & E2 & _ & Hf).
    destruct (restate_good r _ l Hi Hsv) as [? ?]; [by rewrite El|done|done|]. done.
  - destruct (Apply_same r data c) as (Hsv & El & E1 & E2 & Hf).
    destruct (restate_good r _ l Hi Hsv) as [? ?]; [by rewrite El|done|done|]. done.
  - destruct (restate_good r (apply_watch r fut b) l Hi) as [? ?]; try done.
    split_and!; [done..|apply final_respond].
  - destruct (restate_good r (failPendingFutures r) l Hi) as [? ?]; try done.
    split_and!; [done..|apply final_fail].
  - unfold Shutdown. destruct (shutdownCh r); [split_and!; auto using final_refl; lia|].
    edestruct (restate_good r (fail_pending (set_state (set_shutdown r true) Follower) ErrShutdown) l Hi); try done.
    split_and!; [done..|]. apply (final_fail (set_state (set_shutdown r true) Follower)).
Qed.

(** ** Theorems *)

Lemma run_good r r' :
  node_inv r -> rtc step r r' ->
  node_inv r' /\ currentTerm r <= currentTerm r' /\ futures_final (futures r) (futures r').
Proof.
  intros Hi Hrun. induction Hrun as [r|r1 r2 r3 Hs _ IH]; [split_and!; auto using final_refl; lia|].
  destruct (step_good _ _ Hi Hs) as (H2 & Hle & Hf). destruct (IH H2) as (H3 & Hle' & Hf').
  split_and!; [done|lia|by eapply final_trans].
Qed.

(** C17: every run.  Whatever RPCs, timeouts, responses, client requests and
    shutdowns a node meets, in whatever order its critical sections take the
    lock: its stores stay readable, its log numbered, the term never goes back,
    and a future once resolved keeps its result.  If the writes of its stable
    store do not fail, the term and vote in memory are also always those on
    disk, having been so at the start; a failed write is only logged. *)
Theorem run_invariant r r' :
  node_inv r -> rtc step r r' ->
  node_inv r' /\ currentTerm r <= currentTerm r' /\ futures_final (futures r) (futures r').
Proof. apply run_good. Qed.

(** C20: crash and restart.  Provided the writes of the stable store do not
    fail, stop a node after any run and start a new one on its stores: it has
    the same term, vote and log, follows, and has nothing committed or applied
    yet. *)
Theorem restart_after_run r r' c :
  StableStoreReliable S -> node_inv r -> rtc step r r' ->
  validate c = Ok tt -> cfg_LogStore c = Some (logStore r') ->
  cfg_StableStore c = Some (stableStore r') ->
  exists n l, NewRaftNode (R := R) c = Ok n /\ node_inv n /\
    log_repr (logStore r') l /\ logStore n = logStore r' /\
    currentTerm n = currentTerm r' /\ votedFor n = votedFor r' /\
    state n = Follower /\ commitIndex n = 0 /\ lastApplied n = 0.
Proof.
  intros Hrel Hi Hrun Hv Hcl Hcs. destruct (run_good _ _ Hi Hrun) as (([l Hok] & _ & Hd) & _).
  pose proof (proj1 (validate_Ok c) Hv) as (_ & _ & _ & _ & [f Hf] & _).
  unfold NewRaftNode. rewrite Hv, Hcl, Hcs, Hf.
  erewrite restoreState_spec; [|by apply Hd|by apply Hok].
  eexists _, l. split; [done|]. split.
  - split; [|split; [|done]].
    + exists l. destruct Hok. by split.
    + intros id loc Hl. simpl in Hl. by rewrite lookup_empty in Hl.
  - split_and!; try done. apply Hok.
Qed.

(** A step within a term takes a vote back only from a node that was not a
    follower. *)
Lemma step_vote r r' :
  node_inv r -> step r r' -> currentTerm r' = currentTerm r -> votedFor r <> [] -> state r = Follower ->
  votedFor r' = votedFor r.
Proof.
  intros Hi Hs Ht Hv Hst. pose proof Hi as ([l Hok] & Hp & Hd). pose proof (ok_log _ _ Hok) as Hl.
  destruct Hs as [r cmd r' resp b Hc E|r _|r r' req addrs Hm E|r t r' Ht' Hlt E|r|r r' E|r r' Hr E
    |r req r' Hr E|r peer es resp r' Hes Hresp E|r r' Hlt E|r data c Hc|r fut b|r|r]; try done.
  - destruct cmd as [req|req|]; simpl in E; [| |by injection E as <- _ _].
    + apply obind_Ok in E as ([[r1 resp1] b1] & E & [= <- _ _]).
      destruct (handleAppendEntries_effect r l req Hok Hc) as (r2 & ? & ? & l' & E2 & _ & Hlt & Hge & _).
      rewrite E in E2. injection E2 as <- <- <-.
      destruct (Z.lt_ge_cases (ae_Term req) (currentTerm r)) as [H|H]; [by destruct (Hlt H) as (-> & _)|].
      destruct (Hge H) as (_ & Ht' & _ & _ & _ & _ & -> & _).
      rewrite (proj2 (Z.ltb_ge _ _)), bool_decide_true by (done || lia). done.
    + apply obind_Ok in E as ([[r1 resp1] b1] & E & [= <- _ _]).
      destruct (handleRequestVote_effect r l req Hok Hc) as (r2 & g & E2 & Hg & _ & _ & Et & Ev & _).
      rewrite E in E2. injection E2 as <- _ _. rewrite Ev. rewrite Et in Ht. destruct g.
      * destruct (proj1 Hg eq_refl) as (_ & [?|[?|?]] & _); [lia|done|done].
      * by rewrite (proj2 (Z.ltb_ge _ _)) by lia.
  - destruct (startElection_effect r l Hok Hm) as (r1 & E1 & _ & _ & Et & _). rewrite E in E1. injection E1 as <- _ _. lia.
  - destruct (stepDown_ok r l t Hok Ht') as (r1 & E1 & _ & _ & Et & _). rewrite E in E1.
    injection E1 as <-. lia.
  - unfold leader_init in E. rewrite (LastIndex_law _ _ Hl) in E. simpl in E.
    destruct (foldl _ _ _). by injection E as <-.
  - destruct (appendNoOp_ok r l Hl Hr (ok_term _ _ Hok)) as (s & err & _ & E1). rewrite E in E1. injection E1 as ->.
    by destruct err.
  - unfold handleApplyRequest in E. rewrite bool_decide_false in E by (by rewrite Hst).
    by injection E as <-.
  - destruct resp as [resp|]; [|by injection E as <-].
    destruct (Z.lt_ge_cases (currentTerm r) (ar_Term resp)) as [Hlt|Hge].
    { unfold replicate_response in E. rewrite (proj2 (Z.ltb_lt _ _)) in E by done.
      destruct (stepDown_ok r l (ar_Term resp) Hok (Hresp _ eq_refl)) as (r1 & E1 & _ & _ & Et & _).
      rewrite E in E1. injection E1 as <-. lia. }
    destruct (heap r !! peer) as [p|] eqn:Hpeer.
    2: { unfold replicate_response in E. rewrite (proj2 (Z.ltb_ge _ _)), Hpeer in E by done. done. }
    destruct (replicate_response_effect r l peer p es resp Hok Hpeer) as (_ & _ & Hacc & Href).
    destruct (ar_Success resp).
    + rewrite (Hacc Hge eq_refl) in E. destruct (last es) as [e|] eqn:El; [|by eapply advance_vote].
      set (r1 := set_peer _ _ _) in E. change (votedFor r) with (votedFor r1).
      apply (advance_vote r1 l); [destruct Hok; by split| |done].
      apply set_peer_peers_ok; [done|by eexists|by eapply last_entries].
    + destruct (Href Hge eq_refl) as (next & E' & _). rewrite E in E'. by injection E' as ->.
  - destruct (apply_one_cases _ _ _ E) as [->|(f & x & ->)]; [done|].
    by destruct (applied_one_same r (uint64 (lastApplied r + 1)) f x) as ((_ & ? & _) & _).
  - by destruct (Apply_same r data c) as ((_ & ? & _) & _).
  - unfold Shutdown. by destruct (shutdownCh r).
Qed.

(** One vote per term.  A follower that has voted in a term does not
    vote for anyone else in it, through any run in which it stays a
    follower. *)
Theorem follower_votes_once r r' :
  node_inv r -> rtc (fun a b => state a = Follower /\ step a b) r r' ->
  currentTerm r' = currentTerm r -> votedFor r <> [] -> votedFor r' = votedFor r.
Proof.
  intros Hi Hrun. induction Hrun as [r|r1 r2 r3 [Hst Hs] Hrun IH]; [done|]. intros Ht Hv.
  destruct (step_good _ _ Hi Hs) as (Hi2 & Hle & _).
  assert (rtc step r2 r3) as Hrun' by (eapply rtc_subrel; [|exact Hrun]; by intros ? ? [_ ?]).
  destruct (run_good _ _ Hi2 Hrun') as (_ & Hle' & _).
  assert (votedFor r2 = votedFor r1) as E by (apply step_vote; auto; lia).
  rewrite <-E. apply IH; [done|lia|congruence].
Qed.

(** A client's request.  Only a leader appends; it puts the data at the
    end of its log under its own term, ties the future to that index, and
    wakes every replicator; a store that fails the write leaves the log as it
    was and the caller with the error. *)
Theorem handleApplyRequest_spec r l req :
  node_ok r l -> log_room r ->
  (state r <> Leader ->
     handleApplyRequest r req = Ok (respondTo r (rq_future req) (Some ErrNotLeader) None)) /\
  (state r = Leader ->
     exists s err l', log_repr s l' /\
       match err with
       | None =>
           l' = l ++ [mkLog (len l + 1) (currentTerm r) (rq_data req)] /\
           exists r', handleApplyRequest r req = Ok r' /\ logStore r' = s /\
             pendingFutures r' = <[len l + 1 := rq_future req]> (pendingFutures r) /\
             futures r' = futures r /\ currentTerm r' = currentTerm r /\ state r' = Leader /\
             forall id loc p, peers r !! id = Some loc -> heap r !! loc = Some p ->
               exists p', heap r' !! loc = Some p' /\ ps_triggerCh p' = true /\
                 nextIndex p' = nextIndex p /\ matchIndex p' = matchIndex p
       | Some e =>
           l' = l /\
           handleApplyRequest r req =
             Ok (respondTo (set_log r s) (rq_future req) (Some (ErrStoreLog e)) None)
       end).
Proof.
  intros [Hl _ Ht] Hroom. split.
  - intros Hst. unfold handleApplyRequest. by rewrite bool_decide_false.
  - intros Hst. destruct (handleApplyRequest_ok r l req Hl Hroom Ht Hst) as (s & err & Hs & ->).
    exists s, err. destruct err; eexists; (split; [exact Hs|]); [done|]. split; [done|].
    eexists. split; [done|]. split_and!; try done. simpl. intros id loc p Hid Hp.
    apply (trigger_set (heap r) (peers r) id); done.
Qed.

End Steps.
