(* ===== verification/Candidate.v ===== *)
(** * Raft: winning an election

    Theorems about [runCandidate] and the start of [runLeader]. *)

From S2P Require Import Prelude Binary Store RaftTypes Node Election Logs Replication Append Leader Loops Runs.

Section Candidate.
Context {L S F R : Type} `{!LogStore L} `{!StableStore S} `{!FSM F R}.
Context `{!LogStoreLaws L} `{!LogStoreTruncates L} `{!StableStoreLaws S}.
Abbreviation Node := (RaftNode L S F R).
Implicit Types r : Node.

(** ** Specification *)

(** Votes granted among the events. *)
Definition is_grant (e : candidate_event) : bool :=
  match e with CeVote v => vr_VoteGranted v | _ => false end.
Definition granted (evs : list candidate_event) : Z := len (List.filter is_grant evs).

(** The events of the candidate's own [select], with machine terms. *)
Definition event_ok (e : candidate_event) : Prop :=
  match e with
  | CeVote v => is_uint64 (vr_Term v)
  | CeRPC cmd => cmd_ok cmd
  | CeReplicator _ _ _ => False
  | _ => True
  end.

(** A campaign: candidate, having voted for itself. *)
Definition campaigning r : Prop :=
  state r = Candidate /\ votedFor r = ServerID (config r) /\ ServerID (config r) <> [].

(** What a win leaves unchanged, and what it sets. *)
Definition won r r' : Prop :=
  currentTerm r' = currentTerm r /\ votedFor r' = votedFor r /\ logStore r' = logStore r /\
  config r' = config r /\ leaderID r' = ServerID (config r).

(** ** Lemmas *)

Lemma candidate_rpc r l cmd r1 resp b :
  node_ok r l -> campaigning r -> cmd_ok cmd -> handleRPC r cmd = Ok (r1, resp, b) ->
  state r1 = Follower \/
  (node_ok r1 l /\ campaigning r1 /\ currentTerm r1 = currentTerm r /\ votedFor r1 = votedFor r /\
   logStore r1 = logStore r /\ config r1 = config r).
Proof.
  intros Hok (Hst & Hv & Hne) Hc E. unfold campaigning.
  destruct cmd as [req|req|]; simpl in E; [| |injection E as <- _ _; right; by split_and!].
  - apply obind_Ok in E as ([[r' resp1] b1] & E & [= <- _ _]).
    destruct (handleAppendEntries_effect r l req Hok Hc) as (r2 & ? & ? & l' & E2 & _ & Hlt & Hge & _).
    rewrite E in E2. injection E2 as <- <- <-.
    destruct (Z.lt_ge_cases (ae_Term req) (currentTerm r)) as [H|H].
    + destruct (Hlt H) as (-> & _). right. by split_and!.
    + left. by destruct (Hge H) as (_ & _ & _ & ? & _).
  - apply obind_Ok in E as ([[r' resp1] b1] & E & [= <- _ _]).
    destruct (handleRequestVote_effect r l req Hok Hc) as (r2 & g & E2 & Hg & Hok2 & Hsr & Et & Ev & Es & _).
    rewrite E in E2. injection E2 as <- _ _.
    destruct (Z.ltb_spec (currentTerm r) (rv_Term req)) as [H|H]; [by left|right].
    assert (votedFor r' = votedFor r) as Ev'.
    { rewrite Ev. destruct g; [|done]. destruct (proj1 Hg eq_refl) as (_ & [?|[?|?]] & _); [lia|congruence|done]. }
    assert (config r' = config r) as Ec by apply Hsr. rewrite Ec.
    split_and!; try done; try congruence; [rewrite Et; lia|apply Hsr].
Qed.

Lemma candidate_select_wins evs r l votes quorum x :
  node_ok r l -> campaigning r -> Forall event_ok evs ->
  candidate_select r votes quorum evs = Ok x -> state (run_node x) = Leader ->
  won r (run_node x) /\ quorum <= votes + granted evs.
Proof.
  revert r votes x. induction evs as [|ev evs IH]; intros r votes x Hok Hcamp Hall E Hlead;
    pose proof Hcamp as (Hst & Hv & Hne); cbn [candidate_select] in E.
  { injection E as <-. simpl in Hlead. congruence. }
  apply Forall_cons in Hall as [Hev Hall].
  destruct ev as [vote| |cmd| | |peer es resp]; try (injection E as <-; simpl in Hlead; congruence); [| | |done].
  - destruct (Z.ltb_spec (currentTerm r) (vr_Term vote)) as [Hlt|Hle].
    { destruct (stepDown_ok r l (vr_Term vote) Hok Hev) as (r1 & E1 & _ & _ & _ & _ & Hs & _).
      rewrite E1 in E. injection E as <-. simpl in Hlead. congruence. }
    rewrite bool_decide_true in E by done.
    assert (granted (CeVote vote :: evs) = (if vr_VoteGranted vote then 1 else 0) + granted evs) as Hg.
    { unfold granted. simpl. destruct (vr_VoteGranted vote); [by rewrite len_cons|lia]. }
    rewrite Hg. destruct (vr_VoteGranted vote).
    + destruct (Z.leb_spec quorum (votes + 1)) as [Hq|Hq].
      * injection E as <-. split; [by split_and!|]. unfold granted. pose proof (len_nonneg (List.filter is_grant evs)). lia.
      * destruct (IH r (votes + 1) x Hok Hcamp Hall E Hlead) as [? ?]. split; [done|lia].
    + destruct (IH r votes x Hok Hcamp Hall E Hlead) as [? ?]. split; [done|lia].
  - rewrite bool_decide_true in E by done. by apply (IH r).
  - apply obind_Ok in E as ([[r1 resp] b] & E1 & E). unfold answer in E.
    apply obind_Ok in E as (x1 & E & [= <-]). simpl in Hlead |- *.
    destruct (candidate_rpc r l cmd r1 resp b Hok Hcamp Hev E1) as [Hf|(Hok1 & Hcamp1 & Et & Ev & El & Ec)].
    { rewrite bool_decide_false in E by congruence. injection E as <-. simpl in Hlead. congruence. }
    rewrite bool_decide_true in E by apply Hcamp1.
    destruct (IH r1 votes x1 Hok1 Hcamp1 Hall E Hlead) as [(H1 & H2 & H3 & H4 & H5) Hq].
    split; [|done]. unfold won. split_and!; congruence.
Qed.

Lemma majority_quorum n k : 0 <= n -> n / 2 + 1 <= k -> n < 2 * k.
Proof. intros. pose proof (Z.div_mod n 2). pose proof (Z.mod_pos_bound n 2). lia. Qed.

Lemma granted_vote v votes :
  granted (map CeVote (v :: votes)) =
    (if vr_VoteGranted v then 1 else 0) + granted (map CeVote votes).
Proof. unfold granted. simpl. destruct (vr_VoteGranted v); [by rewrite len_cons|lia]. Qed.

Lemma candidate_select_elected r quorum n votes :
  state r = Candidate -> Forall (fun v => vr_Term v <= currentTerm r) votes ->
  n < quorum <= n + granted (map CeVote votes) ->
  exists x, candidate_select r n quorum (map CeVote votes) = Ok x /\
    run_returned x = true /\ state (run_node x) = Leader /\ currentTerm (run_node x) = currentTerm r.
Proof.
  intros Hst. revert n. induction votes as [|v votes IH]; intros n Hall Hn.
  { change (granted (map CeVote [])) with 0 in Hn. lia. }
  apply Forall_cons in Hall as [Hle Hall]. rewrite granted_vote in Hn. cbn [map candidate_select].
  rewrite (proj2 (Z.ltb_ge _ _)) by lia. rewrite bool_decide_true by done.
  revert Hn. destruct (vr_VoteGranted v); intros Hn; [|apply IH; [done|lia]].
  destruct (Z.leb_spec quorum (n + 1)); [by eexists|]. apply IH; [done|lia].
Qed.

(** ** Theorems *)

(** An election.  When a campaign that nothing but its own events
    touches ends with the node as leader, it is the leader of exactly the
    term it asked votes for, in which it voted for itself, with its own log
    untouched, and it and the servers that granted their vote are a majority
    of the configuration. *)
Theorem runCandidate_wins r l evs x req addrs :
  node_ok r l -> state r = Candidate -> ServerID (config r) <> [] -> currentTerm r < MaxUint64 ->
  Forall event_ok evs ->
  runCandidate r evs = Ok (x, req, addrs) -> state (run_node x) = Leader ->
  currentTerm (run_node x) = currentTerm r + 1 /\ rv_Term req = currentTerm r + 1 /\
  votedFor (run_node x) = ServerID (config r) /\ leaderID (run_node x) = ServerID (config r) /\
  logStore (run_node x) = logStore r /\
  len (Peers (config r)) < 2 * (1 + granted evs).
Proof.
  intros Hok Hst Hne Hmax Hall E Hlead. unfold runCandidate in E.
  destruct (startElection_effect r l Hok Hmax) as (r1 & E1 & Hok1 & Hsr & Ht & Hv & Hs & _).
  rewrite E1 in E. cbn [obind] in E.
  assert (config r1 = config r) as Ec by apply Hsr. assert (logStore r1 = logStore r) as El by apply Hsr.
  apply obind_Ok in E as (x1 & E & [= <- <- _]). rewrite Ec in E. cbn [rv_Term].
  assert (0 <= granted evs) as Hg by apply len_nonneg.
  pose proof (len_nonneg (Peers (config r))) as Hn.
  destruct (Z.leb_spec (len (Peers (config r)) / 2 + 1) 1) as [Hq|Hq].
  { injection E as <-. simpl in *. rewrite Ec. apply majority_quorum in Hq; [|done]. split_and!; try done. lia. }
  rewrite bool_decide_true in E by congruence.
  assert (campaigning r1) as Hcamp by (unfold campaigning; rewrite Ec; by split_and!; try congruence).
  destruct (candidate_select_wins evs r1 l _ _ x1 Hok1 Hcamp Hall E Hlead) as [(H1 & H2 & H3 & H4 & H5) Hq'].
  split_and!; try congruence. by apply majority_quorum.
Qed.

(** Enough votes win.  A campaign that hears only from voters, none of
    them in a later term and enough of them granting, ends as leader. *)
Theorem runCandidate_elected r l votes :
  node_ok r l -> state r = Candidate -> currentTerm r < MaxUint64 ->
  Forall (fun v => vr_Term v <= currentTerm r + 1) votes ->
  len (Peers (config r)) / 2 <= granted (map CeVote votes) ->
  exists x req addrs, runCandidate r (map CeVote votes) = Ok (x, req, addrs) /\
    run_returned x = true /\ state (run_node x) = Leader /\
    currentTerm (run_node x) = currentTerm r + 1.
Proof.
  intros Hok Hst Hmax Hall Hq. unfold runCandidate.
  destruct (startElection_effect r l Hok Hmax) as (r1 & -> & Hok1 & Hsr & Ht & Hv & Hs & _).
  cbn [obind]. replace (config r1) with (config r) by (symmetry; apply Hsr).
  destruct (Z.leb_spec (len (Peers (config r)) / 2 + 1) 1) as [H1|H1]; [by eexists _, _, _|].
  rewrite bool_decide_true by congruence.
  destruct (candidate_select_elected r1 (len (Peers (config r)) / 2 + 1) 1 votes) as (x & -> & ? & ? & ?).
  - congruence.
  - by rewrite Ht.
  - lia.
  - eexists x, _, _. split_and!; try done. congruence.
Qed.

(** ** Taking office *)

(** The record [runLeader] makes for a server. *)
Definition fresh_peer (l : list LogEntry) (p : PeerConfig) : peerState :=
  mkPeerState (pc_ID p) (pc_Address p) (len l + 1) 0 false.

Lemma leader_peers_spec self lastIdx cfg ps h ps' h' :
  foldl (leader_peer self lastIdx) (ps, h) cfg = (ps', h') -> NoDup (map pc_ID cfg) ->
  (exists k, h' = h ++ k) /\
  (forall id loc, ps' !! id = Some loc ->
     ps !! id = Some loc \/ (id <> self /\ (length h <= loc)%nat /\ id ∈ map pc_ID cfg)) /\
  (forall id loc, ps !! id = Some loc -> id ∉ map pc_ID cfg -> ps' !! id = Some loc) /\
  (forall p, p ∈ cfg -> pc_ID p <> self -> exists loc, ps' !! pc_ID p = Some loc /\ (length h <= loc)%nat /\
     h' !! loc = Some (mkPeerState (pc_ID p) (pc_Address p) (uint64 (lastIdx + 1)) 0 false)).
Proof.
  revert ps h. induction cfg as [|c cfg IH]; intros ps h E Hnd; simpl in E.
  { injection E as <- <-. split_and!; [exists []; by rewrite app_nil_r|auto|auto|].
    intros p Hp. by apply elem_of_nil in Hp. }
  apply NoDup_cons in Hnd as [Hc Hnd]. unfold leader_peer at 2 in E. simpl in E.
  case_bool_decide as Hself.
  - destruct (IH ps h E Hnd) as (H1 & H2 & H3 & H4). split_and!; [done|..].
    + intros id loc Hl. destruct (H2 id loc Hl) as [|(? & ? & ?)]; [by left|right].
      split_and!; try done. simpl. by right.
    + intros id loc Hl Hn. apply H3; [done|]. intros Hin. apply Hn. simpl. by right.
    + intros p [->|Hp]%elem_of_cons Hne; [done|]. by apply H4.
  - destruct (IH _ _ E Hnd) as ((k & ->) & H2 & H3 & H4). split_and!.
    + eexists. by rewrite <-app_assoc.
    + intros id loc Hl. destruct (H2 id loc Hl) as [Hl'|(? & Hle & ?)].
      * destruct (decide (id = pc_ID c)) as [->|Hne].
        -- rewrite lookup_insert_eq in Hl'. injection Hl' as <-. right. split_and!; [done|done|]. simpl. by left.
        -- rewrite lookup_insert_ne in Hl' by done. by left.
      * right. rewrite length_app in Hle. split_and!; [done|lia|]. simpl. by right.
    + intros id loc Hl Hn. apply H3; [|intros Hin; apply Hn; simpl; by right].
      rewrite lookup_insert_ne; [done|]. intros E'. apply Hn. rewrite <-E'. simpl. by left.
    + intros p [->|Hp]%elem_of_cons Hne.
      * exists (length h). split_and!; [|done|].
        -- apply H3; [by rewrite lookup_insert_eq|done].
        -- rewrite lookup_app_l by (rewrite length_app; simpl; lia).
           by rewrite lookup_app_r, Nat.sub_diag.
      * destruct (H4 p Hp Hne) as (loc & ? & Hle & ?). rewrite length_app in Hle.
        exists loc. split_and!; [done|lia|done].
Qed.

(** A new leader takes every other server of the configuration to be up
    to date and to have nothing replicated, and nothing else: the records are
    new ones, so that a replicator left over from an earlier leadership of
    the node, which keeps its pointer, cannot touch them. *)
Theorem leader_init_spec r l :
  node_ok r l -> NoDup (map pc_ID (Peers (config r))) ->
  exists r', leader_init r = Ok r' /\ node_ok r' l /\
    (forall p, p ∈ Peers (config r) -> pc_ID p <> ServerID (config r) ->
       exists loc, peers r' !! pc_ID p = Some loc /\ heap r' !! loc = Some (fresh_peer l p)) /\
    (forall id loc, peers r' !! id = Some loc ->
       id <> ServerID (config r) /\ id ∈ map pc_ID (Peers (config r)) /\ (length (heap r) <= loc)%nat) /\
    (forall loc p, heap r !! loc = Some p -> heap r' !! loc = Some p).
Proof.
  intros Hok Hnd. unfold leader_init. rewrite (LastIndex_law _ _ (ok_log _ _ Hok)). cbn [obind].
  destruct (foldl _ _ _) as [ps h] eqn:E.
  destruct (leader_peers_spec _ _ _ _ _ _ _ E Hnd) as ((k & Hk) & H2 & _ & H4).
  eexists. split; [done|]. split; [destruct Hok; by split|]. simpl. split_and!.
  - intros p Hp Hne. destruct (H4 p Hp Hne) as (loc & Hl & _ & Hh). exists loc. split; [done|].
    rewrite Hh. unfold fresh_peer. rewrite uint64_id; [done|].
    pose proof (repr_small _ _ (ok_log _ _ Hok)). pose proof (len_nonneg l). int_unfold. lia.
  - intros id loc Hl. destruct (H2 id loc Hl) as [Hl'|(? & ? & ?)]; [by rewrite lookup_empty in Hl'|done].
  - intros loc p Hp. rewrite Hk. by apply lookup_app_l_Some.
Qed.

(** The election timeout of a node that [NewRaftNode] has made is drawn from
    the range of its configuration, without a panic. *)
Theorem randomElectionTimeout_range (c : Config L S F) (Int63n : Z -> Z) (r : Node) :
  NewRaftNode c = Ok r -> is_int (ElectionTimeoutMax c) -> (forall n, 0 < n -> 0 <= Int63n n < n) ->
  exists t, randomElectionTimeout r Int63n = Ok t /\ ElectionTimeoutMin c <= t < ElectionTimeoutMax c.
Proof.
  intros E Hm Hr. unfold NewRaftNode in E. destruct (validate c) as [[]| | |] eqn:Ev; try done.
  assert (0 < ElectionTimeoutMin c < ElectionTimeoutMax c) as Hb by (unfold validate in Ev; opened; lia).
  assert (config r = c) as Ec.
  { destruct (cfg_LogStore c), (cfg_StableStore c), (cfg_FSM c); try done. unfold restoreState in E. by opened. }
  unfold randomElectionTimeout. rewrite Ec. unfold is_int in Hm.
  rewrite int64_id by (int_unfold; lia). destruct (Z.leb_spec (ElectionTimeoutMax c - ElectionTimeoutMin c) 0); [lia|].
  specialize (Hr (ElectionTimeoutMax c - ElectionTimeoutMin c) ltac:(lia)).
  eexists. split; [done|]. rewrite int64_id by (int_unfold; lia). lia.
Qed.

End Candidate.
