(* ===== verification/Moves.v ===== *)
(** * Raft: what one operation of a node does to its term, vote and role

    For the theorems about the cluster: an operation either takes the node to
    a later term as a follower, or stays in the term without taking a vote
    back and without giving the node a role; the one exception is named
    ([append_moves]).  And the numbers in peer records and requests stay
    machine integers. *)

From S2P Require Import Prelude Binary Store RaftTypes Node Election Logs Replication Append Leader Loops Runs.

Section Moves.
Context {L S F R : Type} `{!LogStore L} `{!StableStore S} `{!FSM F R}.
Context `{!LogStoreLaws L} `{!LogStoreTruncates L} `{!StableStoreLaws S}.
Abbreviation Node := (RaftNode L S F R).
Implicit Types r : Node.

(** ** Specification *)

(** A peer record: of another server of the configuration, with an index
    that a request can be built from. *)
Definition record_ok r (p : peerState) : Prop :=
  (exists m, m ∈ Peers (config r) /\ pc_ID m <> ServerID (config r) /\ ps_addr p = pc_Address m) /\
  1 <= nextIndex p <= MaxUint64.

Definition heap_ok r : Prop := forall loc p, heap r !! loc = Some p -> record_ok r p.

Definition same_id r r' : Prop :=
  ServerID (config r') = ServerID (config r) /\ Peers (config r') = Peers (config r).

Definition voted_on r r' : Prop :=
  currentTerm r < currentTerm r' /\ state r' = Follower \/
  currentTerm r' = currentTerm r /\ (votedFor r = [] \/ votedFor r' = votedFor r) /\
    (state r' = state r \/ state r' = Follower).

Record moved r r' : Prop := {
  mv_inv : node_inv r';
  mv_id : same_id r r';
  mv_heap : heap_ok r';
  mv_vote : voted_on r r'
}.

Definition response_ok (resp : AppendEntriesResponse) : Prop :=
  is_uint64 (ar_Term resp) /\ is_uint64 (ar_ConflictIndex resp).

(** ** Lemmas *)

Lemma same_id_refl r : same_id r r.
Proof. by split. Qed.

Lemma same_id_trans r1 r2 r3 : same_id r1 r2 -> same_id r2 r3 -> same_id r1 r3.
Proof. intros [??] [??]. split; congruence. Qed.

Lemma heap_frame r r' : same_id r r' -> heap r' = heap r -> heap_ok r -> heap_ok r'.
Proof. intros [E1 E2] Eh H loc p Hp. unfold record_ok. rewrite E1, E2. apply (H loc). congruence. Qed.

Lemma voted_same r r' :
  currentTerm r' = currentTerm r -> votedFor r' = votedFor r ->
  (state r' = state r \/ state r' = Follower) -> voted_on r r'.
Proof. right. auto. Qed.

Lemma moved_frame r r' :
  node_inv r' -> heap_ok r -> config r' = config r -> heap r' = heap r ->
  currentTerm r' = currentTerm r -> votedFor r' = votedFor r ->
  (state r' = state r \/ state r' = Follower) -> moved r r'.
Proof.
  intros Hi Hh Ec Eh Et Ev Es. assert (same_id r r') as Hid by (split; by rewrite Ec).
  split; [done|done|by eapply heap_frame|by apply voted_same].
Qed.

Lemma moved_refl r : node_inv r -> heap_ok r -> moved r r.
Proof. intros. apply moved_frame; auto. Qed.

(** Nothing but the vote, and the term if it is later. *)
Lemma moved_rest r r' :
  node_inv r' -> heap_ok r -> same_rest r r' -> voted_on r r' -> moved r r'.
Proof.
  intros Hi Hh (Ec & _ & _ & _ & _ & Eh & _) Hv. assert (same_id r r') as Hid by (split; by rewrite Ec).
  split; [done|done|by eapply heap_frame|done].
Qed.

(** The waking of replicators and the writing of one record. *)
Lemma trigger_heap (h : list peerState) (ps : gmap bytes nat) loc p' :
  map_fold (fun _ loc h => alter trigger loc h) h ps !! loc = Some p' ->
  exists p, h !! loc = Some p /\ ps_addr p' = ps_addr p /\ nextIndex p' = nextIndex p.
Proof.
  revert loc p'. apply (map_fold_weak_ind (fun h' _ => forall loc p', h' !! loc = Some p' ->
    exists p, h !! loc = Some p /\ ps_addr p' = ps_addr p /\ nextIndex p' = nextIndex p)); [eauto|].
  intros i n m h' _ IH loc p' Hp. destruct (decide (n = loc)) as [->|Hne].
  - rewrite list_lookup_alter_eq in Hp. apply fmap_Some in Hp as (q & Hq & ->).
    destruct (IH _ _ Hq) as (p & ? & ? & ?). by exists p.
  - rewrite list_lookup_alter_ne in Hp by done. eauto.
Qed.

Lemma trigger_heap_ok r : heap_ok r -> heap_ok (triggerReplication r).
Proof.
  intros H loc p' Hp. simpl in Hp. destruct (trigger_heap _ _ _ _ Hp) as (p & Hq & E1 & E2).
  unfold record_ok. rewrite E1, E2. by apply (H loc).
Qed.

Lemma set_peer_heap_ok r peer p next m b :
  heap_ok r -> heap r !! peer = Some p -> 1 <= next <= MaxUint64 ->
  heap_ok (set_peer r peer (mkPeerState (ps_id p) (ps_addr p) next m b)).
Proof.
  intros H Hp Hn loc q Hq. simpl in Hq. destruct (decide (loc = peer)) as [->|Hne].
  - rewrite list_lookup_insert_eq in Hq by (by eapply lookup_lt_Some). injection Hq as <-.
    split; [|done]. apply (H _ _ Hp).
  - rewrite list_lookup_insert_ne in Hq by done. by apply (H loc).
Qed.

(** ** The operations *)

Lemma leader_peer_heap r (lastIdx : Z) (cfg : list PeerConfig) (ps ps' : gmap bytes nat) (h h' : list peerState) :
  foldl (leader_peer (ServerID (config r)) lastIdx) (ps, h) cfg = (ps', h') ->
  (forall p, p ∈ cfg -> p ∈ Peers (config r)) -> 0 <= lastIdx < MaxUint64 ->
  (forall loc p, h !! loc = Some p -> record_ok r p) ->
  forall loc p, h' !! loc = Some p -> record_ok r p.
Proof.
  intros E Hin Hl. revert ps h E. induction cfg as [|c cfg IH]; intros ps h E H; simpl in E; [by injection E as <- <-|].
  assert (forall p, p ∈ cfg -> p ∈ Peers (config r)) as Hin' by (intros; apply Hin; by right).
  unfold leader_peer at 2 in E. simpl in E. case_bool_decide; [by eapply (IH Hin')|].
  eapply (IH Hin'); [exact E|]. intros loc p [Hp|[_ Hp]]%lookup_app_Some; [by eapply H|].
  apply list_lookup_singleton_Some in Hp as [_ <-]. split.
  - exists c. split; [apply Hin; left|]. by split.
  - simpl. rewrite uint64_id; int_unfold; lia.
Qed.

Lemma leader_init_moves r r' : node_inv r -> heap_ok r -> leader_init r = Ok r' -> moved r r'.
Proof.
  intros Hi Hh E. pose proof (step_init r r' E) as Hs. destruct (step_good _ _ Hi Hs) as (Hi' & _).
  destruct Hi as ((l & Hok) & _). unfold leader_init in E.
  rewrite (LastIndex_law _ _ (ok_log _ _ Hok)) in E. cbn [obind] in E.
  destruct (foldl _ _ _) as [ps h] eqn:Ef. injection E as <-.
  split; [done|by split| |by apply voted_same; [..|left]].
  pose proof (repr_small _ _ (ok_log _ _ Hok)). pose proof (len_nonneg l).
  intros loc p Hp. by eapply (leader_peer_heap r); [exact Ef| |..].
Qed.

Lemma appendNoOp_moves r r' :
  node_inv r -> heap_ok r -> log_room r -> appendNoOp r = Ok r' -> moved r r'.
Proof.
  intros Hi Hh Hr E. pose proof (step_noop r r' Hr E) as Hs. destruct (step_good _ _ Hi Hs) as (Hi' & _).
  destruct Hi as ((l & Hok) & _).
  destruct (appendNoOp_ok r l (ok_log _ _ Hok) Hr (ok_term _ _ Hok)) as (s & err & _ & E'). rewrite E in E'. injection E' as ->.
  destruct err; split; try done; try (by apply voted_same; [..|left]).
  by apply (trigger_heap_ok (set_log r s)).
Qed.

Lemma handleApplyRequest_moves r req r' :
  node_inv r -> heap_ok r -> log_room r -> handleApplyRequest r req = Ok r' -> moved r r'.
Proof.
  intros Hi Hh Hr E. pose proof (step_append r req r' Hr E) as Hs. destruct (step_good _ _ Hi Hs) as (Hi' & _).
  destruct Hi as ((l & Hok) & _). destruct (decide (state r = Leader)) as [Hst|Hst].
  - destruct (handleApplyRequest_ok r l req (ok_log _ _ Hok) Hr (ok_term _ _ Hok) Hst) as (s & err & _ & E').
    rewrite E in E'. injection E' as ->.
    destruct err; split; try done; try (by apply voted_same; [..|left]).
    by apply (trigger_heap_ok (set_futures (set_log r s) _ _)).
  - unfold handleApplyRequest in E. rewrite bool_decide_false in E by done. injection E as <-.
    apply moved_frame; auto.
Qed.

Lemma fail_moves r : node_inv r -> heap_ok r -> moved r (failPendingFutures r).
Proof.
  intros Hi Hh. destruct (step_good _ _ Hi (step_fail r)) as (Hi' & _). apply moved_frame; auto.
Qed.

Lemma advance_rest r l r' :
  node_ok r l -> peers_ok r -> advanceCommitIndex r = Ok r' ->
  config r' = config r /\ heap r' = heap r /\ currentTerm r' = currentTerm r /\
  votedFor r' = votedFor r /\ state r' = state r.
Proof.
  intros Hok Hp E. destruct (advanceCommitIndex_effect r l Hok Hp) as (n & _ & E').
  rewrite E in E'. injection E' as ->. by destruct (decide _).
Qed.

Lemma response_moves r peer es resp r' :
  node_inv r -> heap_ok r -> entries_ok es -> (forall e, e ∈ es -> log_Index e < MaxUint64) ->
  response_ok resp -> replicate_response r peer es (Some resp) = Ok r' -> moved r r'.
Proof.
  intros Hi Hh Hes Hlt [Ht Hci] E.
  assert (step r r') as Hs.
  { eapply step_response; [done| |exact E]. by intros x [= <-]. }
  destruct (step_good _ _ Hi Hs) as (Hi' & _). destruct Hi as ((l & Hok) & Hp & _).
  destruct (Z.lt_ge_cases (currentTerm r) (ar_Term resp)) as [Hlt'|Hge].
  { unfold replicate_response in E. rewrite (proj2 (Z.ltb_lt _ _)) in E by done.
    destruct (stepDown_ok r l (ar_Term resp) Hok Ht) as (r1 & E1 & _ & Hsr & Et & _ & Es & _).
    rewrite E in E1. injection E1 as <-. apply moved_rest; [done..|]. left. split; [lia|done]. }
  destruct (heap r !! peer) as [p|] eqn:Hpeer.
  2: { unfold replicate_response in E. by rewrite (proj2 (Z.ltb_ge _ _)), Hpeer in E by done. }
  destruct (replicate_response_effect r l peer p es resp Hok Hpeer) as (_ & _ & Hacc & _).
  destruct (ar_Success resp) eqn:Es.
  - rewrite (Hacc Hge eq_refl) in E. destruct (last es) as [e|] eqn:El.
    + assert (is_uint64 (log_Index e)) as Hue by (by eapply last_entries).
      assert (log_Index e < MaxUint64) as Hle by (apply Hlt; by apply last_Some_elem_of).
      set (r1 := set_peer _ _ _) in E.
      assert (peers_ok r1) as Hp1 by (apply set_peer_peers_ok; [done|by eexists|done]).
      assert (node_ok r1 l) as Hok1 by (destruct Hok; by split).
      destruct (advance_rest r1 l r' Hok1 Hp1 E) as (Ec & Eh & Et & Ev & Est).
      assert (heap_ok r1) as Hh1.
      { apply set_peer_heap_ok; [done|done|]. rewrite uint64_id; int_unfold; lia. }
      destruct (moved_frame r1 r' Hi' Hh1 Ec Eh Et Ev ltac:(by left)) as [? ? ? ?]. by split.
    + destruct (advance_rest r l r' Hok Hp E) as (Ec & Eh & Et & Ev & Est). apply moved_frame; auto.
  - destruct (refused_spec r l peer p es resp Hok Hpeer Hge Es) as (next & E' & Hn & Hb).
    rewrite E in E'. injection E' as ->. split; [done|by split| |by apply voted_same; [..|left]].
    apply set_peer_heap_ok; [done|done|]. split; [done|].
    pose proof (repr_small _ _ (ok_log _ _ Hok)). destruct Hb as [(_ & Hb & _)|(-> & _)].
    + apply term_at_Some in Hb. lia.
    + int_unfold. lia.
Qed.

Lemma response_term r l peer es resp r' :
  node_ok r l -> peers_ok r -> entries_ok es -> ar_Term resp <= currentTerm r ->
  replicate_response r peer es (Some resp) = Ok r' -> currentTerm r' = currentTerm r.
Proof.
  intros Hok Hp Hes Hge E. destruct (heap r !! peer) as [p|] eqn:Hpeer.
  2: { unfold replicate_response in E. by rewrite (proj2 (Z.ltb_ge _ _)), Hpeer in E by done. }
  destruct (replicate_response_effect r l peer p es resp Hok Hpeer) as (_ & _ & Hacc & Href).
  destruct (ar_Success resp).
  - rewrite (Hacc Hge eq_refl) in E. destruct (last es) as [e|] eqn:El; [|by apply (advance_rest r l)].
    set (r1 := set_peer _ _ _) in E.
    assert (peers_ok r1) as Hp1 by (apply set_peer_peers_ok; [done|by eexists|by eapply last_entries]).
    assert (node_ok r1 l) as Hok1 by (destruct Hok; by split).
    by destruct (advance_rest r1 l r' Hok1 Hp1 E) as (_ & _ & -> & _).
  - destruct (Href Hge eq_refl) as (next & E' & _). rewrite E in E'. by injection E' as ->.
Qed.

(** The request for any record that is a machine integer, within the log or
    not. *)
Lemma replicate_request_safe r l peer p :
  node_ok r l -> state r = Leader -> heap r !! peer = Some p -> 1 <= nextIndex p <= MaxUint64 ->
  exists req, replicate_request r peer = Ok (Some req) /\ req_ok req /\ ae_Term req = currentTerm r /\
    ae_LeaderID req = ServerID (config r).
Proof.
  intros Hok Hst Hp Hn. destruct (Z.le_gt_cases (nextIndex p) (len l + 1)) as [Hle|Hgt].
  { assert (1 <= nextIndex p <= len l + 1) as Hn' by lia. exists (request_for r l p).
    split; [by apply replicate_request_ok; [apply Hok|..]|]. split; [by apply (request_for_ok r l p)|done]. }
  destruct Hok as [Hl _ Ht]. pose proof (len_nonneg l). unfold replicate_request. rewrite Hst, Hp.
  rewrite bool_decide_true by done. cbn [negb or_panic obind].
  rewrite uint64_id by (int_unfold; lia). rewrite (proj2 (Z.ltb_lt 0 (nextIndex p - 1))) by lia.
  destruct (GetLog_miss _ _ (nextIndex p - 1) Hl) as (q & err & ->).
  { int_unfold. lia. }
  { unfold entry_at. case_match; [|done]. apply lookup_ge_None. unfold len in *. lia. }
  cbn [obind]. rewrite (LastIndex_law _ _ Hl). cbn [obind].
  rewrite (proj2 (Z.leb_gt (nextIndex p) (len l))) by lia. eexists. split; [done|].
  split; [|done]. split; simpl; [done|lia|done|change (len []) with 0; lia|constructor].
Qed.

Lemma applied_moves r r' :
  node_inv r -> heap_ok r -> lastApplied r < commitIndex r ->
  apply_one r (uint64 (lastApplied r + 1)) = Ok r' -> moved r r'.
Proof.
  intros Hi Hh Hlt E. destruct (step_good _ _ Hi (step_applied r r' Hlt E)) as (Hi' & _).
  destruct (apply_one_cases _ _ _ E) as [->|(f & x & ->)]; [by apply moved_refl|].
  unfold applied_one in *. destruct (pendingFutures _ !! _); apply moved_frame; auto.
Qed.

Lemma Apply_moves r data c : node_inv r -> heap_ok r -> moved r (Apply r data c).1.
Proof.
  intros Hi Hh. 
  assert (exists l, node_ok r l) as [l Hok] by apply Hi.
  destruct (Apply_same r data c) as ((Et & Ev & Es) & El & Ep & Eh & _).
  assert (node_inv (Apply r data c).1) as Hi'.
  { apply (inv_frame r _ l Hi); [done|rewrite El; apply Hok|]. unfold peers_ok. rewrite Ep, Eh. apply Hi. }
  apply moved_frame; try done; unfold Apply; destruct (negb _), c; auto.
Qed.

Lemma watch_moves r fut b : node_inv r -> heap_ok r -> moved r (apply_watch r fut b).
Proof. intros Hi Hh. destruct (step_good _ _ Hi (step_watch r fut b)) as (Hi' & _). apply moved_frame; auto. Qed.

Lemma Shutdown_moves r : node_inv r -> heap_ok r -> moved r (Shutdown r).
Proof.
  intros Hi Hh. destruct (step_good _ _ Hi (step_shutdown r)) as (Hi' & _).
  unfold Shutdown in *. destruct (shutdownCh r); [by apply moved_refl|]. apply moved_frame; auto.
Qed.

(** ** RPCs *)

Lemma vote_moves r req r' resp b :
  node_inv r -> heap_ok r -> is_uint64 (rv_Term req) -> handleRequestVote r req = Ok (r', resp, b) ->
  moved r r' /\ is_uint64 (vr_Term resp) /\
  (vr_VoteGranted resp = true -> currentTerm r' = rv_Term req /\ votedFor r' = rv_CandidateID req).
Proof.
  intros Hi Hh Ht E. destruct Hi as ((l & Hok) & Hp & Hd).
  destruct (handleRequestVote_effect r l req Hok Ht) as (r1 & g & E1 & Hg & Hok1 & Hsr & Et & Ev & Es & Hd1).
  rewrite E in E1. injection E1 as <- -> _. split; [|split].
  - apply moved_rest; [|done|done|].
    + apply (inv_rest r r' l); [by split; [exists l|]|done|done|auto].
    + unfold voted_on. rewrite Et, Ev, Es.
      destruct (Z.ltb_spec (currentTerm r) (rv_Term req)); [left; split; [lia|done]|right].
      split_and!; [lia| |by left]. destruct g; [|by right].
      destruct (proj1 Hg eq_refl) as (_ & [?|[?|?]] & _); [lia|by left|right; congruence].
  - simpl. pose proof (ok_term _ _ Hok). int_unfold. lia.
  - simpl. intros ->. destruct (proj1 Hg eq_refl) as (Hle & _). split; [lia|done].
Qed.

Lemma conflict_index_ok r l req r' resp b :
  node_ok r l -> req_ok req -> handleAppendEntries r req = Ok (r', resp, b) ->
  is_uint64 (ar_ConflictIndex resp).
Proof.
  intros Hok Hreq. unfold handleAppendEntries.
  destruct (Z.ltb_spec (ae_Term req) (currentTerm r)) as [Hst|Hge]; [by intros [= <- <- <-]|].
  destruct (accept_leader r l req Hok Hreq Hge) as (r1 & -> & Hok1 & _). cbn [obind].
  set (r2 := set_leader _ _ _). pose proof (ok_log _ _ Hok1 : log_repr (logStore r2) l) as Hl.
  destruct (check_prev_spec r2 l req Hl Hreq) as (c & -> & Hc). cbn [obind].
  destruct c as [[t j]|].
  - intros [= <- <- <-]. simpl. pose proof (repr_small _ _ Hl). pose proof (len_nonneg l).
    inversion Hc as [| |Hsh|t' j' Ht Hne Hrun]; subst; [int_unfold; lia|].
    destruct Hrun as (Hj & _). apply term_at_Some in Ht. int_unfold. lia.
  - intros ([s ok] & _ & E)%obind_Ok. destruct ok; [|by injection E as <- <- <-].
    apply obind_Ok in E as (r3 & _ & E). by injection E as <- <- <-.
Qed.

(** The exception: a node that is not a follower loses its vote to a leader
    of its own term. *)
Lemma append_moves r req r' resp b :
  node_inv r -> heap_ok r -> req_ok req -> handleAppendEntries r req = Ok (r', resp, b) ->
  node_inv r' /\ same_id r r' /\ heap_ok r' /\ response_ok resp /\
  (voted_on r r' \/
   ae_Term req = currentTerm r /\ state r <> Follower /\ currentTerm r' = currentTerm r /\
     state r' = Follower).
Proof.
  intros Hi Hh Hreq E. pose proof Hi as ((l & Hok) & Hp & Hd).
  destruct (handleAppendEntries_effect r l req Hok Hreq) as (r1 & resp1 & b1 & l' & E1 & Hok1 & Hlt & Hge & Hd1).
  rewrite E in E1. injection E1 as <- <- <-.
  destruct (Z.lt_ge_cases (ae_Term req) (currentTerm r)) as [Hst|Hle].
  { destruct (Hlt Hst) as (-> & _ & _ & ->).
    split; [done|split; [done|split; [done|split; [by split; [apply Hok|]|]]]].
    left. apply voted_same; auto. }
  destruct (Hge Hle) as (_ & Et & Ert & Es & _ & Hrest & Ev & c & Hc & Hcase).
  assert (same_id r r') as Hid by (destruct Hrest as (Ec & _); split; by rewrite Ec).
  split; [|split; [done|split; [|split]]].
  - split; [by exists l'|]. split; [by eapply append_rest_peers|auto].
  - eapply heap_frame; [done|apply Hrest|done].
  - split; [rewrite Ert; apply Hreq|exact (conflict_index_ok r l req r' resp b Hok Hreq E)].
  - unfold voted_on. rewrite Et, Ev, Es. destruct (Z.ltb_spec (currentTerm r) (ae_Term req)); simpl.
    + left. left. by split.
    + destruct (decide (state r = Follower)) as [Hf|Hf].
      * left. right. rewrite bool_decide_true by done. split_and!; [lia|by right|by right].
      * right. split_and!; [lia|done|lia|done].
Qed.

End Moves.
