(* ===== verification/Turns.v ===== *)
(** * Raft: what an event does to one server

    A server is good ([server_ok]) when its node keeps its invariant and the
    place of its main goroutine fits the role of the node.  Every event of
    [Cluster.v] keeps its server good; here is what each does to the term, the
    vote and the campaign, which is all that [ElectionSafety.v] needs. *)

From S2P Require Import Prelude Binary Store RaftTypes Node Election Logs Replication Append Leader Loops Cluster Runs Candidate Moves.

Section Turns.
Context {L S F R : Type} `{!LogStore L} `{!StableStore S} `{!FSM F R}.
Context `{!LogStoreLaws L} `{!LogStoreTruncates L} `{!StableStoreLaws S}.
Abbreviation Node := (RaftNode L S F R).
Abbreviation Server := (server (L := L) (S := S) (F := F) (R := R)).
Abbreviation Cluster := (cluster (L := L) (S := S) (F := F) (R := R)).
Abbreviation Event := (event (F := F)).
Context (members : list PeerConfig).
Implicit Types (r : Node) (s : Server) (c : Cluster) (id : bytes).

(** ** Servers *)

(** What the place of the goroutine says about the node. *)
Definition role_ok s : Prop :=
  let r := sv_node s in
  match sv_pos s with
  | AtRun | Stopped => True
  | Following => state r = Follower
  | Electing => state r <> Leader
  | Campaigning t _ => currentTerm r = t /\ state r <> Leader
  | TakingOffice | Announcing | Leading => state r <> Candidate
  end.

Record server_ok id s : Prop := {
  so_inv : node_inv (sv_node s);
  so_heap : heap_ok (sv_node s);
  so_id : ServerID (config (sv_node s)) = id;
  so_peers : Peers (config (sv_node s)) = members;
  so_role : role_ok s
}.

(** An operation that makes no vote and no leader. *)
Definition vote_stays r r' : Prop :=
  currentTerm r < currentTerm r' /\ state r' <> Leader \/
  currentTerm r' = currentTerm r /\ (votedFor r = [] \/ votedFor r' = votedFor r) /\
    (state r' = Leader -> state r = Leader).

Record stays s s' : Prop := {
  st_pos : forall t n, sv_pos s' = Campaigning t n -> sv_pos s = Campaigning t n;
  st_vote : vote_stays (sv_node s) (sv_node s')
}.

(** An event of one server that leaves the votes of the cluster alone. *)
Definition calm id s s' : Prop := server_ok id s' /\ stays s s'.

Lemma vote_stays_refl r : vote_stays r r.
Proof. right. auto. Qed.

Lemma stays_refl s : stays s s.
Proof. split; [auto|apply vote_stays_refl]. Qed.

Lemma moved_stays r r' : moved r r' -> vote_stays r r'.
Proof.
  intros [_ _ _ Hv]. destruct Hv as [[? E]|(? & ? & [E|E])]; [left|right|right]; rewrite E; by split_and!.
Qed.

Lemma stays_moved s r' p :
  moved (sv_node s) r' -> (forall t n, p = Campaigning t n -> sv_pos s = Campaigning t n) ->
  stays s (mkSv r' p).
Proof. intros Hm Hp. split; [done|by apply moved_stays]. Qed.

Lemma moved_trans r1 r2 r3 :
  moved r1 r2 -> moved r2 r3 -> currentTerm r3 = currentTerm r2 -> votedFor r3 = votedFor r2 ->
  state r3 = state r2 -> moved r1 r3.
Proof.
  intros [_ H1 _ Hv] [Hi H2 Hh _] Et Ev Es. split; [done|by eapply same_id_trans|done|].
  unfold voted_on in *. by rewrite Et, Ev, Es.
Qed.

Lemma moved_fail r r' : moved r r' -> moved r (failPendingFutures r').
Proof.
  intros Hm. eapply moved_trans; [exact Hm|apply fail_moves; apply Hm|done..].
Qed.

Lemma moved_ok id s r' p :
  server_ok id s -> moved (sv_node s) r' -> role_ok (mkSv r' p) -> server_ok id (mkSv r' p).
Proof. intros [_ _ E1 E2 _] [Hi [E3 E4] Hh _] Hr. split; simpl; congruence || done. Qed.

(** One operation of the node, wherever its goroutine is. *)
Lemma moved_role s r' :
  role_ok s -> moved (sv_node s) r' ->
  (forall t n, sv_pos s = Campaigning t n -> currentTerm r' = currentTerm (sv_node s)) ->
  role_ok (mkSv r' (sv_pos s)).
Proof.
  unfold role_ok. simpl. intros Hr [_ _ _ Hv] Hc. destruct (sv_pos s) as [| | |t n| | | |]; try done.
  - destruct Hv as [[_ ->]|(_ & _ & [->| ->])]; done.
  - destruct Hv as [[_ ->]|(_ & _ & [->| ->])]; done.
  - rewrite (Hc t n eq_refl). split; [apply Hr|].
    destruct Hv as [[_ ->]|(_ & _ & [->| ->])]; [done|apply Hr|done].
  - destruct Hv as [[_ ->]|(_ & _ & [->| ->])]; done.
  - destruct Hv as [[_ ->]|(_ & _ & [->| ->])]; done.
  - destruct Hv as [[_ ->]|(_ & _ & [->| ->])]; done.
Qed.

(** An RPC reaches a [select], or nobody. *)
Lemma rpc_turn_cases s cmd s' a :
  role_ok s -> rpc_turn s cmd = Ok (s', a) ->
  (s' = s /\ a = None) \/
  exists r1 resp b, handleRPC (sv_node s) cmd = Ok (r1, resp, b) /\ a = Some resp /\
    match sv_pos s with
    | Following => s' = mkSv r1 (if decide (state r1 = Follower) then Following else AtRun)
    | Campaigning t n => s' = mkSv r1 (if decide (state r1 = Candidate) then Campaigning t n else AtRun)
    | Leading => s' = if decide (state r1 = Leader) then mkSv r1 Leading else mkSv (failPendingFutures r1) AtRun
    | _ => False
    end.
Proof.
  destruct s as [r pos]. unfold role_ok, rpc_turn. simpl. intros Hr (x & Ex & E)%obind_Ok.
  injection E as <- <-. destruct pos as [| | |t n| | | |]; try (injection Ex as <-; by left).
  - right. rewrite bool_decide_true in Ex by done. simpl in Ex.
    apply obind_Ok in Ex as ([[r1 resp] b] & E1 & Ex). exists r1, resp, b. split; [done|].
    destruct (decide (state r1 = Follower)) as [Hf|Hf].
    + rewrite bool_decide_true in Ex by done. by injection Ex as <-.
    + rewrite bool_decide_false in Ex by done. by injection Ex as <-.
  - right. apply obind_Ok in Ex as ([[r1 resp] b] & E1 & Ex). exists r1, resp, b. split; [done|].
    destruct (decide (state r1 = Candidate)) as [Hf|Hf].
    + rewrite bool_decide_true in Ex by done. by injection Ex as <-.
    + rewrite bool_decide_false in Ex by done. by injection Ex as <-.
  - right. apply obind_Ok in Ex as ([[r1 resp] b] & E1 & Ex). exists r1, resp, b. split; [done|].
    destruct (decide (state r1 = Leader)) as [Hf|Hf].
    + rewrite bool_decide_true in Ex by done. by injection Ex as <-.
    + rewrite bool_decide_false in Ex by done. by injection Ex as <-.
Qed.

(** The goroutine after an RPC that the node was moved by. *)
Lemma rpc_pos s r1 s' :
  role_ok s ->
  match sv_pos s with
  | Following => s' = mkSv r1 (if decide (state r1 = Follower) then Following else AtRun)
  | Campaigning t n => s' = mkSv r1 (if decide (state r1 = Candidate) then Campaigning t n else AtRun)
  | Leading => s' = if decide (state r1 = Leader) then mkSv r1 Leading else mkSv (failPendingFutures r1) AtRun
  | _ => False
  end ->
  (state r1 = Candidate -> currentTerm r1 = currentTerm (sv_node s)) ->
  role_ok s' /\ (forall t n, sv_pos s' = Campaigning t n -> sv_pos s = Campaigning t n /\ state r1 = Candidate) /\
  (sv_node s' = r1 \/ sv_node s' = failPendingFutures r1 /\ state r1 <> Leader).
Proof.
  unfold role_ok at 1. intros Hr Hs' Hc. destruct (sv_pos s) as [| | |t n| | | |]; try done; subst s'.
  - destruct (decide _) as [Hd|Hd]; (split; [done|]); (split; [done|by left]).
  - destruct (decide _) as [Hd|Hd]; (split; [|split; [|by left]]); try done.
    + unfold role_ok. simpl. rewrite (Hc Hd). split; [apply Hr|congruence].
  - destruct (decide _) as [Hd|Hd]; (split; [|split]); try done.
    + unfold role_ok. simpl. congruence.
    + by left.
    + by right.
Qed.

Lemma vote_rpc id s req s' a :
  server_ok id s -> is_uint64 (rv_Term req) -> rpc_turn s (CmdRequestVote req) = Ok (s', a) ->
  server_ok id s' /\ stays s s' /\
  forall resp, a = Some (RespRequestVote resp) -> is_uint64 (vr_Term resp) /\
    (vr_VoteGranted resp = true ->
     currentTerm (sv_node s') = rv_Term req /\ votedFor (sv_node s') = rv_CandidateID req).
Proof.
  intros Hok Ht E. destruct (rpc_turn_cases _ _ _ _ (so_role _ _ Hok) E) as [[-> ->]|(r1 & resp & b & E1 & -> & Hs')].
  { split; [done|]. split; [apply stays_refl|done]. }
  simpl in E1. apply obind_Ok in E1 as ([[r' v] b'] & E1 & [= -> <- <-]).
  destruct (vote_moves _ _ _ _ _ (so_inv _ _ Hok) (so_heap _ _ Hok) Ht E1) as (Hm & Hu & Hg).
  pose proof (mv_vote _ _ Hm) as Hv.
  destruct (rpc_pos s r1 s' (so_role _ _ Hok) Hs') as (Hr & Hp & Hn).
  { intros Hc. destruct Hv as [[_ ?]|[? _]]; [congruence|done]. }
  destruct s' as [r2 p2]. simpl in Hn, Hp. assert (moved (sv_node s) r2) as Hm2.
  { destruct Hn as [->|[-> _]]; [done|by apply moved_fail]. }
  split; [by eapply moved_ok|]. split; [apply stays_moved; [done|]; intros t n Ht'; by apply Hp|].
  intros resp' [= <-]. split; [done|]. intros Hresp. destruct (Hg Hresp) as [? ?]. by destruct Hn as [->|[-> _]].
Qed.

(** The entry request of a leader: a vote is taken back only from a node
    that stands against it. *)
Lemma append_rpc id s req s' a :
  server_ok id s -> req_ok req -> rpc_turn s (CmdAppendEntries req) = Ok (s', a) ->
  server_ok id s' /\ (forall resp, a = Some (RespAppendEntries resp) -> response_ok resp) /\
  (stays s s' \/
   ae_Term req = currentTerm (sv_node s) /\ currentTerm (sv_node s') = currentTerm (sv_node s) /\
   state (sv_node s') = Follower /\ (forall t n, sv_pos s' <> Campaigning t n) /\
   (state (sv_node s) = Leader \/ exists n, sv_pos s = Campaigning (currentTerm (sv_node s)) n)).
Proof.
  intros Hok Hreq E. destruct (rpc_turn_cases _ _ _ _ (so_role _ _ Hok) E) as [[-> ->]|(r1 & resp & b & E1 & -> & Hs')].
  { split; [done|]. split; [done|left; apply stays_refl]. }
  simpl in E1. apply obind_Ok in E1 as ([[r' v] b'] & E1 & [= -> <- <-]).
  destruct (append_moves _ _ _ _ _ (so_inv _ _ Hok) (so_heap _ _ Hok) Hreq E1) as (Hi1 & Hid1 & Hh1 & Hresp & Hv).
  destruct (rpc_pos s r1 s' (so_role _ _ Hok) Hs') as (Hr & Hp & Hn).
  { intros Hc. destruct Hv as [[[_ ?]|[? _]]|(_ & _ & ? & _)]; congruence. }
  destruct s' as [r2 p2]. simpl in Hn, Hp.
  assert (node_inv r2 /\ same_id (sv_node s) r2 /\ heap_ok r2 /\ currentTerm r2 = currentTerm r1 /\
    votedFor r2 = votedFor r1 /\ state r2 = state r1) as (Hi2 & Hid2 & Hh2 & Et & Ev & Es).
  { destruct Hn as [->|[-> _]]; [by split_and!|]. destruct (fail_moves r1 Hi1 Hh1) as [? ? ? _].
    split; [done|]. split; [by eapply same_id_trans|]. by split. }
  split; [|split].
  - destruct Hok as [_ _ H3 H4 _]. destruct Hid2. split; simpl; congruence || done.
  - by intros ? [= <-].
  - destruct Hv as [Hv|(Ht & Hnf & Et1 & Es1)].
    + left. apply stays_moved; [|intros t n Ht; by apply Hp]. split; [done..|].
      unfold voted_on in *. by rewrite Et, Ev, Es.
    + right. simpl. split_and!; [done|congruence|congruence| |].
      * intros t n Hc. destruct (Hp _ _ Hc) as [_ Hc']. congruence.
      * pose proof (so_role _ _ Hok) as Hr0. unfold role_ok in Hr0.
        destruct (sv_pos s) as [| | |t n| | | |]; try done.
        -- right. destruct Hr0 as [<- _]. by exists n.
        -- left. by destruct (state (sv_node s)).
Qed.

(** ** The events of the main goroutine *)

Lemma calm_moved id s r' p :
  server_ok id s -> moved (sv_node s) r' -> role_ok (mkSv r' p) ->
  (forall t n, p = Campaigning t n -> sv_pos s = Campaigning t n) -> calm id s (mkSv r' p).
Proof. intros. split; [by eapply moved_ok|by apply stays_moved]. Qed.

Lemma calm_refl id s : server_ok id s -> calm id s s.
Proof. intros. split; [done|apply stays_refl]. Qed.

Lemma server_moved_refl id s : server_ok id s -> moved (sv_node s) (sv_node s).
Proof. intros []. by apply moved_refl. Qed.

(** The goroutine goes back to [run]. *)
Lemma calm_run id s : server_ok id s -> calm id s (mkSv (sv_node s) AtRun).
Proof. intros. apply calm_moved; [done|by eapply server_moved_refl|done..]. Qed.

Lemma calm_fail id s : server_ok id s -> calm id s (mkSv (failPendingFutures (sv_node s)) AtRun).
Proof. intros. apply calm_moved; [done|by eapply moved_fail, server_moved_refl|done..]. Qed.

Lemma dispatch_calm id s : server_ok id s -> calm id s (dispatch s).
Proof.
  intros Hok. destruct s as [r []]; unfold dispatch; simpl; try by apply calm_refl.
  destruct (shutdownCh r); [|destruct (state r) eqn:E];
    (apply (calm_moved id (mkSv r AtRun)); [done|by eapply (server_moved_refl id (mkSv r AtRun))| |done]);
    unfold role_ok; simpl; done || congruence.
Qed.

Lemma timeout_calm id s s' : server_ok id s -> timeout s = Ok s' -> calm id s s'.
Proof.
  intros Hok. pose proof (so_role _ _ Hok) as Hr. destruct s as [r pos]. unfold timeout, role_ok in *. simpl in *.
  destruct pos as [| | |t n| | | |]; try (intros [= <-]; by apply calm_refl).
  - rewrite bool_decide_true by done. intros [= <-]. unfold after. simpl.
    destruct (step_good _ _ (so_inv _ _ Hok) (step_timeout r Hr)) as (Hi & _).
    destruct Hok as [H1 H2 H3 H4 _]. split; [by split|]. split; [done|]. right. simpl. by split_and!; [|right|].
  - intros [= <-]. by apply (calm_run id (mkSv r _)).
Qed.

Lemma stop_calm id s s' : server_ok id s -> stop s = Ok s' -> calm id s s'.
Proof.
  intros Hok. pose proof (so_role _ _ Hok) as Hr. destruct s as [r pos]. unfold stop, role_ok in *. simpl in *.
  destruct (negb (shutdownCh r)); [intros [= <-]; by apply calm_refl|].
  destruct pos as [| | |t n| | | |]; try (intros [= <-]; by apply calm_refl).
  - rewrite bool_decide_true by done. intros [= <-]. by apply (calm_run id (mkSv r _)).
  - intros [= <-]. by apply (calm_run id (mkSv r _)).
  - intros [= <-]. by apply (calm_fail id (mkSv r _)).
Qed.

Lemma closed_calm id s t n x :
  server_ok id s -> sv_pos s = Campaigning t n ->
  candidate_select (sv_node s) n (quorum_of (sv_node s)) [CeVotesClosed] = Ok x ->
  calm id s (after x (Campaigning t n)).
Proof.
  intros Hok Hp. simpl. case_bool_decide; intros [= <-]; unfold after; simpl.
  - rewrite <-Hp. destruct s. by apply calm_refl.
  - by apply calm_run.
Qed.

Lemma office_calm id s r :
  server_ok id s -> sv_pos s = TakingOffice -> leader_init (sv_node s) = Ok r -> calm id s (mkSv r Announcing).
Proof.
  intros Hok Hp E. pose proof (leader_init_moves _ _ (so_inv _ _ Hok) (so_heap _ _ Hok) E) as Hm.
  apply calm_moved; [done..| |done].
  pose proof (moved_role s r (so_role _ _ Hok) Hm) as H. rewrite Hp in H. by apply H.
Qed.

(** A leader's turn ends in its loop or, no longer leader, at [run]. *)
Lemma leading_calm id s r :
  server_ok id s -> moved (sv_node s) r ->
  calm id s (if bool_decide (state r = Leader) then mkSv r Leading else mkSv (failPendingFutures r) AtRun).
Proof.
  intros Hok Hm. case_bool_decide as Hl.
  - apply calm_moved; [done..| |done]. unfold role_ok. simpl. congruence.
  - apply calm_moved; [done|by apply moved_fail|done..].
Qed.

Lemma apply_calm id s x :
  server_ok id s -> sv_pos s = Leading -> log_room (sv_node s) ->
  leader_select (sv_node s) [LeApply] = Ok x -> calm id s (after x Leading).
Proof.
  intros Hok Hp Hroom. destruct s as [r pos]. simpl in *. subst pos.
  destruct (applyCh r) as [|q rest]; [intros [= <-]; by apply calm_refl|].
  intros (r1 & E1 & E)%obind_Ok. set (r0 := set_applyCh r rest) in E1.
  assert (moved r r0) as Hm0.
  { destruct Hok as [([l Hl] & Hp & Hd) Hh _ _ _]. apply moved_frame; auto. split; [|done].
    exists l. destruct Hl. by split. }
  assert (moved r0 r1) as Hm1 by (eapply (handleApplyRequest_moves r0); [apply Hm0..|done|exact E1]).
  assert (moved r r1) as Hm by (destruct Hm1; by split).
  pose proof (leading_calm id (mkSv r Leading) r1 Hok Hm) as Hc.
  case_bool_decide; injection E as <-; exact Hc.
Qed.

(** ** Elections *)

Lemma count_vote_cases id s t n v s' :
  server_ok id s -> sv_pos s = Campaigning t n -> is_uint64 (vr_Term v) -> count_vote s t n v = Ok s' ->
  server_ok id s' /\
  ((vote_stays (sv_node s) (sv_node s') /\
    forall t' n', sv_pos s' = Campaigning t' n' -> t' = t /\ n' = if vr_VoteGranted v then n + 1 else n) \/
   (vr_VoteGranted v = true /\ quorum_of (sv_node s) <= n + 1 /\ s' = mkSv (becomeLeader (sv_node s)) AtRun)).
Proof.
  intros Hok Hp Hu. pose proof (so_role _ _ Hok) as Hr. unfold role_ok in Hr. rewrite Hp in Hr.
  pose proof (server_moved_refl _ _ Hok) as Hm0.
  assert (forall k, server_ok id (mkSv (sv_node s) (Campaigning t k))) as Hcamp
    by (intros; by eapply moved_ok).
  assert (server_ok id (mkSv (sv_node s) AtRun)) as Hrun by (by apply calm_run).
  unfold count_vote. simpl. destruct (Z.ltb_spec (currentTerm (sv_node s)) (vr_Term v)) as [Hlt|Hge].
  { intros (x & Ex & [= <-])%obind_Ok. apply obind_Ok in Ex as (r1 & E1 & [= <-]). unfold after. simpl.
    assert (moved (sv_node s) r1) as Hm.
    { destruct Hok as [Hi Hh _ _ _]. pose proof Hi as ([l Hl] & _).
      destruct (stepDown_ok _ l (vr_Term v) Hl Hu) as (r2 & E2 & Hl2 & Hsr & Et & _ & Es & _ & _ & Hd).
      rewrite E1 in E2. injection E2 as <-. apply moved_rest; [by eapply inv_rest|done..|]. left. split; [lia|done]. }
    split; [by eapply moved_ok|]. left. split; [by apply moved_stays|done]. }
  destruct (vr_VoteGranted v).
  - destruct (Z.leb_spec (quorum_of (sv_node s)) (n + 1)) as [Hq|Hq].
    + intros [= <-]. unfold after. simpl. split; [|by right]. destruct Hok as [H1 H2 H3 H4 _].
      split; try done. simpl. destruct (step_good _ _ H1 (step_win (sv_node s))) as (? & _). done.
    + case_bool_decide; intros [= <-]; unfold after; simpl; (split; [done|left; split; [apply vote_stays_refl|]]);
        intros ? ? [=]; lia.
  - case_bool_decide; intros [= <-]; unfold after; simpl; (split; [done|left; split; [apply vote_stays_refl|]]);
      intros ? ? [=]; lia.
Qed.

Lemma election_cases id s x req addrs :
  server_ok id s -> sv_pos s = Electing -> currentTerm (sv_node s) < MaxUint64 ->
  runCandidate (sv_node s) [] = Ok (x, req, addrs) ->
  let s' := after x (Campaigning (rv_Term req) 1) in
  server_ok id s' /\ rv_Term req = currentTerm (sv_node s) + 1 /\ rv_CandidateID req = id /\
  addrs = map pc_Address (filter (fun p => pc_ID p <> id) members) /\
  currentTerm (sv_node s') = rv_Term req /\ votedFor (sv_node s') = id /\
  (forall t n, sv_pos s' = Campaigning t n -> t = rv_Term req /\ n = 1) /\
  (state (sv_node s') = Leader -> len members / 2 + 1 <= 1).
Proof.
  intros Hok Hp Hmax E. pose proof (so_role _ _ Hok) as Hr. unfold role_ok in Hr. rewrite Hp in Hr.
  pose proof Hok as [Hi Hh Eid Ep _]. pose proof Hi as ([l Hl] & _). unfold runCandidate in E.
  destruct (startElection_effect _ l Hl Hmax) as (r1 & E1 & Hl1 & Hsr & Et & Ev & Es & Hd).
  rewrite E1 in E. cbn [obind] in E. assert (config r1 = config (sv_node s)) as Ec by apply Hsr.
  rewrite Ec, Ep in E. apply obind_Ok in E as (x' & Ex & [= <- <- <-]). simpl. rewrite Eid.
  assert (node_inv r1) as Hi1 by (by eapply inv_rest).
  assert (heap_ok r1) as Hh1 by (apply (heap_frame (sv_node s)); [split; by rewrite Ec|apply Hsr|done]).
  destruct (Z.leb_spec (len members / 2 + 1) 1) as [Hq|Hq].
  { injection Ex as <-. destruct (step_good _ _ Hi1 (step_win r1)) as (Hi2 & _). unfold after. simpl.
    split_and!; try done; try congruence. split; simpl; rewrite ?Ec; done. }
  case_bool_decide as Hc; injection Ex as <-; unfold after; simpl.
  - split_and!; try done; try congruence.
    + split; simpl; rewrite ?Ec; try done. unfold role_ok. simpl. split; congruence.
    + by intros t n [= <- <-].
  - split_and!; try done; try congruence. split; simpl; rewrite ?Ec; done.
Qed.

(** ** Restart *)

Lemma validate_total (cfg : Config L S F) : validate cfg = Ok tt \/ exists e, validate cfg = Err e.
Proof. unfold validate. repeat case_match; eauto. Qed.

Lemma restart_cases id s f :
  StableStoreReliable S -> server_ok id s ->
  server_ok id (restart s f) /\ currentTerm (sv_node (restart s f)) = currentTerm (sv_node s) /\
  votedFor (sv_node (restart s f)) = votedFor (sv_node s) /\
  (state (sv_node (restart s f)) = Leader -> state (sv_node s) = Leader) /\
  (forall t n, sv_pos (restart s f) <> Campaigning t n).
Proof.
  intros Hrel [Hi Hh Eid Ep Hr]. pose proof Hi as ([l Hl] & Hpk & Hd).
  unfold restart. set (cfg := mkConfig _ _ _ _ _ _ _ _).
  assert ((exists e, NewRaftNode (R := R) cfg = Err e) \/
    NewRaftNode (R := R) cfg = Ok (mkNode cfg (currentTerm (sv_node s)) (votedFor (sv_node s)) (logStore (sv_node s))
      (stableStore (sv_node s)) Follower 0 0 ∅ [] [] [] f ∅ [] [] false false)) as [[e ->] | ->].
  { unfold NewRaftNode. destruct (validate_total cfg) as [->|[e ->]]; [right|left; by eexists].
    simpl. erewrite restoreState_spec; [done|by apply Hd|by apply Hl]. }
  - split; [by split|by split_and!].
  - split; [|by split_and!]. simpl. split; simpl; try done. split; [exists l; destruct Hl; by split|]. split; [|done].
    intros i loc Hl'. simpl in Hl'. by rewrite lookup_empty in Hl'.
Qed.

End Turns.
