(* ===== verification/ElectionSafety.v ===== *)
(** * Raft: election safety

    In a cluster whose events come in any order, with any loss, delay and
    crash, no term has two leaders, as long as no replicator left over from
    an earlier leadership takes a candidate to a later term in the middle of
    its campaign ([orderly]; without that, see [TwoLeaders.v]).

    The argument is about votes on record ([voted]): a server has one vote in
    a term on record at most, and while it is in the term it is the vote the
    node has. *)

From S2P Require Import Prelude Binary Store RaftTypes Node Election Logs Replication Append Leader Loops Cluster Runs Candidate Moves Turns.

(** ** Lists *)

Lemma elem_of_insert {A} (l : list A) k x y : x ∈ <[k := y]> l -> x = y \/ x ∈ l.
Proof.
  intros [i Hi]%list_elem_of_lookup. destruct (decide (i = k)) as [->|Hne].
  - left. apply list_lookup_insert_Some in Hi as [(_ & -> & _)|(? & _)]; done.
  - right. rewrite list_lookup_insert_ne in Hi by done. by eapply list_elem_of_lookup_2.
Qed.

Lemma elem_of_insert_other {A} (l : list A) k x y z :
  l !! k = Some y -> x ∈ l -> x = y \/ x ∈ <[k := z]> l.
Proof.
  intros Hk [i Hi]%list_elem_of_lookup. destruct (decide (i = k)) as [->|Hne]; [left; congruence|right].
  apply (list_elem_of_lookup_2 _ i). by rewrite list_lookup_insert_ne.
Qed.

Lemma elem_of_inserted {A} (l : list A) k y z : l !! k = Some y -> z ∈ <[k := z]> l.
Proof.
  intros Hk. apply (list_elem_of_lookup_2 _ k). apply list_lookup_insert_eq. by eapply lookup_lt_Some.
Qed.

Lemma map_insert_same {A B} (f : A -> B) (l : list A) k y z :
  l !! k = Some y -> f z = f y -> map f (<[k := z]> l) = map f l.
Proof.
  revert k. induction l as [|x l IH]; intros [|k] Hk E; simpl in *; try done; [congruence|].
  f_equal. by apply IH.
Qed.

Definition count {A} (P : A -> bool) (l : list A) : Z := len (List.filter P l).

Lemma count_app {A} (P : A -> bool) l k : count P (l ++ k) = count P l + count P k.
Proof. unfold count. by rewrite List.filter_app, len_app. Qed.

Lemma count_nonneg {A} (P : A -> bool) l : 0 <= count P l.
Proof. apply len_nonneg. Qed.

Lemma count_insert {A} (P : A -> bool) (l : list A) k y z :
  l !! k = Some y ->
  count P (<[k := z]> l) = count P l - (if P y then 1 else 0) + (if P z then 1 else 0).
Proof.
  unfold count. revert k. induction l as [|x l IH]; intros [|k] Hk; simpl in *; try done.
  - injection Hk as ->. destruct (P y), (P z); rewrite ?len_cons; lia.
  - specialize (IH k Hk). destruct (P x); rewrite ?len_cons; lia.
Qed.

(** Two majorities meet. *)
Lemma majorities_meet {A} `{EqDecision A} (m q1 q2 : list A) :
  NoDup q1 -> NoDup q2 -> q1 ⊆ m -> q2 ⊆ m -> len m < 2 * len q1 -> len m < 2 * len q2 ->
  exists v, v ∈ q1 /\ v ∈ q2.
Proof.
  intros N1 N2 S1 S2 H1 H2.
  destruct (decide (Exists (fun v => v ∈ q2) q1)) as [(v & ? & ?)%Exists_exists|Hn]; [by exists v|exfalso].
  assert (NoDup (q1 ++ q2)) as N.
  { apply NoDup_app. split_and!; [done| |done]. intros x Hx Hx2. apply Hn, Exists_exists. by exists x. }
  assert (q1 ++ q2 ⊆ m) as Hsub by (intros x [?|?]%elem_of_app; auto).
  pose proof (NoDup_submseteq _ _ N Hsub) as Hs. apply submseteq_length in Hs.
  rewrite length_app in Hs. unfold len in *. lia.
Qed.

Section Safety.
Context {L S F R : Type} `{!LogStore L} `{!StableStore S} `{!FSM F R}.
Context `{!LogStoreLaws L} `{!LogStoreTruncates L} `{!StableStoreLaws S}.
Abbreviation Node := (RaftNode L S F R).
Abbreviation Server := (server (L := L) (S := S) (F := F) (R := R)).
Abbreviation Cluster := (cluster (L := L) (S := S) (F := F) (R := R)).
Abbreviation Event := (event (F := F)).
Context (members : list PeerConfig).
Implicit Types (r : Node) (s : Server) (c : Cluster) (id : bytes) (t : Z).

Abbreviation ids := (map pc_ID members).
Abbreviation server_ok := (server_ok members).

(** ** Specification *)

(** A configuration whose servers have names and addresses of their own. *)
Record members_ok : Prop := {
  mb_ids : NoDup ids;
  mb_named : forall p, p ∈ members -> pc_ID p <> [];
  mb_addresses : forall p, p ∈ members -> server_at members (pc_Address p) = Some (pc_ID p)
}.

(** The servers have just started, on stores of any content. *)
Record initial c : Prop := {
  in_servers : forall id s, servers c !! id = Some s ->
    id ∈ ids /\ server_ok id s /\ sv_pos s = AtRun /\ state (sv_node s) = Follower;
  in_calls : vote_calls c = [] /\ append_calls c = [];
  in_elected : elected c = []
}.

(** Machine integers do not run out, and no answer to a replicator takes a
    candidate to a later term in the middle of its campaign. *)
Definition orderly c (e : Event) : Prop :=
  match e with
  | EvElect id => forall s, servers c !! id = Some s -> currentTerm (sv_node s) < MaxUint64
  | EvAnnounce id | EvApplyRequest id => forall s, servers c !! id = Some s -> log_room (sv_node s)
  | EvAppendResponse k =>
      forall v s resp t n, append_calls c !! k = Some v -> servers c !! ac_from v = Some s ->
        ac_resp v = Some resp -> sv_pos s = Campaigning t n -> ar_Term resp <= currentTerm (sv_node s)
  | _ => True
  end.

Inductive orderly_step c : Cluster -> Prop :=
| orderly_turn e c' : orderly c e -> turn members c e = Ok c' -> orderly_step c c'.

(** ** The votes on record *)

(** A call was answered with a vote. *)
Definition grant (v : vote_call) : bool :=
  match vc_resp v with Some resp => vr_VoteGranted resp | None => false end.

Definition granted_in (vs : list vote_call) (v : bytes) t (x : bytes) : Prop :=
  exists k, k ∈ vs /\ vc_to k = v /\ rv_Term (vc_req k) = t /\ vc_from k = x /\ grant k = true.

(** [v] voted for [x] in term [t]: it answered a call of [x] so, or it is
    [x], and campaigns in the term or has won it. *)
Inductive voted c (v : bytes) t : bytes -> Prop :=
| voted_call x : granted_in (vote_calls c) v t x -> voted c v t x
| voted_won : (t, v) ∈ elected c -> voted c v t v
| voted_campaign s n : servers c !! v = Some s -> sv_pos s = Campaigning t n -> voted c v t v.

(** The answers [id] has counted in its campaign for [t]. *)
Definition counted id t (v : vote_call) : bool :=
  bool_decide (vc_from v = id) && bool_decide (rv_Term (vc_req v) = t) && vc_taken v && grant v.

Definition majority (vs : list vote_call) t (x : bytes) : Prop :=
  exists q, NoDup q /\ q ⊆ ids /\ len ids < 2 * len q /\
    forall v, v ∈ q -> v = x \/ granted_in vs v t x.

Definition call_key (v : vote_call) : bytes * bytes * Z := (vc_from v, vc_to v, rv_Term (vc_req v)).

Record vote_call_ok c (v : vote_call) : Prop := {
  vk_other : vc_to v <> vc_from v;
  vk_to : vc_to v ∈ ids;
  vk_from : exists s, servers c !! vc_from v = Some s /\ rv_Term (vc_req v) <= currentTerm (sv_node s);
  vk_term : is_uint64 (rv_Term (vc_req v));
  vk_cand : rv_CandidateID (vc_req v) = vc_from v;
  vk_resp : forall resp, vc_resp v = Some resp -> is_uint64 (vr_Term resp)
}.

Record append_call_ok c (v : append_call) : Prop := {
  ak_other : ac_to v <> ac_from v;
  ak_leader : (ae_Term (ac_req v), ac_from v) ∈ elected c;
  ak_req : req_ok (ac_req v);
  ak_resp : forall resp, ac_resp v = Some resp -> response_ok resp
}.

Record cluster_ok c : Prop := {
  co_servers : forall id s, servers c !! id = Some s -> id ∈ ids /\ server_ok id s;
  co_leader : forall id s, servers c !! id = Some s -> state (sv_node s) = Leader ->
    (currentTerm (sv_node s), id) ∈ elected c;
  co_voted : forall v t x, voted c v t x ->
    x <> [] /\ exists s, servers c !! v = Some s /\ t <= currentTerm (sv_node s) /\
      (currentTerm (sv_node s) = t -> votedFor (sv_node s) = x);
  co_once : forall v t x y, voted c v t x -> voted c v t y -> x = y;
  co_votes : forall k, k ∈ vote_calls c -> vote_call_ok c k;
  co_keys : NoDup (map call_key (vote_calls c));
  co_majority : forall t x, (t, x) ∈ elected c -> x ∈ ids /\ majority (vote_calls c) t x;
  co_campaign : forall id s t n, servers c !! id = Some s -> sv_pos s = Campaigning t n ->
    n <= 1 + count (counted id t) (vote_calls c);
  co_appends : forall k, k ∈ append_calls c -> append_call_ok c k
}.

(** ** One leader per term *)

Lemma elected_once c t x y : cluster_ok c -> (t, x) ∈ elected c -> (t, y) ∈ elected c -> x = y.
Proof.
  intros Hc Hx Hy.
  destruct (co_majority _ Hc _ _ Hx) as (_ & q1 & N1 & S1 & H1 & V1).
  destruct (co_majority _ Hc _ _ Hy) as (_ & q2 & N2 & S2 & H2 & V2).
  destruct (majorities_meet ids q1 q2) as (v & Hv1 & Hv2); [done..|].
  assert (forall z, (t, z) ∈ elected c -> v = z \/ granted_in (vote_calls c) v t z -> voted c v t z) as Hvote.
  { intros z Hz [->|Hg]; [by apply voted_won|by apply voted_call]. }
  apply (co_once _ Hc v t); apply Hvote; auto.
Qed.

(** ** Preservation *)

(** One server changes, calls are made, answered and taken, and a leader may
    enter history: what is left to show is about that server. *)
Lemma cluster_step c id s s' vs as' el :
  cluster_ok c -> servers c !! id = Some s -> server_ok id s' ->
  let c' := mkCluster (<[id := s']> (servers c)) vs as' el in
  currentTerm (sv_node s) <= currentTerm (sv_node s') ->
  (state (sv_node s') = Leader -> (currentTerm (sv_node s'), id) ∈ el) ->
  (forall x, x ∈ elected c -> x ∈ el) ->
  (forall v t x, granted_in (vote_calls c) v t x -> granted_in vs v t x) ->
  (forall v t x, voted c' v t x -> v <> id -> voted c v t x) ->
  (forall t x, voted c' id t x ->
     (voted c id t x /\ (currentTerm (sv_node s') = t -> votedFor (sv_node s') = x)) \/
     (x <> [] /\ currentTerm (sv_node s') = t /\ votedFor (sv_node s') = x)) ->
  (forall k, k ∈ vs -> vote_call_ok c' k) -> NoDup (map call_key vs) ->
  (forall t x, (t, x) ∈ el -> (t, x) ∈ elected c \/ x ∈ ids /\ majority vs t x) ->
  (forall i u t n, <[id := s']> (servers c) !! i = Some u -> sv_pos u = Campaigning t n ->
     n <= 1 + count (counted i t) vs) ->
  (forall k, k ∈ as' -> append_call_ok c' k) ->
  cluster_ok c'.
Proof.
  intros Hc Hs Hs' c' Hterm Hlead Hel Hgr Hold Hnew Hvs Hkeys Hmaj Hcamp Has.
  assert (forall v t x, voted c' v t x -> x <> [] /\ exists s0, servers c' !! v = Some s0 /\
    t <= currentTerm (sv_node s0) /\ (currentTerm (sv_node s0) = t -> votedFor (sv_node s0) = x)) as Hv.
  { intros v t x Hx. destruct (decide (v = id)) as [->|Hne].
    - destruct (Hnew _ _ Hx) as [[Hx0 H]|(? & <- & <-)].
      + destruct (co_voted _ Hc _ _ _ Hx0) as (? & s0 & E & Hle & _). rewrite Hs in E. injection E as <-.
        split; [done|]. exists s'. simpl. rewrite lookup_insert_eq. split_and!; [done|lia|done].
      + split; [done|]. exists s'. simpl. rewrite lookup_insert_eq. split_and!; [done|lia|done].
    - destruct (co_voted _ Hc _ _ _ (Hold _ _ _ Hx Hne)) as (? & s0 & E & ?).
      split; [done|]. exists s0. simpl. by rewrite lookup_insert_ne. }
  split; try done.
  - intros i u Hu. simpl in Hu. apply lookup_insert_Some in Hu as [[<- <-]|[_ Hu]]; [|by apply Hc].
    split; [|done]. by apply (co_servers _ Hc id s).
  - intros i u Hu Hl. simpl in Hu. apply lookup_insert_Some in Hu as [[<- <-]|[_ Hu]]; [by apply Hlead|]. apply Hel. by apply Hc.
  - intros v t x y Hx Hy. destruct (decide (v = id)) as [->|Hne].
    2: { apply (co_once _ Hc v t); by apply Hold. }
    destruct (decide (currentTerm (sv_node s') = t)) as [Ht|Ht].
    + destruct (Hv _ _ _ Hx) as (_ & s1 & E1 & _ & H1). destruct (Hv _ _ _ Hy) as (_ & s2 & E2 & _ & H2).
      simpl in *. rewrite lookup_insert_eq in E1, E2. injection E1 as <-. injection E2 as <-.
      rewrite <-H1, <-H2; done.
    + destruct (Hnew _ _ Hx) as [[Hx0 _]|(_ & ? & _)]; [|done].
      destruct (Hnew _ _ Hy) as [[Hy0 _]|(_ & ? & _)]; [|done]. by apply (co_once _ Hc id t).
  - intros t x Hx. destruct (Hmaj _ _ Hx) as [Hx0|?]; [|done].
    destruct (co_majority _ Hc _ _ Hx0) as (? & q & N & Sq & Hq & V). split; [done|].
    exists q. split_and!; try done. intros v Hvq. destruct (V v Hvq) as [->|Hg]; [by left|right; by apply Hgr].
Qed.

(** Records of calls survive later terms and more leaders. *)
Lemma vote_call_mono c c' k :
  (forall id s, servers c !! id = Some s ->
     exists s', servers c' !! id = Some s' /\ currentTerm (sv_node s) <= currentTerm (sv_node s')) ->
  vote_call_ok c k -> vote_call_ok c' k.
Proof.
  intros H [H1 H2 (s & Hs & Hle) H4 H5 H6]. split; try done.
  destruct (H _ _ Hs) as (s' & Hs' & ?). exists s'. split; [done|lia].
Qed.

Lemma append_call_mono c c' k :
  (forall x, x ∈ elected c -> x ∈ elected c') -> append_call_ok c k -> append_call_ok c' k.
Proof. intros H []. split; auto. Qed.

Lemma server_later c id s s' :
  servers c !! id = Some s -> currentTerm (sv_node s) <= currentTerm (sv_node s') ->
  forall i u, servers c !! i = Some u ->
    exists u', <[id := s']> (servers c) !! i = Some u' /\ currentTerm (sv_node u) <= currentTerm (sv_node u').
Proof.
  intros Hs Hle i u Hu. destruct (decide (i = id)) as [->|Hne].
  - exists s'. rewrite lookup_insert_eq. split; [done|]. congruence.
  - exists u. rewrite lookup_insert_ne by done. split; [done|lia].
Qed.

Lemma vote_stays_term r r' : vote_stays r r' -> currentTerm r <= currentTerm r'.
Proof. intros [[? _]|[-> _]]; lia. Qed.

(** A vote on record stays the vote of the node. *)
Lemma voted_stays c id s r' t x :
  cluster_ok c -> servers c !! id = Some s -> vote_stays (sv_node s) r' -> voted c id t x ->
  currentTerm r' = t -> votedFor r' = x.
Proof.
  intros Hc Hs Hst Hx Ht. destruct (co_voted _ Hc _ _ _ Hx) as (Hne & u & E & Hle & Hv).
  rewrite Hs in E. injection E as <-. destruct Hst as [[? _]|(Et & [Hn|Hsame] & _)]; [lia|..].
  - rewrite Hv in Hn by lia. done.
  - rewrite Hsame. apply Hv. lia.
Qed.

(** An event that makes no leader and starts no campaign. *)
Lemma quiet_step c id s s' vs as' :
  cluster_ok c -> servers c !! id = Some s -> server_ok id s' -> vote_stays (sv_node s) (sv_node s') ->
  (forall t n, sv_pos s' = Campaigning t n ->
     (exists n0, sv_pos s = Campaigning t n0) /\ n <= 1 + count (counted id t) vs) ->
  (forall v t x, granted_in (vote_calls c) v t x -> granted_in vs v t x) ->
  (forall v t x, granted_in vs v t x -> granted_in (vote_calls c) v t x \/
     v = id /\ x <> [] /\ currentTerm (sv_node s') = t /\ votedFor (sv_node s') = x) ->
  (forall k, k ∈ vs -> vote_call_ok c k) -> NoDup (map call_key vs) ->
  (forall i t, count (counted i t) (vote_calls c) <= count (counted i t) vs) ->
  (forall k, k ∈ as' -> append_call_ok c k) ->
  cluster_ok (mkCluster (<[id := s']> (servers c)) vs as' (elected c)).
Proof.
  intros Hc Hs Hs' Hst Hpos Hgr Hgr' Hvs Hkeys Hcount Has. pose proof (vote_stays_term _ _ Hst) as Hterm.
  assert (forall v t x, voted (mkCluster (<[id := s']> (servers c)) vs as' (elected c)) v t x ->
    voted c v t x \/ v = id /\ x <> [] /\ currentTerm (sv_node s') = t /\ votedFor (sv_node s') = x) as Hback.
  { intros v t x [y Hg|Hw|u n Hu Hp].
    - destruct (Hgr' _ _ _ Hg); [left; by apply voted_call|by right].
    - left. by apply voted_won.
    - left. simpl in Hu. apply lookup_insert_Some in Hu as [[<- <-]|[_ Hu]].
      + destruct (Hpos _ _ Hp) as [[n0 Hn0] _]. by eapply voted_campaign.
      + by eapply voted_campaign. }
  eapply cluster_step; try done.
  - intros Hl. destruct Hst as [[_ ?]|(-> & _ & H)]; [done|]. apply Hc; auto.
  - intros v t x Hx Hne. by destruct (Hback _ _ _ Hx) as [?|[? _]].
  - intros t x Hx. destruct (Hback _ _ _ Hx) as [Hold|(_ & ?)]; [left|by right].
    split; [done|]. by eapply voted_stays.
  - intros k Hk. eapply vote_call_mono; [|by apply Hvs]. by apply (server_later c id s s').
  - by left.
  - intros i u t n Hu Hp. apply lookup_insert_Some in Hu as [[<- <-]|[_ Hu]]; [by apply Hpos|].
    etrans; [by eapply (co_campaign _ Hc)|]. specialize (Hcount i t). lia.
  - intros k Hk. apply (append_call_mono c); [done|by apply Has].
Qed.

(** One that is a server's own affair. *)
Lemma calm_step c id s s' as' :
  cluster_ok c -> servers c !! id = Some s -> calm members id s s' ->
  (forall k, k ∈ as' -> append_call_ok c k) ->
  cluster_ok (mkCluster (<[id := s']> (servers c)) (vote_calls c) as' (elected c)).
Proof.
  intros Hc Hs [Hs' [Hp Hst]] Has. apply (quiet_step c id s); try done; try apply Hc; auto.
  - intros t n Hn. apply Hp in Hn. split; [by eexists|]. by eapply (co_campaign _ Hc).
Qed.

Lemma at_server_ok c id f c' :
  cluster_ok c -> (forall s s', servers c !! id = Some s -> f s = Ok s' -> calm members id s s') ->
  at_server c id f = Ok c' -> cluster_ok c'.
Proof.
  intros Hc Hf. unfold at_server. destruct (servers c !! id) as [s|] eqn:Hs; [|by intros [= <-]].
  intros (s' & E & [= <-])%obind_Ok. apply (calm_step c id s); [done..|by apply Hf|apply Hc].
Qed.

(** An operation of a node that is not in a campaign or keeps its term. *)
Lemma at_node_calm id s (f : Node -> outcome Empty_set Node) s' :
  server_ok id s ->
  (forall r', f (sv_node s) = Ok r' -> moved (sv_node s) r' /\
     forall t n, sv_pos s = Campaigning t n -> currentTerm r' = currentTerm (sv_node s)) ->
  (let! r := f (sv_node s) in Ok (mkSv r (sv_pos s))) = Ok s' -> calm members id s s'.
Proof.
  intros Hok Hf (r' & E & [= <-])%obind_Ok. destruct (Hf _ E) as [Hm Ht].
  apply calm_moved; [done..| |done]. by apply moved_role; [apply Hok|..].
Qed.

(** An operation that keeps the term. *)
Lemma at_node_ok c id (f : Node -> outcome Empty_set Node) c' :
  cluster_ok c ->
  (forall s r', servers c !! id = Some s -> f (sv_node s) = Ok r' -> moved (sv_node s) r' /\
     currentTerm r' = currentTerm (sv_node s)) ->
  at_node c id f = Ok c' -> cluster_ok c'.
Proof.
  intros Hc Hf. unfold at_node. apply at_server_ok; [done|]. intros s s' Hs.
  apply at_node_calm; [by apply (co_servers _ Hc)|]. intros r' E. by destruct (Hf s r' Hs E).
Qed.

(** ** Votes *)

Lemma granted_insert vs k v v' w t x :
  vs !! k = Some v -> vc_to v' = vc_to v -> vc_from v' = vc_from v -> vc_req v' = vc_req v ->
  (grant v = true -> grant v' = true) -> granted_in vs w t x -> granted_in (<[k := v']> vs) w t x.
Proof.
  intros Hk E1 E2 E3 Hg (u & Hu & H1 & H2 & H3 & H4).
  destruct (elem_of_insert_other vs k u v v' Hk Hu) as [->|Hin].
  - exists v'. split; [by eapply elem_of_inserted|]. rewrite E1, E2, E3. auto.
  - by exists u.
Qed.

Lemma granted_insert_inv vs k v' w t x :
  granted_in (<[k := v']> vs) w t x ->
  granted_in vs w t x \/ w = vc_to v' /\ t = rv_Term (vc_req v') /\ x = vc_from v' /\ grant v' = true.
Proof.
  intros (u & Hu & H1 & H2 & H3 & H4). destruct (elem_of_insert _ _ _ _ Hu) as [->|Hin]; [by right|left].
  by exists u.
Qed.

Lemma count_insert_le (vs : list vote_call) k v v' i t :
  vs !! k = Some v -> (counted i t v = true -> counted i t v' = true) ->
  count (counted i t) vs <= count (counted i t) (<[k := v']> vs).
Proof.
  intros Hk H. rewrite (count_insert _ _ _ _ _ Hk).
  destruct (counted i t v), (counted i t v'); try lia; by specialize (H eq_refl).
Qed.

Lemma vote_call_named c k : members_ok -> cluster_ok c -> vote_call_ok c k -> vc_from k <> [].
Proof.
  intros Hm Hc Hk. destruct (vk_from _ _ Hk) as (s & Hs & _).
  destruct (co_servers _ Hc _ _ Hs) as [(p & -> & Hp)%list_elem_of_fmap _]. by apply Hm.
Qed.

Lemma answer_vote_ok c k v c' :
  members_ok -> cluster_ok c -> vote_calls c !! k = Some v -> answer_vote c k v = Ok c' -> cluster_ok c'.
Proof.
  intros Hm Hc Hk. unfold answer_vote.
  assert (vote_call_ok c v) as Hv by (apply Hc; by eapply list_elem_of_lookup_2).
  destruct (servers c !! vc_to v) as [s|] eqn:Hs; [|by intros [= <-]].
  destruct (vc_resp v) as [|] eqn:Er; [by intros [= <-]|].
  intros ([s' a] & E & E')%obind_Ok.
  destruct (co_servers _ Hc _ _ Hs) as [Hid Hok].
  destruct (vote_rpc members _ _ _ _ _ Hok (vk_term _ _ Hv) E) as (Hok' & [Hp Hst] & Hg).
  destruct a as [[|resp|]|]; try (by injection E' as <-). injection E' as <-.
  destruct (Hg resp eq_refl) as [Hresp Hg']. set (v' := mkVoteCall _ _ _ _ _).
  assert (grant v = false) as Hgf by (unfold grant; by rewrite Er).
  apply (quiet_step c (vc_to v) s s'); try done.
  - intros t n Hn. apply Hp in Hn. split; [by eexists|].
    etrans; [by eapply (co_campaign _ Hc)|]. assert (forall a b, a <= b -> 1 + a <= 1 + b) as Hle by lia.
    apply Hle. apply (count_insert_le _ _ v); [done|]. unfold counted. by rewrite Hgf, andb_false_r.
  - intros w t x. apply (granted_insert _ _ v); try done. congruence.
  - intros w t x Hw. destruct (granted_insert_inv _ _ _ _ _ _ Hw) as [?|(-> & -> & -> & Hg2)]; [by left|right].
    simpl in *. destruct (Hg' Hg2) as [-> ->]. split_and!; [done|by eapply vote_call_named|done|apply Hv].
  - intros u Hu. destruct (elem_of_insert _ _ _ _ Hu) as [->|Hin]; [|by apply Hc].
    destruct Hv. split; try done. by intros ? [= <-].
  - rewrite (map_insert_same _ _ _ v); [apply Hc|done|done].
  - intros i t. apply (count_insert_le _ _ v); [done|]. unfold counted. by rewrite Hgf, andb_false_r.
  - apply Hc.
Qed.

Lemma note_follower c id s : state (sv_node s) <> Leader -> note_leader c id s = c.
Proof. intros H. unfold note_leader. rewrite bool_decide_false by done. by destruct c. Qed.

(** The servers that granted a campaign, with the candidate. *)
Lemma campaign_majority c vs id t :
  cluster_ok c -> (forall k, k ∈ vs -> vote_call_ok c k) -> NoDup (map call_key vs) -> id ∈ ids ->
  len ids < 2 * (1 + count (counted id t) vs) -> majority vs t id.
Proof.
  intros Hc Hvs Hkeys Hid Hlen. exists (id :: map vc_to (List.filter (counted id t) vs)).
  assert (forall v, v ∈ map vc_to (List.filter (counted id t) vs) ->
    exists k, k ∈ vs /\ vc_to k = v /\ vc_from k = id /\ rv_Term (vc_req k) = t /\ grant k = true) as Hin.
  { intros v (k & -> & Hk)%list_elem_of_fmap. apply list_elem_of_In, filter_In in Hk as [Hk Hcnt].
    apply list_elem_of_In in Hk. unfold counted in Hcnt. rewrite !andb_true_iff, !bool_decide_eq_true in Hcnt.
    exists k. tauto. }
  split_and!.
  - constructor.
    + intros Hx. destruct (Hin _ Hx) as (k & Hk & H1 & H2 & _). apply (vk_other _ _ (Hvs k Hk)). congruence.
    + clear Hin Hlen Hvs. induction vs as [|k vs IH]; simpl; [constructor|].
      apply NoDup_cons in Hkeys as [Hn Hkeys]. destruct (counted id t k) eqn:Hk; [|by apply IH]. simpl.
      constructor; [|by apply IH]. intros (k' & E & Hk')%list_elem_of_fmap.
      apply list_elem_of_In, filter_In in Hk' as [Hk' Hcnt']. apply list_elem_of_In in Hk'.
      apply Hn. apply list_elem_of_fmap. exists k'. split; [|done]. unfold counted, call_key in *.
      rewrite !andb_true_iff, !bool_decide_eq_true in Hk, Hcnt'.
      destruct Hk as [[[E1 E2] _] _], Hcnt' as [[[E3 E4] _] _]. congruence.
  - intros v [->|Hv]%elem_of_cons; [done|]. destruct (Hin v Hv) as (k & Hk & <- & _). by apply (Hvs k Hk).
  - unfold count in Hlen. rewrite len_cons. unfold len in *. rewrite !length_map in *. lia.
  - intros v [->|Hv]%elem_of_cons; [by left|right]. destruct (Hin v Hv) as (k & ? & ? & ? & ? & ?).
    by exists k.
Qed.

Lemma take_vote_ok c k v c' :
  cluster_ok c -> vote_calls c !! k = Some v -> take_vote c k v = Ok c' -> cluster_ok c'.
Proof.
  intros Hc Hk. unfold take_vote.
  assert (vote_call_ok c v) as Hv by (apply Hc; by eapply list_elem_of_lookup_2).
  destruct (servers c !! vc_from v) as [s|] eqn:Hs; [|by intros [= <-]].
  destruct (vc_resp v) as [resp|] eqn:Er; [|by intros [= <-]].
  destruct (vc_taken v) eqn:Et; [by intros [= <-]|].
  destruct (sv_pos s) as [| | |t n| | | |] eqn:Ep; try by intros [= <-].
  destruct (Z.eqb_spec (rv_Term (vc_req v)) t) as [Ht|Ht]; [|by intros [= <-]].
  intros (s' & E & [= <-])%obind_Ok. destruct (co_servers _ Hc _ _ Hs) as [Hid Hok].
  set (v' := mkVoteCall _ _ _ _ _). set (vs := <[k := v']> (vote_calls c)).
  assert (forall i u, counted i u v = false) as Hcf by (intros; unfold counted; by rewrite Et, !andb_false_r).
  assert (grant v' = grant v) as Hgv by (unfold grant; by rewrite Er).
  assert (forall w u x, granted_in (vote_calls c) w u x -> granted_in vs w u x) as Hgr
    by (intros w u x; apply (granted_insert _ _ v); try done; congruence).
  assert (forall w u x, granted_in vs w u x -> granted_in (vote_calls c) w u x) as Hgr'.
  { intros w u x Hw. destruct (granted_insert_inv _ _ _ _ _ _ Hw) as [?|(-> & -> & -> & Hg2)]; [done|].
    exists v. split; [by eapply list_elem_of_lookup_2|]. split_and!; done || congruence. }
  assert (forall u, u ∈ vs -> vote_call_ok c u) as Hvs.
  { intros u Hu. destruct (elem_of_insert _ _ _ _ Hu) as [->|Hin]; [|by apply Hc].
    destruct Hv. split; try done. intros ? [= <-]. auto. }
  assert (NoDup (map call_key vs)) as Hkeys
    by (unfold vs; rewrite (map_insert_same _ _ _ v); [apply Hc|done|done]).
  assert (forall i u, count (counted i u) (vote_calls c) <= count (counted i u) vs) as Hcount
    by (intros i u; apply (count_insert_le _ _ v); [done|by rewrite Hcf]).
  assert (count (counted (vc_from v) t) vs =
    count (counted (vc_from v) t) (vote_calls c) + if vr_VoteGranted resp then 1 else 0) as Hmine.
  { unfold vs. rewrite (count_insert _ _ _ _ _ Hk), Hcf. unfold counted, grant. simpl.
    rewrite !bool_decide_true by done. simpl. destruct (vr_VoteGranted resp); lia. }
  pose proof (co_campaign _ Hc _ _ _ _ Hs Ep) as Hn.
  assert (currentTerm (sv_node s) = t /\ state (sv_node s) <> Leader) as [Hterm Hnl].
  { pose proof (so_role _ _ _ Hok) as Hr. unfold role_ok in Hr. by rewrite Ep in Hr. }
  destruct (count_vote_cases members _ _ _ _ _ _ Hok Ep (vk_resp _ _ Hv _ Er) E) as [Hok' [[Hst Hpos]|(Hg & Hq & ->)]].
  - rewrite note_follower.
    2: { intros Hl. by destruct Hst as [[_ ?]|(_ & _ & H)]; [|apply Hnl, H]. }
    apply (quiet_step c (vc_from v) s s'); try done; auto.
    + intros t' n' Hp'. destruct (Hpos _ _ Hp') as [-> ->]. split; [by eexists|]. rewrite Hmine.
      destruct (vr_VoteGranted resp); lia.
    + apply Hc.
  - unfold note_leader. simpl. rewrite Hterm.
    apply (cluster_step c (vc_from v) s); try done; auto.
    + intros _. simpl. rewrite Hterm. left.
    + intros x Hx. by right.
    + intros w u x [y Hg'|Hw|z m Hz Hp] Hne.
      * by apply voted_call, Hgr'.
      * simpl in Hw. apply elem_of_cons in Hw as [[= _ ->]|Hw]; [done|]. by apply voted_won.
      * simpl in Hz. rewrite lookup_insert_ne in Hz by done. by eapply voted_campaign.
    + intros u x Hx. left.
      assert (voted c (vc_from v) u x) as Hold.
      { destruct Hx as [y Hg'|Hw|z m Hz Hp].
        - by apply voted_call, Hgr'.
        - simpl in Hw. apply elem_of_cons in Hw as [[= ->]|Hw]; [|by apply voted_won].
          by eapply voted_campaign.
        - simpl in Hz. rewrite lookup_insert_eq in Hz. by injection Hz as <-. }
      split; [done|]. destruct (co_voted _ Hc _ _ _ Hold) as (_ & z & Hz & _ & H).
      rewrite Hs in Hz. by injection Hz as <-.
    + intros u Hu. eapply vote_call_mono; [|by apply Hvs].
      apply (server_later c (vc_from v) s); [done|simpl; lia].
    + intros u x [[= -> ->]|Hx]%elem_of_cons; [right|by left]. split; [done|].
      apply (campaign_majority c); try done. rewrite Hmine, Hg.
      unfold quorum_of in Hq. rewrite (so_peers _ _ _ Hok) in Hq. apply majority_quorum in Hq; [|apply len_nonneg].
      unfold len in *. rewrite !length_map in *. lia.
    + intros i u t' n' Hu Hp'. apply lookup_insert_Some in Hu as [[<- <-]|[_ Hu]]; [done|].
      etrans; [by eapply (co_campaign _ Hc)|]. specialize (Hcount i t'). lia.
    + intros u Hu. apply (append_call_mono c); [|by apply Hc]. intros x Hx. by right.
Qed.

(** ** Elections *)

Lemma asked_addresses id :
  members_ok ->
  omap (server_at members) (map pc_Address (filter (fun p => pc_ID p <> id) members)) =
    map pc_ID (filter (fun p => pc_ID p <> id) members).
Proof.
  intros Hm. assert (forall p, p ∈ filter (fun p => pc_ID p <> id) members ->
    server_at members (pc_Address p) = Some (pc_ID p)) as H.
  { intros p [_ Hp]%list_elem_of_filter. by apply Hm. }
  induction (filter _ members) as [|p ps IH]; [done|]. simpl. rewrite H by left.
  f_equal. apply IH. intros q Hq. apply H. by right.
Qed.

Lemma elect_ok c id s c' :
  members_ok -> cluster_ok c -> servers c !! id = Some s -> sv_pos s = Electing ->
  currentTerm (sv_node s) < MaxUint64 -> elect members c id s = Ok c' -> cluster_ok c'.
Proof.
  intros Hm Hc Hs Hp Hmax. unfold elect. intros ([[x req] addrs] & E & [= <-])%obind_Ok.
  destruct (co_servers _ Hc _ _ Hs) as [Hid Hok].
  destruct (election_cases members _ _ _ _ _ Hok Hp Hmax E) as (Hok' & Ht & Hcand & -> & Hterm & Hvote & Hpos & Hlead).
  set (s' := after x _) in *. clearbody s'. rewrite asked_addresses by done.
  set (calls := map (fun to => mkVoteCall id to req None false) _).
  assert (forall k, k ∈ calls -> exists p, p ∈ members /\ pc_ID p <> id /\
    k = mkVoteCall id (pc_ID p) req None false) as Hcalls.
  { intros k (a & -> & Ha)%list_elem_of_fmap. apply list_elem_of_fmap in Ha as (p & -> & Hp').
    apply list_elem_of_filter in Hp' as [? ?]. by exists p. }
  assert (is_uint64 (rv_Term req)) as Hu.
  { pose proof (so_inv _ _ _ Hok) as ([l Hl] & _). pose proof (ok_term _ _ Hl). int_unfold. lia. }
  assert (forall w t y, granted_in (vote_calls c ++ calls) w t y -> granted_in (vote_calls c) w t y) as Hgr'.
  { intros w t y (k & [Hk|Hk]%elem_of_app & ? & ? & ? & Hg); [by exists k|].
    by destruct (Hcalls k Hk) as (p & _ & _ & ->). }
  assert (id <> []) as Hne.
  { apply list_elem_of_fmap in Hid as (p & -> & Hp'). by apply Hm. }
  unfold note_leader. simpl.
  set (el := if bool_decide _ then _ else _).
  assert (forall y, y ∈ el -> y ∈ elected c \/ y = (rv_Term req, id) /\ state (sv_node s') = Leader) as Hel.
  { intros y. unfold el. case_bool_decide; [|by left]. rewrite Hterm.
    intros [->|?]%elem_of_cons; [by right|by left]. }
  assert (forall y, y ∈ elected c -> y ∈ el) as Hel'.
  { intros y Hy. unfold el. case_bool_decide; [by right|done]. }
  apply (cluster_step c id s s'); try done.
  - rewrite Hterm. lia.
  - intros Hl. unfold el. rewrite bool_decide_true by done. left.
  - intros w t y (k & Hk & H). exists k. split; [|done]. apply elem_of_app. by left.
  - intros w t y [z Hg|Hw|u n Hu' Hp'] Hne'.
    + by apply voted_call, Hgr'.
    + destruct (Hel _ Hw) as [?|[[= _ ->] _]]; [by apply voted_won|done].
    + simpl in Hu'. rewrite lookup_insert_ne in Hu' by done. by eapply voted_campaign.
  - assert (forall t y, voted c id t y -> voted c id t y /\ (currentTerm (sv_node s') = t -> votedFor (sv_node s') = y)) as Hold.
    { intros t y Hy. split; [done|]. intros <-. destruct (co_voted _ Hc _ _ _ Hy) as (_ & z & Hz & Hle & _).
      rewrite Hs in Hz. injection Hz as <-. lia. }
    intros t y [z Hg|Hw|u n Hu' Hp'].
    + left. by apply Hold, voted_call, Hgr'.
    + destruct (Hel _ Hw) as [?|[[= ->] _]]; [left; by apply Hold, voted_won|by right].
    + simpl in Hu'. rewrite lookup_insert_eq in Hu'. injection Hu' as <-.
      destruct (Hpos _ _ Hp') as [-> _]. by right.
  - intros k [Hk|Hk]%elem_of_app.
    + eapply vote_call_mono; [|by apply Hc]. apply (server_later c id s); [done|]. rewrite Hterm. lia.
    + destruct (Hcalls k Hk) as (p & Hp' & Hpid & ->). split; simpl; try done.
      * apply list_elem_of_fmap. by exists p.
      * exists s'. rewrite lookup_insert_eq, Hterm. split; [done|lia].
  - rewrite map_app. apply NoDup_app. split_and!; [apply Hc| |].
    + intros key (k & -> & Hk)%list_elem_of_fmap (k' & E' & Hk')%list_elem_of_fmap.
      destruct (Hcalls k' Hk') as (p & _ & _ & ->). unfold call_key in E'. simpl in E'. injection E' as E1 _ E3.
      destruct (vk_from _ _ (co_votes _ Hc _ Hk)) as (u & Hu' & Hle). rewrite E1, Hs in Hu'. injection Hu' as <-. lia.
    + unfold calls. rewrite map_map. unfold call_key. simpl.
      assert (NoDup (map pc_ID (filter (fun p => pc_ID p <> id) members))) as Hnd.
      { eapply sublist_NoDup; [apply (mb_ids Hm)|]. apply fmap_sublist, sublist_filter. }
      assert (Inj (=) (=) (fun to : bytes => (id, to, rv_Term req))) as Hinj by (by intros a b [= ->]).
      by apply (NoDup_fmap_2 (fun to => (id, to, rv_Term req))).
  - intros t y Hy. destruct (Hel _ Hy) as [?|[[= -> ->] Hl]]; [by left|right]. split; [done|].
    specialize (Hlead Hl). exists [id]. split_and!.
    + apply NoDup_singleton.
    + by intros w ->%list_elem_of_singleton.
    + pose proof (majority_quorum (len members) 1 (len_nonneg _) Hlead). unfold len in *.
      rewrite length_map. simpl. lia.
    + intros w ->%list_elem_of_singleton. by left.
  - intros i u t n Hu' Hp'. apply lookup_insert_Some in Hu' as [[<- <-]|[_ Hu']].
    + destruct (Hpos _ _ Hp') as [_ ->]. pose proof (count_nonneg (counted id t) (vote_calls c ++ calls)). lia.
    + rewrite count_app. pose proof (count_nonneg (counted i t) calls).
      pose proof (co_campaign _ Hc _ _ _ _ Hu' Hp'). lia.
  - intros k Hk. by apply (append_call_mono c); [|apply Hc].
Qed.

(** ** Replication *)

Lemma req_entries req : req_ok req ->
  entries_ok (ae_Entries req) /\ forall e, e ∈ ae_Entries req -> log_Index e < MaxUint64.
Proof.
  intros [_ Hp Hn Hlen]. assert (forall e, e ∈ ae_Entries req -> 0 <= log_Index e < MaxUint64) as H.
  { intros e [i Hi]%list_elem_of_lookup. rewrite (Hn _ _ Hi). apply lookup_lt_Some in Hi. unfold len in *. lia. }
  split; intros e He; specialize (H e He); int_unfold; lia.
Qed.

Lemma appends_changed c cs as' :
  cluster_ok c -> append_calls c = cs -> (forall k, k ∈ as' -> append_call_ok c k) ->
  cluster_ok (set_appends c as').
Proof. 
  intros [H1 H2 H3 H4 H5 H6 H7 H8 H9] _ Has. split; try done.
  - intros v t x [y Hg|Hw|u n Hu Hp]; apply H3; [by apply voted_call|by apply voted_won|by eapply voted_campaign].
  - intros v t x y Hx Hy. apply (H4 v t); [destruct Hx as [z Hg|Hw|u n Hu Hp]|destruct Hy as [z Hg|Hw|u n Hu Hp]];
      (by apply voted_call) || (by apply voted_won) || (by eapply voted_campaign).
  - intros k Hk. by destruct (H5 k Hk).
  - intros k Hk. by destruct (Has k Hk).
Qed.

Lemma send_append_ok c id peer s c' :
  members_ok -> cluster_ok c -> servers c !! id = Some s -> send_append members c id peer s = Ok c' ->
  cluster_ok c'.
Proof.
  intros Hm Hc Hs. unfold send_append. destruct (heap (sv_node s) !! peer) as [p|] eqn:Hp; [|by intros [= <-]].
  intros (req & E & E')%obind_Ok. destruct (co_servers _ Hc _ _ Hs) as [Hid Hok].
  destruct Hok as [Hi Hh Eid Ep _]. destruct (decide (state (sv_node s) = Leader)) as [Hl|Hl].
  2: { unfold replicate_request in E. rewrite bool_decide_false in E by done. simpl in E. injection E as <-. by injection E' as <-. }
  destruct (Hh _ _ Hp) as ((m & Hm1 & Hm2 & Ha) & Hn). pose proof Hi as ([l Hl0] & _).
  destruct (replicate_request_safe _ l peer p Hl0 Hl Hp Hn) as (q & Eq & Hq & Ht & _).
  rewrite E in Eq. injection Eq as ->. rewrite Ep in Hm1. rewrite Ha, (mb_addresses Hm m Hm1) in E'.
  injection E' as <-. eapply appends_changed; [done..|]. intros k [Hk|Hk]%elem_of_app; [by apply Hc|].
  apply list_elem_of_singleton in Hk as ->. split; simpl; [congruence|rewrite Ht; by apply Hc|done|done].
Qed.

Lemma answer_append_ok c k v c' :
  cluster_ok c -> append_calls c !! k = Some v -> answer_append c k v = Ok c' -> cluster_ok c'.
Proof.
  intros Hc Hk. unfold answer_append.
  assert (append_call_ok c v) as Hv by (apply Hc; by eapply list_elem_of_lookup_2).
  destruct (servers c !! ac_to v) as [s|] eqn:Hs; [|by intros [= <-]].
  destruct (ac_resp v) as [|] eqn:Er; [by intros [= <-]|].
  intros ([s' a] & E & E')%obind_Ok. destruct (co_servers _ Hc _ _ Hs) as [Hid Hok].
  destruct (append_rpc members _ _ _ _ _ Hok (ak_req _ _ Hv) E) as (Hok' & Hresp & Hcase).
  destruct a as [[resp| |]|]; try (by injection E' as <-). injection E' as <-.
  set (v' := mkAppendCall _ _ _ _ _ _).
  assert (forall u, u ∈ <[k := v']> (append_calls c) -> append_call_ok c u) as Has.
  { intros u Hu. destruct (elem_of_insert _ _ _ _ Hu) as [->|Hin]; [|by apply Hc].
    destruct Hv. split; try done. intros ? [= <-]. by apply Hresp. }
  destruct Hcase as [Hst|(Ht & Et & Es & Hpos & Hwas)]; [by apply (calm_step c (ac_to v) s s')|].
  set (t := currentTerm (sv_node s)) in *. pose proof (ak_leader _ _ Hv) as Hlead. rewrite Ht in Hlead.
  assert ((t, ac_to v) ∉ elected c) as Hnot.
  { intros Hx. apply (ak_other _ _ Hv). by eapply elected_once. }
  assert (exists n, sv_pos s = Campaigning t n) as [n Hcamp].
  { destruct Hwas as [Hl|?]; [|done]. destruct Hnot. by apply Hc. }
  assert (forall x, ~ granted_in (vote_calls c) (ac_to v) t x) as Hnone.
  { intros x Hg. assert (x = ac_to v) as ->.
    { apply (co_once _ Hc (ac_to v) t); [by apply voted_call|by eapply voted_campaign]. }
    destruct Hg as (u & Hu & H1 & _ & H3 & _). apply (vk_other _ _ (co_votes _ Hc u Hu)). congruence. }
  apply (cluster_step c (ac_to v) s s'); try done.
  - rewrite Et. done.
  - congruence.
  - intros w u x [y Hg|Hw|z m Hz Hp] Hne; [by apply voted_call|by apply voted_won|].
    simpl in Hz. rewrite lookup_insert_ne in Hz by done. by eapply voted_campaign.
  - intros u x Hx. left. rewrite Et. destruct Hx as [y Hg|Hw|z m Hz Hp].
    + split; [by apply voted_call|]. intros <-. by destruct (Hnone y).
    + split; [by apply voted_won|]. by intros <-.
    + simpl in Hz. rewrite lookup_insert_eq in Hz. injection Hz as <-. by destruct (Hpos u m).
  - intros u Hu. eapply vote_call_mono; [|by apply Hc]. apply (server_later c (ac_to v) s); [done|]. by rewrite Et.
  - apply Hc.
  - by left.
  - intros i u t' n' Hu Hp'. apply lookup_insert_Some in Hu as [[<- <-]|[_ Hu]]; [by destruct (Hpos t' n')|].
    by eapply (co_campaign _ Hc).
  - intros u Hu. apply (append_call_mono c); [done|by apply Has].
Qed.

Lemma take_append_ok c k v c' :
  cluster_ok c -> append_calls c !! k = Some v ->
  (forall s resp t n, servers c !! ac_from v = Some s -> ac_resp v = Some resp ->
     sv_pos s = Campaigning t n -> ar_Term resp <= currentTerm (sv_node s)) ->
  take_append c k v = Ok c' -> cluster_ok c'.
Proof.
  intros Hc Hk Hord. unfold take_append.
  assert (append_call_ok c v) as Hv by (apply Hc; by eapply list_elem_of_lookup_2).
  destruct (ac_resp v) as [resp|] eqn:Er; [|by intros [= <-]].
  destruct (ac_taken v); [by intros [= <-]|]. intros (c1 & E & [= <-])%obind_Ok.
  destruct (req_entries _ (ak_req _ _ Hv)) as [Hes Hlt].
  assert (cluster_ok c1 /\ append_calls c1 = append_calls c /\ elected c1 = elected c) as (Hc1 & Ea & Ee).
  { unfold at_node, at_server in E. destruct (servers c !! ac_from v) as [s|] eqn:Hs; [|by injection E as <-].
    apply obind_Ok in E as (s' & E & [= <-]). split; [|done]. destruct (co_servers _ Hc _ _ Hs) as [_ Hok].
    apply (calm_step c (ac_from v) s); [done|done| |apply Hc].
    apply (at_node_calm _ s (fun r => replicate_response r (ac_peer v) (ae_Entries (ac_req v)) (Some resp)));
      [done| |exact E]. simpl. intros r' E'. split.
    - apply (response_moves (sv_node s) (ac_peer v) (ae_Entries (ac_req v)) resp); try done; try apply Hok.
      by apply (ak_resp _ _ Hv).
    - intros t n Hp. pose proof (so_inv _ _ _ Hok) as ([l Hl] & Hpk & _).
      eapply response_term; [exact Hl|exact Hpk|exact Hes| |exact E']. by eapply Hord. }
  eapply appends_changed; [done..|]. intros u Hu.
  assert (append_call_ok c u) as Hcu.
  { rewrite Ea in Hu. destruct (elem_of_insert _ _ _ _ Hu) as [->|Hin]; [|by apply Hc].
    destruct Hv. split; try done. intros ? [= <-]. auto. }
  apply (append_call_mono c); [|done]. by rewrite Ee.
Qed.

Lemma restarted_ok c id s f :
  StableStoreReliable S -> cluster_ok c -> servers c !! id = Some s ->
  cluster_ok (set_appends (set_server c id (restart s f)) (forget_appends id (append_calls c))).
Proof.
  intros Hrel Hc Hs. destruct (co_servers _ Hc _ _ Hs) as [Hid Hok].
  destruct (restart_cases members id s f Hrel Hok) as (Hok' & Et & Ev & El & Hp).
  apply (calm_step c id s (restart s f)); try done.
  - split; [done|]. split; [by intros t n Hn; destruct (Hp t n)|]. right. split_and!; [done|by right|done].
  - intros k (u & -> & Hu)%list_elem_of_fmap. destruct (co_appends _ Hc u Hu). by case_bool_decide; split.
Qed.

(** ** Every event *)

Lemma turn_ok c e c' :
  StableStoreReliable S -> members_ok -> cluster_ok c -> orderly c e -> turn members c e = Ok c' ->
  cluster_ok c'.
Proof.
  intros Hrel Hm Hc Ho. 
  assert (forall id s, servers c !! id = Some s -> server_ok id s) as Hsrv by (intros; by apply (co_servers _ Hc)).
  destruct e as [id|id|id|id|id|id|k|k|id|id peer|k|k|id|id|id data ap|id fut b|id|id f]; cbn [turn]; simpl in Ho.
  - apply at_server_ok; [done|]. intros s s' Hs [= <-]. by apply dispatch_calm, Hsrv.
  - destruct (servers c !! id) as [[r pos]|] eqn:Hs; [|by intros [= <-]].
    destruct pos; try (by intros [= <-]). by apply elect_ok; auto; apply (Ho _ eq_refl).
  - apply at_server_ok; [done|]. intros s s' Hs. by apply timeout_calm, Hsrv.
  - apply at_server_ok; [done|]. intros s s' Hs. by apply stop_calm, Hsrv.
  - apply at_server_ok; [done|]. intros s s' Hs. specialize (Hsrv _ _ Hs).
    destruct (sv_pos s) eqn:Hp; try (intros [= <-]; by apply calm_refl).
    intros (r & E & [= <-])%obind_Ok. by apply office_calm.
  - apply at_server_ok; [done|]. intros s s' Hs. specialize (Hsrv _ _ Hs).
    destruct (sv_pos s) eqn:Hp; try (intros [= <-]; by apply calm_refl).
    intros (r & E & [= <-])%obind_Ok. apply leading_calm; [done|].
    apply appendNoOp_moves; [apply Hsrv..|by apply Ho|done].
  - destruct (vote_calls c !! k) as [v|] eqn:Hk; [|by intros [= <-]]. by apply answer_vote_ok.
  - destruct (vote_calls c !! k) as [v|] eqn:Hk; [|by intros [= <-]]. by apply take_vote_ok.
  - apply at_server_ok; [done|]. intros s s' Hs. specialize (Hsrv _ _ Hs).
    destruct (sv_pos s) eqn:Hp; try (intros [= <-]; by apply calm_refl).
    intros (x & E & [= <-])%obind_Ok. by apply closed_calm.
  - destruct (servers c !! id) as [s|] eqn:Hs; [|by intros [= <-]]. by apply send_append_ok.
  - destruct (append_calls c !! k) as [v|] eqn:Hk; [|by intros [= <-]]. by apply answer_append_ok.
  - destruct (append_calls c !! k) as [v|] eqn:Hk; [|by intros [= <-]]. apply take_append_ok; [done..|].
    intros s resp t n. by apply Ho.
  - apply at_server_ok; [done|]. intros s s' Hs. specialize (Hsrv _ _ Hs).
    destruct (sv_pos s) eqn:Hp; try (intros [= <-]; by apply calm_refl).
    intros (x & E & [= <-])%obind_Ok. apply apply_calm; auto.
  - apply at_node_ok; [done|]. intros s r' Hs. specialize (Hsrv _ _ Hs). destruct Hsrv as [Hi Hh _ _ _].
    destruct (Z.ltb_spec (lastApplied (sv_node s)) (commitIndex (sv_node s))) as [Hlt|_].
    + intros E. split; [by apply applied_moves|]. destruct (apply_one_cases _ _ _ E) as [->|(f & x & ->)]; [done|].
      by destruct (applied_one_same (sv_node s) (uint64 (lastApplied (sv_node s) + 1)) f x) as ((-> & _) & _).
    + intros [= <-]. split; [by apply moved_refl|done].
  - apply at_node_ok; [done|]. intros s r' Hs [= <-]. destruct (Hsrv _ _ Hs) as [Hi Hh _ _ _].
    split; [by apply Apply_moves|]. by destruct (Apply_same (sv_node s) data ap) as ((-> & _) & _).
  - apply at_node_ok; [done|]. intros s r' Hs [= <-]. destruct (Hsrv _ _ Hs) as [Hi Hh _ _ _].
    split; [by apply watch_moves|done].
  - apply at_node_ok; [done|]. intros s r' Hs [= <-]. destruct (Hsrv _ _ Hs) as [Hi Hh _ _ _].
    split; [by apply Shutdown_moves|]. unfold Shutdown. by destruct (shutdownCh (sv_node s)).
  - destruct (servers c !! id) as [s|] eqn:Hs; [|by intros [= <-]]. intros [= <-]. by apply restarted_ok.
Qed.

Lemma initial_ok c : initial c -> cluster_ok c.
Proof.
  intros [Hs [Hv Ha] He].
  assert (forall v t x, ~ voted c v t x) as Hnone.
  { intros v t x [y (k & Hk & _)|Hw|s n Hk Hp].
    - rewrite Hv in Hk. by apply elem_of_nil in Hk.
    - rewrite He in Hw. by apply elem_of_nil in Hw.
    - destruct (Hs _ _ Hk) as (_ & _ & E & _). congruence. }
  split.
  - intros id s E. by destruct (Hs _ _ E) as (? & ? & _).
  - intros id s E Hl. destruct (Hs _ _ E) as (_ & _ & _ & E'). congruence.
  - intros v t x Hx. by destruct (Hnone v t x).
  - intros v t x y Hx. by destruct (Hnone v t x).
  - intros k Hk. rewrite Hv in Hk. by apply elem_of_nil in Hk.
  - rewrite Hv. constructor.
  - intros t x Hx. rewrite He in Hx. by apply elem_of_nil in Hx.
  - intros id s t n E Hp. destruct (Hs _ _ E) as (_ & _ & E' & _). congruence.
  - intros k Hk. rewrite Ha in Hk. by apply elem_of_nil in Hk.
Qed.

Lemma reachable_ok c0 c :
  StableStoreReliable S -> members_ok -> cluster_ok c0 -> rtc orderly_step c0 c -> cluster_ok c.
Proof.
  intros Hrel Hm Hc Hrun. induction Hrun as [c|c1 c2 c3 [e c2' Ho E] _ IH]; [done|].
  apply IH. by eapply turn_ok.
Qed.

(** ** Theorem *)

(** C9: election safety.  Start the servers of a configuration on stores of
    any content, the stable ones such that writes do not fail, and let anything happen to the cluster, in any order: elections, answers,
    lost, late and reordered messages, clients, crashes and restarts.  Unless
    an answer to an old replicator interrupts a campaign, at most one server
    is ever elected in a term, and the leaders there are have been elected in
    their terms: two leaders of one term are one. *)
Theorem election_safety c0 c :
  StableStoreReliable S -> members_ok -> initial c0 -> rtc orderly_step c0 c ->
  (forall t x y, (t, x) ∈ elected c -> (t, y) ∈ elected c -> x = y) /\
  (forall x y sx sy, servers c !! x = Some sx -> servers c !! y = Some sy ->
     state (sv_node sx) = Leader -> state (sv_node sy) = Leader ->
     currentTerm (sv_node sx) = currentTerm (sv_node sy) -> x = y).
Proof.
  intros Hrel Hm Hi Hrun. pose proof (reachable_ok _ _ Hrel Hm (initial_ok _ Hi) Hrun) as Hc.
  split; [intros; by eapply elected_once|].
  intros x y sx sy Hx Hy Lx Ly E. eapply (elected_once c (currentTerm (sv_node sx))); [done|by apply Hc|].
  rewrite E. by apply Hc.
Qed.

End Safety.
