(* ===== verification/Committed.v ===== *)
(** * Raft: the apply loop

    Committed entries reach the state machine in order, each once; the state
    machine of a node is a function of the prefix of its log it has applied,
    so replicas whose logs agree on what they have applied agree. *)

From S2P Require Import Prelude Binary Store RaftTypes Node Election Logs Replication Append Leader Loops Runs.

Section Committed.
Context {L S F R : Type} `{!LogStore L} `{!StableStore S} `{!FSM F R}.
Context `{!LogStoreLaws L} `{!LogStoreTruncates L} `{!StableStoreLaws S}.
Abbreviation Node := (RaftNode L S F R).
Implicit Types r : Node.

(** ** Specification *)

(** The state machine after a list of entries. *)
Fixpoint apply_entries (f : F) (es : list LogEntry) : outcome Empty_set F :=
  match es with
  | [] => Ok f
  | e :: es => let! (f, _) := fsm_step f e in apply_entries f es
  end.

(** The entries above [a] up to [c]. *)
Definition between (l : list LogEntry) (a c : Z) : list LogEntry :=
  take (Z.to_nat (c - a)) (drop (Z.to_nat a) l).

(** The state machine is the initial one after the applied prefix. *)
Definition fsm_applied (f0 : F) r (l : list LogEntry) : Prop :=
  0 <= lastApplied r <= len l /\
  apply_entries f0 (take (Z.to_nat (lastApplied r)) l) = Ok (fsm r).

(** What applying the entries above [a] up to [c] does to the futures. *)
Definition futures_served r r' (a c : Z) : Prop :=
  (forall i, pendingFutures r' !! i =
     if bool_decide (a < i <= c) then None else pendingFutures r !! i) /\
  length (futures r') = length (futures r) /\
  futures_final (futures r) (futures r') /\
  (forall i fut, a < i <= c -> pendingFutures r !! i = Some fut -> (fut < length (futures r))%nat ->
     exists f, futures r' !! fut = Some f /\ resolved f).

(** ** Lemmas *)

Lemma apply_entries_app f es es' :
  apply_entries f (es ++ es') = let! f := apply_entries f es in apply_entries f es'.
Proof.
  revert f. induction es as [|e es IH]; intros f; [done|]. cbn [app apply_entries].
  destruct (fsm_step f e) as [[f1 x]| | |]; simpl; auto.
Qed.

Lemma take_between l a c :
  0 <= a <= c -> take (Z.to_nat c) l = take (Z.to_nat a) l ++ between l a c.
Proof.
  intros. unfold between. rewrite take_take_drop. f_equal. lia.
Qed.

Lemma between_cons l a c e :
  0 <= a -> a < c -> entry_at l (a + 1) = Some e -> between l a c = e :: between l (a + 1) c.
Proof.
  intros Ha Hc E. unfold between. pose proof (drop_entry _ _ _ E) as Ed.
  replace (a + 1 - 1) with a in Ed by lia. rewrite Ed.
  replace (Z.to_nat (c - a)) with (Datatypes.S (Z.to_nat (c - (a + 1)))) by lia. done.
Qed.

Lemma between_split l a b c : 0 <= a <= b -> b <= c -> between l a c = between l a b ++ between l b c.
Proof.
  intros Hab Hbc. unfold between. replace (Z.to_nat (c - a)) with (Z.to_nat (b - a) + Z.to_nat (c - b))%nat by lia.
  rewrite <-take_take_drop, drop_drop. do 3 f_equal. lia.
Qed.

Lemma between_nil l a c : c <= a -> between l a c = [].
Proof. intros. unfold between. by replace (Z.to_nat (c - a)) with 0%nat by lia. Qed.

Lemma apply_one_ok r l idx e f x :
  log_repr (logStore r) l -> entry_at l idx = Some e -> fsm_step (fsm r) e = Ok (f, x) ->
  apply_one r idx = Ok (applied_one r idx f x).
Proof.
  intros Hl E Ef. unfold apply_one. rewrite (GetLog_hit _ _ _ _ Hl E). cbn [obind or_panic].
  rewrite Ef. cbn [obind]. unfold applied_one. by destruct (_ !! _).
Qed.

Lemma applied_one_served r idx f x : futures_served r (applied_one r idx f x) (idx - 1) idx.
Proof.
  unfold futures_served, applied_one. simpl. destruct (pendingFutures r !! idx) as [fut|] eqn:E; simpl.
  - split_and!.
    + intros i. case_bool_decide.
      * replace i with idx by lia. apply lookup_delete_eq.
      * apply lookup_delete_ne. lia.
    + by rewrite length_alter.
    + apply final_respond.
    + intros i fut' Hi E' Hlt. replace i with idx in E' by lia. rewrite E in E'. injection E' as <-.
      destruct (lookup_lt_is_Some_2 _ _ Hlt) as [f0 Hf0].
      rewrite list_lookup_alter_eq, Hf0. eexists. split; [done|]. apply respond_resolved.
  - split_and!; [|done|apply final_refl|].
    + intros i. case_bool_decide; [|done]. by replace i with idx by lia.
    + intros i fut Hi E'. replace i with idx in E' by lia. congruence.
Qed.

Lemma served_refl r a : futures_served r r a a.
Proof.
  split_and!; [|done|apply final_refl|intros; lia].
  intros i. by rewrite bool_decide_false by lia.
Qed.

Lemma served_trans r1 r2 r3 a b c :
  a <= b <= c -> futures_served r1 r2 a b -> futures_served r2 r3 b c -> futures_served r1 r3 a c.
Proof.
  intros Hab (P1 & L1 & F1 & G1) (P2 & L2 & F2 & G2). split_and!.
  - intros i. rewrite P2, P1. repeat case_bool_decide; done || lia.
  - congruence.
  - by eapply final_trans.
  - intros i fut Hi E Hlt. destruct (Z.le_gt_cases i b).
    + destruct (G1 i fut) as (f & Hf & Hr); [lia|done|done|]. exists f. split; [by apply F2|done].
    + apply (G2 i); [lia| |by rewrite L1]. rewrite P1, bool_decide_false by lia. done.
Qed.

(** What the loop leaves alone. *)
Definition apply_rest r r' : Prop :=
  same_vote r r' /\ logStore r' = logStore r /\ commitIndex r' = commitIndex r /\
  state r' = state r /\ peers r' = peers r /\ heap r' = heap r.

Lemma applied_one_rest r idx f x : apply_rest r (applied_one r idx f x).
Proof.
  destruct (applied_one_same r idx f x) as (? & ? & ? & ? & ? & _). split_and!; try done.
  unfold applied_one. simpl. by destruct (_ !! _).
Qed.

Lemma apply_loop_spec fuel r l c f' :
  log_repr (logStore r) l -> (Z.to_nat (c - lastApplied r) < fuel)%nat ->
  0 <= lastApplied r <= c -> c <= len l ->
  apply_entries (fsm r) (between l (lastApplied r) c) = Ok f' ->
  exists r', apply_loop fuel r (lastApplied r + 1) c = Ok r' /\ fsm r' = f' /\ lastApplied r' = c /\
    apply_rest r r' /\ futures_served r r' (lastApplied r) c.
Proof.
  revert r. induction fuel as [|fuel IH]; intros r Hl Hf Ha Hc E; [lia|]. cbn [apply_loop].
  pose proof (repr_small _ _ Hl) as Hsm.
  destruct (Z.leb_spec (lastApplied r + 1) c) as [Hle|Hgt].
  - destruct (entry_at_in l (lastApplied r + 1)) as [e He]; [lia|].
    rewrite (between_cons l _ c e) in E by (done || lia). cbn [apply_entries] in E.
    apply obind_Ok in E as ([f1 x] & Ef & E).
    rewrite (apply_one_ok r l _ e f1 x Hl He Ef). cbn [obind].
    set (r1 := applied_one r (lastApplied r + 1) f1 x).
    assert (fsm r1 = f1 /\ lastApplied r1 = lastApplied r + 1) as [Hf1 Ha1].
    { subst r1. unfold applied_one. simpl. by destruct (_ !! _). }
    pose proof (applied_one_rest r (lastApplied r + 1) f1 x) as Hrest. fold r1 in Hrest.
    pose proof Hrest as (Hsv & Hlog & Hci & Hst & Hps & Hh).
    rewrite uint64_id by (int_unfold; lia). rewrite <-Ha1.
    destruct (IH r1) as (r' & E' & H1 & H2 & H3 & H4); try lia.
    + by rewrite Hlog.
    + by rewrite Hf1, Ha1.
    + exists r'. split_and!; [done..| |].
      * destruct H3 as ((? & ? & ?) & ? & ? & ? & ? & ?). destruct Hsv as (? & ? & ?).
        unfold apply_rest, same_vote. split_and!; congruence.
      * rewrite Ha1 in H4. eapply (served_trans r r1 r' _ (lastApplied r + 1)); [lia| |done].
        pose proof (applied_one_served r (lastApplied r + 1) f1 x) as H.
        by replace (lastApplied r + 1 - 1) with (lastApplied r) in H by lia.
  - rewrite between_nil in E by lia. injection E as <-. replace c with (lastApplied r) by lia.
    exists r. split_and!; try done. apply served_refl.
Qed.

(** When the loop ends, no call of the state machine failed. *)
Lemma apply_loop_entries fuel r l c r' :
  log_repr (logStore r) l -> 0 <= lastApplied r -> c <= len l ->
  apply_loop fuel r (lastApplied r + 1) c = Ok r' ->
  exists f', apply_entries (fsm r) (between l (lastApplied r) c) = Ok f'.
Proof.
  revert r. induction fuel as [|fuel IH]; intros r Hl Ha Hc E; [done|]. cbn [apply_loop] in E.
  pose proof (repr_small _ _ Hl) as Hsm.
  destruct (Z.leb_spec (lastApplied r + 1) c) as [Hle|Hgt].
  2: { rewrite between_nil by lia. by eexists. }
  destruct (entry_at_in l (lastApplied r + 1)) as [e He]; [lia|].
  rewrite (between_cons l _ c e) by (done || lia). cbn [apply_entries].
  destruct (fsm_step (fsm r) e) as [[f1 x]|[]| |] eqn:Ef.
  2,3: unfold apply_one in E; rewrite (GetLog_hit _ _ _ _ Hl He) in E; cbn [obind or_panic] in E;
    rewrite Ef in E; done.
  rewrite (apply_one_ok r l _ e f1 x Hl He Ef) in E. cbn [obind] in E |- *.
  set (r1 := applied_one r (lastApplied r + 1) f1 x) in *.
  assert (fsm r1 = f1 /\ lastApplied r1 = lastApplied r + 1 /\ logStore r1 = logStore r) as (Hf1 & Ha1 & Hl1).
  { subst r1. unfold applied_one. simpl. by destruct (_ !! _). }
  rewrite uint64_id in E by (int_unfold; lia). rewrite <-Ha1 in E.
  destruct (IH r1) as [f' E']; [by rewrite Hl1|lia|done|done|].
  rewrite Hf1, Ha1 in E'. by exists f'.
Qed.

(** If a call of the state machine panics, so does the loop. *)
Lemma apply_loop_panics fuel r l c :
  log_repr (logStore r) l -> (Z.to_nat (c - lastApplied r) < fuel)%nat -> 0 <= lastApplied r ->
  c <= len l -> apply_entries (fsm r) (between l (lastApplied r) c) = Panic ->
  apply_loop fuel r (lastApplied r + 1) c = Panic.
Proof.
  revert r. induction fuel as [|fuel IH]; intros r Hl Hf Ha Hc E; [lia|]. cbn [apply_loop].
  pose proof (repr_small _ _ Hl) as Hsm.
  destruct (Z.leb_spec (lastApplied r + 1) c) as [Hle|Hgt].
  2: { by rewrite between_nil in E by lia. }
  destruct (entry_at_in l (lastApplied r + 1)) as [e He]; [lia|].
  rewrite (between_cons l _ c e) in E by (done || lia). cbn [apply_entries] in E.
  destruct (fsm_step (fsm r) e) as [[f1 x]|[]| |] eqn:Ef; cbn [obind] in E; [|clear E|done].
  - rewrite (apply_one_ok r l _ e f1 x Hl He Ef). cbn [obind].
    set (r1 := applied_one r (lastApplied r + 1) f1 x).
    assert (fsm r1 = f1 /\ lastApplied r1 = lastApplied r + 1 /\ logStore r1 = logStore r) as (Hf1 & Ha1 & Hl1).
    { subst r1. unfold applied_one. simpl. by destruct (_ !! _). }
    rewrite uint64_id by (int_unfold; lia). rewrite <-Ha1. apply IH; rewrite ?Hl1, ?Ha1; try done; try lia.
    by rewrite Hf1.
  - unfold apply_one. rewrite (GetLog_hit _ _ _ _ Hl He). cbn [obind or_panic]. by rewrite Ef.
Qed.

Lemma applyCommitted_panics r l :
  node_ok r l -> 0 <= lastApplied r -> commitIndex r <= len l ->
  apply_entries (fsm r) (between l (lastApplied r) (commitIndex r)) = Panic ->
  applyCommitted r = Panic.
Proof.
  intros Hok Ha Hc E. pose proof (ok_log _ _ Hok) as Hl. pose proof (repr_small _ _ Hl) as Hsm.
  unfold applyCommitted. destruct (Z.le_gt_cases (commitIndex r) (lastApplied r)).
  { by rewrite between_nil in E. }
  rewrite uint64_id by (int_unfold; lia). apply (apply_loop_panics _ _ l); [done|lia|done..].
Qed.

(** ** Theorems *)

Lemma applyCommitted_effect r l f' :
  node_ok r l -> 0 <= lastApplied r <= commitIndex r -> commitIndex r <= len l ->
  apply_entries (fsm r) (between l (lastApplied r) (commitIndex r)) = Ok f' ->
  exists r', applyCommitted r = Ok r' /\ fsm r' = f' /\ lastApplied r' = commitIndex r /\
    apply_rest r r' /\ futures_served r r' (lastApplied r) (commitIndex r).
Proof.
  intros [Hl _ _] Ha Hc E. unfold applyCommitted. pose proof (repr_small _ _ Hl).
  rewrite uint64_id by (int_unfold; lia). by apply (apply_loop_spec _ r l); [|lia|..].
Qed.

(** The apply loop.  Woken up, it shows the state machine exactly the
    entries above the last applied one up to the commit index, in order, each
    once and the empty ones not at all; then these are the applied ones, the
    future of each is resolved and forgotten, and the others stay pending. *)
Theorem applyCommitted_spec r l f' :
  node_ok r l -> 0 <= lastApplied r <= commitIndex r -> commitIndex r <= len l ->
  apply_entries (fsm r) (between l (lastApplied r) (commitIndex r)) = Ok f' ->
  exists r', applyCommitted r = Ok r' /\ fsm r' = f' /\ lastApplied r' = commitIndex r /\
    apply_rest r r' /\ futures_served r r' (lastApplied r) (commitIndex r).
Proof. apply applyCommitted_effect. Qed.

(** The state machine is a function of the log.  If a node's state
    machine is the initial one after the applied prefix of its log, it still
    is after the apply loop has run, and the prefix is then the committed
    one. *)
Theorem applyCommitted_refines f0 r l r' :
  node_ok r l -> fsm_applied f0 r l -> lastApplied r <= commitIndex r <= len l ->
  applyCommitted r = Ok r' ->
  fsm_applied f0 r' l /\ lastApplied r' = commitIndex r /\
  apply_entries f0 (take (Z.to_nat (commitIndex r)) l) = Ok (fsm r').
Proof.
  intros Hok [Ha Hf] Hc E.
  assert (exists f', apply_entries (fsm r) (between l (lastApplied r) (commitIndex r)) = Ok f') as [f' Ef].
  { unfold applyCommitted in E. pose proof (repr_small _ _ (ok_log _ _ Hok)).
    rewrite uint64_id in E by (int_unfold; lia). eapply (apply_loop_entries _ r l _ r'); [apply Hok|lia|lia|exact E]. }
  destruct (applyCommitted_effect r l f' Hok) as (r1 & E1 & <- & Ha1 & _); [lia|lia|done|].
  rewrite E in E1. injection E1 as <-.
  assert (apply_entries f0 (take (Z.to_nat (commitIndex r)) l) = Ok (fsm r')) as Hall.
  { rewrite (take_between l (lastApplied r)) by lia. rewrite apply_entries_app, Hf. done. }
  split_and!; [|done|done]. split; [lia|]. by rewrite Ha1.
Qed.

(** Replicas agree.  Two nodes started from the same state, whose logs agree
    as far as the one that is behind has applied them: the state machine of
    the one ahead is that of the one behind after the entries the latter has
    still to apply; when they have applied equally much, they are equal. *)
Lemma agree_applied f0 a b la lb :
  fsm_applied f0 a la -> fsm_applied f0 b lb -> lastApplied a <= lastApplied b ->
  take (Z.to_nat (lastApplied a)) lb = take (Z.to_nat (lastApplied a)) la ->
  apply_entries (fsm a) (between lb (lastApplied a) (lastApplied b)) = Ok (fsm b) /\
  (lastApplied a = lastApplied b -> fsm a = fsm b).
Proof.
  intros [Ha Hfa] [Hb Hfb] Hle E.
  rewrite (take_between lb (lastApplied a)), E, apply_entries_app, Hfa in Hfb by lia.
  cbn [obind] in Hfb. split; [done|]. intros Heq. rewrite Heq, between_nil in Hfb by lia.
  by injection Hfb.
Qed.

End Committed.
