(* ===== verification/ApplyLoop.v ===== *)
(** * Raft: the goroutine of the apply loop ([internal/raft/raft.go], [applyLoop])

    [applyLoop] waits for a notification, reads the two indexes, and shows the
    state machine one entry after the other, while the critical sections of the
    other goroutines go on between its own.  The channel of notifications holds
    one and a send that finds it full is dropped: that none is lost all the
    same, and the loop catches up with the commit index, is proved here. *)

From S2P Require Import Prelude Binary Store RaftTypes Node Election Logs Replication Append Leader Loops Runs Committed.

(** Where the goroutine is: in its [select]; past it; in the loop of
    [applyCommitted], before index [idx], with the commit index it has read;
    returned. *)
Inductive apply_position : Type :=
| Waiting
| Woken
| Applying (idx commit : Z)
| Ended.

Section ApplyLoop.
Context {L S F R : Type} `{!LogStore L} `{!StableStore S} `{!FSM F R}.
Context `{!LogStoreLaws L} `{!LogStoreTruncates L} `{!StableStoreLaws S}.
Abbreviation Node := (RaftNode L S F R).
Implicit Types r : Node.

Record worker : Type := mkWorker {
  wk_node : Node;
  wk_pos : apply_position
}.
Implicit Types w : worker.

(** ** Code *)

Inductive applyLoop_step : worker -> worker -> Prop :=
| loop_notified r :
    commitNotifyCh r = true -> applyLoop_step (mkWorker r Waiting) (mkWorker (set_notify r false) Woken)
| loop_shutdown r :
    shutdownCh r = true -> applyLoop_step (mkWorker r Waiting) (mkWorker r Ended)
| loop_indexes r :
    applyLoop_step (mkWorker r Woken) (mkWorker r (Applying (uint64 (lastApplied r + 1)) (commitIndex r)))
| loop_entry r idx commit r' :
    idx <= commit -> apply_one r idx = Ok r' ->
    applyLoop_step (mkWorker r (Applying idx commit)) (mkWorker r' (Applying (uint64 (idx + 1)) commit))
| loop_done r idx commit :
    commit < idx -> applyLoop_step (mkWorker r (Applying idx commit)) (mkWorker r Waiting).

(** The goroutine, whose reads succeed, among the critical sections of the
    others, which do not take a commit back. *)
Inductive busy_step : worker -> worker -> Prop :=
| busy_loop w w' :
    applyLoop_step w w' ->
    (forall idx c, wk_pos w = Applying idx c -> idx <= c -> lastApplied (wk_node w') = idx) ->
    busy_step w w'
| busy_other r r' pos :
    step r r' -> lastApplied r' = lastApplied r -> commitIndex r <= commitIndex r' < MaxUint64 ->
    busy_step (mkWorker r pos) (mkWorker r' pos).

(** ** A commit is signalled *)

Definition signalled r r' : Prop :=
  commitNotifyCh r' = true \/ commitNotifyCh r' = commitNotifyCh r /\ commitIndex r' = commitIndex r.

Lemma signalled_refl r : signalled r r.
Proof. by right. Qed.

Lemma signalled_trans r1 r2 r3 : signalled r1 r2 -> signalled r2 r3 -> signalled r1 r3.
Proof. unfold signalled. intuition congruence. Qed.

Ltac keeps_signal := right; by split.

Lemma persist_signalled r r' : persistState r = Ok r' -> signalled r r'.
Proof. unfold persistState. intros H. opened. keeps_signal. Qed.

Lemma stepDown_signalled r t r' : stepDown r t = Ok r' -> signalled r r'.
Proof. intros H%persist_signalled. exact H. Qed.

Lemma update_commit_signalled r c r' : update_commit r c = Ok r' -> signalled r r'.
Proof. unfold update_commit. intros H. opened; [by left|apply signalled_refl]. Qed.

Lemma advance_signalled r r' : advanceCommitIndex r = Ok r' -> signalled r r'.
Proof. unfold advanceCommitIndex. intros H. opened; first [by left|apply signalled_refl]. Qed.

Lemma vote_signalled r req x : handleRequestVote r req = Ok x -> signalled r x.1.1.
Proof.
  unfold handleRequestVote. intros H. destruct (_ <? _); [opened; apply signalled_refl|].
  apply obind_Ok in H as (r1 & E1 & H).
  assert (signalled r r1) as Hs.
  { destruct (_ <? _); [by eapply stepDown_signalled|]. injection E1 as <-. apply signalled_refl. }
  opened; try exact Hs; (eapply signalled_trans; [exact Hs|]);
    match goal with H : persistState _ = Ok _ |- _ => apply persist_signalled in H; exact H end.
Qed.

Lemma append_signalled r req x : handleAppendEntries r req = Ok x -> signalled r x.1.1.
Proof.
  unfold handleAppendEntries. intros H. destruct (_ <? _); [opened; apply signalled_refl|].
  apply obind_Ok in H as (r1 & E1 & H).
  assert (signalled r r1) as Hs.
  { destruct (_ <? _); [by eapply stepDown_signalled|]. destruct (negb _); [by eapply stepDown_signalled|].
    injection E1 as <-. apply signalled_refl. }
  apply obind_Ok in H as ([[t i]|] & _ & H); [opened; exact Hs|].
  apply obind_Ok in H as ([s ok] & _ & H). destruct ok; [|opened; exact Hs].
  apply obind_Ok in H as (r2 & E2 & [= <-]). apply update_commit_signalled in E2.
  eapply signalled_trans; [exact Hs|exact E2].
Qed.

Lemma response_signalled r peer es resp r' : replicate_response r peer es resp = Ok r' -> signalled r r'.
Proof.
  unfold replicate_response. destruct resp as [resp|]; [|intros [= <-]; apply signalled_refl].
  destruct (_ <? _); [apply stepDown_signalled|]. intros (p & _ & H)%obind_Ok.
  destruct (ar_Success resp).
  - apply advance_signalled in H. by destruct (last es).
  - apply obind_Ok in H as (next & _ & [= <-]). keeps_signal.
Qed.

Lemma step_signalled r r' : step r r' -> lastApplied r' = lastApplied r -> signalled r r'.
Proof.
  intros Hs Ha. destruct Hs as [r cmd r' resp b _ E|r _|r r' req addrs _ E|r t r' _ _ E|r|r r' E|r r' _ E|r q r' _ E
    |r peer es resp r' _ _ E|r r' Hlt E|r data c _|r fut b|r|r].
  - destruct cmd; simpl in E; [| |injection E as <- _ _; apply signalled_refl];
      apply obind_Ok in E as ([[r1 x] b1] & E & [= <- _ _]).
    + by apply append_signalled in E.
    + by apply vote_signalled in E.
  - keeps_signal.
  - unfold startElection in E. apply obind_Ok in E as (r1 & E1 & E). apply persist_signalled in E1.
    apply obind_Ok in E as ([i t] & _ & [= <- _ _]). exact E1.
  - by eapply stepDown_signalled.
  - keeps_signal.
  - unfold leader_init in E. apply obind_Ok in E as ([i e] & _ & E). destruct (foldl _ _ _). injection E as <-. keeps_signal.
  - unfold appendNoOp in E. opened; keeps_signal.
  - unfold handleApplyRequest in E. opened; keeps_signal.
  - by eapply response_signalled.
  - unfold apply_one in E. opened; keeps_signal.
  - unfold Apply. simpl. repeat case_match; keeps_signal.
  - keeps_signal.
  - keeps_signal.
  - unfold Shutdown. case_match; keeps_signal.
Qed.

(** ** No notification is lost *)

Definition tracked w : Prop :=
  let r := wk_node w in
  0 <= lastApplied r <= commitIndex r /\ commitIndex r < MaxUint64 /\
  match wk_pos w with
  | Waiting => lastApplied r < commitIndex r -> commitNotifyCh r = true
  | Woken | Ended => True
  | Applying idx c =>
      idx = lastApplied r + 1 /\ lastApplied r <= c <= commitIndex r /\
      (c < commitIndex r -> commitNotifyCh r = true)
  end.

Lemma apply_one_keeps r idx r' :
  apply_one r idx = Ok r' -> commitIndex r' = commitIndex r /\ commitNotifyCh r' = commitNotifyCh r.
Proof. unfold apply_one. intros H. by opened. Qed.

Lemma busy_tracked w w' : tracked w -> busy_step w w' -> tracked w'.
Proof.
  intros Ht Hb. destruct Hb as [w1 w1' Hs Hread|r r' pos Hs Happ Hc]; destruct Ht as (Ha & Hm & Hp).
  - destruct Hs as [r Hn|r _|r|r idx c r' Hle E|r idx c Hlt]; unfold tracked in *; simpl in *.
    + split; [done|]. by split.
    + split; [done|]. by split.
    + split; [done|]. split; [done|]. rewrite uint64_id by (int_unfold; lia). split; [done|]. split; lia.
    + destruct (apply_one_keeps _ _ _ E) as [Ec En]. rewrite Ec, En. rewrite (Hread idx c eq_refl Hle).
      destruct Hp as (-> & Hc & Hn). split; [lia|]. split; [done|]. rewrite uint64_id by (int_unfold; lia).
      split; [done|]. split; [lia|done].
    + destruct Hp as (-> & Hc & Hn). split; [done|]. split; [done|]. intros. apply Hn. lia.
  - unfold tracked in *. simpl in *. rewrite Happ. split; [lia|]. split; [lia|].
    destruct (step_signalled r r' Hs Happ) as [Hn|[Hn Eci]].
    + destruct pos; try done. destruct Hp as (-> & Hcc & _). split; [done|]. split; [lia|done].
    + rewrite Eci, Hn. done.
Qed.

Lemma busy_run_tracked w w' : tracked w -> rtc busy_step w w' -> tracked w'.
Proof. intros Ht Hrun. induction Hrun; [done|]. eauto using busy_tracked. Qed.

(** ** The goroutine left alone *)

(** [applyCommitted], as the steps of the goroutine. *)
Lemma loop_steps fuel r idx c r' :
  apply_loop fuel r idx c = Ok r' ->
  rtc applyLoop_step (mkWorker r (Applying idx c)) (mkWorker r' Waiting).
Proof.
  revert r idx. induction fuel as [|fuel IH]; intros r idx E; cbn [apply_loop] in E; [done|].
  destruct (Z.leb_spec idx c) as [Hle|Hgt].
  - apply obind_Ok in E as (r1 & E1 & E). eapply rtc_l; [by apply (loop_entry r idx c r1)|]. by apply IH.
  - injection E as <-. apply rtc_once. by apply loop_done.
Qed.

Definition caught_up (w w' : worker) (f : F) : Prop :=
  wk_pos w' = Waiting /\ fsm (wk_node w') = f /\
  lastApplied (wk_node w') = commitIndex (wk_node w') /\
  commitIndex (wk_node w') = commitIndex (wk_node w) /\ logStore (wk_node w') = logStore (wk_node w).

(** From the place where the entries up to [c] are to be applied. *)
Lemma applying_to r l c f' :
  log_repr (logStore r) l -> 0 <= lastApplied r <= c -> c <= len l ->
  apply_entries (fsm r) (between l (lastApplied r) c) = Ok f' ->
  exists r', rtc applyLoop_step (mkWorker r (Applying (lastApplied r + 1) c)) (mkWorker r' Waiting) /\
    fsm r' = f' /\ lastApplied r' = c /\ commitIndex r' = commitIndex r /\ logStore r' = logStore r /\
    commitNotifyCh r' = commitNotifyCh r.
Proof.
  intros Hl Ha Hc E.
  destruct (apply_loop_spec (Datatypes.S (Z.to_nat (c - lastApplied r))) r l c f' Hl) as (r' & E' & Hf & Hla & Hrest & _);
    [lia|done|done|done|].
  exists r'. split; [by eapply loop_steps|]. destruct Hrest as (_ & Hlog & Hci & _). split_and!; try done.
  clear -E'. revert E'. generalize (lastApplied r + 1) as idx. generalize (Datatypes.S (Z.to_nat (c - lastApplied r))).
  intros fuel. revert r. induction fuel as [|fuel IH]; intros r idx E; cbn [apply_loop] in E; [done|].
  destruct (_ <=? _); [|by injection E as <-]. apply obind_Ok in E as (r1 & E1 & E).
  rewrite (IH _ _ E). by apply apply_one_keeps in E1 as [_ ->].
Qed.

Lemma woken_catches_up r l f' :
  log_repr (logStore r) l -> 0 <= lastApplied r <= commitIndex r -> commitIndex r <= len l ->
  apply_entries (fsm r) (between l (lastApplied r) (commitIndex r)) = Ok f' ->
  exists w', rtc applyLoop_step (mkWorker r Woken) w' /\ caught_up (mkWorker r Woken) w' f'.
Proof.
  intros Hl Ha Hc E. pose proof (repr_small _ _ Hl) as Hsm.
  destruct (applying_to r l (commitIndex r) f') as (r' & Hrun & Hf & Hla & Hci & Hlog & _); [done..|].
  exists (mkWorker r' Waiting). split.
  - eapply rtc_l; [apply loop_indexes|]. rewrite uint64_id by (int_unfold; lia). done.
  - split_and!; simpl; congruence.
Qed.

Lemma waiting_catches_up r l f' :
  log_repr (logStore r) l -> tracked (mkWorker r Waiting) -> commitIndex r <= len l ->
  apply_entries (fsm r) (between l (lastApplied r) (commitIndex r)) = Ok f' ->
  exists w', rtc applyLoop_step (mkWorker r Waiting) w' /\ caught_up (mkWorker r Waiting) w' f'.
Proof.
  intros Hl (Ha & _ & Hn) Hc E. simpl in *. destruct (Z.eq_dec (lastApplied r) (commitIndex r)) as [Heq|Hne].
  - exists (mkWorker r Waiting). split; [done|]. rewrite between_nil in E by lia. injection E as <-. by split.
  - destruct (woken_catches_up (set_notify r false) l f') as (w' & Hrun & Hw); [done..|]. exists w'. split; [|done].
    eapply rtc_l; [|exact Hrun]. apply loop_notified, Hn. lia.
Qed.

(** C18: no wake-up is lost.  Start the goroutine of the apply loop with nothing
    to apply and let the other critical sections run between its own in any
    order, with notifications dropped when one is pending.  Wherever it then is,
    left to itself it applies exactly the committed entries that are not yet
    applied, in the order of the log, and waits again with all of them applied. *)
Theorem apply_loop_catches_up r0 w l f' :
  lastApplied r0 = commitIndex r0 -> 0 <= commitIndex r0 < MaxUint64 ->
  rtc busy_step (mkWorker r0 Waiting) w -> wk_pos w <> Ended ->
  log_repr (logStore (wk_node w)) l -> commitIndex (wk_node w) <= len l ->
  apply_entries (fsm (wk_node w)) (between l (lastApplied (wk_node w)) (commitIndex (wk_node w))) = Ok f' ->
  exists w', rtc applyLoop_step w w' /\ caught_up w w' f'.
Proof.
  intros H0 Hr0 Hrun Hpos Hl Hc E.
  assert (tracked w) as Ht.
  { eapply busy_run_tracked; [|exact Hrun]. unfold tracked. simpl. split; [lia|]. split; lia. }
  destruct w as [r pos]. simpl in *. destruct pos as [| |idx c|]; [by eapply waiting_catches_up| | |done].
  - destruct Ht as (Ha & _). by eapply woken_catches_up.
  - destruct Ht as (Ha & Hm & -> & Hcc & Hn). simpl in *.
    rewrite (between_split l (lastApplied r) c (commitIndex r)), apply_entries_app in E by lia.
    apply obind_Ok in E as (f1 & E1 & E).
    destruct (applying_to r l c f1) as (r1 & Hrun1 & Hf1 & Hla & Hci & Hlog & Hnt); [done|lia|lia|done|].
    destruct (waiting_catches_up r1 l f') as (w' & Hrun' & Hp & Hf & Hla' & Hci' & Hlog').
    + by rewrite Hlog.
    + unfold tracked. simpl. rewrite Hla, Hci, Hnt. split; [lia|]. by split.
    + by rewrite Hci.
    + by rewrite Hf1, Hla, Hci.
    + exists w'. split; [by etrans|]. split_and!; simpl in *; congruence.
Qed.

End ApplyLoop.
