(* ===== verification/ReplicatorLoop.v ===== *)
(** * Raft: the goroutine of a replicator ([internal/raft/replication.go], [runReplicator])

    A replicator sends what its peer lacks and waits: for the next heartbeat,
    to be stopped, or to be woken through a channel that holds one wake-up and
    drops the others.  A command that arrives while a request is on its way is
    sent without waiting for a heartbeat all the same, which is proved here. *)

From S2P Require Import Prelude Binary Store RaftTypes Node Election Logs Replication Append Leader Loops Runs.

(** Where the goroutine is: before [replicateOnce]; in the RPC, with the
    request and the last index it has read; in its [select], after a request
    that went up to that index; returned. *)
Inductive replicator_position : Type :=
| AtTop
| Asked (req : AppendEntriesRequest) (lastIdx : Z)
| Selecting (lastIdx : Z)
| Returned.

Section ReplicatorLoop.
Context {L S F R : Type} `{!LogStore L} `{!StableStore S} `{!FSM F R}.
Context `{!LogStoreLaws L} `{!LogStoreTruncates L} `{!StableStoreLaws S}.
Abbreviation Node := (RaftNode L S F R).
Implicit Types r : Node.

Record replicator : Type := mkReplicator {
  rp_node : Node;
  rp_pos : replicator_position
}.
Implicit Types w : replicator.

(** ** Code *)

(** The receive from [peer.triggerCh]. *)
Definition untrigger (p : peerState) : peerState :=
  mkPeerState (ps_id p) (ps_addr p) (nextIndex p) (matchIndex p) false.

(** [peer] is the pointer of the goroutine; [tick] says whether the heartbeat
    may fire, [stopCh] whether [runLeader] has returned and closed it. *)
Inductive runReplicator_step (peer : nat) (tick stopCh : bool) : replicator -> replicator -> Prop :=
| repl_asks r req lastIdx err :
    replicate_request r peer = Ok (Some req) -> LastIndex (logStore r) = Ok (lastIdx, err) ->
    runReplicator_step peer tick stopCh (mkReplicator r AtTop) (mkReplicator r (Asked req lastIdx))
| repl_not_leader r :
    replicate_request r peer = Ok None ->
    runReplicator_step peer tick stopCh (mkReplicator r AtTop) (mkReplicator r (Selecting 0))
| repl_answered r req lastIdx resp r' :
    entries_ok (ae_Entries req) -> (forall x, resp = Some x -> is_uint64 (ar_Term x)) ->
    replicate_response r peer (ae_Entries req) resp = Ok r' ->
    runReplicator_step peer tick stopCh (mkReplicator r (Asked req lastIdx)) (mkReplicator r' (Selecting lastIdx))
| repl_triggered r p lastIdx :
    heap r !! peer = Some p -> ps_triggerCh p = true ->
    runReplicator_step peer tick stopCh (mkReplicator r (Selecting lastIdx)) (mkReplicator (set_peer r peer (untrigger p)) AtTop)
| repl_heartbeat r lastIdx :
    tick = true ->
    runReplicator_step peer tick stopCh (mkReplicator r (Selecting lastIdx)) (mkReplicator r AtTop)
| repl_stopped r lastIdx :
    stopCh = true ->
    runReplicator_step peer tick stopCh (mkReplicator r (Selecting lastIdx)) (mkReplicator r Returned)
| repl_shutdown r lastIdx :
    shutdownCh r = true ->
    runReplicator_step peer tick stopCh (mkReplicator r (Selecting lastIdx)) (mkReplicator r Returned).

(** The goroutine among the critical sections of the others, as long as the
    leadership lasts for which it was started: the main goroutine is in the
    loop of [runLeader] and leaves [peers] alone. *)
Inductive reign_step (peer : nat) : replicator -> replicator -> Prop :=
| reign_own tick w w' :
    runReplicator_step peer tick false w w' -> state (rp_node w') = Leader -> reign_step peer w w'
| reign_other r r' pos :
    step r r' -> state r' = Leader -> peers r' = peers r ->
    reign_step peer (mkReplicator r pos) (mkReplicator r' pos).

(** The goroutine without its heartbeat, and not stopped. *)
Abbreviation woken_step peer := (runReplicator_step peer false false).

(** * Lemmas *)

(** ** What a critical section does to the wake-up of one replicator *)

Definition unchanged (peer : nat) r r' : Prop :=
  logStore r' = logStore r /\
  forall p, heap r !! peer = Some p -> exists p', heap r' !! peer = Some p' /\ ps_triggerCh p' = ps_triggerCh p.

Definition wakes (peer : nat) r r' : Prop :=
  forall p, heap r !! peer = Some p ->
    exists p', heap r' !! peer = Some p' /\
      (ps_triggerCh p' = true \/
       ps_triggerCh p' = ps_triggerCh p /\ forall l, log_repr (logStore r) l -> log_repr (logStore r') l).

Lemma unchanged_same peer r r' : logStore r' = logStore r -> heap r' = heap r -> unchanged peer r r'.
Proof. intros E1 E2. split; [done|]. rewrite E2. eauto. Qed.

Lemma unchanged_trans peer r1 r2 r3 : unchanged peer r1 r2 -> unchanged peer r2 r3 -> unchanged peer r1 r3.
Proof.
  intros [E1 H1] [E2 H2]. split; [congruence|]. intros p Hp. destruct (H1 p Hp) as (p' & Hp' & Et).
  destruct (H2 p' Hp') as (p2 & Hp2 & Et2). exists p2. split; [done|congruence].
Qed.

Lemma unchanged_wakes peer r r' : unchanged peer r r' -> wakes peer r r'.
Proof.
  intros [E H] p Hp. destruct (H p Hp) as (p' & Hp' & Et). exists p'. split; [done|]. right. split; [done|].
  intros l Hl. by rewrite E.
Qed.

Lemma persist_same peer r r' : persistState r = Ok r' -> unchanged peer r r'.
Proof. unfold persistState. intros H. opened. by apply unchanged_same. Qed.

Lemma stepDown_same peer r t r' : stepDown r t = Ok r' -> unchanged peer r r'.
Proof. intros H%(persist_same peer). exact H. Qed.

Lemma set_peer_same peer r loc p q :
  heap r !! loc = Some p -> ps_triggerCh q = ps_triggerCh p -> unchanged peer r (set_peer r loc q).
Proof.
  intros Hp Hq. split; [done|]. intros p0 Hp0. cbn [set_peer set_peers heap]. destruct (decide (peer = loc)) as [->|Hne].
  - rewrite list_lookup_insert_eq by (by eapply lookup_lt_Some). exists q. split; congruence.
  - rewrite list_lookup_insert_ne by done. eauto.
Qed.

Lemma advance_same peer r r' : advanceCommitIndex r = Ok r' -> unchanged peer r r'.
Proof. unfold advanceCommitIndex. intros H. opened; by apply unchanged_same. Qed.

Lemma response_same peer r loc es resp r' : replicate_response r loc es resp = Ok r' -> unchanged peer r r'.
Proof.
  unfold replicate_response. destruct resp as [resp|]; [|intros [= <-]; by apply unchanged_same].
  destruct (_ <? _); [apply stepDown_same|]. intros (p & Ep & H)%obind_Ok.
  destruct (heap r !! loc) as [p0|] eqn:Hp; [|done]. injection Ep as ->.
  destruct (ar_Success resp).
  - apply (advance_same peer) in H. eapply unchanged_trans; [|exact H].
    destruct (last es); [|by apply unchanged_same]. by eapply set_peer_same.
  - apply obind_Ok in H as (next & _ & [= <-]). by eapply set_peer_same.
Qed.

Lemma vote_same peer r req x : handleRequestVote r req = Ok x -> unchanged peer r x.1.1.
Proof.
  unfold handleRequestVote. intros H. destruct (_ <? _); [opened; by apply unchanged_same|].
  apply obind_Ok in H as (r1 & E1 & H).
  assert (unchanged peer r r1) as Hs.
  { destruct (_ <? _); [by eapply stepDown_same|]. injection E1 as <-. by apply unchanged_same. }
  opened; try exact Hs; (eapply unchanged_trans; [exact Hs|]);
    match goal with H : persistState _ = Ok _ |- _ => apply (persist_same peer) in H; exact H end.
Qed.

(** A node that has answered a request of the term it leads in, or of a later
    one, follows. *)
Lemma append_same peer r req x :
  handleAppendEntries r req = Ok x -> state x.1.1 = Leader -> unchanged peer r x.1.1.
Proof.
  unfold handleAppendEntries. intros H Hst. destruct (_ <? _); [opened; by apply unchanged_same|]. exfalso.
  apply obind_Ok in H as (r1 & _ & H). apply obind_Ok in H as ([[t i]|] & _ & H); [by opened|].
  apply obind_Ok in H as ([s ok] & _ & H). destruct ok; [|by opened].
  apply obind_Ok in H as (r2 & E2 & [= <-]). unfold update_commit in E2. by opened.
Qed.

Lemma init_same peer r r' : leader_init r = Ok r' -> unchanged peer r r'.
Proof.
  unfold leader_init. intros ([lastIdx e] & _ & E)%obind_Ok.
  assert (forall cfg ps h ps' h', foldl (leader_peer (ServerID (config r)) lastIdx) (ps, h) cfg = (ps', h') ->
    exists k, h' = h ++ k) as Hk.
  { intros cfg. induction cfg as [|c cfg IH]; intros ps h ps' h' Ef; simpl in Ef.
    - injection Ef as <- <-. exists []. by rewrite app_nil_r.
    - unfold leader_peer at 2 in Ef. simpl in Ef. case_bool_decide; [by eapply IH|].
      destruct (IH _ _ _ _ Ef) as (k & ->). rewrite <-app_assoc. by eexists. }
  destruct (foldl _ _ _) as [ps h] eqn:Ef. injection E as <-. destruct (Hk _ _ _ _ _ Ef) as (k & ->).
  split; [done|]. intros p Hp. exists p. split; [by apply lookup_app_l_Some|done].
Qed.

Lemma trigger_wakes peer id r r' s :
  peers r !! id = Some peer -> peers r' = peers r -> heap r' = heap r -> wakes peer r (triggerReplication (set_log r' s)).
Proof.
  intros Hid Ep Eh p Hp. destruct (trigger_set (heap r) (peers r) id peer p Hid Hp) as (p' & Hp' & Ht & _).
  exists p'. split; [|by left]. cbn [triggerReplication set_peers set_log heap peers]. by rewrite Ep, Eh.
Qed.

Lemma failed_wakes peer r r' :
  heap r' = heap r -> (forall l, log_repr (logStore r) l -> log_repr (logStore r') l) -> wakes peer r r'.
Proof. intros Eh Hl p Hp. exists p. rewrite Eh. auto. Qed.

(** A critical section that leaves the node leading leaves the log alone or
    wakes the replicators of the leadership. *)
Lemma step_wakes peer id r r' :
  node_inv r -> peers r !! id = Some peer -> step r r' -> state r' = Leader -> wakes peer r r'.
Proof.
  intros Hi Hid Hs Hst.
  destruct Hs as [r cmd r' resp b _ E|r _|r r' req addrs _ E|r t r' _ _ E|r|r r' E|r r' Hroom E|r q r' Hroom E
    |r loc es resp r' _ _ E|r r' Hlt E|r data c _|r fut b|r|r]; try (apply unchanged_wakes; by apply unchanged_same).
  - apply unchanged_wakes. destruct cmd; simpl in E; [| |injection E as <- _ _; by apply unchanged_same];
      apply obind_Ok in E as ([[r1 x] b1] & E & [= <- _ _]).
    + by apply (append_same peer) in E.
    + by apply (vote_same peer) in E.
  - apply unchanged_wakes. unfold startElection in E. apply obind_Ok in E as (r1 & E1 & E).
    apply (persist_same peer) in E1. apply obind_Ok in E as ([i t] & _ & [= <- _ _]). exact E1.
  - apply unchanged_wakes. by eapply stepDown_same.
  - apply unchanged_wakes. by apply init_same.
  - destruct Hi as ((l & Hok) & _).
    destruct (appendNoOp_ok r l (ok_log _ _ Hok) Hroom (ok_term _ _ Hok)) as (s & err & Hl & E').
    rewrite E in E'. injection E' as ->. destruct err; [|by apply (trigger_wakes peer id)].
    apply failed_wakes; [done|]. intros l0 Hl0. by rewrite (repr_unique _ _ _ Hl0 (ok_log _ _ Hok)).
  - destruct (decide (state r = Leader)) as [Hl|Hl].
    2:{ unfold handleApplyRequest in E. rewrite bool_decide_false in E by done. injection E as <-.
        apply unchanged_wakes. by apply unchanged_same. }
    destruct Hi as ((l & Hok) & _).
    destruct (handleApplyRequest_ok r l q (ok_log _ _ Hok) Hroom (ok_term _ _ Hok) Hl) as (s & err & Hsl & E').
    rewrite E in E'. injection E' as ->. destruct err.
    + apply failed_wakes; [done|]. intros l0 Hl0. cbn. by rewrite (repr_unique _ _ _ Hl0 (ok_log _ _ Hok)).
    + by apply (trigger_wakes peer id _ (set_futures r _ _)).
  - apply unchanged_wakes. by eapply response_same.
  - apply unchanged_wakes. unfold apply_one in E. opened; by apply unchanged_same.
  - apply unchanged_wakes, unchanged_same; unfold Apply; simpl; by repeat case_match.
  - apply unchanged_wakes, unchanged_same; unfold Shutdown; by case_match.
Qed.

Lemma response_peers r loc es resp r' : replicate_response r loc es resp = Ok r' -> peers r' = peers r.
Proof.
  unfold replicate_response, stepDown, persistState, advanceCommitIndex. intros H. opened; try done; by destruct (last es).
Qed.

(** ** No wake-up is lost *)

(** The request under way or answered last went up to the end of the log, or
    a wake-up is pending. *)
Definition covered (pos : replicator_position) (sto : L) (woken : bool) : Prop :=
  match pos with
  | Asked _ lastIdx | Selecting lastIdx => forall l, log_repr sto l -> lastIdx < len l -> woken = true
  | AtTop | Returned => True
  end.

Record reigning (peer : nat) (id : bytes) w : Prop := {
  rg_inv : node_inv (rp_node w);
  rg_leads : state (rp_node w) = Leader;
  rg_peer : peers (rp_node w) !! id = Some peer;
  rg_record : exists p, heap (rp_node w) !! peer = Some p /\ covered (rp_pos w) (logStore (rp_node w)) (ps_triggerCh p)
}.

Lemma leader_asks r peer : state r = Leader -> replicate_request r peer <> Ok None.
Proof. intros Hst. unfold replicate_request. rewrite Hst. rewrite bool_decide_true by done. intros E. by opened. Qed.

Lemma untrigger_inv r peer p : node_inv r -> heap r !! peer = Some p -> node_inv (set_peer r peer (untrigger p)).
Proof.
  intros Hi Hp. pose proof Hi as ((l & Hok) & Hpe & _). apply (inv_frame r _ l); [done|by split|apply Hok|].
  intros id loc Hl. destruct (Hpe id loc Hl) as (q & Hq & Hu). cbn [set_peer set_peers heap].
  destruct (decide (loc = peer)) as [->|Hne].
  - rewrite list_lookup_insert_eq by (by eapply lookup_lt_Some). exists (untrigger p). split; [done|]. cbn. congruence.
  - rewrite list_lookup_insert_ne by done. by exists q.
Qed.

Lemma own_reigning peer id tick w w' :
  reigning peer id w -> runReplicator_step peer tick false w w' -> state (rp_node w') = Leader -> reigning peer id w'.
Proof.
  intros [Hi Hst Hid (p & Hp & Hc)] Hs Hst'.
  destruct Hs as [r req n err Ereq Elast|r E|r req n resp r' He Hr E|r q n Hq Ht|r n _|r n ?|r n _]; cbn [rp_node rp_pos] in *;
    try (split; [done..|]; by exists p).
  - split; [done..|]. exists p. split; [done|]. intros l Hl Hn. cbn [rp_node] in Hl.
    rewrite (LastIndex_law _ _ Hl) in Elast. injection Elast as Elast. lia.
  - by apply leader_asks in E.
  - destruct (response_same peer _ _ _ _ _ E) as [El Hh]. destruct (Hh p Hp) as (p' & Hp' & Et).
    split; cbn [rp_node rp_pos].
    + by destruct (step_good r r' Hi (step_response _ _ _ _ _ He Hr E)).
    + done.
    + by rewrite (response_peers _ _ _ _ _ E).
    + exists p'. split; [done|]. rewrite El, Et. exact Hc.
  - assert (q = p) as -> by congruence. split; cbn [rp_node rp_pos]; [by apply untrigger_inv|done..|].
    exists (untrigger p). split; [|done]. apply list_lookup_insert_eq. by eapply lookup_lt_Some.
Qed.

Lemma other_reigning peer id r r' pos :
  reigning peer id (mkReplicator r pos) -> step r r' -> state r' = Leader -> peers r' = peers r ->
  reigning peer id (mkReplicator r' pos).
Proof.
  intros [Hi Hst Hid (p & Hp & Hc)] Hs Hst' Ep. cbn [rp_node rp_pos] in *.
  destruct (step_wakes peer id r r' Hi Hid Hs Hst' p Hp) as (p' & Hp' & Hw).
  split; cbn [rp_node rp_pos]; [by destruct (step_good r r' Hi Hs)|done|by rewrite Ep|].
  exists p'. split; [done|]. destruct Hw as [->|[-> Hl]]; [by destruct pos|].
  destruct Hi as ((l0 & Hok) & _). destruct pos; try done; intros l Hlr Hn; apply (Hc l); try done;
    by rewrite (repr_unique _ _ _ Hlr (Hl _ (ok_log _ _ Hok))); apply Hok.
Qed.

Lemma reign_reigning peer id w w' : reigning peer id w -> rtc (reign_step peer) w w' -> reigning peer id w'.
Proof.
  intros Hw Hrun. induction Hrun as [|w1 w2 w3 Hs _ IH]; [done|]. apply IH.
  destruct Hs; [by eapply own_reigning|by eapply other_reigning].
Qed.

(** From the [select] with a wake-up pending. *)
Lemma select_wakes peer id r n l :
  reigning peer id (mkReplicator r (Selecting n)) -> log_repr (logStore r) l -> n < len l ->
  exists r', woken_step peer (mkReplicator r (Selecting n)) (mkReplicator r' AtTop) /\
    logStore r' = logStore r /\ state r' = Leader.
Proof.
  intros [Hi Hst Hid (p & Hp & Hc)] Hl Hn. cbn [rp_node rp_pos] in *.
  exists (set_peer r peer (untrigger p)). split; [|by split]. apply repl_triggered; [done|by apply (Hc l)].
Qed.

Lemma top_asks r peer l :
  log_repr (logStore r) l -> state r = Leader ->
  forall p, heap r !! peer = Some p -> 1 <= nextIndex p <= len l + 1 ->
    woken_step peer (mkReplicator r AtTop) (mkReplicator r (Asked (request_for r l p) (len l))).
Proof.
  intros Hl Hst p Hp Hn. eapply repl_asks; [by apply replicate_request_ok|by apply LastIndex_law].
Qed.

(** C19: no wake-up of a replicator is lost.  Start the goroutine of a
    replicator in a leadership and let the other critical sections run between
    its own in any order, with wake-ups dropped when one is pending.  Wherever
    it then is, if the log goes further than its last request did, it comes,
    once an answer it waits for is there and without a heartbeat, to the point
    where it asks anew, and its request then carries everything from
    [nextIndex] to the end of the log. *)
Theorem replicator_not_stuck peer id r0 w l resp :
  node_inv r0 -> state r0 = Leader -> peers r0 !! id = Some peer ->
  rtc (reign_step peer) (mkReplicator r0 AtTop) w -> rp_pos w <> Returned ->
  log_repr (logStore (rp_node w)) l ->
  (forall lastIdx, rp_pos w = Selecting lastIdx -> lastIdx < len l) ->
  (forall req lastIdx, rp_pos w = Asked req lastIdx ->
     lastIdx < len l /\ entries_ok (ae_Entries req) /\ (forall x, resp = Some x -> is_uint64 (ar_Term x)) /\
     exists r', replicate_response (rp_node w) peer (ae_Entries req) resp = Ok r' /\ state r' = Leader) ->
  exists r', rtc (woken_step peer) w (mkReplicator r' AtTop) /\ log_repr (logStore r') l /\
    forall p, heap r' !! peer = Some p -> 1 <= nextIndex p <= len l + 1 ->
      woken_step peer (mkReplicator r' AtTop) (mkReplicator r' (Asked (request_for r' l p) (len l))) /\
      ae_Entries (request_for r' l p) = drop (Z.to_nat (nextIndex p - 1)) l.
Proof.
  intros Hi Hst Hid Hrun Hpos Hl Hsel Hask.
  assert (reigning peer id w) as Hw.
  { eapply reign_reigning; [|exact Hrun]. destruct (proj1 (proj2 Hi) id peer Hid) as (p & Hp & _). split; [done..|]. by exists p. }
  assert (forall r', rtc (woken_step peer) w (mkReplicator r' AtTop) -> log_repr (logStore r') l -> state r' = Leader ->
    exists r', rtc (woken_step peer) w (mkReplicator r' AtTop) /\ log_repr (logStore r') l /\
      forall p, heap r' !! peer = Some p -> 1 <= nextIndex p <= len l + 1 ->
        woken_step peer (mkReplicator r' AtTop) (mkReplicator r' (Asked (request_for r' l p) (len l))) /\
        ae_Entries (request_for r' l p) = drop (Z.to_nat (nextIndex p - 1)) l) as Hend.
  { intros r' Hr' Hl' Hst'. exists r'. split; [done|]. split; [done|]. intros p Hp Hn. split; [by apply top_asks|done]. }
  destruct w as [r [|req n|n|]]; cbn [rp_node rp_pos] in *; [| | |done].
  - apply (Hend r); [done|done|apply Hw].
  - destruct (Hask req n eq_refl) as (Hn & He & Hx & r1 & E & Hst1).
    assert (woken_step peer (mkReplicator r (Asked req n)) (mkReplicator r1 (Selecting n))) as Hs by by eapply repl_answered.
    pose proof (own_reigning _ _ _ _ _ Hw Hs Hst1) as Hw1.
    destruct (response_same peer _ _ _ _ _ E) as [El _]. rewrite <-El in Hl.
    destruct (select_wakes peer id r1 n l Hw1 Hl Hn) as (r2 & Hs2 & El2 & Hst2).
    apply (Hend r2); [by eapply rtc_l, rtc_once|by rewrite El2|done].
  - destruct (select_wakes peer id r n l Hw Hl (Hsel n eq_refl)) as (r2 & Hs2 & El2 & Hst2).
    apply (Hend r2); [by apply rtc_once|by rewrite El2|done].
Qed.

End ReplicatorLoop.
