(* ===== verification/History.v ===== *)
(** * Raft: the history of the leaders' logs

    The argument for the safety of the logs, without nodes: [h t] is the log
    the leader of term [t] has had, which only grows.  Every log is put
    together from such logs ([recorded]).  A server that has acknowledged a
    prefix of [h t] has it still, unless a later leader without it came along
    ([held]); so what a majority has acknowledged, the logs of all later
    leaders have ([completeness]), and what is committed on two servers agrees
    ([committed_agree]). *)

From S2P Require Import Prelude Binary Store RaftTypes Node Election Logs Replication Append ElectionSafety.

Abbreviation history := (Z -> list LogEntry).

(** ** Specification *)

(** Two logs are equal up to an index. *)
Definition agree (m : Z) (l k : list LogEntry) : Prop := take (Z.to_nat m) l = take (Z.to_nat m) k.

(** Up to any entry, a log is the log of the leader that made the entry; the
    terms of the entries do not exceed [t]. *)
Definition recorded (h : history) (t : Z) (l : list LogEntry) : Prop :=
  forall i e, entry_at l i = Some e -> 1 <= log_Term e <= t /\ agree i l (h (log_Term e)).

Definition sound (h : history) : Prop := forall t, recorded h t (h t).

(** Later history: logs get longer, and those of terms that had a leader get
    longer by entries of that term. *)
Record grows (led : Z -> Prop) (h h' : history) : Prop := {
  gr_prefix : forall t, h t `prefix_of` h' t;
  gr_own : forall t i e, led t -> len (h t) < i -> entry_at (h' t) i = Some e -> log_Term e = t
}.

Definition extend (h : history) (t : Z) (l : list LogEntry) : history :=
  fun u => if decide (u = t) then l else h u.

(** A leader after [t], up to term [T], did not have the first [m] entries of
    [h t]. *)
Definition overtaken (h : history) (led : Z -> Prop) (t m T : Z) : Prop :=
  exists t', t < t' <= T /\ led t' /\ ~ agree m (h t') (h t).

Definition held (h : history) (led : Z -> Prop) (T : Z) (l : list LogEntry) (t m : Z) : Prop :=
  agree m l (h t) \/ overtaken h led t m T.

(** More than half of the servers. *)
Definition quorum (ids : list bytes) (P : bytes -> Prop) : Prop :=
  exists q, NoDup q /\ q ⊆ ids /\ len ids < 2 * len q /\ forall v, v ∈ q -> P v.

(** ** Agreement up to an index *)

#[export] Instance agree_equiv m : Equivalence (agree m).
Proof. unfold agree. split; red; congruence. Qed.

#[export] Instance agree_dec m l k : Decision (agree m l k).
Proof. unfold agree. apply _. Defined.

Lemma agree_le m n l k : agree m l k -> n <= m -> agree n l k.
Proof.
  unfold agree. intros E Hn. replace (Z.to_nat n) with (Z.to_nat n `min` Z.to_nat m)%nat by lia.
  by rewrite <-!take_take, E.
Qed.

Lemma agree_entry m l k i : agree m l k -> i <= m -> entry_at l i = entry_at k i.
Proof.
  intros E Hi. destruct (Z.le_gt_cases 1 i); [apply (entry_at_take_eq l k m); [done|lia|lia]|].
  by rewrite !(proj2 (entry_at_None _ _)) by lia.
Qed.

Lemma agree_term m l k i : agree m l k -> i <= m -> term_at l i = term_at k i.
Proof. intros. unfold term_at. by rewrite (agree_entry m l k). Qed.

Lemma agree_len m l k : agree m l k -> m <= len l -> m <= len k.
Proof.
  intros E%(f_equal length) Hm. rewrite !length_take in E. unfold len in *. lia.
Qed.

Lemma agree_prefix m l k : l `prefix_of` k -> m <= len l -> agree m k l.
Proof. intros [x ->] Hm. apply take_app_le. unfold len in *. lia. Qed.

Lemma agree_take m n l : m <= n -> agree m (take (Z.to_nat n) l) l.
Proof. intros. unfold agree. rewrite take_take. f_equal. lia. Qed.

Lemma agree_zero m l k : m <= 0 -> agree m l k.
Proof. intros. unfold agree. by replace (Z.to_nat m) with 0%nat by lia. Qed.

(** ** Recorded logs *)

Section History.
Context (h : history).
Implicit Types (l k : list LogEntry) (t m i : Z).

Lemma recorded_mono t t' l : recorded h t l -> t <= t' -> recorded h t' l.
Proof. intros H Ht i e E. destruct (H i e E). split; [lia|done]. Qed.

Lemma recorded_nil t : recorded h t [].
Proof. intros i e E%entry_at_Some. change (len []) with 0 in E. lia. Qed.

Lemma recorded_take t n l : recorded h t l -> recorded h t (take (Z.to_nat n) l).
Proof.
  intros H i e E. pose proof (entry_at_Some _ _ _ E) as [Hi Hn].
  assert (i <= n) by (unfold len in Hn; rewrite length_take in Hn; lia).
  rewrite entry_at_take in E by lia. destruct (H i e E). split; [done|].
  etrans; [apply agree_take; lia|done].
Qed.

(** Log Matching. *)
Lemma recorded_matching t t' l k : recorded h t l -> recorded h t' k -> log_matching l k.
Proof.
  intros Hl Hk i u E1 E2. unfold term_at in *.
  apply fmap_Some in E1 as (e1 & E1 & ->). apply fmap_Some in E2 as (e2 & E2 & Et).
  destruct (Hl _ _ E1) as [_ A1]. destruct (Hk _ _ E2) as [_ A2]. rewrite <-Et in A2. change (agree i l k). by rewrite A1, A2.
Qed.

Lemma recorded_term t l i u : recorded h t l -> term_at l i = Some u -> 1 <= u <= t /\ agree i l (h u).
Proof. intros H (e & E & ->)%fmap_Some. by apply H. Qed.

(** What is in the log of a term's leader reaches as far there. *)
Lemma recorded_reaches t l i u : recorded h t l -> term_at l i = Some u -> i <= len (h u).
Proof.
  intros H E. destruct (recorded_term _ _ _ _ H E) as [_ A]. apply (agree_len i l); [done|].
  apply term_at_Some in E. lia.
Qed.

Lemma recorded_terms t l i j a b :
  sound h -> recorded h t l -> i <= j -> term_at l i = Some a -> term_at l j = Some b -> a <= b.
Proof.
  intros Hs H Hij Ea Eb. destruct (recorded_term _ _ _ _ H Eb) as [_ A].
  rewrite (agree_term j l (h b)) in Ea by done. destruct (recorded_term _ _ _ _ (Hs b) Ea). lia.
Qed.

Lemma recorded_merge t t' l p es :
  recorded h t l -> sound h -> t <= t' -> continues l p es ->
  es = take (length es) (drop (Z.to_nat p) (h t')) ->
  (p = 0 \/ exists u, term_at l p = Some u /\ term_at (h t') p = Some u) ->
  recorded h t' (merge l es).
Proof.
  intros H Hs Ht Hc Ees Hp.
  destruct (merge_matching (h t') l p es Hc Ees Hp) as [_ [-> | ->]].
  - by eapply recorded_matching.
  - by eapply recorded_mono.
  - apply recorded_take, Hs.
Qed.

(** ** Acknowledged prefixes *)

Context (led : Z -> Prop).

Lemma overtaken_mono t m T T' : overtaken h led t m T -> T <= T' -> overtaken h led t m T'.
Proof. intros (t' & ? & ?) HT. exists t'. split; [lia|done]. Qed.

Lemma overtaken_before t m T : overtaken h led t m T -> ~ led T -> overtaken h led t m (T - 1).
Proof.
  intros (t' & Ht & Hl & ?) HT. exists t'. split; [|done].
  destruct (Z.eq_dec t' T) as [->|]; [done|lia].
Qed.

Lemma held_mono T T' l t m : held h led T l t m -> T <= T' -> held h led T' l t m.
Proof. intros [?|?] HT; [by left|right]. by eapply overtaken_mono. Qed.

(** Entries of a leader put into a log. *)
Lemma held_merge T T' l p es t m :
  held h led T l t m -> T <= T' -> t <= T -> led T' -> m <= len (h t) -> 0 <= m ->
  continues l p es -> es = take (length es) (drop (Z.to_nat p) (h T')) ->
  held h led T' (merge l es) t m.
Proof.
  intros Hh HT Ht Hl Hm H0 Hc Ees. destruct Hh as [Ha|Ho]; [|right; by eapply overtaken_mono].
  destruct (decide (agree m (h T') (h t))) as [A|A].
  - left. etrans; [|exact Ha]. assert (m <= len l) by (by apply (agree_len m (h t))).
    apply (merge_keeps_prefix (h T') l p es m Hc Ees); [|lia]. change (agree m l (h T')). by rewrite A.
  - right. exists T'. split; [|done]. destruct (Z.eq_dec t T') as [->|]; [by destruct A|lia].
Qed.

(** A server that has the prefix only votes for logs whose last entry is not
    behind it. *)
Lemma voter_behind T l t m :
  sound h -> recorded h T l -> numbered l -> agree m l (h t) -> term_at (h t) m = Some t ->
  up_to_date (last_info l) (m, t).
Proof.
  intros Hs Hl Hn Ha Ht. rewrite <-(agree_term m l (h t)) in Ht by done.
  pose proof (term_at_Some _ _ _ Ht) as Hm.
  destruct l as [|e l _] using rev_ind; [change (len []) with 0 in Hm; lia|].
  rewrite len_app in Hm. change (len [e]) with 1 in Hm. rewrite last_info_snoc.
  pose proof (entry_at_last l e) as He. pose proof (entry_at_index _ _ _ Hn He) as Hi.
  assert (t <= log_Term e).
  { eapply (recorded_terms T (l ++ [e]) m (len l + 1)); [done..|lia|exact Ht|]. unfold term_at. by rewrite He. }
  unfold up_to_date. simpl. lia.
Qed.

(** And such a log has the prefix, or the leader of its last entry had not. *)
Lemma candidate_covers T l t m :
  (forall u, h u <> [] -> led u) ->
  sound h -> recorded h T l -> numbered l -> term_at (h t) m = Some t ->
  up_to_date (last_info l) (m, t) -> held h led T l t m.
Proof.
  intros Hled Hs Hl Hn Ht Hu. pose proof (term_at_Some _ _ _ Ht) as Hm.
  destruct (recorded_term _ _ _ _ (Hs t) Ht) as [Ht1 _].
  destruct l as [|e l _] using rev_ind.
  { unfold last_info, up_to_date in Hu. simpl in Hu. lia. }
  rewrite last_info_snoc in Hu. unfold up_to_date in Hu. simpl in Hu.
  pose proof (entry_at_last l e) as He. pose proof (entry_at_index _ _ _ Hn He) as Hi.
  destruct (Hl _ _ He) as [Hte Ha]. set (u := log_Term e) in *.
  destruct (decide (agree m (h u) (h t))) as [A|A].
  - left. destruct Hu as [Hgt|[-> Hle]]; [|by apply (agree_le (len l + 1)); [|lia]].
    destruct (Z.le_gt_cases m (len l + 1)); [transitivity (h u); [|done]; by eapply agree_le|].
    exfalso. assert (term_at (h t) (len l + 1) = Some u) as Hx.
    { rewrite <-(agree_term m (h u)) by (done || lia). rewrite <-(agree_term (len l + 1) (l ++ [e])) by (done || lia).
      unfold term_at. by rewrite He. }
    destruct (recorded_term _ _ _ _ (Hs t) Hx). lia.
  - right. exists u. split; [|split; [|done]].
    + destruct Hu as [?|[Hu _]]; [lia|]. destruct A. by rewrite Hu.
    + apply Hled. intros E. assert (len l + 1 <= len (h u)) as Hr.
      { apply (agree_len _ (l ++ [e])); [done|]. by apply (entry_at_Some _ _ _ He). }
      rewrite E in Hr. change (len []) with 0 in Hr. pose proof (len_nonneg l). lia.
Qed.

End History.

(** ** Later history *)

Section Growth.
Context (led : Z -> Prop) (h h' : history) (Hg : grows led h h').

Lemma grows_agree t m : m <= len (h t) -> agree m (h' t) (h t).
Proof. intros. apply agree_prefix; [apply (gr_prefix _ _ _ Hg)|done]. Qed.

Lemma grows_term t m u : term_at (h t) m = Some u -> term_at (h' t) m = Some u.
Proof.
  intros E. rewrite <-E. apply (agree_term m); [|done].
  apply grows_agree. by apply (term_at_Some _ _ _ E).
Qed.

Lemma grows_len t : len (h t) <= len (h' t).
Proof. destruct (gr_prefix _ _ _ Hg t) as [k ->]. rewrite len_app. pose proof (len_nonneg k). lia. Qed.

Lemma recorded_grows t l : recorded h t l -> recorded h' t l.
Proof.
  intros H i e E. destruct (H i e E) as [Ht Ha]. split; [done|]. etrans; [exact Ha|]. symmetry.
  apply grows_agree. apply (agree_len i l); [done|]. by apply (entry_at_Some _ _ _ E).
Qed.

Context (led' : Z -> Prop) (Hled : forall t, led t -> led' t) (Hs : sound h').

(** A leader that lacked a prefix never gets it. *)
Lemma overtaken_grows t m T : m <= len (h t) -> overtaken h led t m T -> overtaken h' led' t m T.
Proof.
  intros Hm (t' & Ht & Hl & Hn). exists t'. split; [done|]. split; [auto|]. intros A. apply Hn.
  assert (agree m (h' t') (h t)) as A' by (rewrite A; by apply grows_agree).
  destruct (Z.le_gt_cases m (len (h t'))) as [Hle|Hgt].
  { rewrite <-A'. symmetry. by apply grows_agree. }
  exfalso. assert (m <= len (h' t')) by (by apply (agree_len m (h t))).
  pose proof (len_nonneg (h t')). destruct (entry_at_in (h' t') m) as [e He]; [lia|].
  pose proof (gr_own _ _ _ Hg t' m e Hl Hgt He) as Et.
  rewrite (agree_entry m _ _ _ A) in He by done. destruct (Hs t m e He). lia.
Qed.

Lemma held_grows T l t m : m <= len (h t) -> held h led T l t m -> held h' led' T l t m.
Proof.
  intros Hm [Ha|Ho]; [left|right; by apply overtaken_grows].
  etrans; [exact Ha|]. symmetry. by apply grows_agree.
Qed.

End Growth.

Lemma grows_refl led h : grows led h h.
Proof. split; [done|]. intros t i e _ Hi E%entry_at_Some. lia. Qed.

(** The two ways history goes on: a leader appends, or is elected. *)
Lemma extend_eq h t l : extend h t l t = l.
Proof. unfold extend. by rewrite decide_True. Qed.

Lemma extend_ne h t l u : u <> t -> extend h t l u = h u.
Proof. intros. unfold extend. by rewrite decide_False. Qed.

Lemma grows_snoc led h t e : log_Term e = t -> grows led h (extend h t (h t ++ [e])).
Proof.
  intros He. split.
  - intros u. destruct (decide (u = t)) as [->|Hne]; [rewrite extend_eq|by rewrite extend_ne].
    by apply prefix_app_r.
  - intros u i x _ Hi E. destruct (decide (u = t)) as [->|Hne].
    + rewrite extend_eq in E. pose proof (entry_at_Some _ _ _ E) as [_ Hx].
      rewrite len_app in Hx. change (len [e]) with 1 in Hx. replace i with (len (h t) + 1) in E by lia.
      rewrite entry_at_last in E. by injection E as <-.
    + rewrite extend_ne in E by done. apply entry_at_Some in E. lia.
Qed.

Lemma sound_snoc h t e : sound h -> log_Term e = t -> 1 <= t -> sound (extend h t (h t ++ [e])).
Proof.
  intros Hs He Ht. pose proof (grows_snoc (fun _ => True) h t e He) as Hg. intros u.
  destruct (decide (u = t)) as [->|Hne].
  2: { rewrite (extend_ne h t _ u) by done. by eapply recorded_grows. }
  rewrite extend_eq. intros i x E. pose proof (entry_at_Some _ _ _ E) as Hi.
  rewrite len_app in Hi. change (len [e]) with 1 in Hi.
  destruct (Z.le_gt_cases i (len (h t))) as [Hle|Hgt].
  - rewrite entry_at_app_l in E by done. destruct (recorded_grows _ _ _ Hg _ _ (Hs t) _ _ E) as [? Ha].
    split; [done|]. etrans; [|exact Ha]. apply agree_prefix; [by apply prefix_app_r|done].
  - replace i with (len (h t) + 1) in E by lia. rewrite entry_at_last in E. injection E as <-.
    rewrite He, extend_eq. split; [lia|done].
Qed.

Lemma grows_elected (led : Z -> Prop) h t l : h t = [] -> ~ led t -> grows led h (extend h t l).
Proof.
  intros He Hl. split.
  - intros u. destruct (decide (u = t)) as [->|Hne]; [rewrite He; apply prefix_nil|by rewrite extend_ne].
  - intros u i x Hu Hi E. rewrite extend_ne in E by congruence. apply entry_at_Some in E. lia.
Qed.

Lemma sound_elected (led : Z -> Prop) h t l :
  sound h -> h t = [] -> ~ led t -> recorded h t l -> sound (extend h t l).
Proof.
  intros Hs He Hn Hl u. pose proof (grows_elected led h t l He Hn) as Hg.
  destruct (decide (u = t)) as [->|Hne].
  - rewrite extend_eq. by eapply recorded_grows.
  - rewrite (extend_ne h t _ u) by done. by eapply recorded_grows.
Qed.

(** ** Completeness *)

Lemma quorum_mono ids (P Q : bytes -> Prop) : (forall v, P v -> Q v) -> quorum ids P -> quorum ids Q.
Proof. intros H (q & ? & ? & ? & Hq). exists q. split_and!; auto. Qed.

Lemma quorums_meet ids P Q : quorum ids P -> quorum ids Q -> exists v, P v /\ Q v.
Proof.
  intros (p & ? & ? & ? & Hp) (q & ? & ? & ? & Hq).
  destruct (majorities_meet ids p q) as (v & ? & ?); [done..|]. exists v. auto.
Qed.

Section Completeness.
Context (ids : list bytes) (h : history) (led : Z -> Prop) (acked : bytes -> Z -> Z -> Prop).

(** A majority has acknowledged a prefix of the log of a leader that ends in
    an entry of its own. *)
Definition chosen (t m : Z) : Prop :=
  term_at (h t) m = Some t /\ quorum ids (fun v => acked v t m).

(** A leader's log has what each of a majority has acknowledged before. *)
Definition well_elected (t' : Z) : Prop :=
  quorum ids (fun v => forall t m, acked v t m -> t < t' -> term_at (h t) m = Some t ->
    held h led (t' - 1) (h t') t m).

(** The first [n] entries of a log are part of something chosen up to term
    [T]. *)
Definition committed (T : Z) (l : list LogEntry) (n : Z) : Prop :=
  n = 0 \/ exists t m, t <= T /\ n <= m /\ chosen t m /\ agree n l (h t).

Context (Hwon : forall t, led t -> well_elected t).

Lemma completeness t m t' : chosen t m -> led t' -> t <= t' -> agree m (h t') (h t).
Proof.
  intros [Hterm Hq]. revert t'.
  assert (forall n t', (Z.to_nat (t' - t) < n)%nat -> led t' -> t <= t' -> agree m (h t') (h t)) as H.
  2: { intros t'. apply (H (S (Z.to_nat (t' - t)))). lia. }
  induction n as [|n IH]; intros t' Hn Hl Ht; [lia|].
  destruct (Z.eq_dec t t') as [->|Hne]; [done|].
  destruct (quorums_meet _ _ _ Hq (Hwon t' Hl)) as (v & Hv & Hw).
  destruct (Hw t m Hv) as [?|(u & Hu & Hlu & Hno)]; [lia|done|done|].
  destruct Hno. apply IH; [lia|done|lia].
Qed.

Lemma committed_mono T T' l n : committed T l n -> T <= T' -> committed T' l n.
Proof. intros [?|(t & m & ? & ?)] HT; [by left|right]. exists t, m. split; [lia|done]. Qed.

Lemma committed_agree' T l n k : committed T l n -> agree n k l -> committed T k n.
Proof.
  intros [?|(t & m & ? & ? & ? & ?)] Hk; [by left|right]. exists t, m. split_and!; try done. by rewrite Hk.
Qed.

(** A later leader has what is committed. *)
Lemma committed_led T l n t' : committed T l n -> led t' -> T <= t' -> agree n l (h t').
Proof.
  intros [->|(t & m & Ht & Hn & Hc & Ha)] Hl HT; [by apply agree_zero|].
  rewrite Ha. symmetry. apply (agree_le m); [|done]. apply completeness; [done|done|lia].
Qed.

(** What is committed in two logs is one. *)
Lemma committed_agree T l n T' l' n' k :
  (forall u, h u <> [] -> led u) ->
  committed T l n -> committed T' l' n' -> k <= n -> k <= n' -> agree k l l'.
Proof.
  intros Hled [->|(t & m & _ & Hn & Hc & Ha)]; [intros; by apply agree_zero|].
  intros [->|(t' & m' & _ & Hn' & Hc' & Ha')] Hk Hk'; [by apply agree_zero|].
  assert (forall t m, chosen t m -> led t) as Hl.
  { intros u i [Hu _]. apply Hled. intros E. rewrite E in Hu. apply term_at_Some in Hu. change (len []) with 0 in Hu. lia. }
  etrans; [by apply (agree_le n)|]. symmetry. etrans; [by apply (agree_le n')|].
  destruct (Z.le_ge_cases t t').
  - apply (agree_le m); [|lia]. apply completeness; [done|by apply (Hl t' m')|done].
  - symmetry. apply (agree_le m'); [|lia]. apply completeness; [done|by apply (Hl t m)|done].
Qed.

End Completeness.
