(* ===== verification/LogSafety.v ===== *)
(** * Raft: the invariant behind the safety of the logs

    What [History.v] asks of logs, votes and acknowledgements, as an invariant
    of the cluster ([safe]), for some history of its leaders' logs; and that a
    step keeps it if it keeps it for the server that takes it ([safe_step]). *)

From S2P Require Import Prelude Binary Store RaftTypes Node Election Logs Replication Append Leader Loops Cluster Runs Candidate Moves Turns ElectionSafety Committed History.

Section LogSafety.
Context {L S F R : Type} `{!LogStore L} `{!StableStore S} `{!FSM F R}.
Context `{!LogStoreLaws L} `{!LogStoreTruncates L} `{!StableStoreLaws S}.
Abbreviation Node := (RaftNode L S F R).
Abbreviation Server := (server (L := L) (S := S) (F := F) (R := R)).
Abbreviation Cluster := (cluster (L := L) (S := S) (F := F) (R := R)).
Context (members : list PeerConfig) (f0 : F).
Implicit Types (r : Node) (s : Server) (c : Cluster) (id v : bytes) (t m : Z) (h : history).

Abbreviation ids := (map pc_ID members).

(** ** Specification *)

Definition led c t : Prop := exists x, (t, x) ∈ elected c.

(** A call was answered with success. *)
Definition accepted (k : append_call) : bool :=
  match ac_resp k with Some resp => ar_Success resp | None => false end.

(** The last index a request speaks about. *)
Definition upto (req : AppendEntriesRequest) : Z := ae_PrevLogIndex req + len (ae_Entries req).

(** [v] has acknowledged the first [m] entries of the leader of term [t]: it
    accepted them, or is the leader. *)
Inductive acked h c v t m : Prop :=
| acked_call k : k ∈ append_calls c -> accepted k = true -> ac_to k = v -> ae_Term (ac_req k) = t ->
    0 <= m <= upto (ac_req k) -> acked h c v t m
| acked_self : (t, v) ∈ elected c -> 0 <= m <= len (h t) -> acked h c v t m.

Abbreviation Committed h c := (committed ids h (acked h c)).

(** The records of a leader's peers: one for every other server, and what is
    in them has been acknowledged. *)
Record matches_ok h c r : Prop := {
  mo_record : forall v loc, peers r !! v = Some loc -> v <> ServerID (config r) /\ v ∈ ids /\
    exists p, heap r !! loc = Some p /\ server_at members (ps_addr p) = Some v /\
      (0 < matchIndex p -> acked h c v (currentTerm r) (matchIndex p));
  mo_all : forall v, v ∈ ids -> v <> ServerID (config r) -> is_Some (peers r !! v)
}.

(** A new leader has the records of an earlier leadership until it takes
    office, and no entries of its own. *)
Definition peers_safe h c s (l : list LogEntry) : Prop :=
  let r := sv_node s in
  matches_ok h c r \/
  sv_pos s <> Announcing /\ sv_pos s <> Leading /\ forall i, term_at l i <> Some (currentTerm r).

Definition campaign_safe c id s (l : list LogEntry) : Prop :=
  forall t n, sv_pos s = Campaigning t n -> 1 <= t /\ ~ (t, id) ∈ elected c /\
    forall k, k ∈ vote_calls c -> vc_from k = id -> rv_Term (vc_req k) = t ->
      last_info l = (rv_LastLogIndex (vc_req k), rv_LastLogTerm (vc_req k)).

Record server_safe h c id s (l : list LogEntry) : Prop := {
  ss_log : log_repr (logStore (sv_node s)) l;
  ss_recorded : recorded h (currentTerm (sv_node s)) l;
  ss_leader : state (sv_node s) = Leader -> l = h (currentTerm (sv_node s));
  ss_bound : 0 <= commitIndex (sv_node s) <= len l;
  ss_commit : Committed h c (currentTerm (sv_node s)) l (commitIndex (sv_node s));
  ss_acked : forall t m, acked h c id t m -> t <= currentTerm (sv_node s) /\ m <= len (h t) /\
    held h (led c) (currentTerm (sv_node s)) l t m;
  ss_campaign : campaign_safe c id s l;
  ss_peers : state (sv_node s) = Leader -> peers_safe h c s l;
  ss_applied : fsm_applied f0 (sv_node s) l;
  ss_order : lastApplied (sv_node s) <= commitIndex (sv_node s)
}.

(** A vote was given to a log that is not behind what the voter had
    acknowledged. *)
Definition vote_safe h c (k : vote_call) : Prop :=
  grant k = true -> forall t m, acked h c (vc_to k) t m -> t < rv_Term (vc_req k) ->
    term_at (h t) m = Some t ->
    up_to_date (rv_LastLogIndex (vc_req k), rv_LastLogTerm (vc_req k)) (m, t) \/
    overtaken h (led c) t m (rv_Term (vc_req k)).

(** A request is cut from the log of its term's leader, or starts after its
    end and is not accepted. *)
Record append_safe h c (k : append_call) : Prop := {
  as_cut :
    from_leader (h (ae_Term (ac_req k))) (ac_req k) /\
      ae_PrevLogIndex (ac_req k) <= len (h (ae_Term (ac_req k))) /\
      ae_LeaderCommit (ac_req k) <= upto (ac_req k) \/
    0 < ae_PrevLogIndex (ac_req k) /\ ae_PrevLogTerm (ac_req k) = 0 /\ accepted k = false;
  as_commit : Committed h c (ae_Term (ac_req k)) (h (ae_Term (ac_req k))) (ae_LeaderCommit (ac_req k));
  as_nonneg : 0 <= ae_LeaderCommit (ac_req k)
}.

(** The record a replicator works for is the receiver's. *)
Definition call_at c (k : append_call) : Prop :=
  ac_taken k = false -> exists s p, servers c !! ac_from k = Some s /\
    heap (sv_node s) !! ac_peer k = Some p /\ server_at members (ps_addr p) = Some (ac_to k).

(** A majority stood behind the election, and what each of it had
    acknowledged is in the leader's log. *)
Definition won h c t : Prop :=
  quorum ids (fun v =>
    (exists s, servers c !! v = Some s /\ t <= currentTerm (sv_node s)) /\
    forall u m, acked h c v u m -> u < t -> term_at (h u) m = Some u ->
      held h (led c) (t - 1) (h t) u m).

Record safe h c : Prop := {
  sa_sound : sound h;
  sa_led : forall t, h t <> [] -> led c t;
  sa_terms : forall t, led c t -> 1 <= t;
  sa_servers : forall id s, servers c !! id = Some s -> exists l, server_safe h c id s l;
  sa_votes : forall k, k ∈ vote_calls c -> vote_safe h c k;
  sa_appends : forall k, k ∈ append_calls c -> append_safe h c k;
  sa_calls : forall k, k ∈ append_calls c -> call_at c k;
  sa_won : forall t, led c t -> won h c t
}.

(** The invariant after a step, with all that was committed still so. *)
Definition next h c h' c' : Prop :=
  safe h' c' /\ forall T l n, Committed h c T l n -> Committed h' c' T l n.

(** ** Lemmas *)

Lemma next_refl h c : safe h c -> next h c h c.
Proof. by split. Qed.

Lemma cut_bound (l : list LogEntry) req :
  from_leader l req -> ae_PrevLogIndex req <= len l -> req_ok req -> upto req <= len l.
Proof.
  intros [E _] Hp Hreq. apply (f_equal length) in E. pose proof (rq_prev _ Hreq).
  rewrite length_take, length_drop in E. unfold upto, len in *. lia.
Qed.

Lemma cut_grows (l l' : list LogEntry) req :
  from_leader l req -> ae_PrevLogIndex req <= len l -> req_ok req -> l `prefix_of` l' -> from_leader l' req.
Proof.
  intros Hc Hp Hreq [k ->]. pose proof (cut_bound _ _ Hc Hp Hreq) as Hb. destruct Hc as [E Ht].
  pose proof (rq_prev _ Hreq). split.
  - rewrite drop_app_le by (unfold len in *; lia). rewrite take_app_le; [done|].
    rewrite length_drop. unfold upto, len in *. lia.
  - intros H0. rewrite <-(Ht H0). apply (agree_term (ae_PrevLogIndex req)); [|done].
    apply agree_prefix; [by apply prefix_app_r|done].
Qed.

(** Majorities counted from the records of a leader. *)
Lemma replicated_records (f : nat -> Z) (kvs : list (bytes * nat)) n :
  replicated (map f kvs.*2) n = length (filter (fun kv => n <= f kv.2) kvs).
Proof.
  unfold replicated. induction kvs as [|[k x] kvs IH]; [done|]. simpl.
  rewrite !filter_cons. simpl. case_decide; simpl; [f_equal|]; exact IH.
Qed.

Lemma matches_quorum h c r (l : list LogEntry) n :
  NoDup ids -> ServerID (config r) ∈ ids -> matches_ok h c r ->
  quorum_index (len l :: matchIndexes r) n -> 0 < n <= len l ->
  acked h c (ServerID (config r)) (currentTerm r) n ->
  quorum ids (fun v => acked h c v (currentTerm r) n).
Proof.
  intros Hnd Hself Hm [Hq _] Hn Hown. set (self := ServerID (config r)) in *.
  set (f := fun loc => from_option matchIndex 0 (heap r !! loc)).
  set (kvs := map_to_list (peers r)). set (kept := filter (fun kv : bytes * nat => n <= f kv.2) kvs).
  assert (length (self :: kvs.*1) >= length ids)%nat as Hall.
  { apply submseteq_length, NoDup_submseteq; [done|]. intros v Hv.
    destruct (decide (v = self)) as [->|Hne]; [left|right].
    destruct (mo_all _ _ _ Hm v Hv Hne) as [loc Hl]. apply list_elem_of_fmap.
    exists (v, loc). split; [done|]. by apply elem_of_map_to_list. }
  assert (forall kv, kv ∈ kept -> n <= f kv.2 /\ peers r !! kv.1 = Some kv.2) as Hk.
  { intros [v loc] [Hf Hin]%list_elem_of_filter. split; [done|]. by apply elem_of_map_to_list in Hin. }
  exists (self :: kept.*1). split_and!.
  - constructor.
    + intros ([v loc] & E & Hin)%list_elem_of_fmap. simpl in E. subst v.
      destruct (Hk _ Hin) as [_ Hp]. simpl in Hp. by destruct (mo_record _ _ _ Hm _ _ Hp).
    + apply (sublist_NoDup _ kvs.*1); [apply (NoDup_fst_map_to_list (peers r))|].
      apply fmap_sublist, sublist_filter.
  - intros v [->|([v' loc] & -> & Hin)%list_elem_of_fmap]%elem_of_cons; [done|].
    destruct (Hk _ Hin) as [_ Hp]. by destruct (mo_record _ _ _ Hm _ _ Hp) as (_ & ? & _).
  - change (len l :: matchIndexes r) with ([len l] ++ map f kvs.*2) in Hq.
    rewrite replicated_app, replicated_records, (replicated_all [len l]) in Hq.
    2: { intros x ->%list_elem_of_singleton. lia. }
    fold kept in Hq. rewrite length_app, length_map in Hq. simpl in Hq. unfold len. simpl.
    rewrite !length_map in *. simpl in Hall. rewrite !length_map in Hall. lia.
  - intros v [->|([v' loc] & -> & Hin)%list_elem_of_fmap]%elem_of_cons; [done|].
    destruct (Hk _ Hin) as [Hf Hp]. simpl in *.
    destruct (mo_record _ _ _ Hm _ _ Hp) as (_ & _ & p & Hh & _ & Ha). unfold f in Hf. rewrite Hh in Hf. simpl in Hf.
    destruct Ha as [k ? ? ? ? ?|? ?]; [lia| |].
    + eapply acked_call; [done..|lia].
    + apply acked_self; [done|lia].
Qed.


(** ** Steps *)

(** What a step that server [id] takes does to history, leaders and calls;
    it ends in [s']. *)
Record goes_on h c h' c' id s' : Prop := {
  go_grows : grows (led c) h h';
  go_sound : sound h';
  go_hist : forall t, h' t = h t \/ t = currentTerm (sv_node s') /\ (t, id) ∈ elected c';
  go_elected : forall x, x ∈ elected c -> x ∈ elected c';
  go_new : forall x, x ∈ elected c' -> x ∈ elected c \/ x = (currentTerm (sv_node s'), id);
  go_kept : forall k, k ∈ append_calls c -> accepted k = true ->
    exists k', k' ∈ append_calls c' /\ accepted k' = true /\ ac_to k' = ac_to k /\ ac_req k' = ac_req k;
  go_acks : forall k', k' ∈ append_calls c' -> accepted k' = true ->
    (exists k, k ∈ append_calls c /\ accepted k = true /\ ac_to k' = ac_to k /\ ac_req k' = ac_req k) \/
    ac_to k' = id /\ ae_Term (ac_req k') = currentTerm (sv_node s')
}.

Section Step.
Context (h h' : history) (c c' : Cluster) (id : bytes) (s s' : Server).
Context (Hc' : cluster_ok members c') (Hgo : goes_on h c h' c' id s').

Lemma go_led t : led c t -> led c' t.
Proof. intros [x ?]. exists x. by apply (go_elected _ _ _ _ _ _ Hgo). Qed.

Lemma go_acked v t m : acked h c v t m -> acked h' c' v t m.
Proof.
  intros [k Hk Ha <- <- Hm|He Hm].
  - destruct (go_kept _ _ _ _ _ _ Hgo k Hk Ha) as (k' & ? & ? & Eto & Ereq).
    apply (acked_call _ _ _ _ _ k'); try done; congruence.
  - apply acked_self; [by apply (go_elected _ _ _ _ _ _ Hgo)|].
    pose proof (grows_len _ _ _ (go_grows _ _ _ _ _ _ Hgo) t). lia.
Qed.

(** Only the server that takes the step acknowledges, and in its term. *)
Lemma go_acked_inv v t m :
  acked h' c' v t m -> acked h c v t m \/ v = id /\ t = currentTerm (sv_node s').
Proof.
  intros [k Hk Ha <- <- Hm|He Hm].
  - destruct (go_acks _ _ _ _ _ _ Hgo k Hk Ha) as [(k0 & ? & ? & -> & E)|[? ?]]; [left|by right].
    rewrite E in *. by eapply acked_call.
  - destruct (go_hist _ _ _ _ _ _ Hgo t) as [E|[-> Hid]].
    + destruct (go_new _ _ _ _ _ _ Hgo _ He) as [?|[= -> ->]]; [left|by right].
      apply acked_self; [done|]. by rewrite <-E.
    + right. split; [|done]. by eapply elected_once.
Qed.

Lemma go_chosen t m : chosen ids h (acked h c) t m -> chosen ids h' (acked h' c') t m.
Proof.
  intros [Ht Hq]. split; [by apply (grows_term _ _ _ (go_grows _ _ _ _ _ _ Hgo))|].
  eapply quorum_mono; [|exact Hq]. intros v. apply go_acked.
Qed.

Lemma go_committed T l n : Committed h c T l n -> Committed h' c' T l n.
Proof.
  intros [?|(t & m & HT & Hn & Hch & Ha)]; [by left|right]. exists t, m.
  split_and!; [done|done|by apply go_chosen|]. etrans; [exact Ha|]. symmetry.
  apply (grows_agree _ _ _ (go_grows _ _ _ _ _ _ Hgo)).
  destruct Hch as [Ht _]. apply term_at_Some in Ht. lia.
Qed.

Lemma go_held T l t m : m <= len (h t) -> held h (led c) T l t m -> held h' (led c') T l t m.
Proof.
  apply held_grows; [apply (go_grows _ _ _ _ _ _ Hgo)|intros u; apply go_led|apply (go_sound _ _ _ _ _ _ Hgo)].
Qed.

Lemma go_overtaken T t m : m <= len (h t) -> overtaken h (led c) t m T -> overtaken h' (led c') t m T.
Proof.
  apply overtaken_grows; [apply (go_grows _ _ _ _ _ _ Hgo)|intros u; apply go_led|apply (go_sound _ _ _ _ _ _ Hgo)].
Qed.

(** An index of the old history, by its term. *)
Lemma go_term_inv t m : m <= len (h t) -> term_at (h' t) m = Some t -> term_at (h t) m = Some t.
Proof.
  intros Hm E. rewrite <-E. apply (agree_term m); [|done]. symmetry.
  by apply (grows_agree _ _ _ (go_grows _ _ _ _ _ _ Hgo)).
Qed.

Lemma go_matches r : matches_ok h c r -> matches_ok h' c' r.
Proof.
  intros [Hr Ha]. split; [|done]. intros v loc Hl. destruct (Hr v loc Hl) as (? & ? & p & ? & ? & Hp).
  split_and!; try done. exists p. split_and!; try done. intros Hpos. by apply go_acked, Hp.
Qed.

Context (Hc : cluster_ok members c) (Hsafe : safe h c).
Context (Hs : servers c !! id = Some s) (Hs' : servers c' = <[id := s']> (servers c)).
Context (Hterm : currentTerm (sv_node s) <= currentTerm (sv_node s')).

(** The other servers. *)
Lemma other_safe i u l :
  (forall k, k ∈ vote_calls c' ->
     (exists k0, k0 ∈ vote_calls c /\ vc_from k = vc_from k0 /\ vc_req k = vc_req k0) \/ vc_from k = id) ->
  i <> id -> servers c !! i = Some u -> server_safe h c i u l -> server_safe h' c' i u l.
Proof.
  intros Hv Hne Hu [H1 H2 H3 H4 H5 H6 H7 H8 H9 H10]. split; try done.
  - by apply (recorded_grows _ _ _ (go_grows _ _ _ _ _ _ Hgo)).
  - intros Hl. destruct (go_hist _ _ _ _ _ _ Hgo (currentTerm (sv_node u))) as [->|[_ Hid]]; [auto|].
    destruct Hne. apply (elected_once members c' (currentTerm (sv_node u))); [done| |exact Hid].
    apply (go_elected _ _ _ _ _ _ Hgo). by apply (co_leader _ _ Hc).
  - by apply go_committed.
  - intros t m Ha. destruct (go_acked_inv _ _ _ Ha) as [Ha0|[? _]]; [|done].
    destruct (H6 _ _ Ha0) as (? & Hm & Hh). split; [done|].
    pose proof (grows_len _ _ _ (go_grows _ _ _ _ _ _ Hgo) t). split; [lia|by apply go_held].
  - intros t n Hp. destruct (H7 _ _ Hp) as (H1t & Hn & Hk). split; [done|]. split.
    + intros Hx. destruct (go_new _ _ _ _ _ _ Hgo _ Hx) as [?|[= _ ?]]; done.
    + intros k Hin Hf Ht. destruct (Hv k Hin) as [(k0 & Hin0 & E1 & E2)|E]; [|congruence].
      rewrite E1, E2 in *. by apply Hk.
  - intros Hl. destruct (H8 Hl) as [Hm|?]; [left; by apply go_matches|by right].
Qed.

(** Votes given before. *)
Lemma old_vote_safe k k0 :
  k0 ∈ vote_calls c -> vc_from k = vc_from k0 -> vc_to k = vc_to k0 -> vc_req k = vc_req k0 ->
  (grant k = true -> grant k0 = true) -> vote_safe h' c' k.
Proof.
  intros Hin E1 E2 E3 Hg Hgk t m Ha Ht Hm. specialize (Hg Hgk). rewrite E2, E3 in *.
  destruct (go_acked_inv _ _ _ Ha) as [Ha0|[Ev Et]].
  - assert (m <= len (h t)) as Hlen.
    { destruct (co_voted _ _ Hc (vc_to k0) (rv_Term (vc_req k0)) (vc_from k0)) as (_ & u & Hu & _).
      - apply voted_call. by exists k0.
      - destruct (sa_servers _ _ Hsafe _ _ Hu) as [l Hl]. by destruct (ss_acked _ _ _ _ _ Hl _ _ Ha0) as (_ & ? & _). }
    destruct (sa_votes _ _ Hsafe k0 Hin Hg t m Ha0 Ht) as [?|Ho]; [by apply go_term_inv|by left|right].
    by apply go_overtaken.
  - destruct (co_voted _ _ Hc (vc_to k0) (rv_Term (vc_req k0)) (vc_from k0)) as (_ & u & Hu & Hle & _).
    { apply voted_call. by exists k0. }
    rewrite Ev, Hs in Hu. injection Hu as <-. lia.
Qed.

(** Requests sent before. *)
Lemma old_append_safe k k0 :
  k0 ∈ append_calls c -> ac_req k = ac_req k0 -> (accepted k = true -> accepted k0 = true) ->
  append_safe h' c' k.
Proof.
  intros Hin E Hacc. destruct (sa_appends _ _ Hsafe k0 Hin) as [Hcut Hcom Hnn].
  pose proof (co_appends _ _ Hc k0 Hin) as Hok. pose proof (ak_req _ _ Hok) as Hreq.
  pose proof (gr_prefix _ _ _ (go_grows _ _ _ _ _ _ Hgo)) as Hpre.
  split; rewrite E; [|..|done].
  - destruct Hcut as [(Hf & Hp & Hlc)|(? & ? & Hn)]; [left|right].
    + split; [by eapply cut_grows|]. split; [|done].
      pose proof (grows_len _ _ _ (go_grows _ _ _ _ _ _ Hgo) (ae_Term (ac_req k0))). lia.
    + split_and!; try done. destruct (accepted k); [by rewrite Hacc in Hn|done].
  - apply (committed_agree' _ _ _ _ (h (ae_Term (ac_req k0)))); [by apply go_committed|].
    destruct Hcut as [(Hf & Hp & Hlc)|(? & ? & _)].
    + apply agree_prefix; [done|]. pose proof (cut_bound _ _ Hf Hp Hreq). lia.
    + destruct Hcom as [->|(t & m & _ & Hn & [Ht _] & Ha)]; [by apply agree_zero|].
      apply agree_prefix; [done|]. apply (agree_len _ (h t)); [done|]. apply term_at_Some in Ht. lia.
Qed.

(** Elections won before. *)
Lemma old_won t : led c t -> won h' c' t.
Proof.
  intros Hl. pose proof (sa_won _ _ Hsafe t Hl) as Hw. eapply quorum_mono; [|exact Hw]. clear Hw.
  intros v ((u & Hu & Hle) & Hv). split.
  - rewrite Hs'. destruct (decide (v = id)) as [->|Hne].
    + exists s'. rewrite lookup_insert_eq. split; [done|]. rewrite Hs in Hu. injection Hu as <-. lia.
    + exists u. by rewrite lookup_insert_ne.
  - intros w m Ha Hw Hm. destruct (go_acked_inv _ _ _ Ha) as [Ha0|[-> ->]].
    2: { rewrite Hs in Hu. injection Hu as <-. lia. }
    destruct (sa_servers _ _ Hsafe _ _ Hu) as [l Hsl].
    destruct (ss_acked _ _ _ _ _ Hsl _ _ Ha0) as (_ & Hlen & _).
    pose proof (go_term_inv _ _ Hlen Hm) as Hm0.
    apply go_held; [done|]. destruct (Hv w m Ha0 Hw Hm0) as [Hag|Ho]; [left|by right].
    etrans; [|exact Hag]. apply agree_prefix; [apply (go_grows _ _ _ _ _ _ Hgo)|].
    by apply (agree_len m (h w)).
Qed.

(** A step keeps the invariant if it keeps it for the server that takes it,
    and for the votes, requests and elections it adds. *)
Lemma safe_step l' :
  server_safe h' c' id s' l' ->
  (forall k, k ∈ vote_calls c' ->
     ((exists k0, k0 ∈ vote_calls c /\ vc_from k = vc_from k0 /\ vc_req k = vc_req k0) \/ vc_from k = id) /\
     ((exists k0, k0 ∈ vote_calls c /\ vc_from k = vc_from k0 /\ vc_to k = vc_to k0 /\ vc_req k = vc_req k0 /\
         (grant k = true -> grant k0 = true)) \/ vote_safe h' c' k)) ->
  (forall k, k ∈ append_calls c' ->
     (exists k0, k0 ∈ append_calls c /\ ac_req k = ac_req k0 /\ (accepted k = true -> accepted k0 = true)) \/
     append_safe h' c' k) ->
  (forall k, k ∈ append_calls c' -> call_at c' k) ->
  (led c (currentTerm (sv_node s')) \/ (currentTerm (sv_node s'), id) ∉ elected c' \/
   1 <= currentTerm (sv_node s') /\ won h' c' (currentTerm (sv_node s'))) ->
  next h c h' c'.
Proof.
  intros Hl' Hv Ha Hcall Hw. split; [|intros T l n; apply go_committed]. split.
  - apply (go_sound _ _ _ _ _ _ Hgo).
  - intros t Ht. destruct (go_hist _ _ _ _ _ _ Hgo t) as [E|[-> Hid]]; [|by eexists].
    apply go_led, (sa_led _ _ Hsafe). congruence.
  - intros t [x Hx]. destruct (go_new _ _ _ _ _ _ Hgo _ Hx) as [Hx0|[= -> ->]]; [by apply (sa_terms _ _ Hsafe); exists x|].
    destruct Hw as [?|[?|[? _]]]; [by apply (sa_terms _ _ Hsafe)|done|done].
  - intros i u Hu. rewrite Hs' in Hu. apply lookup_insert_Some in Hu as [[<- <-]|[Hne Hu]]; [by exists l'|].
    destruct (sa_servers _ _ Hsafe _ _ Hu) as [l Hl]. exists l. apply other_safe; try done. intros k Hk. by apply Hv.
  - intros k Hk. destruct (proj2 (Hv k Hk)) as [(k0 & ? & ? & ? & ? & ?)|?]; [by eapply old_vote_safe|done].
  - intros k Hk. destruct (Ha k Hk) as [(k0 & ? & ? & ?)|?]; [by eapply old_append_safe|done].
  - done.
  - intros t [x Hx]. destruct (go_new _ _ _ _ _ _ Hgo _ Hx) as [Hx0|[= -> ->]]; [apply old_won; by exists x|].
    destruct Hw as [?|[?|[_ ?]]]; [by apply old_won|done|done].
Qed.

End Step.
End LogSafety.

#[export] Hint Extern 0 (next _ _ _ _ _ _) => (apply next_refl; assumption) : core.
