(* ===== verification/LogSteps.v ===== *)
(** * Raft: steps that leave the logs alone

    What the operations of a node do to its log, its indexes and its records
    of peers; and that an event that does nothing to them ([quiet]) keeps the
    invariant of [LogSafety.v]: timeouts, votes, clients, late answers,
    crashes. *)

From S2P Require Import Prelude Binary Store RaftTypes Node Election Logs Replication Append Leader Loops Cluster Runs Candidate Moves Turns ElectionSafety Committed History LogSafety.

Section LogSteps.
Context {L S F R : Type} `{!LogStore L} `{!StableStore S} `{!FSM F R}.
Context `{!LogStoreLaws L} `{!LogStoreTruncates L} `{!StableStoreLaws S}.
Abbreviation Node := (RaftNode L S F R).
Abbreviation Server := (server (L := L) (S := S) (F := F) (R := R)).
Abbreviation Cluster := (cluster (L := L) (S := S) (F := F) (R := R)).
Context (members : list PeerConfig) (f0 : F).
Implicit Types (r : Node) (s : Server) (c : Cluster) (id v : bytes) (t m : Z) (h : history).

Abbreviation ids := (map pc_ID members).
Abbreviation server_ok := (server_ok members).
Abbreviation cluster_ok := (cluster_ok members).
Abbreviation safe := (safe members f0).
Abbreviation next := (next members f0).
Abbreviation server_safe := (server_safe members f0).

(** ** Specification *)

(** The records of peers stay, except for what is sent next. *)
Definition records_kept r r' : Prop :=
  peers r' = peers r /\
  forall loc p, heap r !! loc = Some p ->
    exists p', heap r' !! loc = Some p' /\ ps_addr p' = ps_addr p /\ matchIndex p' = matchIndex p.

Record unmoved r r' : Prop := {
  un_log : forall l, log_repr (logStore r) l -> log_repr (logStore r') l;
  un_commit : commitIndex r' = commitIndex r;
  un_applied : lastApplied r' = lastApplied r;
  un_fsm : fsm r' = fsm r;
  un_records : records_kept r r'
}.

(** The server enters no campaign and no leadership. *)
Record settles s s' : Prop := {
  se_pos : forall t n, sv_pos s' = Campaigning t n -> exists n0, sv_pos s = Campaigning t n0;
  se_term : currentTerm (sv_node s) <= currentTerm (sv_node s');
  se_leader : state (sv_node s') = Leader ->
    state (sv_node s) = Leader /\ currentTerm (sv_node s') = currentTerm (sv_node s)
}.

Record quiet s s' : Prop := {
  qu_node : unmoved (sv_node s) (sv_node s');
  qu_stays : settles s s';
  qu_pos : sv_pos s' = Announcing \/ sv_pos s' = Leading -> sv_pos s = Announcing \/ sv_pos s = Leading
}.

(** ** Nodes *)

Lemma records_refl r : records_kept r r.
Proof. split; [done|]. eauto. Qed.

Lemma records_same r r' : peers r' = peers r -> heap r' = heap r -> records_kept r r'.
Proof. intros E1 E2. split; [done|]. rewrite E2. eauto. Qed.

Lemma records_trans r1 r2 r3 : records_kept r1 r2 -> records_kept r2 r3 -> records_kept r1 r3.
Proof.
  intros [E1 H1] [E2 H2]. split; [congruence|]. intros loc p Hp.
  destruct (H1 _ _ Hp) as (p2 & Hp2 & ? & ?). destruct (H2 _ _ Hp2) as (p3 & Hp3 & ? & ?).
  exists p3. split_and!; done || congruence.
Qed.

Lemma unmoved_refl r : unmoved r r.
Proof. split; try done. apply records_refl. Qed.

Lemma unmoved_trans r1 r2 r3 : unmoved r1 r2 -> unmoved r2 r3 -> unmoved r1 r3.
Proof. intros [] []. split; try congruence; [auto|by eapply records_trans]. Qed.

Lemma unmoved_rest r r' : same_rest r r' -> unmoved r r'.
Proof. intros (_ & E & ? & ? & ? & ? & ? & _). split; try done; [by rewrite E|by apply records_same]. Qed.

Lemma fail_unmoved r : unmoved r (failPendingFutures r).
Proof. split; try done. by apply records_same. Qed.

Lemma stepDown_unmoved r l t r' : node_ok r l -> is_uint64 t -> stepDown r t = Ok r' -> unmoved r r'.
Proof.
  intros Hok Ht E. destruct (stepDown_ok r l t Hok Ht) as (r1 & E1 & _ & Hsr & _).
  rewrite E in E1. injection E1 as <-. by apply unmoved_rest.
Qed.

Lemma becomeLeader_unmoved r : unmoved r (becomeLeader r).
Proof. split; try done. by apply records_same. Qed.

Lemma set_peer_records r peer p next b :
  heap r !! peer = Some p ->
  records_kept r (set_peer r peer (mkPeerState (ps_id p) (ps_addr p) next (matchIndex p) b)).
Proof.
  intros Hp. split; [done|]. intros loc q Hq. simpl. destruct (decide (loc = peer)) as [->|Hne].
  - rewrite list_lookup_insert_eq by (by eapply lookup_lt_Some). eexists. split; [done|]. simpl. by simplify_eq.
  - rewrite list_lookup_insert_ne by done. eauto.
Qed.

Lemma trigger_records r : records_kept r (triggerReplication r).
Proof.
  split; [done|]. intros loc p Hp. simpl. destruct (trigger_lookup (heap r) (peers r) loc p Hp) as (p' & E & Em & _).
  exists p'. split; [done|]. split; [|done].
  destruct (trigger_heap _ _ _ _ E) as (q & Hq & -> & _). congruence.
Qed.

(** A late answer that does not count. *)
Lemma refused_unmoved r l peer es resp r' :
  node_ok r l -> is_uint64 (ar_Term resp) ->
  ar_Success resp = false \/ currentTerm r < ar_Term resp ->
  replicate_response r peer es (Some resp) = Ok r' -> unmoved r r'.
Proof.
  intros Hok Ht Hf E. destruct (Z.lt_ge_cases (currentTerm r) (ar_Term resp)) as [Hlt|Hge].
  { unfold replicate_response in E. rewrite (proj2 (Z.ltb_lt _ _)) in E by done. by eapply stepDown_unmoved. }
  destruct Hf as [Hf|?]; [|lia]. destruct (heap r !! peer) as [p|] eqn:Hp.
  2: { unfold replicate_response in E. by rewrite (proj2 (Z.ltb_ge _ _)), Hp in E by done. }
  destruct (refused_spec r l peer p es resp Hok Hp Hge Hf) as (next & E' & _). rewrite E in E'. injection E' as ->.
  split; try done. by apply set_peer_records.
Qed.

(** ** Servers *)

Lemma vote_stays_settles r r' : vote_stays r r' ->
  currentTerm r <= currentTerm r' /\ (state r' = Leader -> state r = Leader /\ currentTerm r' = currentTerm r).
Proof. intros [[? ?]|(-> & _ & ?)]; split; auto; done || lia. Qed.

Lemma stays_settles s s' : stays s s' -> settles s s'.
Proof.
  intros [Hp Hv]. destruct (vote_stays_settles _ _ Hv) as [? ?]. split; try done.
  intros t n Hn. exists n. auto.
Qed.

Lemma quiet_refl s : quiet s s.
Proof. split; [apply unmoved_refl|apply stays_settles, stays_refl|done]. Qed.

Lemma quiet_unmoved s r' p :
  unmoved (sv_node s) r' -> stays s (mkSv r' p) -> (p = Announcing \/ p = Leading -> sv_pos s = Announcing \/ sv_pos s = Leading) ->
  quiet s (mkSv r' p).
Proof. intros ? ?%stays_settles ?. by split. Qed.

(** What is kept for the server itself. *)
Lemma quiet_server h c c' id s s' l :
  server_safe h c id s l -> quiet s s' -> server_ok id s -> server_ok id s' ->
  goes_on h c h c' id s' -> elected c' = elected c ->
  (forall t m, acked h c' id t m -> acked h c id t m) ->
  (forall k, k ∈ vote_calls c' -> exists k0, k0 ∈ vote_calls c /\ vc_from k = vc_from k0 /\ vc_req k = vc_req k0) ->
  server_safe h c' id s' l.
Proof.
  intros [H1 H2 H3 H4 H5 H6 H7 H8 H9 H10] [[E1 E2 E3 E4 [E5 E6]] [Hp Hterm Hlead] Hpos] Hok Hok' Hgo Hel Hack Hv. split.
  - by apply E1.
  - by eapply recorded_mono.
  - intros Hl. destruct (Hlead Hl) as [? ->]. auto.
  - by rewrite E2.
  - rewrite E2. eapply committed_mono; [|exact Hterm]. by eapply go_committed.
  - intros t m Ha. destruct (H6 t m (Hack t m Ha)) as (? & ? & ?). split; [lia|]. split; [done|].
    eapply held_mono; [|exact Hterm]. by eapply go_held.
  - intros t n Hn. destruct (Hp t n Hn) as [n0 Hn0]. destruct (H7 t n0 Hn0) as (? & ? & Hk). rewrite Hel.
    split; [done|]. split; [done|].
    intros k Hin Hf Ht. destruct (Hv k Hin) as (k0 & Hin0 & F1 & F2). rewrite F1, F2 in *. by apply Hk.
  - intros Hl. destruct (Hlead Hl) as [Hl' Et]. destruct (H8 Hl') as [Hm|(? & ? & ?)].
    + left. destruct Hm as [Hr Ha]. assert (ServerID (config (sv_node s')) = ServerID (config (sv_node s))) as Ei.
      { rewrite (so_id _ _ _ Hok), (so_id _ _ _ Hok'). done. }
      split; rewrite Ei, E5; [|done]. intros v loc Hloc. destruct (Hr v loc Hloc) as (? & ? & p & Hh & Haddr & Hm).
      split_and!; try done. destruct (E6 _ _ Hh) as (p' & ? & Ea & Em). exists p'. rewrite Ea, Em. split_and!; try done.
      intros Hpm. rewrite Et. by eapply go_acked, Hm.
    + right. rewrite Et. split_and!; try done; intros Hx; by destruct Hpos; [rewrite Hx; auto|..].
  - unfold fsm_applied in *. by rewrite E3, E4.
  - by rewrite E2, E3.
Qed.

Lemma acked_calls h c c' v t m :
  elected c' = elected c ->
  (forall k, k ∈ append_calls c' -> accepted k = true ->
     exists k0, k0 ∈ append_calls c /\ accepted k0 = true /\ ac_to k = ac_to k0 /\ ac_req k = ac_req k0) ->
  acked h c' v t m -> acked h c v t m.
Proof.
  intros Hel Hk [k Hin Ha <- <- Hm|He Hm].
  - destruct (Hk k Hin Ha) as (k0 & ? & ? & -> & E). rewrite E in *. by eapply acked_call.
  - apply acked_self; [by rewrite <-Hel|done].
Qed.

(** What happens to a call while the logs stay: nothing, or an answer that
    is not an acceptance, or it is taken. *)
Definition same_call (k k0 : append_call) : Prop :=
  ac_from k = ac_from k0 /\ ac_to k = ac_to k0 /\ ac_peer k = ac_peer k0 /\ ac_req k = ac_req k0 /\
  accepted k = accepted k0 /\ (ac_taken k = false -> ac_taken k0 = false).

Lemma quiet_safe h c id s s' vs as' :
  let c' := mkCluster (<[id := s']> (servers c)) vs as' (elected c) in
  cluster_ok c -> cluster_ok c' -> safe h c -> servers c !! id = Some s -> quiet s s' ->
  (forall k, k ∈ vs -> exists k0, k0 ∈ vote_calls c /\ vc_from k = vc_from k0 /\ vc_req k = vc_req k0 /\
     (vc_to k = vc_to k0 /\ (grant k = true -> grant k0 = true) \/ vote_safe h c' k)) ->
  (forall k, k ∈ as' -> exists k0, k0 ∈ append_calls c /\ same_call k k0) ->
  (forall k0, k0 ∈ append_calls c -> exists k, k ∈ as' /\ same_call k k0) ->
  next h c h c'.
Proof.
  intros c' Hc Hc' Hsafe Hs Hq Hvs Has Has'.
  destruct (sa_servers _ _ _ _ Hsafe _ _ Hs) as [l Hl].
  destruct (co_servers _ _ Hc _ _ Hs) as [_ Hok].
  destruct (co_servers _ _ Hc' id s') as [_ Hok']; [simpl; apply lookup_insert_eq|].
  assert (goes_on h c h c' id s') as Hgo.
  { split; try done; auto.
    - apply grows_refl.
    - apply Hsafe.
    - intros k Hk Ha. destruct (Has' k Hk) as (k' & ? & _ & ? & _ & ? & ? & _). exists k'. split_and!; done || congruence.
    - intros k Hk Ha. left. destruct (Has k Hk) as (k0 & ? & _ & Eto & _ & Er & Ea & _). exists k0. split_and!; done || congruence. }
  pose proof (se_term _ _ (qu_stays _ _ Hq)) as Hterm.
  eapply (safe_step members f0 h h c c' id s s' Hc' Hgo Hc Hsafe Hs); try done.
  - eapply quiet_server; try done.
    + intros t m. apply acked_calls; [done|]. intros k Hk Ha.
      destruct (Has k Hk) as (k0 & ? & _ & ? & _ & ? & ? & _). exists k0. split_and!; done || congruence.
    + intros k Hk. destruct (Hvs k Hk) as (k0 & ? & ? & ? & _). by exists k0.
  - intros k Hk. destruct (Hvs k Hk) as (k0 & ? & ? & ? & Hg). split; [left; by exists k0|].
    destruct Hg as [[? ?]|?]; [left|by right]. by exists k0.
  - intros k Hk. left. destruct (Has k Hk) as (k0 & ? & _ & ? & _ & ? & Ea & _). exists k0. split_and!; done || congruence.
  - intros k Hk Ht. destruct (Has k Hk) as (k0 & Hk0 & Ef & Et & Ep & _ & _ & Htk).
    destruct (sa_calls _ _ _ _ Hsafe k0 Hk0 (Htk Ht)) as (u & p & Hu & Hp & Hat). rewrite Ef, Ep, Et.
    destruct (decide (ac_from k0 = id)) as [Eid|Hne]; [rewrite Eid in *|].
    + rewrite Hs in Hu. injection Hu as <-. destruct (un_records _ _ (qu_node _ _ Hq)) as [_ Hrec].
      destruct (Hrec _ _ Hp) as (p' & ? & Ea & _). exists s', p'. simpl. rewrite lookup_insert_eq, Ea. done.
    + exists u, p. simpl. by rewrite lookup_insert_ne.
  - destruct (decide ((currentTerm (sv_node s'), id) ∈ elected c)); [left; by eexists|by right; left].
Qed.

(** ** Events of one server *)

Lemma same_call_refl k : same_call k k.
Proof. by split_and!. Qed.

Lemma at_server_safe h c id f c' :
  cluster_ok c -> cluster_ok c' -> safe h c ->
  (forall s s', servers c !! id = Some s -> f s = Ok s' -> quiet s s') ->
  at_server c id f = Ok c' -> next h c h c'.
Proof.
  intros Hc Hc' Hsafe Hf. unfold at_server. destruct (servers c !! id) as [s|] eqn:Hs; [|by intros [= <-]].
  intros (s' & E & [= <-])%obind_Ok. apply (quiet_safe h c id s); try done; [by apply Hf|..].
  - intros k Hk. exists k. split_and!; try done. by left.
  - intros k Hk. exists k. split; [done|apply same_call_refl].
  - intros k Hk. exists k. split; [done|apply same_call_refl].
Qed.

Lemma quiet_pos s p : stays s (mkSv (sv_node s) p) -> (p = Announcing \/ p = Leading -> sv_pos s = Announcing \/ sv_pos s = Leading) ->
  quiet s (mkSv (sv_node s) p).
Proof. intros. by apply quiet_unmoved; [apply unmoved_refl|..]. Qed.

Lemma dispatch_quiet id s : server_ok id s -> quiet s (dispatch s).
Proof.
  intros Hok. destruct (dispatch_calm members id s Hok) as [_ Hst].
  destruct s as [r []]; unfold dispatch in *; simpl in *; try apply quiet_refl.
  apply (quiet_pos (mkSv r AtRun)); [done|]. simpl. destruct (shutdownCh r), (state r); by intros [|].
Qed.

Lemma timeout_quiet id s s' : server_ok id s -> timeout s = Ok s' -> quiet s s'.
Proof.
  intros Hok E. destruct (timeout_calm members id s s' Hok E) as [_ Hst]. pose proof (so_role _ _ _ Hok) as Hr.
  destruct s as [r pos]. unfold timeout, role_ok in *. simpl in *.
  destruct pos as [| | |t n| | | |]; try (injection E as <-; apply quiet_refl).
  - rewrite bool_decide_true in E by done. injection E as <-. unfold after in *. simpl in *.
    split; [split; try done; by apply records_same|by apply stays_settles|by intros [|]].
  - injection E as <-. apply (quiet_pos (mkSv r _)); [done|by intros [|]].
Qed.

Lemma stop_quiet id s s' : server_ok id s -> stop s = Ok s' -> quiet s s'.
Proof.
  intros Hok E. destruct (stop_calm members id s s' Hok E) as [_ Hst]. pose proof (so_role _ _ _ Hok) as Hr.
  destruct s as [r pos]. unfold stop, role_ok in *. simpl in *.
  destruct (negb (shutdownCh r)); [injection E as <-; apply quiet_refl|].
  destruct pos as [| | |t n| | | |]; try (injection E as <-; apply quiet_refl).
  - rewrite bool_decide_true in E by done. injection E as <-.
    apply (quiet_pos (mkSv r _)); [done|by intros [|]].
  - injection E as <-. apply (quiet_pos (mkSv r _)); [done|by intros [|]].
  - injection E as <-. apply quiet_unmoved; [apply fail_unmoved|done|by intros [|]].
Qed.

Lemma closed_quiet id s t n x :
  server_ok id s -> sv_pos s = Campaigning t n ->
  candidate_select (sv_node s) n (quorum_of (sv_node s)) [CeVotesClosed] = Ok x ->
  quiet s (after x (Campaigning t n)).
Proof.
  intros Hok Hp E. destruct (closed_calm members id s t n x Hok Hp E) as [_ Hst]. simpl in E.
  case_bool_decide; injection E as <-; unfold after in *; simpl in *;
    (apply quiet_pos; [done|by intros [|]]).
Qed.

(** The node moves on its own. *)
Lemma quiet_node id s r' :
  server_ok id s -> unmoved (sv_node s) r' -> moved (sv_node s) r' ->
  (forall t n, sv_pos s = Campaigning t n -> currentTerm r' = currentTerm (sv_node s)) ->
  quiet s (mkSv r' (sv_pos s)).
Proof. intros Hok Hu Hm Ht. apply quiet_unmoved; [done|by apply stays_moved|done]. Qed.

Lemma client_unmoved r data x : unmoved r (Apply r data x).1.
Proof. split; unfold Apply; destruct (negb _), x; try done; by apply records_same. Qed.

Lemma watch_unmoved r fut b : unmoved r (apply_watch r fut b).
Proof. split; try done. by apply records_same. Qed.

Lemma Shutdown_unmoved r : unmoved r (Shutdown r).
Proof. unfold Shutdown. destruct (shutdownCh r); [apply unmoved_refl|split; try done; by apply records_same]. Qed.

(** ** Votes *)

Lemma rpc_pos_quiet s r1 s' :
  match sv_pos s with
  | Following => s' = mkSv r1 (if decide (state r1 = Follower) then Following else AtRun)
  | Campaigning t n => s' = mkSv r1 (if decide (state r1 = Candidate) then Campaigning t n else AtRun)
  | Leading => s' = if decide (state r1 = Leader) then mkSv r1 Leading else mkSv (failPendingFutures r1) AtRun
  | _ => False
  end ->
  unmoved r1 (sv_node s') /\ currentTerm (sv_node s') = currentTerm r1 /\ state (sv_node s') = state r1 /\
  config (sv_node s') = config r1 /\ 
  (sv_pos s' = Announcing \/ sv_pos s' = Leading -> sv_pos s = Announcing \/ sv_pos s = Leading).
Proof.
  destruct (sv_pos s) as [| | |t n| | | |]; try done; intros ->.
  - destruct (decide _); (split; [apply unmoved_refl|]); split_and!; try done; by intros [|].
  - destruct (decide _); (split; [apply unmoved_refl|]); split_and!; try done; by intros [|].
  - destruct (decide _); (split; [apply unmoved_refl || apply fail_unmoved|]); split_and!; auto; by intros [|].
Qed.

(** A vote is given after a look at the log. *)
Lemma vote_rpc_quiet id s req s' a l :
  server_ok id s -> is_uint64 (rv_Term req) -> log_repr (logStore (sv_node s)) l ->
  rpc_turn s (CmdRequestVote req) = Ok (s', a) ->
  quiet s s' /\
  forall resp, a = Some (RespRequestVote resp) -> vr_VoteGranted resp = true ->
    currentTerm (sv_node s) <= rv_Term req /\
    up_to_date (rv_LastLogIndex req, rv_LastLogTerm req) (last_info l).
Proof.
  intros Hok Ht Hl E. destruct (vote_rpc members id s req s' a Hok Ht E) as (_ & Hst & _).
  destruct (rpc_turn_cases _ _ _ _ (so_role _ _ _ Hok) E) as [[-> ->]|(r1 & resp & b & E1 & -> & Hs')].
  { split; [apply quiet_refl|done]. }
  simpl in E1. apply obind_Ok in E1 as ([[r' v] b'] & E1 & [= -> <- <-]).
  pose proof (so_inv _ _ _ Hok) as ((l0 & Hok0) & _).
  assert (node_ok (sv_node s) l) as Hokl by (destruct Hok0; by split).
  destruct (handleRequestVote_effect (sv_node s) l req Hokl Ht) as (r2 & g & E2 & Hg & _ & Hsr & _).
  rewrite E1 in E2. injection E2 as <- -> _. destruct (rpc_pos_quiet s r1 s' Hs') as (Hu & _ & _ & _ & Hp).
  split.
  - split; [|by apply stays_settles|done]. eapply unmoved_trans; [by apply unmoved_rest|done].
  - intros resp [= <-]. simpl. intros ->. destruct (proj1 Hg eq_refl) as (? & _ & ?). by split.
Qed.

(** A voter that holds what it has acknowledged votes safely. *)
Lemma new_vote_safe h c c' (k : vote_call) s l :
  sound h -> server_safe h c (vc_to k) s l -> elected c' = elected c ->
  (forall t m, acked h c' (vc_to k) t m -> acked h c (vc_to k) t m) ->
  currentTerm (sv_node s) <= rv_Term (vc_req k) ->
  up_to_date (rv_LastLogIndex (vc_req k), rv_LastLogTerm (vc_req k)) (last_info l) ->
  vote_safe h c' k.
Proof.
  intros Hsnd Hl Hel Hack Hle Hup _ t m Ha Ht Hm.
  destruct (ss_acked _ _ _ _ _ _ _ Hl t m (Hack t m Ha)) as (_ & _ & [Hag|Ho]).
  - left. eapply up_to_date_trans; [exact Hup|].
    apply (voter_behind h (currentTerm (sv_node s)) l t m); try done; [apply Hl|].
    eapply repr_numbered, Hl.
  - right. destruct Ho as (u & ? & [x Hx] & ?). exists u. split; [lia|]. split; [|done].
    exists x. by rewrite Hel.
Qed.

Lemma answer_vote_safe h c k (v : vote_call) c' :
  cluster_ok c -> cluster_ok c' -> safe h c -> vote_calls c !! k = Some v -> answer_vote c k v = Ok c' ->
  next h c h c'.
Proof.
  intros Hc Hc' Hsafe Hk. unfold answer_vote.
  assert (v ∈ vote_calls c) as Hin by (by eapply list_elem_of_lookup_2).
  pose proof (co_votes _ _ Hc v Hin) as Hv.
  destruct (servers c !! vc_to v) as [s|] eqn:Hs; [|by intros [= <-]].
  destruct (vc_resp v) as [|] eqn:Er; [by intros [= <-]|].
  intros ([s' a] & E & E')%obind_Ok. destruct (co_servers _ _ Hc _ _ Hs) as [_ Hok].
  destruct (sa_servers _ _ _ _ Hsafe _ _ Hs) as [l Hl].
  destruct (vote_rpc_quiet _ _ _ _ _ l Hok (vk_term _ _ _ Hv) (ss_log _ _ _ _ _ _ _ Hl) E) as [Hq Hg].
  destruct a as [[|resp|]|]; try (by injection E' as <-). injection E' as <-. specialize (Hg resp eq_refl).
  set (v' := mkVoteCall _ _ _ _ _) in *. apply (quiet_safe h c (vc_to v) s s'); try done.
  - intros u Hu. destruct (elem_of_insert _ _ _ _ Hu) as [->|?].
    2: { exists u. split_and!; try done. by left. }
    exists v. split_and!; try done. destruct (vr_VoteGranted resp) eqn:Egr; [right|left; split; [done|]].
    + destruct (Hg eq_refl) as [? ?].
      apply (new_vote_safe h c _ v' s l); try done; [apply Hsafe|].
      intros t m. apply acked_calls; [done|]. intros u' Hu' Ha'. by exists u'.
    + unfold grant. simpl. by rewrite Egr.
  - intros u Hu. exists u. split; [done|apply same_call_refl].
  - intros u Hu. exists u. split; [done|apply same_call_refl].
Qed.

(** An answer that makes no leader. *)
Lemma count_vote_quiet id s t n (v : RequestVoteResponse) s' :
  server_ok id s -> sv_pos s = Campaigning t n -> is_uint64 (vr_Term v) -> count_vote s t n v = Ok s' ->
  s' = mkSv (becomeLeader (sv_node s)) AtRun \/
  unmoved (sv_node s) (sv_node s') /\ ~ (sv_pos s' = Announcing \/ sv_pos s' = Leading).
Proof.
  intros Hok Hp Hu. pose proof (so_inv _ _ _ Hok) as ((l & Hl) & _). unfold count_vote. simpl.
  destruct (Z.ltb_spec (currentTerm (sv_node s)) (vr_Term v)) as [Hlt|Hge].
  { intros (x & Ex & [= <-])%obind_Ok. apply obind_Ok in Ex as (r1 & E1 & [= <-]). right. unfold after. simpl.
    split; [by eapply stepDown_unmoved|by intros [|]]. }
  destruct (vr_VoteGranted v), (quorum_of (sv_node s) <=? n + 1); try (case_bool_decide);
    intros [= <-]; unfold after; simpl; try (by left); right; (split; [apply unmoved_refl|by intros [|]]).
Qed.

(** ** Late answers and restarts *)

(** A new process has the log, and has applied nothing; one that does not
    start is what it was. *)
Lemma restart_node s (f : F) :
  (logStore (sv_node (restart s f)) = logStore (sv_node s) /\ commitIndex (sv_node (restart s f)) = 0 /\
   lastApplied (sv_node (restart s f)) = 0 /\ fsm (sv_node (restart s f)) = f /\
   state (sv_node (restart s f)) = Follower) \/
  restart s f = mkSv (sv_node s) Stopped.
Proof.
  unfold restart. set (cfg := mkConfig _ _ _ _ _ _ _ _).
  unfold NewRaftNode. destruct (validate cfg); [|by right..]. simpl. unfold restoreState.
  destruct (no_err _) as [[t [e|]]| | |]; simpl; try by right.
  destruct (no_err _) as [[b [e|]]| | |]; simpl; try by right. by left.
Qed.

Lemma same_call_taken (v : append_call) resp :
  ac_resp v = Some resp ->
  same_call (mkAppendCall (ac_from v) (ac_to v) (ac_peer v) (ac_req v) (Some resp) true) v.
Proof. intros E. split_and!; try done. unfold accepted. by rewrite E. Qed.

(** Calls, one of which has changed. *)
Lemma calls_insert (cs : list append_call) k (v v' : append_call) :
  cs !! k = Some v -> same_call v' v ->
  (forall u, u ∈ <[k := v']> cs -> exists u0, u0 ∈ cs /\ same_call u u0) /\
  (forall u0, u0 ∈ cs -> exists u, u ∈ <[k := v']> cs /\ same_call u u0).
Proof.
  intros Hk Hv. split.
  - intros u Hu. destruct (elem_of_insert _ _ _ _ Hu) as [->|?].
    + exists v. split; [by eapply list_elem_of_lookup_2|done].
    + exists u. split; [done|apply same_call_refl].
  - intros u Hu. destruct (elem_of_insert_other cs k u v v' Hk Hu) as [->|?].
    + exists v'. split; [by eapply elem_of_inserted|done].
    + exists u. split; [done|apply same_call_refl].
Qed.

Lemma restarted_safe h c id s :
  StableStoreReliable S -> cluster_ok c -> safe h c -> servers c !! id = Some s ->
  let c' := set_appends (set_server c id (restart s f0)) (forget_appends id (append_calls c)) in
  cluster_ok c' -> next h c h c'.
Proof.
  intros Hrel Hc Hsafe Hs c' Hc'. destruct (co_servers _ _ Hc _ _ Hs) as [_ Hok].
  destruct (restart_cases members id s f0 Hrel Hok) as (Hok' & Et & _ & Hl & Hp).
  destruct (sa_servers _ _ _ _ Hsafe _ _ Hs) as [l Hss]. pose proof Hss as [H1 H2 H3 H4 H5 H6 H7 H8 H9 H10].
  assert (goes_on h c h c' id (restart s f0)) as Hgo.
  { split; try done; auto.
    - apply grows_refl.
    - apply Hsafe.
    - intros k Hk Ha. simpl. eexists. split; [apply list_elem_of_fmap_2, Hk|]. by case_bool_decide.
    - intros k (k0 & -> & Hk)%list_elem_of_fmap Ha. left. exists k0. by case_bool_decide. }
  assert (forall t m, acked h c' id t m -> acked h c id t m) as Hack.
  { intros t m. apply acked_calls; [done|]. intros k (k0 & -> & Hk)%list_elem_of_fmap Ha. exists k0. by case_bool_decide. }
  assert (server_safe h c' id (restart s f0) l) as Hss'.
  { destruct (restart_node s f0) as [(E1 & E2 & E3 & E4 & E5)|E5].
    - split; rewrite ?Et, ?E1, ?E2; try done.
      + congruence.
      + pose proof (len_nonneg l). lia.
      + by left.
      + intros t m Ha. apply H6, Hack, Ha.
      + intros t n Hn. by destruct (Hp t n).
      + congruence.
      + split; rewrite E3; [pose proof (len_nonneg l); lia|]. by rewrite E4.
      + lia.
    - rewrite E5 in *. eapply quiet_server; try done.
      + split; [apply unmoved_refl|by split|by intros [|]].
      + intros k Hk. by exists k. }
  eapply (safe_step members f0 h h c c' id s); try done; [by rewrite Et|..].
  - intros k Hk. split; left; exists k; by split_and!.
  - intros k (k0 & -> & Hk)%list_elem_of_fmap. left. exists k0. by case_bool_decide.
  - intros k (k0 & -> & Hk)%list_elem_of_fmap Htk. case_bool_decide as Hf; [done|].
    destruct (sa_calls _ _ _ _ Hsafe k0 Hk Htk) as (u & p & Hu & ? & ?). exists u, p. simpl.
    by rewrite lookup_insert_ne.
  - destruct (decide ((currentTerm (sv_node (restart s f0)), id) ∈ elected c)); [left; by eexists|by right; left].
Qed.
End LogSteps.
