(* ===== verification/LogEvents.v ===== *)
(** * Raft: steps that change the logs

    Requests, acceptances, the leader's appends and commits, the apply loop:
    each keeps the invariant of [LogSafety.v]. *)

From S2P Require Import Prelude Binary Store RaftTypes Node Election Logs Replication Append Leader Loops Cluster Runs Candidate Moves Turns ElectionSafety Committed History LogSafety LogSteps.

Section LogEvents.
Context {L S F R : Type} `{!LogStore L} `{!StableStore S} `{!FSM F R}.
Context `{!LogStoreLaws L} `{!LogStoreTruncates L} `{!StableStoreLaws S}.
Abbreviation Node := (RaftNode L S F R).
Abbreviation Server := (server (L := L) (S := S) (F := F) (R := R)).
Abbreviation Cluster := (cluster (L := L) (S := S) (F := F) (R := R)).
Context (members : list PeerConfig) (f0 : F).
Implicit Types (r : Node) (s : Server) (c : Cluster) (id v : bytes) (t m : Z) (h : history).

Abbreviation ids := (map pc_ID members).
Abbreviation server_ok := (server_ok members).
Abbreviation cluster_ok := (cluster_ok members).
Abbreviation safe := (safe members f0).
Abbreviation next := (next members f0).
Abbreviation server_safe := (server_safe members f0).
Abbreviation Committed h c := (committed ids h (acked h c)).

(** ** One server *)

Lemma safe_well h c t : safe h c -> led c t -> well_elected ids h (led c) (acked h c) t.
Proof. intros Hs Hl. eapply quorum_mono; [|by apply (sa_won _ _ _ _ Hs)]. by intros v [_ H]. Qed.

Definition addresses_kept r r' : Prop :=
  forall loc p, heap r !! loc = Some p -> exists p', heap r' !! loc = Some p' /\ ps_addr p' = ps_addr p.

(** A step of one server that neither elects nor votes. *)
Lemma own_step h h' c id s s' l' as' :
  let c' := mkCluster (<[id := s']> (servers c)) (vote_calls c) as' (elected c) in
  cluster_ok c -> cluster_ok c' -> safe h c -> servers c !! id = Some s ->
  currentTerm (sv_node s) <= currentTerm (sv_node s') -> goes_on h c h' c' id s' ->
  server_safe h' c' id s' l' -> addresses_kept (sv_node s) (sv_node s') ->
  (forall k, k ∈ as' ->
     exists k0, k0 ∈ append_calls c /\ ac_from k = ac_from k0 /\ ac_to k = ac_to k0 /\
       ac_peer k = ac_peer k0 /\ ac_req k = ac_req k0 /\ (ac_taken k = false -> ac_taken k0 = false) /\
       (accepted k = accepted k0 \/ append_safe members h' c' k)) ->
  next h c h' c'.
Proof.
  intros c' Hc Hc' Hsafe Hs Hterm Hgo Hl' Haddr Has.
  eapply (safe_step members f0 h h' c c' id s s' Hc' Hgo Hc Hsafe Hs); try done.
  - intros k Hk. split; left; exists k; by split_and!.
  - intros k Hk. destruct (Has k Hk) as (k0 & ? & _ & _ & _ & ? & _ & [E|?]); [left|by right].
    exists k0. split_and!; try done. congruence.
  - intros k Hk Ht. destruct (Has k Hk) as (k0 & Hk0 & Ef & Et & Ep & _ & Htk & _).
    destruct (sa_calls _ _ _ _ Hsafe k0 Hk0 (Htk Ht)) as (u & p & Hu & Hp & Hat). rewrite Ef, Ep, Et.
    destruct (decide (ac_from k0 = id)) as [Eid|Hne].
    + rewrite Eid in *. rewrite Hs in Hu. injection Hu as <-. destruct (Haddr _ _ Hp) as (p' & ? & Ea).
      exists s', p'. simpl. rewrite lookup_insert_eq, Ea. done.
    + exists u, p. simpl. by rewrite lookup_insert_ne.
  - destruct (decide ((currentTerm (sv_node s'), id) ∈ elected c)); [left; by eexists|by right; left].
Qed.

(** History stands still, and so do the calls. *)
Lemma goes_on_same h c id s' :
  safe h c -> goes_on h c h (mkCluster (<[id := s']> (servers c)) (vote_calls c) (append_calls c) (elected c)) id s'.
Proof.
  intros Hsafe. split; try done; auto.
  - apply grows_refl.
  - apply Hsafe.
  - intros k Hk Ha. by exists k.
  - intros k Hk Ha. left. by exists k.
Qed.

Lemma acked_same h c (sv : gmap bytes Server) v t m :
  acked h (mkCluster sv (vote_calls c) (append_calls c) (elected c)) v t m -> acked h c v t m.
Proof. apply acked_calls; [done|]. intros k Hk Ha. by exists k. Qed.

Lemma same_records_addresses r r' : records_kept r r' -> addresses_kept r r'.
Proof. intros [_ H] loc p Hp. destruct (H _ _ Hp) as (p' & ? & ? & _). by exists p'. Qed.

(** ** Requests *)

(** The request for a record beyond the end of the log. *)
Lemma replicate_request_beyond r l peer p :
  node_ok r l -> state r = Leader -> heap r !! peer = Some p -> len l + 1 < nextIndex p <= MaxUint64 ->
  replicate_request r peer =
    Ok (Some (mkAppendReq (currentTerm r) (ServerID (config r)) (nextIndex p - 1) 0 [] (commitIndex r))).
Proof.
  intros [Hl _ Ht] Hst Hp Hn. pose proof (len_nonneg l). unfold replicate_request. rewrite Hst, Hp.
  rewrite bool_decide_true by done. cbn [negb or_panic obind].
  rewrite uint64_id by (int_unfold; lia). rewrite (proj2 (Z.ltb_lt 0 (nextIndex p - 1))) by lia.
  destruct (GetLog_miss _ _ (nextIndex p - 1) Hl) as (q & err & ->).
  { int_unfold. lia. }
  { unfold entry_at. case_match; [|done]. apply lookup_ge_None. unfold len in *. lia. }
  cbn [obind]. rewrite (LastIndex_law _ _ Hl). cbn [obind].
  by rewrite (proj2 (Z.leb_gt (nextIndex p) (len l))) by lia.
Qed.

Lemma send_append_safe h c id peer s c' :
  members_ok members -> cluster_ok c -> cluster_ok c' -> safe h c -> servers c !! id = Some s ->
  send_append members c id peer s = Ok c' -> next h c h c'.
Proof.
  intros Hm Hc Hc' Hsafe Hs. unfold send_append. destruct (heap (sv_node s) !! peer) as [p|] eqn:Hp; [|by intros [= <-]].
  intros (req & E & E')%obind_Ok. destruct (co_servers _ _ Hc _ _ Hs) as [_ Hok].
  destruct req as [req|]; [|by injection E' as <-].
  destruct (server_at members (ps_addr p)) as [to|] eqn:Hto; [|by injection E' as <-].
  injection E' as <-. destruct (sa_servers _ _ _ _ Hsafe _ _ Hs) as [l Hl].
  assert (state (sv_node s) = Leader) as Hlead.
  { unfold replicate_request in E. by case_bool_decide. }
  pose proof (so_inv _ _ _ Hok) as ((l0 & Hok0) & _).
  assert (node_ok (sv_node s) l) as Hokl by (destruct Hok0; split; try done; apply Hl).
  destruct (so_heap _ _ _ Hok _ _ Hp) as [_ Hn].
  assert (servers c = <[id := s]> (servers c)) as Eservers by (by rewrite insert_id).
  set (k := mkAppendCall id to peer req None false) in *.
  assert (accepted k = false) as Hacc by done.
  assert (goes_on h c h (set_appends c (append_calls c ++ [k])) id s) as Hgo.
  { split; try done; auto.
    - apply grows_refl.
    - apply Hsafe.
    - intros u Hu Ha. exists u. split_and!; try done. simpl. apply elem_of_app. by left.
    - intros u [Hu|Hu]%elem_of_app Ha; [left; by exists u|]. apply list_elem_of_singleton in Hu as ->. congruence. }
  assert (ae_Term req = currentTerm (sv_node s) /\ ae_LeaderCommit req = commitIndex (sv_node s) /\
    (from_leader l req /\ ae_PrevLogIndex req <= len l /\ len l <= upto req \/
     0 < ae_PrevLogIndex req /\ ae_PrevLogTerm req = 0)) as (Et & Elc & Hcut).
  { destruct (Z.le_gt_cases (nextIndex p) (len l + 1)) as [Hle|Hgt].
    - rewrite (replicate_request_ok _ l peer p (ok_log _ _ Hokl) Hlead Hp) in E by lia. injection E as <-.
      split; [done|]. split; [done|]. left. destruct (request_for_ok _ l p Hokl) as [_ Hf]; [lia|].
      split; [done|]. unfold upto, request_for. simpl. unfold len in *. rewrite length_drop. lia.
    - rewrite (replicate_request_beyond _ l peer p Hokl Hlead Hp) in E by lia. injection E as <-.
      split; [done|]. split; [done|]. right. simpl. pose proof (len_nonneg l). lia. }
  pose proof (ss_leader _ _ _ _ _ _ _ Hl Hlead) as El.
  assert (append_safe members h (set_appends c (append_calls c ++ [k])) k) as Hk.
  { pose proof (ss_bound _ _ _ _ _ _ _ Hl). split; simpl; rewrite ?Et, ?Elc, <-?El.
    - destruct Hcut as [(? & ? & ?)|[? ?]]; [left|by right]. split_and!; [done|done|lia].
    - eapply (go_committed members h h c); [exact Hgo|]. apply (ss_commit _ _ _ _ _ _ _ Hl).
    - lia. }
  eapply (safe_step members f0 h h c _ id s s Hc' Hgo Hc Hsafe Hs); try done.
  - eapply (quiet_server members f0 h c); try done.
    + apply quiet_refl.
    + intros t m. apply acked_calls; [done|]. intros u [Hu|Hu]%elem_of_app Ha; [by exists u|].
      apply list_elem_of_singleton in Hu as ->. congruence.
    + intros u Hu. by exists u.
  - intros u Hu. split; left; exists u; by split_and!.
  - intros u [Hu|Hu]%elem_of_app; [left; by exists u|right]. by apply list_elem_of_singleton in Hu as ->.
  - intros u [Hu|Hu]%elem_of_app; [by apply (sa_calls _ _ _ _ Hsafe)|]. apply list_elem_of_singleton in Hu as ->.
    intros _. by exists s, p.
  - left. exists id. by apply (co_leader _ _ Hc).
Qed.

(** ** The leader's appends *)

Lemma kept_prefix h c id s l l' T t m :
  server_safe h c id s l -> acked h c id t m -> l `prefix_of` l' ->
  held h (led c) T l t m -> held h (led c) T l' t m.
Proof.
  intros Hl Ha Hp [Hag|?]; [left|by right]. destruct (ss_acked _ _ _ _ _ _ _ Hl _ _ Ha) as (_ & Hm & _).
  etrans; [|exact Hag]. apply agree_prefix; [done|]. by apply (agree_len m (h t)).
Qed.

Lemma applied_prefix r r' l l' :
  fsm_applied f0 r l -> lastApplied r' = lastApplied r -> fsm r' = fsm r ->
  agree (lastApplied r) l' l -> lastApplied r <= len l' -> fsm_applied f0 r' l'.
Proof. intros [Hb E] E1 E2 Ha Hl. unfold fsm_applied. rewrite E1, E2. split; [lia|]. by rewrite Ha. Qed.

(** A leader in office puts an entry of its term at the end of its log. *)
Lemma appended_safe h c id s s' l e :
  let c' := set_server c id s' in
  cluster_ok c -> cluster_ok c' -> safe h c -> servers c !! id = Some s -> server_safe h c id s l ->
  state (sv_node s) = Leader -> sv_pos s = Announcing \/ sv_pos s = Leading ->
  log_repr (logStore (sv_node s')) (l ++ [e]) -> log_Term e = currentTerm (sv_node s) ->
  currentTerm (sv_node s') = currentTerm (sv_node s) ->
  commitIndex (sv_node s') = commitIndex (sv_node s) -> lastApplied (sv_node s') = lastApplied (sv_node s) ->
  fsm (sv_node s') = fsm (sv_node s) -> records_kept (sv_node s) (sv_node s') ->
  (forall t n, sv_pos s' <> Campaigning t n) ->
  exists h', next h c h' c'.
Proof.
  intros c' Hc Hc' Hsafe Hs Hl Hlead Hpos Hlog He Et Eci Ela Ef Hrec Hcamp.
  set (t := currentTerm (sv_node s)) in *. pose proof (ss_leader _ _ _ _ _ _ _ Hl Hlead) as El. fold t in El.
  pose proof (co_leader _ _ Hc _ _ Hs Hlead) as Hled. fold t in Hled.
  assert (1 <= t) as H1 by (apply (sa_terms _ _ _ _ Hsafe); by exists id).
  set (h' := extend h t (h t ++ [e])). exists h'.
  assert (goes_on h c h' c' id s') as Hgo.
  { split; auto.
    - by apply grows_snoc.
    - apply sound_snoc; [apply Hsafe|done|done].
    - intros u. destruct (decide (u = t)) as [->|Hne]; [right|left; by apply extend_ne].
      by rewrite Et.
    - intros k Hk Ha. by exists k.
    - intros k Hk Ha. left. by exists k. }
  assert (h' t = l ++ [e]) as Eh by (unfold h'; by rewrite extend_eq, El).
  assert (l `prefix_of` l ++ [e]) as Hpre by (by apply prefix_app_r).
  assert (len (l ++ [e]) = len l + 1) as Elen by (by rewrite len_app).
  assert (server_safe h' c' id s' (l ++ [e])) as Hl'.
  { pose proof Hl as [H1l H2 H3 H4 H5 H6 H7 H8 H9 H10]. split; rewrite ?Et, ?Eci, ?Ela; try done.
    - fold t. rewrite <-Eh. apply (go_sound _ _ _ _ _ _ Hgo).
    - lia.
    - apply (committed_agree' _ _ _ _ l); [by eapply go_committed|]. apply agree_prefix; [done|lia].
    - fold t. intros u m Ha. destruct (go_acked_inv _ _ _ _ _ _ _ Hc' Hgo _ _ _ Ha) as [Ha0|[_ Eu]].
      + destruct (H6 _ _ Ha0) as (? & Hm & Hh). split; [done|].
        pose proof (grows_len _ _ _ (go_grows _ _ _ _ _ _ Hgo) u). split; [lia|].
        eapply go_held; [exact Hgo|done|]. by eapply kept_prefix.
      + rewrite Et in Eu. subst u. split; [done|]. split; [|left; by rewrite Eh].
        destruct Ha as [k Hk Hacc Hto Hterm Hm|? ?]; [|lia].
        pose proof (grows_len _ _ _ (go_grows _ _ _ _ _ _ Hgo) t).
        destruct (H6 t m) as (_ & ? & _); [by eapply acked_call|lia].
    - intros u n Hn. by destruct (Hcamp u n).
    - intros _. left. destruct (H8 Hlead) as [[Hr Ha]|(? & ? & _)]; [|by destruct Hpos].
      destruct (co_servers _ _ Hc _ _ Hs) as [_ Hok]. destruct (co_servers _ _ Hc' id s') as [_ Hok']; [apply lookup_insert_eq|].
      assert (ServerID (config (sv_node s')) = ServerID (config (sv_node s))) as Ei.
      { by rewrite (so_id _ _ _ Hok), (so_id _ _ _ Hok'). }
      destruct Hrec as [Ep Eh']. split; rewrite Ei, Ep; [|done]. intros v loc Hloc.
      destruct (Hr v loc Hloc) as (? & ? & p & Hh & Haddr & Hm). split_and!; try done.
      destruct (Eh' _ _ Hh) as (p' & ? & Ea & Em). exists p'. rewrite Ea, Em. split_and!; try done.
      intros Hpm. rewrite Et. eapply go_acked; [exact Hgo|by apply Hm].
    - eapply (applied_prefix (sv_node s)); try done; [apply agree_prefix; [done|apply H9]|]. destruct H9. lia. }
  eapply (own_step h h' c id s s' _ (append_calls c)); try done; [by rewrite Et|by apply same_records_addresses|].
  intros k Hk. exists k. split_and!; try done. by left.
Qed.

(** What an append does to the node: an entry of its term, or nothing. *)
Record appends r r' : Prop := {
  ap_term : currentTerm r' = currentTerm r;
  ap_state : state r' = state r;
  ap_commit : commitIndex r' = commitIndex r;
  ap_applied : lastApplied r' = lastApplied r;
  ap_fsm : fsm r' = fsm r;
  ap_records : records_kept r r';
  ap_log : (forall l, log_repr (logStore r) l -> log_repr (logStore r') l) \/
    exists e, log_Term e = currentTerm r /\
      forall l, log_repr (logStore r) l -> log_repr (logStore r') (l ++ [e])
}.

Lemma appends_log r (sto : L) l l' :
  log_repr (logStore r) l -> log_repr sto l' ->
  l' = l \/ (exists e, log_Term e = currentTerm r /\ l' = l ++ [e]) ->
  (forall k, log_repr (logStore r) k -> log_repr sto k) \/
  exists e, log_Term e = currentTerm r /\ forall k, log_repr (logStore r) k -> log_repr sto (k ++ [e]).
Proof.
  intros Hl Hl' [->|(e & He & ->)]; [left|right; exists e; split; [done|]];
    intros k Hk; by rewrite (repr_unique _ _ _ Hk Hl).
Qed.

Lemma appendNoOp_appends r l r' :
  node_ok r l -> log_room r -> appendNoOp r = Ok r' -> appends r r'.
Proof.
  intros Hok Hroom E. destruct (appendNoOp_ok r l (ok_log _ _ Hok) Hroom (ok_term _ _ Hok)) as (sto & err & Hsto & E').
  rewrite E in E'. injection E' as ->. destruct err; split; try done.
  - by apply records_same.
  - left. intros k Hk. simpl. by rewrite (repr_unique _ _ _ Hk (ok_log _ _ Hok)).
  - apply (records_trans _ (set_log r sto)); [by apply records_same|apply trigger_records].
  - apply (appends_log r sto l _ (ok_log _ _ Hok) Hsto). right. eexists. by split; [|reflexivity].
Qed.

Lemma handleApplyRequest_appends r l req r' :
  node_ok r l -> log_room r -> handleApplyRequest r req = Ok r' -> appends r r'.
Proof.
  intros Hok Hroom E. destruct (decide (state r = Leader)) as [Hst|Hst].
  2: { unfold handleApplyRequest in E. rewrite bool_decide_false in E by done. injection E as <-.
       split; try done; [by apply records_same|by left]. }
  destruct (handleApplyRequest_ok r l req (ok_log _ _ Hok) Hroom (ok_term _ _ Hok) Hst) as (sto & err & Hsto & E').
  rewrite E in E'. injection E' as ->. destruct err; split; try done.
  - by apply records_same.
  - left. intros k Hk. simpl. by rewrite (repr_unique _ _ _ Hk (ok_log _ _ Hok)).
  - apply (records_trans _ (set_futures (set_log r sto) (<[len l + 1 := rq_future req]> (pendingFutures r)) (futures r)));
      [by apply records_same|apply trigger_records].
  - apply (appends_log r sto l _ (ok_log _ _ Hok) Hsto). right. eexists. by split; [|reflexivity].
Qed.

Lemma leader_step_safe h c id s r' :
  let c' := set_server c id (mkSv r' Leading) in
  cluster_ok c -> cluster_ok c' -> safe h c -> servers c !! id = Some s ->
  sv_pos s = Announcing \/ sv_pos s = Leading -> state (sv_node s) = Leader -> appends (sv_node s) r' ->
  exists h', next h c h' c'.
Proof.
  intros c' Hc Hc' Hsafe Hs Hpos Hlead [Et Est Eci Ela Ef Hrec Hlog].
  destruct (sa_servers _ _ _ _ Hsafe _ _ Hs) as [l Hl].
  destruct Hlog as [Hlog|(e & He & Hlog)].
  - exists h. apply (quiet_safe members f0 h c id s (mkSv r' Leading)); try done.
    + split; [by split| |by intros _]. split; [by intros t n [=]|simpl; lia|]. simpl. by rewrite Est.
    + intros k Hk. exists k. split_and!; try done. by left.
    + intros k Hk. exists k. split; [done|apply same_call_refl].
    + intros k Hk. exists k. split; [done|apply same_call_refl].
  - apply (appended_safe h c id s (mkSv r' Leading) l e); try done. apply Hlog, Hl.
Qed.

(** ** Taking office, applying *)

Lemma leader_init_matches h c r l r' :
  members_ok members -> node_ok r l -> Peers (config r) = members -> leader_init r = Ok r' ->
  (exists ps hp, r' = set_peers r ps hp) /\ addresses_kept r r' /\ matches_ok members h c r'.
Proof.
  intros Hm Hok Ep E. assert (NoDup (map pc_ID (Peers (config r)))) as Hnd by (rewrite Ep; apply (mb_ids _ Hm)).
  destruct (leader_init_spec r l Hok Hnd) as (r1 & E1 & _ & Hall & Hrec & Hold).
  rewrite E in E1. injection E1 as <-.
  assert (exists ps hp, r' = set_peers r ps hp) as (ps & hp & ->).
  { unfold leader_init in E. rewrite (LastIndex_law _ _ (ok_log _ _ Hok)) in E. cbn [obind] in E.
    destruct (foldl _ _ _) as [ps hp]. injection E as <-. by eexists _, _. }
  split; [by eexists _, _|]. split.
  - intros loc p Hp. exists p. split; [by apply Hold|done].
  - rewrite Ep in *. split; cbn [config peers heap currentTerm set_peers].
    + intros v loc Hl. destruct (Hrec _ _ Hl) as (Hne & Hv & _). split_and!; [done|done|].
      apply list_elem_of_fmap in Hv as (p & -> & Hp). destruct (Hall p Hp Hne) as (loc' & Hl' & Hh).
      assert (loc' = loc) as -> by (simpl in *; congruence). eexists. split; [exact Hh|]. split; [|done].
      by apply (mb_addresses _ Hm).
    + intros v (p & -> & Hp)%list_elem_of_fmap Hne. destruct (Hall p Hp Hne) as (loc & Hl & _). by eexists.
Qed.

Lemma office_safe h c id s r' :
  let c' := set_server c id (mkSv r' Announcing) in
  members_ok members -> cluster_ok c -> cluster_ok c' -> safe h c -> servers c !! id = Some s ->
  leader_init (sv_node s) = Ok r' -> next h c h c'.
Proof.
  intros c' Hm Hc Hc' Hsafe Hs E. destruct (co_servers _ _ Hc _ _ Hs) as [_ Hok].
  pose proof (so_inv _ _ _ Hok) as ((l0 & Hok0) & _).
  destruct (leader_init_matches h c' _ _ _ Hm Hok0 (so_peers _ _ _ Hok) E) as ((ps & hp & ->) & Haddr & Hmatch).
  destruct (sa_servers _ _ _ _ Hsafe _ _ Hs) as [l [H1 H2 H3 H4 H5 H6 H7 H8 H9 H10]].
  pose proof (goes_on_same h c id (mkSv (set_peers (sv_node s) ps hp) Announcing) Hsafe) as Hgo.
  eapply (own_step h h c id s _ l (append_calls c)); try done.
  - split; try done.
    + by eapply go_committed.
    + intros t m Ha. destruct (H6 _ _ (acked_same _ _ _ _ _ _ Ha)) as (? & ? & ?). by split_and!.
    + intros _. by left.
  - intros k Hk. exists k. split_and!; try done. by left.
Qed.

Lemma apply_one_applied r l r' :
  log_repr (logStore r) l -> fsm_applied f0 r l -> lastApplied r < commitIndex r <= len l ->
  apply_one r (uint64 (lastApplied r + 1)) = Ok r' ->
  fsm_applied f0 r' l /\ lastApplied r' = lastApplied r + 1 /\ apply_rest r r'.
Proof.
  intros Hl [Hb Hf] Hc E. pose proof (repr_small _ _ Hl). rewrite uint64_id in E by (int_unfold; lia).
  destruct (entry_at_in l (lastApplied r + 1)) as [e He]; [lia|].
  destruct (fsm_step (fsm r) e) as [[f x]|[]| |] eqn:Ef.
  2,3: unfold apply_one in E; rewrite (GetLog_hit _ _ _ _ Hl He) in E; cbn [obind or_panic] in E;
    rewrite Ef in E; done.
  rewrite (apply_one_ok r l _ e f x Hl He Ef) in E. injection E as <-.
  pose proof (applied_one_rest r (lastApplied r + 1) f x) as Hrest.
  assert (fsm (applied_one r (lastApplied r + 1) f x) = f /\
    lastApplied (applied_one r (lastApplied r + 1) f x) = lastApplied r + 1) as [E1 E2].
  { unfold applied_one. simpl. by destruct (_ !! _). }
  split; [|done]. unfold fsm_applied. rewrite E1, E2. split; [lia|].
  rewrite (take_S_entry l _ e) by (done || lia). rewrite apply_entries_app, Hf. cbn [obind apply_entries].
  by rewrite Ef.
Qed.

Lemma applied_safe h c id s r' :
  let c' := set_server c id (mkSv r' (sv_pos s)) in
  cluster_ok c -> cluster_ok c' -> safe h c -> servers c !! id = Some s ->
  lastApplied (sv_node s) < commitIndex (sv_node s) ->
  apply_one (sv_node s) (uint64 (lastApplied (sv_node s) + 1)) = Ok r' -> next h c h c'.
Proof.
  intros c' Hc Hc' Hsafe Hs Hlt E. destruct (co_servers _ _ Hc _ _ Hs) as [_ Hok].
  destruct (co_servers _ _ Hc' id (mkSv r' (sv_pos s))) as [_ Hok']; [apply lookup_insert_eq|].
  destruct (sa_servers _ _ _ _ Hsafe _ _ Hs) as [l [H1 H2 H3 H4 H5 H6 H7 H8 H9 H10]].
  destruct (apply_one_applied _ l r' H1 H9 ltac:(lia) E) as (Hf & Ea & (Et & Ev & _) & El & Eci & Est & Ep & Eh).
  pose proof (goes_on_same h c id (mkSv r' (sv_pos s)) Hsafe) as Hgo.
  eapply (own_step h h c id s (mkSv r' (sv_pos s)) l (append_calls c)); try done; simpl.
  - rewrite Et. lia.
  - split; simpl; rewrite ?El, ?Et, ?Eci, ?Est; try done.
    + by eapply go_committed.
    + intros t m Ha. destruct (H6 _ _ (acked_same _ _ _ _ _ _ Ha)) as (? & ? & ?). by split_and!.
    + intros Hl. destruct (H8 Hl) as [Hm|?]; [left|right; simpl; by rewrite Et].
      apply (go_matches members h h c _ _ _ Hgo) in Hm. destruct Hm as [Hr Ha].
      pose proof (so_id _ _ _ Hok) as Ei. pose proof (so_id _ _ _ Hok') as Ei'. simpl in Ei'.
      split; simpl; rewrite Ei', Ep; rewrite Ei in *; [|done]. rewrite Eh, Et. done.
    + lia.
  - intros loc p. rewrite Eh. eauto.
  - intros k Hk. exists k. split_and!; try done. by left.
Qed.

(** ** Acceptances *)

(** A record that learns of an acknowledgement. *)
Lemma set_peer_matches h c r peer p p' to :
  matches_ok members h c r -> heap r !! peer = Some p -> server_at members (ps_addr p) = Some to ->
  ps_addr p' = ps_addr p -> acked h c to (currentTerm r) (matchIndex p') ->
  matches_ok members h c (set_peer r peer p').
Proof.
  intros [Hr Ha] Hp Hto Ea Hack. split; [|done]. intros v loc Hl.
  destruct (Hr v loc Hl) as (Hne & Hin & q & Hq & Hat & Hm). split; [done|]. split; [done|]. simpl.
  destruct (decide (loc = peer)) as [->|Hne'].
  - rewrite list_lookup_insert_eq by (by eapply lookup_lt_Some). exists p'. rewrite Ea. split; [done|].
    rewrite Hp in Hq. injection Hq as <-. split; [done|]. intros _. rewrite Hto in Hat. by injection Hat as <-.
  - rewrite list_lookup_insert_ne by done. by exists q.
Qed.

Definition may_advance r r' : Prop :=
  exists n, r' = notifyCommit (set_commit r n) \/ r' = r.

(** The commit rule counts what has been acknowledged. *)
Lemma advance_committed h c r (l : list LogEntry) r' id pos :
  members_ok members -> node_ok r l -> peers_ok r -> id ∈ ids -> ServerID (config r) = id ->
  (currentTerm r, id) ∈ elected c -> l = h (currentTerm r) ->
  peers_safe members h c (mkSv r pos) l ->
  0 <= commitIndex r <= len l -> Committed h c (currentTerm r) l (commitIndex r) ->
  advanceCommitIndex r = Ok r' ->
  0 <= commitIndex r' <= len l /\ Committed h c (currentTerm r) l (commitIndex r') /\
  commitIndex r <= commitIndex r' /\ may_advance r r'.
Proof.
  intros Hm Hok Hpk Hin Eid Hel El Hps Hb Hc E.
  destruct (advanceCommitIndex_effect r l Hok Hpk) as (n & Hq & E'). rewrite E in E'. injection E' as ->.
  destruct (decide (may_commit r l n)) as [[Hlt Ht]|_].
  2: { split_and!; try done; try lia. exists 0. by right. }
  pose proof (term_at_Some _ _ _ Ht) as Hn. simpl. split; [lia|]. split; [|split; [lia|exists n; by left]].
  destruct Hps as [Hmat|(_ & _ & Hno)]; [|by destruct (Hno n)].
  right. exists (currentTerm r), n. split; [lia|]. split; [lia|]. split; [|by rewrite El].
  split; [by rewrite <-El|]. apply (matches_quorum members h c r l n); try done.
  - apply (mb_ids _ Hm).
  - by rewrite Eid.
  - lia.
  - rewrite Eid. apply acked_self; [done|]. rewrite <-El. lia.
Qed.

Lemma may_advance_same r r' : may_advance r r' ->
  logStore r' = logStore r /\ currentTerm r' = currentTerm r /\ state r' = state r /\
  lastApplied r' = lastApplied r /\ fsm r' = fsm r /\ peers r' = peers r /\ heap r' = heap r /\ config r' = config r.
Proof. by intros (n & [-> | ->]). Qed.

(** The leader of the request's term takes an acceptance. *)
Lemma accepted_server h c id s l k req resp r' :
  members_ok members -> cluster_ok c -> safe h c -> servers c !! id = Some s -> server_safe h c id s l ->
  state (sv_node s) = Leader -> currentTerm (sv_node s) = ae_Term req ->
  k ∈ append_calls c -> ac_req k = req -> ac_resp k = Some resp -> ar_Success resp = true ->
  ac_from k = id -> ac_taken k = false -> ar_Term resp <= currentTerm (sv_node s) ->
  replicate_response (sv_node s) (ac_peer k) (ae_Entries req) (Some resp) = Ok r' ->
  server_safe h c id (mkSv r' (sv_pos s)) l /\ addresses_kept (sv_node s) r'.
Proof.
  intros Hm Hc Hsafe Hs Hl Hlead Hterm Hk Ereq Hresp Hsucc Hfrom Htk Hle E.
  destruct (co_servers _ _ Hc _ _ Hs) as [Hid Hok]. pose proof (so_inv _ _ _ Hok) as ((l0 & Hok0) & Hpk & _).
  assert (node_ok (sv_node s) l) as Hokl by (destruct Hok0; split; try done; apply Hl).
  destruct (sa_calls _ _ _ _ Hsafe k Hk Htk) as (u & p & Hu & Hp & Hat). rewrite Hfrom, Hs in Hu. injection Hu as <-.
  destruct (replicate_response_effect _ l (ac_peer k) p (ae_Entries req) resp Hokl Hp) as (_ & _ & Hacc & _).
  rewrite (Hacc Hle Hsucc) in E. clear Hacc.
  set (r1 := match last (ae_Entries req) with None => _ | Some _ => _ end) in E.
  pose proof (co_appends _ _ Hc k Hk) as Hak. pose proof (ak_req _ _ Hak) as Hreq. rewrite Ereq in Hreq.
  pose proof (ss_leader _ _ _ _ _ _ _ Hl Hlead) as El.
  pose proof (co_leader _ _ Hc _ _ Hs Hlead) as Hel.
  assert (node_ok r1 l /\ peers_ok r1 /\ config r1 = config (sv_node s) /\ currentTerm r1 = currentTerm (sv_node s) /\
    state r1 = state (sv_node s) /\ commitIndex r1 = commitIndex (sv_node s) /\
    lastApplied r1 = lastApplied (sv_node s) /\ fsm r1 = fsm (sv_node s) /\
    addresses_kept (sv_node s) r1 /\ peers_safe members h c (mkSv r1 (sv_pos s)) l)
    as (Hok1 & Hpk1 & Ec & Et & Est & Eci & Ela & Ef & Haddr & Hps).
  { subst r1. destruct (last (ae_Entries req)) as [e|] eqn:Elast.
    2: { split_and!; try done; [|by apply (ss_peers _ _ _ _ _ _ _ Hl)]. intros loc q. eauto. }
    assert (log_Index e = upto req) as Ei.
    { rewrite last_lookup in Elast. rewrite (rq_numbered _ Hreq _ _ Elast).
      apply lookup_lt_Some in Elast. unfold upto, len. lia. }
    pose proof (rq_small _ Hreq). pose proof (rq_prev _ Hreq). pose proof (len_nonneg (ae_Entries req)).
    unfold upto in Ei. split_and!; try done.
    - destruct Hokl. by split.
    - apply set_peer_peers_ok; [done|by eexists|]. simpl. int_unfold. lia.
    - intros loc q Hq. simpl. destruct (decide (loc = ac_peer k)) as [->|Hne].
      + rewrite list_lookup_insert_eq by (by eapply lookup_lt_Some). eexists. split; [done|]. simpl. congruence.
      + rewrite list_lookup_insert_ne by done. eauto.
    - destruct (ss_peers _ _ _ _ _ _ _ Hl Hlead) as [Hmat|?]; [left|by right].
      apply (set_peer_matches h c _ _ p _ (ac_to k)); try done. simpl.
      apply (acked_call _ _ _ _ _ k); try done.
      + unfold accepted. by rewrite Hresp.
      + congruence.
      + rewrite Ereq. unfold upto. lia. }
  pose proof (ss_bound _ _ _ _ _ _ _ Hl) as Hb. pose proof (ss_commit _ _ _ _ _ _ _ Hl) as Hcm.
  destruct (advance_committed h c r1 l r' id (sv_pos s)) as (Hb' & Hcm' & Hci & Hadv); try done.
  - rewrite Ec. apply Hok.
  - by rewrite Et.
  - by rewrite Et.
  - by rewrite Eci.
  - by rewrite Et, Eci.
  - destruct (may_advance_same _ _ Hadv) as (F1 & F2 & F3 & F4 & F5 & F6 & F7 & F8).
    split; [|intros loc q Hq; rewrite F7; by apply Haddr].
    destruct Hl as [H1 H2 H3 H4 H5 H6 H7 H8 H9 H10]. split; simpl; rewrite ?F1, ?F2, ?F3, ?F4, ?Et, ?Est, ?Ela; try done.
    + apply Hok1.
    + by rewrite Et in Hcm'.
    + intros _. destruct Hps as [[Hr Ha]|(? & ? & Hno)]; [left|right].
      * simpl in *. split; rewrite F8, F6; [|done]. rewrite F2, F7. done.
      * simpl in *. split_and!; try done. by rewrite F2.
    + unfold fsm_applied in *. by rewrite F4, F5, Ela, Ef.
    + rewrite Ela in *. rewrite Eci in Hci. lia.
Qed.

Lemma goes_on_calls h c id s' as' :
  safe h c ->
  (forall k, k ∈ as' -> exists k0, k0 ∈ append_calls c /\ same_call k k0) ->
  (forall k0, k0 ∈ append_calls c -> exists k, k ∈ as' /\ same_call k k0) ->
  goes_on h c h (mkCluster (<[id := s']> (servers c)) (vote_calls c) as' (elected c)) id s'.
Proof.
  intros Hsafe H1 H2. split; try done; auto.
  - apply grows_refl.
  - apply Hsafe.
  - intros k Hk Ha. destruct (H2 k Hk) as (k' & ? & _ & ? & _ & ? & ? & _). exists k'. split_and!; done || congruence.
  - intros k Hk Ha. left. destruct (H1 k Hk) as (k0 & ? & _ & ? & _ & ? & ? & _). exists k0. split_and!; done || congruence.
Qed.

(** A server's invariant does not depend on its other calls. *)
Lemma server_safe_calls h c c' id s l :
  server_safe h c id s l -> goes_on h c h c' id s -> elected c' = elected c -> vote_calls c' = vote_calls c ->
  (forall t m, acked h c' id t m -> acked h c id t m) -> server_safe h c' id s l.
Proof.
  intros [H1 H2 H3 H4 H5 H6 H7 H8 H9 H10] Hgo Hel Hv Hack. split; try done.
  - by eapply go_committed.
  - intros t m Ha. destruct (H6 _ _ (Hack _ _ Ha)) as (? & ? & ?). split_and!; try done. by eapply go_held.
  - unfold campaign_safe. by rewrite Hel, Hv.
  - intros Hl. destruct (H8 Hl); [left; by eapply go_matches|by right].
Qed.

Lemma take_append_safe h c k (v : append_call) c' :
  members_ok members -> cluster_ok c -> cluster_ok c' -> safe h c -> append_calls c !! k = Some v ->
  (forall s resp, servers c !! ac_from v = Some s -> ac_taken v = false -> ac_resp v = Some resp ->
     ar_Success resp = true -> state (sv_node s) = Leader /\ currentTerm (sv_node s) = ae_Term (ac_req v)) ->
  (forall s resp t n, servers c !! ac_from v = Some s -> ac_resp v = Some resp ->
     sv_pos s = Campaigning t n -> ar_Term resp <= currentTerm (sv_node s)) ->
  take_append c k v = Ok c' -> next h c h c'.
Proof.
  intros Hm Hc Hc' Hsafe Hk Hord Hcamp. unfold take_append.
  assert (v ∈ append_calls c) as Hin by (by eapply list_elem_of_lookup_2).
  pose proof (co_appends _ _ Hc v Hin) as Hv.
  destruct (ac_resp v) as [resp|] eqn:Er; [|by intros [= <-]].
  destruct (ac_taken v) eqn:Htk; [by intros [= <-]|]. intros (c1 & E & [= <-])%obind_Ok.
  destruct (co_voted _ _ Hc (ac_from v) (ae_Term (ac_req v)) (ac_from v)) as (_ & s & Hs & _);
    [by apply voted_won, Hv|].
  unfold at_node, at_server in E. rewrite Hs in E. apply obind_Ok in E as (s' & E & [= <-]).
  apply obind_Ok in E as (r' & E & [= <-]). destruct (co_servers _ _ Hc _ _ Hs) as [_ Hok].
  pose proof (so_inv _ _ _ Hok) as ((l0 & Hok0) & _).
  pose proof (ak_resp _ _ Hv _ Er) as Hrok.
  destruct (calls_insert (append_calls c) k v _ Hk (same_call_taken v resp Er)) as [Hcs Hcs'].
  set (as' := <[k := _]> (append_calls c)) in *. cbn [set_appends set_server append_calls] in *.
  destruct (decide (ar_Success resp = false \/ currentTerm (sv_node s) < ar_Term resp)) as [Hno|Hyes].
  - apply (quiet_safe members f0 h c (ac_from v) s (mkSv r' (sv_pos s))); try done.
    2: { intros u Hu. exists u. split_and!; try done. by left. }
    destruct (req_entries _ (ak_req _ _ Hv)) as [Hes Hlt].
    assert (moved (sv_node s) r') as Hmv.
    { eapply (response_moves (sv_node s) (ac_peer v) (ae_Entries (ac_req v)) resp); try done; apply Hok. }
    apply (quiet_node members (ac_from v)); try done.
    + eapply refused_unmoved; [exact Hok0|apply Hrok|exact Hno|exact E].
    + intros t n Hp. pose proof (so_inv _ _ _ Hok) as ([l1 Hl1] & Hpk & _).
      eapply response_term; [exact Hl1|exact Hpk|exact Hes| |exact E]. by eapply Hcamp.
  - assert (ar_Success resp = true) as Hsucc by (destruct (ar_Success resp); tauto).
    assert (ar_Term resp <= currentTerm (sv_node s)) as Hle by lia.
    destruct (Hord s resp Hs eq_refl eq_refl Hsucc) as [Hlead Ht].
    destruct (sa_servers _ _ _ _ Hsafe _ _ Hs) as [l Hl].
    destruct (accepted_server h c (ac_from v) s l v (ac_req v) resp r') as [Hl' Haddr]; try done.
    pose proof (goes_on_calls h c (ac_from v) (mkSv r' (sv_pos s)) as' Hsafe Hcs Hcs') as Hgo.
    apply (own_step h h c (ac_from v) s (mkSv r' (sv_pos s)) l as'); try done.
    + destruct (response_moves (sv_node s) (ac_peer v) (ae_Entries (ac_req v)) resp r') as [_ _ _ Hmv];
        try done; try apply Hok; [by apply req_entries, Hv..|].
      simpl. destruct Hmv as [[? _]|[-> _]]; lia.
    + eapply server_safe_calls; try done. intros t m. apply acked_calls; [done|]. intros u Hu Ha.
      destruct (Hcs u Hu) as (u0 & ? & _ & ? & _ & ? & ? & _). exists u0. split_and!; done || congruence.
    + intros u Hu. destruct (Hcs u Hu) as (u0 & ? & ? & ? & ? & ? & ? & ?). exists u0. split_and!; try done. by left.
Qed.

(** ** The follower *)

(** A request that passes the check was cut from its leader's log. *)
Lemma check_cut h c k l T :
  append_safe members h c k -> recorded h T l -> prev_check l (ac_req k) None ->
  from_leader (h (ae_Term (ac_req k))) (ac_req k) /\
  ae_PrevLogIndex (ac_req k) <= len (h (ae_Term (ac_req k))) /\ ae_LeaderCommit (ac_req k) <= upto (ac_req k).
Proof.
  intros [[?|(Hp & Ht & _)] _ _] Hl Hc; [done|]. exfalso. inversion Hc as [|Hat| |]; [lia|].
  destruct (recorded_term _ _ _ _ _ Hl Hat). lia.
Qed.

(** What a log becomes by entries of the leader of term [t]. *)
Lemma merged_log h c l T req :
  safe h c -> recorded h T l -> req_ok req -> led c (ae_Term req) -> T <= ae_Term req ->
  from_leader (h (ae_Term req)) req -> prev_check l req None ->
  let l' := merge l (ae_Entries req) in
  recorded h (ae_Term req) l' /\ agree (upto req) l' (h (ae_Term req)) /\ upto req <= len l' /\
  (forall n, 0 <= n <= len l -> Committed h c T l n -> agree n l' l) /\
  (forall t m, t <= T -> 0 <= m <= len (h t) -> held h (led c) T l t m -> held h (led c) (ae_Term req) l' t m).
Proof.
  intros Hsafe Hl Hreq Hled HT Hcut Hchk l'. pose proof (check_continues _ _ Hreq Hchk) as Hcont.
  pose proof Hcut as [Hes _]. pose proof (check_meets _ _ _ Hreq Hcut Hchk) as Hmeet.
  pose proof (sa_sound _ _ _ _ Hsafe) as Hsnd.
  assert (log_matching (h (ae_Term req)) l) as Hlm by (by eapply recorded_matching).
  destruct (merge_matching (h (ae_Term req)) l _ _ Hcont Hes Hmeet Hlm) as [Hag _].
  split; [by eapply recorded_merge|]. split; [done|]. split; [by apply merge_len|]. split.
  - intros n Hn Hcm. apply (merge_keeps_prefix (h (ae_Term req)) l _ _ n Hcont Hes); [|done].
    apply (committed_led ids h (led c) (acked h c) (fun t => safe_well h c t Hsafe) T); done.
  - intros t m Ht Hm Hh. eapply held_merge; try done; apply Hm.
Qed.

Lemma merged_safe h c id s s' k (v v' : append_call) l :
  let req := ac_req v in let l' := merge l (ae_Entries req) in
  let c' := mkCluster (<[id := s']> (servers c)) (vote_calls c) (<[k := v']> (append_calls c)) (elected c) in
  cluster_ok c -> cluster_ok c' -> safe h c -> servers c !! id = Some s -> server_safe h c id s l ->
  append_calls c !! k = Some v -> ac_to v = id -> ac_from v' = ac_from v -> ac_to v' = ac_to v ->
  ac_peer v' = ac_peer v -> ac_req v' = req -> ac_taken v' = ac_taken v -> accepted v = false ->
  accepted v' = true -> currentTerm (sv_node s) <= ae_Term req -> prev_check l req None ->
  log_repr (logStore (sv_node s')) l' -> currentTerm (sv_node s') = ae_Term req ->
  state (sv_node s') = Follower -> (forall t n, sv_pos s' <> Campaigning t n) ->
  commitIndex (sv_node s') = (if commitIndex (sv_node s) <? ae_LeaderCommit req
    then Z.min (ae_LeaderCommit req) (len l') else commitIndex (sv_node s)) ->
  lastApplied (sv_node s') = lastApplied (sv_node s) -> fsm (sv_node s') = fsm (sv_node s) ->
  heap (sv_node s') = heap (sv_node s) -> next h c h c'.
Proof.
  intros req l' c' Hc Hc' Hsafe Hs Hl Hk Hto Ef' Eto' Epe' Ereq' Etk' Hna Hacc HT Hchk Hlog Et Est Hcamp Eci Ela Ef Eh.
  assert (v ∈ append_calls c) as Hin by (by eapply list_elem_of_lookup_2).
  pose proof (co_appends _ _ Hc v Hin) as Hv. pose proof (ak_req _ _ Hv) as Hreq. fold req in Hreq.
  pose proof (sa_appends _ _ _ _ Hsafe v Hin) as Hcall.
  destruct (check_cut h c v l (currentTerm (sv_node s)) Hcall) as (Hcut & Hprev & Hlc); [apply Hl|done|].
  fold req in Hcut, Hprev, Hlc.
  assert (led c (ae_Term req)) as Hled by (exists (ac_from v); apply Hv).
  destruct (merged_log h c l (currentTerm (sv_node s)) req) as (Hrec & Hag & Hlen & Hcm & Hheld); try done; [apply Hl|].
  fold l' in Hrec, Hag, Hlen, Hcm, Hheld.
  assert (goes_on h c h c' id s') as Hgo.
  { split; auto.
    - apply grows_refl.
    - apply Hsafe.
    - intros u Hu Ha. exists u. split_and!; try done. simpl.
      destruct (elem_of_insert_other _ k u v v' Hk Hu) as [->|?]; [congruence|done].
    - intros u Hu Ha. simpl in Hu. destruct (elem_of_insert _ _ _ _ Hu) as [->|?]; [right|left; by exists u].
      split; congruence. }
  pose proof Hl as [H1 H2 H3 H4 H5 H6 H7 H8 H9 H10].
  pose proof (Hcm _ H4 H5) as Hci.
  assert (commitIndex (sv_node s) <= len l') as Hcl by (apply (agree_len _ l); [by rewrite Hci|lia]).
  assert (commitIndex (sv_node s') = Z.max (commitIndex (sv_node s)) (ae_LeaderCommit req)) as Eci'.
  { rewrite Eci. destruct (Z.ltb_spec (commitIndex (sv_node s)) (ae_LeaderCommit req)); lia. }
  pose proof (as_nonneg _ _ _ _ Hcall) as Hnn. fold req in Hnn.
  apply (own_step h h c id s s' l'); try done.
  - by rewrite Et.
  - split; rewrite ?Et, ?Ela; try done.
    + congruence.
    + lia.
    + eapply go_committed; [exact Hgo|]. rewrite Eci'. destruct (Z.max_spec (commitIndex (sv_node s)) (ae_LeaderCommit req)) as [[_ ->]|[_ ->]].
      * apply (committed_agree' _ _ _ _ (h (ae_Term req))); [apply Hcall|]. by eapply agree_le.
      * apply (committed_agree' _ _ _ _ l); [|done]. by eapply committed_mono.
    + intros t m Ha. destruct (go_acked_inv _ _ _ _ _ _ _ Hc' Hgo _ _ _ Ha) as [Ha0|[_ Eu]].
      * destruct (H6 _ _ Ha0) as (? & Hm & Hh). split; [lia|]. split; [done|].
        eapply go_held; [exact Hgo|done|]. apply Hheld; [done| |done]. destruct Ha0; lia.
      * rewrite Et in Eu. subst t. split; [done|].
        assert (agree m l' (h (ae_Term req)) /\ m <= len (h (ae_Term req))) as [? ?]; [|split; [done|by left]].
        destruct Ha as [u Hu Hua Huto Hut Hum|? [? ?]].
        -- simpl in Hu. destruct (elem_of_insert _ _ _ _ Hu) as [->|Hu0].
           ++ rewrite Ereq' in Hum. split; [apply (agree_le (upto req)); [done|lia]|].
              pose proof (cut_bound _ _ Hcut Hprev Hreq). lia.
           ++ destruct (H6 (ae_Term req) m) as (Hle & Hm & Hh); [by eapply acked_call|]. split; [|done].
              destruct (Hheld (ae_Term req) m) as [?|(w & ? & _)]; try done; lia.
        -- simpl in *. destruct (H6 (ae_Term req) m) as (Hle & Hm & Hh); [by apply acked_self|]. split; [|done].
           destruct (Hheld (ae_Term req) m) as [?|(w & ? & _)]; try done; lia.
    + intros t n Hn. by destruct (Hcamp t n).
    + congruence.
    + eapply (applied_prefix (sv_node s)); try done; [by eapply agree_le|lia].
    + lia.
  - intros loc p. rewrite Eh. eauto.
  - intros u Hu. simpl in Hu. destruct (elem_of_insert _ _ _ _ Hu) as [->|?].
    + exists v. split_and!; try done; [congruence|]. right. split; rewrite ?Ereq'; try done.
      * by left.
      * eapply go_committed; [exact Hgo|]. apply Hcall.
    + exists u. split_and!; try done. by left.
Qed.

(** An entry request that is turned away, or accepted. *)
Lemma answer_append_safe h c k (v : append_call) c' :
  LogStoreReliable L -> cluster_ok c -> cluster_ok c' -> safe h c -> append_calls c !! k = Some v ->
  answer_append c k v = Ok c' -> next h c h c'.
Proof.
  intros Hrel Hc Hc' Hsafe Hk. unfold answer_append.
  assert (v ∈ append_calls c) as Hin by (by eapply list_elem_of_lookup_2).
  pose proof (co_appends _ _ Hc v Hin) as Hv. pose proof (ak_req _ _ Hv) as Hreq.
  destruct (servers c !! ac_to v) as [s|] eqn:Hs; [|by intros [= <-]].
  destruct (ac_resp v) as [|] eqn:Er; [by intros [= <-]|].
  intros ([s' a] & E & E')%obind_Ok. destruct (co_servers _ _ Hc _ _ Hs) as [_ Hok].
  destruct (rpc_turn_cases _ _ _ _ (so_role _ _ _ Hok) E) as [[-> ->]|(r1 & resp & b & E1 & -> & Hs')];
    [by injection E' as <-|].
  simpl in E1. apply obind_Ok in E1 as ([[r2 resp2] b2] & E1 & [= -> <- <-]). injection E' as <-.
  destruct (sa_servers _ _ _ _ Hsafe _ _ Hs) as [l Hl]. pose proof (so_inv _ _ _ Hok) as ((l0 & Hok0) & _).
  assert (node_ok (sv_node s) l) as Hokl by (destruct Hok0; split; try done; apply Hl).
  destruct (handleAppendEntries_effect (sv_node s) l (ac_req v) Hokl Hreq) as (r3 & resp3 & b3 & l' & E3 & Hok' & Hlt & Hge & _).
  rewrite E1 in E3. injection E3 as <- <- <-. destruct (rpc_pos_quiet s r1 s' Hs') as (Hu & Et & Est & _ & Hpos).
  assert (accepted v = false) as Hna by (unfold accepted; by rewrite Er).
  set (v' := mkAppendCall _ _ _ _ _ _) in *.
  assert (state r1 = Candidate -> currentTerm r1 = currentTerm (sv_node s)) as Hcand.
  { intros Hx. destruct (Z.lt_ge_cases (ae_Term (ac_req v)) (currentTerm (sv_node s))) as [H|H].
    - by destruct (Hlt H) as (-> & _).
    - destruct (Hge H) as (_ & _ & _ & Hf & _). congruence. }
  destruct (rpc_pos s r1 s' (so_role _ _ _ Hok) Hs' Hcand) as (_ & Hcamp & _).
  assert (ar_Success resp2 = false -> unmoved (sv_node s) r1 -> settles s s' ->
    next h c h (set_appends (set_server c (ac_to v) s') (<[k := v']> (append_calls c)))) as Hquiet.
  { intros Hf Hu1 Hset. assert (same_call v' v) as Hsame by (split_and!; try done; by rewrite Hna).
    destruct (calls_insert (append_calls c) k v v' Hk Hsame) as [Hcs Hcs'].
    apply (quiet_safe members f0 h c (ac_to v) s s'); try done.
    - split; [by eapply unmoved_trans|done|done].
    - intros u Hu'. exists u. split_and!; try done. by left. }
  destruct (Z.lt_ge_cases (ae_Term (ac_req v)) (currentTerm (sv_node s))) as [Hst|Hle].
  { destruct (Hlt Hst) as (-> & _ & _ & ->). apply Hquiet; [done|apply unmoved_refl|].
    split; [intros t n Hn; exists n; by apply Hcamp|lia|]. intros Hx. split; congruence. }
  destruct (Hge Hle) as (_ & Et1 & _ & Ef & _ & Hrest & _ & ch & Hchk & Hcase).
  assert (forall t n, sv_pos s' <> Campaigning t n) as Hnc by (intros t n Hn; destruct (Hcamp t n Hn); congruence).
  destruct Hrest as (_ & Ela & Ep & Eh & Efsm & _). destruct ch as [[ct cj]|].
  { destruct Hcase as (-> & -> & Eci). apply Hquiet; [done| |].
    - split; try done; [|by apply records_same]. intros k1 Hk1.
      rewrite (repr_unique _ _ _ Hk1 (ok_log _ _ Hokl)). apply Hok'.
    - split; [intros t n Hn; by destruct (Hnc t n)|lia|]. congruence. }
  destruct (ar_Success resp2) eqn:Esucc; [|by destruct Hcase as (_ & [] & _)].
  destruct Hcase as [-> Eci]. destruct Hu as [F1 F2 F3 F4 [F5 F6]].
  apply (merged_safe h c (ac_to v) s s' k v v' l); try done; try congruence.
  - apply F1, Hok'.
  - assert (heap (sv_node s') = heap r1) as ->; [|done].
    destruct (sv_pos s) as [| | |? ?| | | |]; try done; subst s'; by destruct (decide _).
Qed.

End LogEvents.
