(* ===== verification/LogAgreement.v ===== *)
(** * Raft: agreement of the logs of a cluster

    Elections keep the invariant of [LogSafety.v]; with the events of
    [LogSteps.v] and [LogEvents.v] every run does ([careful_step]).  So all
    servers agree on what is committed, their state machines on what is
    applied, and a leader has everything committed before it was elected. *)

From S2P Require Import Prelude Binary Store RaftTypes Node Election Logs Replication Append Leader Loops Cluster Runs Candidate Moves Turns ElectionSafety Committed History LogSafety LogSteps LogEvents.

Section LogAgreement.
Context {L S F R : Type} `{!LogStore L} `{!StableStore S} `{!FSM F R}.
Context `{!LogStoreLaws L} `{!LogStoreTruncates L} `{!StableStoreLaws S}.
Abbreviation Node := (RaftNode L S F R).
Abbreviation Server := (server (L := L) (S := S) (F := F) (R := R)).
Abbreviation Cluster := (cluster (L := L) (S := S) (F := F) (R := R)).
Abbreviation Event := (event (F := F)).
Context (members : list PeerConfig) (f0 : F).
Implicit Types (r : Node) (s : Server) (c : Cluster) (id v : bytes) (t m : Z) (h : history).

Abbreviation ids := (map pc_ID members).
Abbreviation server_ok := (server_ok members).
Abbreviation cluster_ok := (cluster_ok members).
Abbreviation safe := (safe members f0).
Abbreviation next := (next members f0).
Abbreviation server_safe := (server_safe members f0).
Abbreviation Committed h c := (committed ids h (acked h c)).

(** ** A leader is elected *)

Section Elected.
Context (h : history) (c : Cluster) (id : bytes) (s s' : Server) (vs : list vote_call) (l : list LogEntry) (t : Z).
Let c' : Cluster := mkCluster (<[id := s']> (servers c)) vs (append_calls c) ((t, id) :: elected c).
Context (Hc : cluster_ok c) (Hc' : cluster_ok c') (Hsafe : safe h c).
Context (Hs : servers c !! id = Some s) (Hl : server_safe h c id s l).
Context (Hnew : (t, id) ∉ elected c) (H1 : 1 <= t).
Context (Hterm : currentTerm (sv_node s) <= t) (Hterm' : currentTerm (sv_node s') = t).
Context (Hpos : sv_pos s' = AtRun) (Hu : unmoved (sv_node s) (sv_node s')).
Context (Hvs : forall k, k ∈ vs ->
  (exists k0, k0 ∈ vote_calls c /\ vc_from k = vc_from k0 /\ vc_to k = vc_to k0 /\ vc_req k = vc_req k0 /\
     (grant k = true -> grant k0 = true)) \/ vc_from k = id /\ grant k = false).
Context (Hinfo : forall k, k ∈ vote_calls c -> vc_from k = id -> rv_Term (vc_req k) = t ->
  last_info l = (rv_LastLogIndex (vc_req k), rv_LastLogTerm (vc_req k))).

Let h' := extend h t l.

Lemma nobody_led : ~ led c t.
Proof.
  intros [y Hy]. assert (y = id) as ->; [|done]. apply (elected_once members c' t); [done|by right|left].
Qed.

Lemma history_empty : h t = [].
Proof.
  destruct (decide (h t = [])) as [|Hne]; [done|]. by destruct nobody_led; apply (sa_led _ _ _ _ Hsafe).
Qed.

Lemma no_own_entries i : term_at l i <> Some t.
Proof.
  intros E. pose proof (recorded_reaches _ _ _ _ _ (ss_recorded _ _ _ _ _ _ _ Hl) E) as Hr.
  rewrite history_empty in Hr. apply term_at_Some in E. change (len []) with 0 in Hr. lia.
Qed.

Lemma elected_goes_on : goes_on h c h' c' id s'.
Proof.
  split.
  - apply grows_elected; [apply history_empty|apply nobody_led].
  - apply (sound_elected (led c)); [apply Hsafe|apply history_empty|apply nobody_led|].
    eapply recorded_mono; [apply Hl|done].
  - intros u. destruct (decide (u = t)) as [->|Hne]; [right|left; by apply extend_ne].
    split; [done|left].
  - intros x Hx. by right.
  - intros x [->|Hx]%elem_of_cons; [right; by rewrite Hterm'|by left].
  - intros k Hk Ha. by exists k.
  - intros k Hk Ha. left. by exists k.
Qed.

Lemma elected_server : server_safe h' c' id s' l.
Proof.
  pose proof elected_goes_on as Hgo. destruct Hu as [E1 E2 E3 E4 E5].
  destruct Hl as [G1 G2 G3 G4 G5 G6 G7 G8 G9 G10]. assert (h' t = l) as Eh by apply extend_eq.
  split; rewrite ?Hterm', ?E2, ?E3; try done.
  - by apply E1.
  - eapply recorded_mono; [|exact Hterm]. by eapply recorded_grows; [apply Hgo|].
  - eapply committed_mono; [by eapply go_committed|done].
  - intros u m Ha. destruct (go_acked_inv _ _ _ _ _ _ _ Hc' Hgo _ _ _ Ha) as [Ha0|[_ Eu]].
    + destruct (G6 _ _ Ha0) as (? & Hm & Hh). split; [lia|].
      pose proof (grows_len _ _ _ (go_grows _ _ _ _ _ _ Hgo) u). split; [lia|].
      eapply held_mono; [|exact Hterm]. by eapply go_held.
    + rewrite Hterm' in Eu. subst u. split; [done|]. rewrite Eh. destruct Ha as [k Hk Hacc Hto Ht Hm|Hel Hm].
      * assert (acked h c id t m) as Ha0 by (by eapply acked_call).
        destruct (G6 _ _ Ha0) as (_ & Hm0 & _). rewrite history_empty in Hm0. change (len []) with 0 in Hm0.
        pose proof (len_nonneg l). split; [lia|]. left. by apply agree_zero.
      * rewrite Eh in Hm. split; [lia|]. left. by rewrite Eh.
  - intros u n Hn. congruence.
  - intros _. right. rewrite Hpos, Hterm'. split_and!; [done|done|]. intros i. apply no_own_entries.
  - unfold fsm_applied in *. by rewrite E3, E4.
Qed.

(** Each of the majority had nothing acknowledged that is not in the log. *)
Lemma elected_won : won members h' c' t.
Proof.
  pose proof elected_goes_on as Hgo.
  destruct (co_majority _ _ Hc' t id) as (_ & q & Hnd & Hsub & Hlen & Hq); [left|].
  exists q. split_and!; try done. intros v Hv.
  assert (voted c' v t id) as Hvote.
  { destruct (Hq v Hv) as [->|?]; [apply voted_won; left|by apply voted_call]. }
  destruct (co_voted _ _ Hc' _ _ _ Hvote) as (_ & u & Hu' & Hle & _). split; [by exists u|].
  intros w m Ha Hw Hm. destruct (go_acked_inv _ _ _ _ _ _ _ Hc' Hgo _ _ _ Ha) as [Ha0|[_ Ew]]; [|lia].
  unfold h' in Hm. rewrite extend_ne in Hm by lia. pose proof (term_at_Some _ _ _ Hm) as Hmb.
  eapply go_held; [exact Hgo|lia|]. unfold h'. rewrite extend_eq.
  assert (held h (led c) t l w m) as [?|Ho]; [|by left|right; apply overtaken_before; [done|apply nobody_led]].
  destruct (Hq v Hv) as [->|(k & Hk & Hto & Ht & Hfrom & Hg)].
  - destruct (ss_acked _ _ _ _ _ _ _ Hl _ _ Ha0) as (_ & _ & Hh). by eapply held_mono.
  - destruct (Hvs k Hk) as [(k0 & Hk0 & F1 & F2 & F3 & Fg)|[_ ?]]; [|congruence].
    rewrite F1 in Hfrom. rewrite F2 in Hto. rewrite F3 in Ht. subst v.
    destruct (sa_votes _ _ _ _ Hsafe k0 Hk0 (Fg Hg) w m Ha0) as [Hup|Ho]; [lia|done| |right; by rewrite <-Ht].
    rewrite <-(Hinfo k0 Hk0 Hfrom Ht) in Hup.
    apply candidate_covers; try done; [apply Hsafe|apply Hsafe| |].
    + eapply recorded_mono; [apply Hl|done].
    + eapply repr_numbered, Hl.
Qed.

Lemma elected_safe : next h c h' c'.
Proof.
  pose proof elected_goes_on as Hgo.
  apply (safe_step members f0 h h' c c' id s s' Hc' Hgo Hc Hsafe Hs) with (l' := l); try done.
  - by rewrite Hterm'.
  - apply elected_server.
  - intros k Hk. destruct (Hvs k Hk) as [(k0 & ? & ? & ? & ? & ?)|[? Hg]].
    + split; left; by exists k0.
    + split; [by right|]. right. intros Hg'. congruence.
  - intros k Hk. left. by exists k.
  - intros k Hk Ht. destruct (sa_calls _ _ _ _ Hsafe k Hk Ht) as (u & p & Hu' & Hp & Hat).
    destruct (decide (ac_from k = id)) as [Eid|Hne].
    + rewrite Eid in *. rewrite Hs in Hu'. injection Hu' as <-. destruct (un_records _ _ Hu) as [_ Hrec].
      destruct (Hrec _ _ Hp) as (p' & ? & Ea & _). exists s', p'. simpl. rewrite lookup_insert_eq, Ea. done.
    + exists u, p. simpl. by rewrite lookup_insert_ne.
  - right. right. rewrite Hterm'. split; [done|]. apply elected_won.
Qed.

End Elected.

(** A call whose answer is taken. *)
Lemma taken_votes (vs : list vote_call) k (v : vote_call) resp u :
  vs !! k = Some v -> vc_resp v = Some resp ->
  u ∈ <[k := mkVoteCall (vc_from v) (vc_to v) (vc_req v) (Some resp) true]> vs ->
  exists k0, k0 ∈ vs /\ vc_from u = vc_from k0 /\ vc_to u = vc_to k0 /\ vc_req u = vc_req k0 /\
    (grant u = true -> grant k0 = true).
Proof.
  intros Hk Er Hu. destruct (elem_of_insert _ _ _ _ Hu) as [->|?]; [|by exists u].
  exists v. split; [by eapply list_elem_of_lookup_2|]. split_and!; try done. unfold grant. by rewrite Er.
Qed.

Lemma take_vote_safe h c k (v : vote_call) c' :
  cluster_ok c -> cluster_ok c' -> safe h c -> vote_calls c !! k = Some v -> take_vote c k v = Ok c' ->
  exists h', next h c h' c'.
Proof.
  intros Hc Hc' Hsafe Hk. unfold take_vote.
  assert (v ∈ vote_calls c) as Hin by (by eapply list_elem_of_lookup_2).
  pose proof (co_votes _ _ Hc v Hin) as Hv.
  destruct (servers c !! vc_from v) as [s|] eqn:Hs; [|intros [= <-]; by exists h].
  destruct (vc_resp v) as [resp|] eqn:Er; [|intros [= <-]; by exists h].
  destruct (vc_taken v); [intros [= <-]; by exists h|].
  destruct (sv_pos s) as [| | |t n| | | |] eqn:Ep; try (intros [= <-]; by exists h).
  destruct (Z.eqb_spec (rv_Term (vc_req v)) t) as [Ht|Ht]; [|intros [= <-]; by exists h].
  intros (s' & E & [= <-])%obind_Ok. destruct (co_servers _ _ Hc _ _ Hs) as [_ Hok].
  destruct (sa_servers _ _ _ _ Hsafe _ _ Hs) as [l Hl].
  assert (currentTerm (sv_node s) = t /\ state (sv_node s) <> Leader) as [Hterm Hnl].
  { pose proof (so_role _ _ _ Hok) as Hr. unfold role_ok in Hr. by rewrite Ep in Hr. }
  destruct (ss_campaign _ _ _ _ _ _ _ Hl t n Ep) as (H1 & Hnew & Hinfo).
  pose proof (vk_resp _ _ _ Hv _ Er) as Hu.
  destruct (count_vote_cases members _ _ _ _ _ _ Hok Ep Hu E) as [_ [[Hst Hpos]|(_ & _ & ->)]].
  - assert (state (sv_node s') <> Leader) as Hnl'.
    { intros Hx. by destruct Hst as [[_ ?]|(_ & _ & H)]; [|apply Hnl, H]. }
    rewrite note_follower in Hc' |- * by done. exists h.
    destruct (count_vote_quiet members _ _ _ _ _ _ Hok Ep Hu E) as [->|[Hun Hnp]]; [done|].
    destruct (vote_stays_settles _ _ Hst) as [? ?].
    apply (quiet_safe members f0 h c (vc_from v) s s'); try done.
    + split; [done| |by intros ?]. split; try done. intros t' n' Hp. destruct (Hpos _ _ Hp) as [-> _]. by exists n.
    + intros u Hin'. destruct (taken_votes _ _ _ _ _ Hk Er Hin') as (k0 & ? & ? & ? & ? & ?).
      exists k0. split_and!; try done. left. by split.
    + intros u ?. exists u. split; [done|apply same_call_refl].
    + intros u ?. exists u. split; [done|apply same_call_refl].
  - unfold note_leader in *. cbn [sv_node state becomeLeader set_leader set_state currentTerm] in *.
    rewrite bool_decide_true in Hc' |- * by done. simpl in Hc' |- *. rewrite Hterm in Hc' |- *.
    exists (extend h t l).
    apply (elected_safe h c (vc_from v) s (mkSv (becomeLeader (sv_node s)) AtRun)); try done.
    + lia.
    + split; try done. by apply records_same.
    + intros u Hin'. left. by eapply taken_votes.
Qed.

(** ** An election is held *)

Lemma election_unmoved id s x req addrs l :
  server_ok id s -> sv_pos s = Electing -> currentTerm (sv_node s) < MaxUint64 ->
  log_repr (logStore (sv_node s)) l -> runCandidate (sv_node s) [] = Ok (x, req, addrs) ->
  let s' := after x (Campaigning (rv_Term req) 1) in
  unmoved (sv_node s) (sv_node s') /\ last_info l = (rv_LastLogIndex req, rv_LastLogTerm req) /\
  (state (sv_node s') = Leader -> sv_pos s' = AtRun) /\
  (sv_pos s' = AtRun \/ exists t n, sv_pos s' = Campaigning t n).
Proof.
  intros Hok Hp Hmax Hl E. pose proof (so_role _ _ _ Hok) as Hr. unfold role_ok in Hr. rewrite Hp in Hr.
  pose proof (so_inv _ _ _ Hok) as ((l0 & Hok0) & _).
  assert (node_ok (sv_node s) l) as Hokl by (destruct Hok0; by split).
  unfold runCandidate in E.
  destruct (startElection_effect _ l Hokl Hmax) as (r1 & E1 & Hl1 & Hsr & _ & _ & Es & _).
  rewrite E1 in E. cbn [obind] in E. apply obind_Ok in E as (x' & Ex & [= <- <- <-]).
  pose proof (unmoved_rest _ _ Hsr) as Hu.
  assert (last_info l = ((last_info l).1, (last_info l).2)) as Hi by (by destruct (last_info l)).
  destruct (_ <=? 1).
  - injection Ex as <-. unfold after. simpl. split_and!; try done; [|by left].
    eapply unmoved_trans; [exact Hu|]. split; try done. by apply records_same.
  - case_bool_decide as Hcd; injection Ex as <-; unfold after; simpl; (split_and!; try done); [|right; eauto|by left].
    congruence.
Qed.

Lemma elect_safe h c id s c' :
  members_ok members -> cluster_ok c -> cluster_ok c' -> safe h c -> servers c !! id = Some s ->
  sv_pos s = Electing -> currentTerm (sv_node s) < MaxUint64 -> elect members c id s = Ok c' ->
  exists h', next h c h' c'.
Proof.
  intros Hm Hc Hc' Hsafe Hs Hp Hmax. unfold elect. intros ([[x req] addrs] & E & [= <-])%obind_Ok.
  destruct (co_servers _ _ Hc _ _ Hs) as [_ Hok]. destruct (sa_servers _ _ _ _ Hsafe _ _ Hs) as [l Hl].
  destruct (election_cases members _ _ _ _ _ Hok Hp Hmax E) as (_ & Ht & _ & _ & Hterm & _ & Hpos & _).
  destruct (election_unmoved _ _ _ _ _ l Hok Hp Hmax (ss_log _ _ _ _ _ _ _ Hl) E) as (Hu & Hi & Hlp & Hwhere).
  set (s' := after x _) in *. clearbody s'. set (t := rv_Term req) in *.
  set (calls := map (fun to => mkVoteCall id to req None false) _) in *.
  assert (forall k, k ∈ calls -> vc_from k = id /\ vc_req k = req /\ grant k = false) as Hcalls.
  { intros k (to & -> & _)%list_elem_of_fmap. done. }
  assert (forall k, k ∈ vote_calls c -> vc_from k = id -> rv_Term (vc_req k) <> t) as Hold.
  { intros k Hk Hf E'. destruct (vk_from _ _ _ (co_votes _ _ Hc k Hk)) as (u & Hu' & Hle).
    rewrite Hf, Hs in Hu'. injection Hu' as <-. lia. }
  assert ((t, id) ∉ elected c) as Hnew.
  { intros Hx. destruct (co_voted _ _ Hc id t id) as (_ & u & Hu' & Hle & _); [by apply voted_won|].
    rewrite Hs in Hu'. injection Hu' as <-. lia. }
  assert (1 <= t) as H1.
  { pose proof (so_inv _ _ _ Hok) as ((l0 & Hok0) & _). pose proof (ok_term _ _ Hok0). int_unfold. lia. }
  assert (forall k, k ∈ vote_calls c ++ calls ->
    (exists k0, k0 ∈ vote_calls c /\ vc_from k = vc_from k0 /\ vc_to k = vc_to k0 /\ vc_req k = vc_req k0 /\
       (grant k = true -> grant k0 = true)) \/ vc_from k = id /\ grant k = false) as Hvs.
  { intros k [Hk|Hk]%elem_of_app; [left; by exists k|right]. by destruct (Hcalls k Hk) as (? & _ & ?). }
  unfold note_leader in *. simpl in *. case_bool_decide as Hlead.
  { rewrite Hterm in Hc' |- *. exists (extend h t l).
    apply (elected_safe h c id s s'); try done; [lia|auto|].
    intros k Hk Hf E'. by destruct (Hold k Hk Hf). }
  exists h. set (c' := mkCluster _ _ _ _) in *.
  assert (goes_on h c h c' id s') as Hgo.
  { split; try done; auto.
    - apply grows_refl.
    - apply Hsafe.
    - intros k Hk Ha. by exists k.
    - intros k Hk Ha. left. by exists k. }
  apply (safe_step members f0 h h c c' id s s' Hc' Hgo Hc Hsafe Hs) with (l' := l); try done.
  - lia.
  - destruct Hu as [E1 E2 E3 E4 E5]. pose proof Hl as [G1 G2 G3 G4 G5 G6 G7 G8 G9 G10].
    split; rewrite ?E2, ?E3; try done.
    + by apply E1.
    + eapply recorded_mono; [done|lia].
    + eapply committed_mono; [by eapply go_committed|lia].
    + intros u m Ha. destruct (G6 u m) as (? & ? & Hh).
      { eapply acked_calls; [..|exact Ha]; [done|]. intros k Hk Hacc. by exists k. }
      split; [lia|]. split; [done|]. eapply held_mono; [by eapply go_held|lia].
    + intros u n Hn. destruct (Hpos _ _ Hn) as [-> _]. split; [done|]. split; [done|].
      intros k [Hk|Hk]%elem_of_app Hf E'; [by destruct (Hold k Hk Hf)|].
      destruct (Hcalls k Hk) as (_ & -> & _). done.
    + unfold fsm_applied in *. by rewrite E3, E4.
  - intros k Hk. destruct (Hvs k Hk) as [(k0 & ? & ? & ? & ? & ?)|[? Hg]].
    + split; left; by exists k0.
    + split; [by right|]. right. intros Hg'. congruence.
  - intros k Hk. left. by exists k.
  - intros k Hk Htk. destruct (sa_calls _ _ _ _ Hsafe k Hk Htk) as (u & p & Hu' & Hq & Hat).
    destruct (decide (ac_from k = id)) as [Eid|Hne].
    + rewrite Eid in *. rewrite Hs in Hu'. injection Hu' as <-. destruct (un_records _ _ Hu) as [_ Hrec].
      destruct (Hrec _ _ Hq) as (p' & ? & Ea & _). exists s', p'. simpl. rewrite lookup_insert_eq, Ea. done.
    + exists u, p. simpl. by rewrite lookup_insert_ne.
  - right. left. by rewrite Hterm.
Qed.

(** ** A client's command is appended *)

Lemma quiet_event_safe h c id s s' :
  cluster_ok c -> cluster_ok (set_server c id s') -> safe h c -> servers c !! id = Some s -> quiet s s' ->
  next h c h (set_server c id s').
Proof.
  intros Hc Hc' Hsafe Hs Hq. apply (at_server_safe members f0 h c id (fun _ => Ok s')); try done.
  - intros u u' Hu [= <-]. congruence.
  - unfold at_server. by rewrite Hs.
Qed.

Lemma same_server_safe h c id s :
  cluster_ok c -> cluster_ok (set_server c id s) -> safe h c -> servers c !! id = Some s ->
  next h c h (set_server c id s).
Proof. intros. eapply quiet_event_safe; try done. apply quiet_refl. Qed.

Lemma apply_event_safe h c id s s' :
  cluster_ok c -> safe h c -> servers c !! id = Some s -> log_room (sv_node s) ->
  (match sv_pos s with
   | Leading => let! x := leader_select (sv_node s) [LeApply] in Ok (after x Leading)
   | _ => Ok s
   end) = Ok s' ->
  cluster_ok (set_server c id s') -> exists h', next h c h' (set_server c id s').
Proof.
  intros Hc Hsafe Hs Hroom E Hc'.
  assert (quiet s s' -> exists h', next h c h' (set_server c id s')) as Hquiet.
  { intros Hq. exists h. by eapply quiet_event_safe. }
  destruct (sv_pos s) eqn:Hp; try (injection E as <-; apply Hquiet, quiet_refl).
  destruct (co_servers _ _ Hc _ _ Hs) as [_ Hok]. destruct s as [r pos]. simpl in *. subst pos.
  destruct (applyCh r) as [|q rest]; [injection E as <-; apply Hquiet, quiet_refl|].
  apply obind_Ok in E as (x & Ex & [= <-]). apply obind_Ok in Ex as (r1 & E1 & Ex).
  pose proof (so_inv _ _ _ Hok) as ((l0 & Hok0) & _). simpl in Hok0.
  assert (node_ok (set_applyCh r rest) l0) as Hok1 by (destruct Hok0; by split).
  pose proof (handleApplyRequest_appends _ _ _ _ Hok1 Hroom E1) as [A1 A2 A3 A4 A5 A6 A7].
  assert (appends r r1) as Happ by (by split).
  destruct (decide (state r = Leader)) as [Hlead|Hnl].
  - rewrite bool_decide_true in Ex by (rewrite A2; done). injection Ex as <-.
    apply (leader_step_safe members f0 h c id (mkSv r Leading)); try done. by right.
  - rewrite bool_decide_false in Ex by (rewrite A2; done). injection Ex as <-. unfold after in *. simpl in *.
    assert (forall l, log_repr (logStore r) l -> log_repr (logStore r1) l) as Hsame.
    { unfold handleApplyRequest in E1. rewrite bool_decide_false in E1 by done. by injection E1 as <-. }
    apply Hquiet. split; [split; try done| |by intros [|]].
    + split; [by intros t n [=]|simpl in *; lia|]. simpl in *. congruence.
Qed.

(** ** Every event *)

(** What [orderly] asks, and: a new leader's no-op is appended while it
    leads; an acceptance is processed by the leader it was given to, in the
    term of the request; a restarted server starts from the initial state
    machine. *)
Definition careful c (e : Event) : Prop :=
  orderly c e /\
  match e with
  | EvAnnounce id => forall s, servers c !! id = Some s -> sv_pos s = Announcing -> state (sv_node s) = Leader
  | EvAppendResponse k =>
      forall (v : append_call) s resp, append_calls c !! k = Some v -> servers c !! ac_from v = Some s ->
        ac_taken v = false -> ac_resp v = Some resp -> ar_Success resp = true ->
        state (sv_node s) = Leader /\ currentTerm (sv_node s) = ae_Term (ac_req v)
  | EvRestart _ f => f = f0
  | _ => True
  end.

Inductive careful_step c : Cluster -> Prop :=
| careful_turn e c' : careful c e -> turn members c e = Ok c' -> careful_step c c'.

(** Servers that have just started, on empty logs. *)
Record brand_new c : Prop := {
  bn_initial : initial members c;
  bn_servers : forall id s, servers c !! id = Some s ->
    log_repr (logStore (sv_node s)) [] /\ commitIndex (sv_node s) = 0 /\ lastApplied (sv_node s) = 0 /\
    fsm (sv_node s) = f0
}.

(** An event of one server, when it is quiet. *)
Lemma own_event_safe h c id f c' :
  cluster_ok c -> cluster_ok c' -> safe h c ->
  (forall s s', servers c !! id = Some s -> server_ok id s -> f s = Ok s' -> quiet s s') ->
  at_server c id f = Ok c' -> exists h', next h c h' c'.
Proof.
  intros Hc Hc' Hsafe Hf E. exists h. apply (at_server_safe members f0 h c id f); try done. intros s s1 Hs. apply Hf; [done|].
  by apply (co_servers _ _ Hc).
Qed.

(** One of the node. *)
Lemma node_event_safe h c id (f : Node -> Node) c' :
  cluster_ok c -> cluster_ok c' -> safe h c ->
  (forall s, server_ok id s -> unmoved (sv_node s) (f (sv_node s)) /\ moved (sv_node s) (f (sv_node s)) /\
     currentTerm (f (sv_node s)) = currentTerm (sv_node s)) ->
  at_node c id (fun r => Ok (f r)) = Ok c' -> exists h', next h c h' c'.
Proof.
  intros Hc Hc' Hsafe Hf E. refine (own_event_safe h c id _ c' Hc Hc' Hsafe _ E). intros s s' _ Hok [= <-].
  destruct (Hf s Hok) as (? & ? & ?). by apply (quiet_node members id).
Qed.

Lemma turn_safe h c e c' :
  StableStoreReliable S -> LogStoreReliable L -> members_ok members -> cluster_ok c -> safe h c ->
  careful c e -> turn members c e = Ok c' -> exists h', next h c h' c'.
Proof.
  intros Hrel Hlrel Hm Hc Hsafe [Ho Hca] E.
  assert (cluster_ok c') as Hc' by (by eapply turn_ok).
  destruct e as [id|id|id|id|id|id|k|k|id|id peer|k|k|id|id|id data ap|id fut b|id|id f]; cbn [turn] in E; simpl in Ho.
  - refine (own_event_safe h c id _ c' Hc Hc' Hsafe _ E). intros s s' _ Hok [= <-]. by eapply dispatch_quiet.
  - destruct (servers c !! id) as [[r pos]|] eqn:Hs; [|injection E as <-; by exists h].
    destruct pos; try (injection E as <-; by exists h). apply (elect_safe h c id (mkSv r Electing)); try done. by apply (Ho _ eq_refl).
  - refine (own_event_safe h c id _ c' Hc Hc' Hsafe _ E). intros s s' _ Hok. by eapply timeout_quiet.
  - refine (own_event_safe h c id _ c' Hc Hc' Hsafe _ E). intros s s' _ Hok. by eapply stop_quiet.
  - unfold at_server in E. destruct (servers c !! id) as [s|] eqn:Hs; [|injection E as <-; by exists h].
    apply obind_Ok in E as (s' & E & [= <-]). exists h. destruct (sv_pos s) eqn:Hp;
      try (injection E as <-; by apply same_server_safe).
    apply obind_Ok in E as (r & E & [= <-]). by apply (office_safe members f0 h c id s).
  - unfold at_server in E. destruct (servers c !! id) as [s|] eqn:Hs; [|injection E as <-; by exists h].
    apply obind_Ok in E as (s' & E & [= <-]). destruct (sv_pos s) eqn:Hp;
      try (injection E as <-; exists h; by apply same_server_safe).
    apply obind_Ok in E as (r & E & [= <-]). destruct (co_servers _ _ Hc _ _ Hs) as [_ Hok].
    pose proof (so_inv _ _ _ Hok) as ((l0 & Hok0) & _).
    pose proof (appendNoOp_appends _ _ _ Hok0 (Ho _ eq_refl) E) as Happ.
    pose proof (Hca _ eq_refl Hp) as Hlead. pose proof (ap_state _ _ Happ) as Est.
    rewrite bool_decide_true in Hc' |- * by congruence. apply (leader_step_safe members f0 h c id s); try done. by left.
  - destruct (vote_calls c !! k) as [v|] eqn:Hk; [|injection E as <-; by exists h].
    exists h. by apply (answer_vote_safe members f0 h c k v).
  - destruct (vote_calls c !! k) as [v|] eqn:Hk; [|injection E as <-; by exists h]. by apply (take_vote_safe h c k v).
  - refine (own_event_safe h c id _ c' Hc Hc' Hsafe _ E). intros s s' _ Hok. destruct (sv_pos s) eqn:Hp; try (intros [= <-]; apply quiet_refl).
    intros (x & Ex & [= <-])%obind_Ok. by eapply closed_quiet.
  - destruct (servers c !! id) as [s|] eqn:Hs; [|injection E as <-; by exists h].
    exists h. by apply (send_append_safe members f0 h c id peer s).
  - destruct (append_calls c !! k) as [v|] eqn:Hk; [|injection E as <-; by exists h].
    exists h. by apply (answer_append_safe members f0 h c k v).
  - destruct (append_calls c !! k) as [v|] eqn:Hk; [|injection E as <-; by exists h].
    exists h. apply (take_append_safe members f0 h c k v); try done.
    + intros s resp Hs Ht Hr Hsucc. by eapply Hca.
    + intros s resp t n Hs Hr Hp. by eapply Ho.
  - unfold at_server in E. destruct (servers c !! id) as [s|] eqn:Hs; [|injection E as <-; by exists h].
    apply obind_Ok in E as (s' & E & [= <-]). apply (apply_event_safe h c id s); try done. by apply Ho.
  - unfold at_node, at_server in E. destruct (servers c !! id) as [s|] eqn:Hs; [|injection E as <-; by exists h].
    apply obind_Ok in E as (s' & E & [= <-]). apply obind_Ok in E as (r' & E & [= <-]). exists h.
    destruct (Z.ltb_spec (lastApplied (sv_node s)) (commitIndex (sv_node s))) as [Hlt|_].
    + by apply (applied_safe members f0 h c id s).
    + injection E as <-. apply (quiet_event_safe h c id s); try done. destruct s. apply quiet_refl.
  - refine (node_event_safe h c id (fun r => (Apply r data ap).1) c' Hc Hc' Hsafe _ E). intros s [Hi Hh _ _ _].
    split; [apply client_unmoved|]. split; [by apply Apply_moves|]. by destruct (Apply_same (sv_node s) data ap) as ((-> & _) & _).
  - refine (node_event_safe h c id (fun r => apply_watch r fut b) c' Hc Hc' Hsafe _ E). intros s [Hi Hh _ _ _].
    split; [apply watch_unmoved|]. split; [by apply watch_moves|done].
  - refine (node_event_safe h c id Shutdown c' Hc Hc' Hsafe _ E). intros s [Hi Hh _ _ _].
    split; [apply Shutdown_unmoved|]. split; [by apply Shutdown_moves|]. unfold Shutdown. by destruct (shutdownCh _).
  - destruct (servers c !! id) as [s|] eqn:Hs; [|injection E as <-; by exists h]. injection E as <-.
    subst f. exists h. by apply (restarted_safe members f0 h c id s).
Qed.

Lemma careful_orderly c e : careful c e -> orderly c e.
Proof. by intros [? _]. Qed.

Lemma brand_new_safe c : brand_new c -> safe (fun _ => []) c.
Proof.
  intros [[Hs [Hv Ha] He] Hb].
  assert (forall t, ~ led c t) as Hno by (intros t [x Hx]; rewrite He in Hx; by apply elem_of_nil in Hx).
  assert (forall v t m, ~ acked (fun _ => []) c v t m) as Hnoack.
  { intros v t m [k Hk _ _ _ _|Hx _]; [rewrite Ha in Hk|rewrite He in Hx]; by eapply elem_of_nil. }
  split.
  - intros t. apply recorded_nil.
  - done.
  - intros t Hl. by destruct (Hno t).
  - intros id s E. destruct (Hs _ _ E) as (_ & _ & Hp & Hst). destruct (Hb _ _ E) as (Hl & Hci & Hla & Hf).
    exists []. split; rewrite ?Hci, ?Hla; try done.
    + apply recorded_nil.
    + by left.
    + intros t m Hm. by destruct (Hnoack id t m).
    + intros t n Hn. congruence.
    + congruence.
    + unfold fsm_applied. by rewrite Hla, Hf.
  - intros k Hk. rewrite Hv in Hk. by apply elem_of_nil in Hk.
  - intros k Hk. rewrite Ha in Hk. by apply elem_of_nil in Hk.
  - intros k Hk. rewrite Ha in Hk. by apply elem_of_nil in Hk.
  - intros t Hl. by destruct (Hno t).
Qed.

Lemma run_safe h c c' :
  StableStoreReliable S -> LogStoreReliable L -> members_ok members -> cluster_ok c -> safe h c ->
  rtc careful_step c c' -> cluster_ok c' /\ exists h', next h c h' c'.
Proof.
  intros Hrel Hlrel Hm Hc Hsafe Hrun. revert h Hc Hsafe.
  induction Hrun as [c|c1 c2 c3 [e c2' Hca E] _ IH]; intros h Hc Hsafe; [split; [done|by exists h]|].
  destruct (turn_safe h c1 e c2' Hrel Hlrel Hm Hc Hsafe Hca E) as (h2 & Hsafe2 & Hk2).
  assert (cluster_ok c2') as Hc2 by (eapply turn_ok; [done|done|exact Hc|by apply careful_orderly|done]).
  destruct (IH h2 Hc2 Hsafe2) as (Hc3 & h3 & Hsafe3 & Hk3). split; [done|]. exists h3. split; [done|]. auto.
Qed.

Lemma reachable_safe c0 c :
  StableStoreReliable S -> LogStoreReliable L -> members_ok members -> brand_new c0 ->
  rtc careful_step c0 c -> cluster_ok c /\ exists h, safe h c.
Proof.
  intros Hrel Hlrel Hm Hnew Hrun.
  destruct (run_safe (fun _ => []) c0 c Hrel Hlrel Hm) as (Hc & h & Hsafe & _); [|by apply brand_new_safe|done|].
  - apply initial_ok, Hnew.
  - split; [done|by exists h].
Qed.

Lemma safe_log h c id s l :
  safe h c -> servers c !! id = Some s -> log_repr (logStore (sv_node s)) l -> server_safe h c id s l.
Proof.
  intros Hsafe Hs Hl. destruct (sa_servers _ _ _ _ Hsafe _ _ Hs) as [l' Hl'].
  by rewrite (repr_unique _ _ _ Hl (ss_log _ _ _ _ _ _ _ Hl')).
Qed.

(** Two servers in a run, the second at the same time as the first or later. *)
Section Replicas.
Context (c0 c c' : Cluster) (x y : bytes) (sx sy : Server) (lx ly : list LogEntry).
Context (Hrel : StableStoreReliable S) (Hlrel : LogStoreReliable L).
Context (Hm : members_ok members) (Hnew : brand_new c0).
Context (Hrun : rtc careful_step c0 c) (Hrun' : rtc careful_step c c').
Context (Hx : servers c !! x = Some sx) (Hlx : log_repr (logStore (sv_node sx)) lx).
Context (Hy : servers c' !! y = Some sy) (Hly : log_repr (logStore (sv_node sy)) ly).

Lemma replicas_safe :
  cluster_ok c' /\ exists h h',
    server_safe h c x sx lx /\ safe h' c' /\ server_safe h' c' y sy ly /\
    (forall T l n, Committed h c T l n -> Committed h' c' T l n).
Proof.
  destruct (reachable_safe c0 c) as (Hc & h & Hsafe); [done..|].
  destruct (run_safe h c c') as (Hc' & h' & Hsafe' & Hkeep); [done..|].
  split; [done|]. exists h, h'. split_and!; [|done| |done]; by apply safe_log.
Qed.

Lemma commits_agree n :
  n <= commitIndex (sv_node sx) -> n <= commitIndex (sv_node sy) -> agree n lx ly.
Proof.
  intros Hnx Hny. destruct replicas_safe as (_ & h & h' & Sx & Hsafe' & Sy & Hkeep).
  eapply (committed_agree ids h' (led c') (acked h' c'));
    [|apply Hsafe'|exact (Hkeep _ _ _ (ss_commit _ _ _ _ _ _ _ Sx))|exact (ss_commit _ _ _ _ _ _ _ Sy)|done|done].
  intros t. by apply (safe_well members f0).
Qed.

(** Each has applied what it has committed, or less. *)
Lemma applied_agree :
  (lastApplied (sv_node sx) <= lastApplied (sv_node sy) ->
   apply_entries (fsm (sv_node sx)) (between ly (lastApplied (sv_node sx)) (lastApplied (sv_node sy))) =
     Ok (fsm (sv_node sy))) /\
  (lastApplied (sv_node sy) <= lastApplied (sv_node sx) ->
   apply_entries (fsm (sv_node sy)) (between lx (lastApplied (sv_node sy)) (lastApplied (sv_node sx))) =
     Ok (fsm (sv_node sx))) /\
  (lastApplied (sv_node sx) = lastApplied (sv_node sy) -> fsm (sv_node sx) = fsm (sv_node sy)).
Proof.
  destruct replicas_safe as (_ & h & h' & Sx & _ & Sy & _).
  pose proof (ss_order _ _ _ _ _ _ _ Sx). pose proof (ss_order _ _ _ _ _ _ _ Sy).
  pose proof (ss_applied _ _ _ _ _ _ _ Sx) as Ax. pose proof (ss_applied _ _ _ _ _ _ _ Sy) as Ay.
  split_and!; intros Hle.
  - eapply agree_applied; [exact Ax|exact Ay|done|]. symmetry. apply commits_agree; lia.
  - eapply agree_applied; [exact Ay|exact Ax|done|]. apply commits_agree; lia.
  - eapply agree_applied; [exact Ax|exact Ay|lia| |done]. symmetry. apply commits_agree; lia.
Qed.

End Replicas.

(** ** Theorems *)

(** C1: state machine safety.  Start the servers of a configuration on empty
    logs, on stores whose writes do not fail, and let anything happen to the cluster, in any order, lost, late and
    reordered messages, crashes and restarts included, with care only for the
    races named in [careful].  What one server has committed at one time and
    another, or the same, at the same time or later is one log: entries once
    committed are never lost or replaced. *)
Theorem committed_forever c0 c c' x y sx sy lx ly n :
  StableStoreReliable S -> LogStoreReliable L -> members_ok members -> brand_new c0 ->
  rtc careful_step c0 c -> rtc careful_step c c' ->
  servers c !! x = Some sx -> log_repr (logStore (sv_node sx)) lx ->
  servers c' !! y = Some sy -> log_repr (logStore (sv_node sy)) ly ->
  n <= commitIndex (sv_node sx) -> n <= commitIndex (sv_node sy) ->
  take (Z.to_nat n) lx = take (Z.to_nat n) ly.
Proof. intros. by apply (commits_agree c0 c c' x y sx sy). Qed.

(** C2: leader completeness.  In such a run, a server that leads has in its
    log everything that any server had committed in its term or before. *)
Theorem leader_completeness c0 c c' x y sx sy lx ly :
  StableStoreReliable S -> LogStoreReliable L -> members_ok members -> brand_new c0 ->
  rtc careful_step c0 c -> rtc careful_step c c' ->
  servers c !! x = Some sx -> log_repr (logStore (sv_node sx)) lx ->
  servers c' !! y = Some sy -> log_repr (logStore (sv_node sy)) ly ->
  state (sv_node sy) = Leader -> currentTerm (sv_node sx) <= currentTerm (sv_node sy) ->
  commitIndex (sv_node sx) <= len ly /\
  take (Z.to_nat (commitIndex (sv_node sx))) ly = take (Z.to_nat (commitIndex (sv_node sx))) lx.
Proof.
  intros Hrel Hlrel Hm Hnew Hrun Hrun' Hx Hlx Hy Hly Hlead Hle.
  destruct (replicas_safe c0 c c' x y sx sy lx ly) as (Hc' & h & h' & Sx & Hsafe' & Sy & Hkeep); [done..|].
  assert (agree (commitIndex (sv_node sx)) lx ly) as Ha.
  { rewrite (ss_leader _ _ _ _ _ _ _ Sy Hlead).
    eapply (committed_led ids h' (led c') (acked h' c')); [|apply Hkeep, Sx| |done].
    - intros t. by apply (safe_well members f0).
    - exists y. by apply (co_leader _ _ Hc'). }
  split; [|by symmetry]. apply (agree_len _ lx); [done|]. apply (ss_bound _ _ _ _ _ _ _ Sx).
Qed.

(** C3: the logs of the servers match, and their state machines agree: of two
    servers the one ahead has the state of the one behind after the entries
    the latter has still to apply; applied equally far, they are equal. *)
Theorem state_machines_agree c0 c x y sx sy lx ly :
  StableStoreReliable S -> LogStoreReliable L -> members_ok members -> brand_new c0 ->
  rtc careful_step c0 c ->
  servers c !! x = Some sx -> log_repr (logStore (sv_node sx)) lx ->
  servers c !! y = Some sy -> log_repr (logStore (sv_node sy)) ly ->
  log_matching lx ly /\
  (lastApplied (sv_node sx) <= lastApplied (sv_node sy) ->
   apply_entries (fsm (sv_node sx)) (between ly (lastApplied (sv_node sx)) (lastApplied (sv_node sy))) =
     Ok (fsm (sv_node sy))) /\
  (lastApplied (sv_node sx) = lastApplied (sv_node sy) -> fsm (sv_node sx) = fsm (sv_node sy)).
Proof.
  intros Hrel Hlrel Hm Hnew Hrun Hx Hlx Hy Hly.
  destruct (reachable_safe c0 c) as (Hc & h & Hsafe); [done..|].
  pose proof (safe_log _ _ _ _ _ Hsafe Hx Hlx) as Sx. pose proof (safe_log _ _ _ _ _ Hsafe Hy Hly) as Sy.
  split; [exact (recorded_matching h _ _ _ _ (ss_recorded _ _ _ _ _ _ _ Sx) (ss_recorded _ _ _ _ _ _ _ Sy))|].
  destruct (applied_agree c0 c c x y sx sy lx ly) as (H1 & _ & H2); [done..|]. by split.
Qed.

End LogAgreement.
