(* ===== verification/Checked.v ===== *)
(** * Raft: runs of a cluster, checked

    Decision procedures for the conditions [ElectionSafety.orderly] and
    [LogAgreement.careful], and functions that make a list of events happen to
    a cluster as long as each meets them: the runs the theorems speak of, by
    computation. *)

From S2P Require Import Prelude Binary Store RaftTypes Node Election Logs Replication Append Leader Loops Cluster Runs Candidate Moves Turns ElectionSafety Committed History LogSafety LogSteps LogEvents LogAgreement.

Section Checked.
Context {L S F R : Type} `{!LogStore L} `{!StableStore S} `{!FSM F R}.
Context `{!LogStoreLaws L} `{!LogStoreTruncates L} `{!StableStoreLaws S}.
Abbreviation Node := (RaftNode L S F R).
Abbreviation Cluster := (cluster (L := L) (S := S) (F := F) (R := R)).
Abbreviation Event := (event (F := F)).
Context (members : list PeerConfig).
Implicit Types (c : Cluster) (e : Event).

(** ** Orderly *)

Definition has_room (r : Node) : bool :=
  match LastIndex (logStore r) with Ok (n, _) => n + 1 <? MaxUint64 | _ => false end.

Definition all_at c (id : bytes) (P : Node -> bool) : bool :=
  match servers c !! id with Some s => P (sv_node s) | None => true end.

Definition orderly_b c e : bool :=
  match e with
  | EvElect id => all_at c id (fun r => currentTerm r <? MaxUint64)
  | EvAnnounce id | EvApplyRequest id => all_at c id has_room
  | EvAppendResponse k =>
      match append_calls c !! k with
      | Some v =>
          match servers c !! ac_from v, ac_resp v with
          | Some s, Some resp =>
              match sv_pos s with
              | Campaigning _ _ => ar_Term resp <=? currentTerm (sv_node s)
              | _ => true
              end
          | _, _ => true
          end
      | None => true
      end
  | _ => true
  end.

(** The events of [es] one after the other, each as [check] allows. *)
Fixpoint checked_turns (check : Cluster -> Event -> bool) c (es : list Event) : option Cluster :=
  match es with
  | [] => Some c
  | e :: es =>
      if check c e then
        match turn members c e with Ok c => checked_turns check c es | _ => None end
      else None
  end.

Definition orderly_turns : Cluster -> list Event -> option Cluster := checked_turns orderly_b.

(** ** Careful *)

(** [initial_b] recognises the initial state machine. *)
Definition careful_b (initial_b : F -> bool) c e : bool :=
  orderly_b c e &&
  match e with
  | EvAnnounce id =>
      match servers c !! id with
      | Some (mkSv r Announcing) => bool_decide (state r = Leader)
      | _ => true
      end
  | EvAppendResponse k =>
      match append_calls c !! k with
      | Some v =>
          match servers c !! ac_from v, ac_taken v, ac_resp v with
          | Some s, false, Some resp =>
              negb (ar_Success resp) ||
              (bool_decide (state (sv_node s) = Leader) && (currentTerm (sv_node s) =? ae_Term (ac_req v)))
          | _, _, _ => true
          end
      | None => true
      end
  | EvRestart _ f => initial_b f
  | _ => true
  end.

Definition careful_turns (initial_b : F -> bool) : Cluster -> list Event -> option Cluster :=
  checked_turns (careful_b initial_b).

(** * Lemmas *)

Lemma has_room_ok r : has_room r = true -> log_room r.
Proof.
  unfold has_room, log_room. intros H l Hl. rewrite (LastIndex_law _ _ Hl) in H. by apply Z.ltb_lt in H.
Qed.

Lemma orderly_b_ok c e : orderly_b c e = true -> orderly c e.
Proof.
  destruct e as [id|id|id|id|id|id|k|k|id|id peer|k|k|id|id|id data ap|id fut b|id|id f]; simpl; try done;
    unfold all_at.
  - intros H s Hs. rewrite Hs in H. by apply Z.ltb_lt.
  - intros H s Hs. rewrite Hs in H. by apply has_room_ok.
  - intros H v s resp t n Hv Hs Hr Hp. rewrite Hv, Hs, Hr, Hp in H. by apply Z.leb_le.
  - intros H s Hs. rewrite Hs in H. by apply has_room_ok.
Qed.

Lemma checked_turns_ok check (P : Cluster -> Cluster -> Prop) c es c' :
  (forall c e c', check c e = true -> turn members c e = Ok c' -> P c c') ->
  checked_turns check c es = Some c' -> rtc P c c'.
Proof.
  intros HP. revert c. induction es as [|e es IH]; intros c H; simpl in H; [injection H as <-; constructor|].
  destruct (check c e) eqn:Ec; [|done]. destruct (turn members c e) as [c1|u| |] eqn:Et; try done.
  eapply rtc_l; [|by apply IH]. by eapply HP.
Qed.

Lemma checked_turns_weaken (check check' : Cluster -> Event -> bool) c es c' :
  (forall c e, check c e = true -> check' c e = true) ->
  checked_turns check c es = Some c' -> checked_turns check' c es = Some c'.
Proof.
  intros HP. revert c. induction es as [|e es IH]; intros c H; simpl in *; [done|].
  destruct (check c e) eqn:E; [|done]. rewrite (HP _ _ E). destruct (turn members c e); try done. by apply IH.
Qed.

Lemma orderly_turns_ok c es c' : orderly_turns c es = Some c' -> rtc (orderly_step members) c c'.
Proof. apply checked_turns_ok. intros c1 e c2 H Et. econstructor; [by apply orderly_b_ok|exact Et]. Qed.

Section Careful.
Context (initial_b : F -> bool) (f0 : F) (Hinit : forall f, initial_b f = true -> f = f0).

Lemma careful_b_ok c e : careful_b initial_b c e = true -> careful f0 c e.
Proof.
  intros [Ho H]%andb_true_iff. split; [by apply orderly_b_ok|].
  destruct e as [id|id|id|id|id|id|k|k|id|id peer|k|k|id|id|id data ap|id fut b|id|id f]; try done.
  - intros [r pos] Hs Hp. simpl in Hp. subst pos. rewrite Hs in H. by apply bool_decide_eq_true in H.
  - intros v s resp Hv Hs Ht Hr Hok. rewrite Hv, Hs, Ht, Hr, Hok in H.
    apply andb_true_iff in H as [Hl He]. split; [by apply bool_decide_eq_true in Hl|by apply Z.eqb_eq].
  - by apply Hinit.
Qed.

Lemma careful_turns_ok c es c' : careful_turns initial_b c es = Some c' -> rtc (careful_step members f0) c c'.
Proof. apply checked_turns_ok. intros c1 e c2 H Et. econstructor; [by apply careful_b_ok|exact Et]. Qed.

Lemma careful_turns_orderly c es c' : careful_turns initial_b c es = Some c' -> orderly_turns c es = Some c'.
Proof. apply checked_turns_weaken. by intros c1 e [? _]%andb_true_iff. Qed.

(** Where a run leads, by default elsewhere. *)
Lemma runs_to d c es :
  is_nil (careful_turns initial_b c es) = false ->
  rtc (careful_step members f0) c (default d (careful_turns initial_b c es)) /\
  rtc (careful_step members f0) c (default d (orderly_turns c es)).
Proof.
  destruct (careful_turns initial_b c es) as [c'|] eqn:E; [|done]. intros _.
  rewrite (careful_turns_orderly _ _ _ E). simpl. split; by apply (careful_turns_ok c es).
Qed.

End Careful.
End Checked.
