(* ===== verification/Lone.v ===== *)
(** * Raft: a cluster of one

    A server without peers elects itself, takes commands and appends them; but
    the commit index of a leader moves only when a peer accepts entries
    ([advanceCommitIndex] is called by [replicateOnce] alone), and that of a
    follower only at the word of a leader: in a cluster of one nothing is ever
    committed, and no command ever applied. *)

From S2P Require Import Prelude Binary Store RaftTypes Node Election Logs Replication Append Leader Loops Cluster Runs Candidate Moves Turns ElectionSafety.

Section Lone.
Context {L S F R : Type} `{!LogStore L} `{!StableStore S} `{!FSM F R} `{!LogStoreLaws L} `{!StableStoreLaws S}.
Abbreviation Node := (RaftNode L S F R).
Abbreviation Server := (server (L := L) (S := S) (F := F) (R := R)).
Abbreviation Cluster := (cluster (L := L) (S := S) (F := F) (R := R)).
Context (p : PeerConfig) (f0 : F).
Implicit Types (r : Node) (s : Server) (c : Cluster).

(** A stable store that can be started on: it holds a term and a vote, not
    always the node's, since [persistState] ignores failed writes. *)
Definition on_disk (st : S) : Prop := exists t v, persisted st t v /\ is_uint64 t.

(** Without peers, and with nothing committed. *)
Record idle r : Prop := {
  id_config : Peers (config r) = [p] /\ ServerID (config r) = pc_ID p;
  id_heap : heap r = [];
  id_commit : commitIndex r = 0;
  id_applied : lastApplied r = 0;
  id_fsm : fsm r = f0;
  id_log : exists l, log_repr (logStore r) l;
  id_stable : on_disk (stableStore r);
  id_term : is_uint64 (currentTerm r)
}.

Record alone c : Prop := {
  al_servers : forall id s, servers c !! id = Some s -> idle (sv_node s);
  al_calls : vote_calls c = [] /\ append_calls c = []
}.

(** Whatever happens: a process starts with the initial state machine, and
    the log does not run out of indexes. *)
Definition anything c (e : event (F := F)) : Prop :=
  match e with
  | EvRestart _ f => f = f0
  | EvAnnounce id | EvApplyRequest id => forall s, servers c !! id = Some s -> log_room (sv_node s)
  | _ => True
  end.

Inductive any_turn c : Cluster -> Prop :=
| any_event e c' : anything c e -> turn [p] c e = Ok c' -> any_turn c c'.

(** ** Operations of the node *)

#[local] Create HintDb idle.

Ltac idle_setter := intros [[? ?] ? ? ? ? ? ? ?]; by split.

Lemma idle_stable r st : on_disk st -> idle r -> idle (set_stable r st).
Proof. intros ?. idle_setter. Qed.
Lemma idle_log r sto l : log_repr sto l -> idle r -> idle (set_log r sto).
Proof. intros Hl [[? ?] ? ? ? ? ? ? ?]. split; try done. by exists l. Qed.
Lemma idle_state r st : idle r -> idle (set_state r st).
Proof. idle_setter. Qed.
Lemma idle_vote r t v : is_uint64 t -> idle r -> idle (set_vote r t v).
Proof. intros ?. idle_setter. Qed.
Lemma idle_futures r pf fs : idle r -> idle (set_futures r pf fs).
Proof. idle_setter. Qed.
Lemma idle_applyCh r ac : idle r -> idle (set_applyCh r ac).
Proof. idle_setter. Qed.
Lemma idle_shutdown r b : idle r -> idle (set_shutdown r b).
Proof. idle_setter. Qed.
Lemma idle_leader r li ld : idle r -> idle (set_leader r li ld).
Proof. idle_setter. Qed.
#[local] Hint Resolve idle_stable idle_log idle_state idle_vote idle_futures idle_applyCh idle_shutdown idle_leader : idle.

Lemma idle_respondTo r k err x : idle r -> idle (respondTo r k err x).
Proof. apply idle_futures. Qed.

Lemma idle_fail r err : idle r -> idle (fail_pending r err).
Proof. apply idle_futures. Qed.

Lemma idle_trigger r : idle r -> idle (triggerReplication r).
Proof.
  intros [[? ?] Hh ? ? ? ? ? ?]. split; try done. unfold triggerReplication. simpl. rewrite Hh.
  apply (map_fold_weak_ind (fun h _ => h = [])); [done|]. by intros i loc m h _ ->.
Qed.
#[local] Hint Resolve idle_respondTo idle_fail idle_trigger : idle.

(** A write of [persistState] is done or has no effect. *)
Lemma disk_term (m : gmap bytes bytes) t0 t (e : option error) :
  (m !! KeyCurrentTerm = Some (PutUint64 t0) \/ m !! KeyCurrentTerm = None /\ t0 = 0) ->
  is_uint64 t0 -> is_uint64 t ->
  let m' := match e with None => <[KeyCurrentTerm := PutUint64 t]> m | Some _ => m end in
  exists t', is_uint64 t' /\
    (m' !! KeyCurrentTerm = Some (PutUint64 t') \/ m' !! KeyCurrentTerm = None /\ t' = 0).
Proof.
  intros Ht Hu0 Hu. destruct e; [by exists t0|]. exists t. split; [done|left]. apply lookup_insert_eq.
Qed.

Lemma persist_disk r :
  on_disk (stableStore r) -> is_uint64 (currentTerm r) ->
  exists st, persistState r = Ok (set_stable r st) /\ on_disk st.
Proof.
  intros (t0 & v0 & (m & Hm & Ht & Hv) & Hu0) Hu. unfold persistState. rewrite SetUint64_law by done.
  destruct (Set_law _ m KeyCurrentTerm (PutUint64 (currentTerm r)) Hm) as (s1 & e1 & -> & H1). cbn [obind].
  destruct (Set_law _ _ KeyVotedFor (votedFor r) H1) as (s2 & e2 & -> & H2). cbn [obind].
  destruct (disk_term m t0 (currentTerm r) e1 Ht Hu0 Hu) as (t & Hu' & Ht').
  exists s2. split; [done|]. eexists t, _. split; [|done]. eexists. split; [exact H2|]. split; [|done].
  destruct e2; [exact Ht'|]. rewrite !lookup_insert_ne by (intros E; by apply keys_differ). exact Ht'.
Qed.

(** A campaign asks nobody, and is won at once. *)
Lemma idle_elects r :
  idle r ->
  exists x req, runCandidate r [] = Ok (x, req, []) /\ idle (run_node x) /\
    run_returned x = true /\ state (run_node x) = Leader /\
    currentTerm (run_node x) = uint64 (currentTerm r + 1) /\ logStore (run_node x) = logStore r.
Proof.
  intros Hi. destruct (id_config _ Hi) as [Ep Ei]. destruct (id_log _ Hi) as [l Hl].
  unfold runCandidate, startElection. set (r1 := set_vote r _ _).
  assert (idle r1) as Hi1 by (apply idle_vote; [apply uint64_range|done]).
  destruct (persist_disk r1) as (st & E & Hd); [apply Hi1..|]. rewrite E. cbn [obind].
  rewrite (lastLogInfo_spec _ l) by done. destruct (last_info l) as [i t]. cbn [obind].
  subst r1. cbn [config set_stable set_vote]. rewrite Ei in Hi1. rewrite Ep, Ei. cbn [List.filter map].
  rewrite (bool_decide_true (pc_ID p = pc_ID p)) by done. cbn [negb]. eexists _, _. split; [reflexivity|].
  split; [|done]. cbn [run_node]. unfold becomeLeader. apply idle_leader, idle_state, idle_stable; done.
Qed.

Lemma idle_noop r r' : idle r -> log_room r -> appendNoOp r = Ok r' -> idle r'.
Proof.
  intros Hi Hroom. destruct (id_log _ Hi) as [l Hl].
  destruct (appendNoOp_ok r l Hl Hroom (id_term _ Hi)) as (st & err & Hst & ->). intros [= <-].
  destruct err; eauto with idle.
Qed.

Lemma idle_request r req r' : idle r -> log_room r -> handleApplyRequest r req = Ok r' -> idle r'.
Proof.
  intros Hi Hroom. destruct (decide (state r = Leader)) as [Hlead|Hnot].
  - destruct (id_log _ Hi) as [l Hl].
    destruct (handleApplyRequest_ok r l req Hl Hroom (id_term _ Hi) Hlead) as (st & err & Hst & ->). intros [= <-].
    destruct err; unfold appended; eauto with idle.
  - unfold handleApplyRequest. rewrite bool_decide_false by done. intros [= <-]. auto with idle.
Qed.

Lemma idle_init r r' : idle r -> leader_init r = Ok r' -> idle r'.
Proof.
  unfold leader_init. intros Hi ([lastIdx e] & _ & H)%obind_Ok. destruct Hi as [[Ep Ei] Hh Hc Ha Hf Hl Hd Ht].
  rewrite Ep, Ei in H. simpl in H. unfold leader_peer in H. rewrite bool_decide_true in H by done.
  injection H as <-. by split.
Qed.

Lemma idle_Apply r data case : idle r -> idle (Apply r data case).1.
Proof. intros Hi. unfold Apply. repeat case_match; simpl; auto with idle. Qed.

Lemma idle_Shutdown r : idle r -> idle (Shutdown r).
Proof. intros Hi. unfold Shutdown. case_match; auto with idle. Qed.

Lemma idle_restart s : idle (sv_node s) -> idle (sv_node (restart s f0)).
Proof.
  intros Hi. unfold restart. destruct (id_config _ Hi) as [Ep Ei]. destruct (id_log _ Hi) as [l Hl].
  destruct (id_stable _ Hi) as (t & v & Hp & Hu). unfold NewRaftNode.
  destruct (validate _); try done. cbn [cfg_LogStore cfg_StableStore cfg_FSM].
  rewrite (restoreState_spec _ t v) by done. cbn [sv_node]. apply idle_vote; [done|].
  split; try done; [by exists l|by exists t, v].
Qed.

(** ** Events *)

Lemma alone_server c id s : alone c -> idle (sv_node s) -> alone (set_server c id s).
Proof.
  intros [Hs Hc] Hi. split; [|done]. intros x sx Hx. cbn [servers set_server] in Hx.
  apply lookup_insert_Some in Hx as [[_ <-]|[_ Hx]]; [done|by eapply Hs].
Qed.

Lemma alone_at_server c id f c' :
  alone c -> (forall s s', servers c !! id = Some s -> idle (sv_node s) -> f s = Ok s' -> idle (sv_node s')) ->
  at_server c id f = Ok c' -> alone c'.
Proof.
  intros Hal Hf. unfold at_server. destruct (servers c !! id) as [s|] eqn:Hs; [|by intros [= <-]].
  intros (s' & E & [= <-])%obind_Ok. apply alone_server; [done|]. eapply Hf; [done|by eapply Hal|done].
Qed.

Lemma alone_at_node c id (f : Node -> outcome Empty_set Node) c' :
  alone c -> (forall r r', idle r -> f r = Ok r' -> idle r') -> at_node c id f = Ok c' -> alone c'.
Proof.
  intros Hal Hf. apply alone_at_server; [done|]. intros s s' _ Hi (r & E & [= <-])%obind_Ok. by eapply Hf.
Qed.

Lemma alone_turn c e c' :
  alone c -> anything c e -> turn [p] c e = Ok c' -> alone c'.
Proof.
  intros Hal He E. pose proof (al_calls _ Hal) as [Hv Ha].
  destruct e as [id|id|id|id|id|id|k|k|id|id peer|k|k|id|id|id data ap|id fut b|id|id f]; cbn [turn] in E.
  - refine (alone_at_server c _ _ c' Hal _ E). intros s s' _ Hi [= <-]. unfold dispatch. by destruct (sv_pos s).
  - destruct (servers c !! id) as [s|] eqn:Hs; [|by opened]. destruct s as [r []]; try by opened. unfold elect in E.
    destruct (idle_elects r) as (x & req & E' & Hi & _); [apply (al_servers _ Hal _ _ Hs)|].
    cbn [sv_node] in E. rewrite E' in E. injection E as <-.
    split; cbn [note_leader set_votes set_server servers vote_calls append_calls]; [|by rewrite Hv].
    apply (al_servers _ (alone_server c id (after x (Campaigning (rv_Term req) 1)) Hal Hi)).
  - refine (alone_at_server c _ _ c' Hal _ E). intros s s' _ Hi H. unfold timeout, runFollower, candidate_select, returned in H.
    opened; simpl; auto with idle.
  - refine (alone_at_server c _ _ c' Hal _ E). intros s s' _ Hi H.
    unfold stop, runFollower, candidate_select, leader_select, returned in H. opened; simpl; unfold failPendingFutures; auto with idle.
  - refine (alone_at_server c _ _ c' Hal _ E). intros s s' _ Hi H. opened; simpl; eauto using idle_init with idle.
  - refine (alone_at_server c _ _ c' Hal _ E). intros s s' Hs Hi H. specialize (He _ Hs). opened; try done.
    apply idle_noop in H0; [|done..]. case_bool_decide; [done|]. by apply idle_fail.
  - rewrite Hv in E. simpl in E. by opened.
  - rewrite Hv in E. simpl in E. by opened.
  - refine (alone_at_server c _ _ c' Hal _ E). intros s s' _ Hi H. unfold candidate_select, returned, waiting in H.
    opened; simpl; auto with idle.
  - destruct (servers c !! id) as [s|] eqn:Hs; [|by opened]. unfold send_append in E.
    rewrite (id_heap _ (al_servers _ Hal _ _ Hs)) in E. simpl in E. by opened.
  - rewrite Ha in E. simpl in E. by opened.
  - rewrite Ha in E. simpl in E. by opened.
  - refine (alone_at_server c _ _ c' Hal _ E). intros s s' Hs Hi H. specialize (He _ Hs).
    unfold leader_select, returned, waiting in H.
    opened; simpl; unfold failPendingFutures; auto with idle;
      match goal with H : handleApplyRequest _ _ = Ok _ |- _ => apply idle_request in H; auto with idle end.
  - refine (alone_at_node c _ _ c' Hal _ E). intros r r' Hi H. rewrite (id_commit _ Hi), (id_applied _ Hi) in H. by opened.
  - refine (alone_at_node c _ _ c' Hal _ E). intros r r' Hi [= <-]. by apply idle_Apply.
  - refine (alone_at_node c _ _ c' Hal _ E). intros r r' Hi [= <-]. unfold apply_watch. auto with idle.
  - refine (alone_at_node c _ _ c' Hal _ E). intros r r' Hi [= <-]. by apply idle_Shutdown.
  - simpl in He. subst f. destruct (servers c !! id) as [s|] eqn:Hs; [|by opened]. injection E as <-.
    assert (alone (set_server c id (restart s f0))) as [H1 H2].
    { apply alone_server; [done|]. apply idle_restart, (al_servers _ Hal _ _ Hs). }
    split; [exact H1|]. simpl in *. by rewrite Ha.
Qed.

Lemma alone_run c c' : alone c -> rtc any_turn c c' -> alone c'.
Proof. intros Hal Hrun. induction Hrun as [|c1 c2 c3 [e c2' He E] _ IH]; [done|]. apply IH. by eapply alone_turn. Qed.

(** A leader answers a request with an error, or puts it at the end of its log. *)
Lemma idle_appends r l req :
  idle r -> log_repr (logStore r) l -> state r = Leader -> log_room r ->
  exists r' err, handleApplyRequest r req = Ok r' /\
    match err with
    | None => log_repr (logStore r') (l ++ [mkLog (len l + 1) (currentTerm r) (rq_data req)]) /\
        pendingFutures r' !! (len l + 1) = Some (rq_future req)
    | Some e => log_repr (logStore r') l /\
        r' = respondTo (set_log r (logStore r')) (rq_future req) (Some (ErrStoreLog e)) None
    end.
Proof.
  intros Hi Hl Hlead Hroom.
  destruct (handleApplyRequest_ok r l req Hl Hroom (id_term _ Hi) Hlead) as (st & err & Hst & ->).
  eexists _, err. split; [done|]. destruct err; [done|]. split; [done|]. apply lookup_insert_eq.
Qed.

(** Theorem of the file: servers that start with nothing committed. *)
Lemma lone_run c0 c id s :
  alone c0 -> rtc any_turn c0 c -> servers c !! id = Some s -> idle (sv_node s).
Proof. intros Hal Hrun. apply (al_servers _ (alone_run c0 c Hal Hrun)). Qed.

End Lone.
