(* ===== verification/TestNode.v ===== *)
(** * Raft: concrete nodes

    Nodes on the in-memory stores, with the state machine of the repository's
    Raft tests: what the schedules of [Scenarios.v] and the witnesses of
    [Witnesses.v] are computed on. *)

From S2P Require Import Prelude Binary Store Inmem RaftTypes Node Election Logs Replication Append Leader Loops Runs.

(** The state machine of [internal/raft/raft_test.go]: it records what it is
    given and answers with the count. *)
Definition testFSM : Type := list bytes.
#[export] Instance testFSM_ops : FSM testFSM Z :=
  fun f data => Ok (f ++ [data], len (f ++ [data])).

Abbreviation TestNode :=
  (RaftNode Log.InmemLogStore (gmap bytes bytes) testFSM Z).

Definition A : bytes := str "A".
Definition B : bytes := str "B".
Definition C : bytes := str "C".

Definition log_of (es : list LogEntry) : Log.InmemLogStore :=
  foldl Log.store_entry Log.NewInmemLogStore es.

Definition trio : list PeerConfig :=
  [mkPeer A (str "a:1"); mkPeer B (str "b:1"); mkPeer C (str "c:1")].

(** Server [A] of a cluster of three. *)
Definition node_a (term : Z) (vote : bytes) (st : ServerState) (es : list LogEntry)
    (ps : gmap bytes nat) (h : list peerState) (pf : gmap Z nat) (fs : list (ApplyFuture Z)) : TestNode :=
  mkNode
    (mkConfig A trio (150 * Millisecond) (1000 * Millisecond) (2000 * Millisecond) None None None)
    term vote (log_of es)
    (<[KeyVotedFor := vote]> (<[KeyCurrentTerm := PutUint64 term]> ∅))
    st 0 0 ps h [] [] [] pf fs [] false false.

(** * Lemmas *)

Lemma numbered_compute es : map log_Index es = seqZ 1 (len es) -> numbered es.
Proof.
  intros E i e Hi. assert (map log_Index es !! i = Some (log_Index e)) as H by (by rewrite list_lookup_fmap, Hi).
  rewrite E in H. apply lookup_seqZ in H as [H _]. lia.
Qed.

(** The terms of a concrete log are machine integers. *)
Definition small_terms (es : list LogEntry) : bool :=
  forallb (fun e => (0 <=? log_Term e) && (log_Term e <=? MaxUint64)) es.

Lemma log_of_repr es :
  map log_Index es = seqZ 1 (len es) -> len es < MaxUint64 ->
  small_terms es = true -> Log.repr (log_of es) es.
Proof.
  intros Hn Hl Ht%forallb_Forall.
  apply (Log.StoreLogs_repr _ [] es); [apply Log.repr_new|by apply numbered_compute|done|].
  eapply Forall_impl; [exact Ht|]. intros e He. unfold is_uint64. simpl in He. lia.
Qed.

Lemma node_a_ok term vote st es ps h pf fs :
  is_uint64 term -> map log_Index es = seqZ 1 (len es) -> len es < MaxUint64 -> small_terms es = true ->
  node_ok (node_a term vote st es ps h pf fs) es.
Proof. intros Ht Hn Hl Hs. split; [by apply log_of_repr|by eexists|done]. Qed.

Lemma node_a_durable term vote st es ps h pf fs : durable (node_a term vote st es ps h pf fs).
Proof.
  eexists. split; [reflexivity|]. pose proof keys_differ. split.
  - left. simpl. by rewrite lookup_insert_ne, lookup_insert_eq.
  - simpl. by rewrite lookup_insert_eq.
Qed.

Lemma node_a_inv term vote st es ps h pf fs :
  is_uint64 term -> map log_Index es = seqZ 1 (len es) -> len es < MaxUint64 -> small_terms es = true ->
  peers_ok (node_a term vote st es ps h pf fs) -> node_inv (node_a term vote st es ps h pf fs).
Proof.
  intros Ht Hn Hl Hs Hp. split; [by eexists; apply node_a_ok|]. split; [done|].
  intros _. apply node_a_durable.
Qed.

Lemma no_peers term vote st es h pf fs : peers_ok (node_a term vote st es ∅ h pf fs).
Proof. intros id loc E. simpl in E. by rewrite lookup_empty in E. Qed.

Lemma one_peer term vote st es id p pf fs :
  is_uint64 (matchIndex p) -> peers_ok (node_a term vote st es {[id := 0%nat]} [p] pf fs).
Proof.
  intros Hu i loc E. simpl in *. apply lookup_singleton_Some in E as [_ <-]. by exists p.
Qed.

(** Side conditions on concrete numbers and lists. *)
Ltac node_compute :=
  solve [reflexivity | discriminate | lia | vm_compute; split; discriminate | vm_compute; reflexivity].
