(* ===== verification/Machine.v ===== *)
(** * The replicated document ([internal/fsm/fsm.go], [Apply])

    The state machine as Raft sees it: fed with bytes.  An instance of the
    interface [FSM] that [Node] and its companions are about, so what they
    prove of any state machine holds of the document. *)

From S2P Require Import Prelude Utf8 Edit Changeset Apply Cursor Follow Fsm Json Base64 Codec Wire.
From S2P Require Import Binary Store Inmem RaftTypes Node Election Logs Replication Append Leader Loops Runs Committed TestNode.

(** [Apply]: an entry that cannot be decoded is answered with [nil]. *)
Definition Apply (fsm : DocumentStateMachine) (data : bytes) : outcome Empty_set Applied :=
  match UnmarshalEntry data with
  | None => Ok (mkApplied fsm None [])
  | Some entry => applyEntry fsm entry
  end.

#[export] Instance document_fsm : FSM DocumentStateMachine (option ApplyResult) :=
  fun fsm data => let! a := Apply fsm data in Ok (ap_state a, ap_response a).

(** ** Specification *)

(** The submissions a log holds: a no-op and data that is no entry are none. *)
Definition submission (e : LogEntry) : list RaftLogEntry :=
  if len (log_Data e) =? 0 then []
  else match UnmarshalEntry (log_Data e) with Some x => [x] | None => [] end.

Definition submissions (l : list LogEntry) : list RaftLogEntry := mjoin (map submission l).

(** * Lemmas *)

Lemma submissions_cons e l : submissions (e :: l) = submission e ++ submissions l.
Proof. done. Qed.

Lemma submissions_app l l' : submissions (l ++ l') = submissions l ++ submissions l'.
Proof. unfold submissions. rewrite map_app. apply join_app. Qed.

(** One log entry shown to the state machine. *)
Lemma document_step fsm e :
  fsm_step fsm e =
    if len (log_Data e) =? 0 then Ok (fsm, None)
    else match UnmarshalEntry (log_Data e) with
         | None => Ok (fsm, Some None)
         | Some x => let! a := applyEntry fsm x in Ok (ap_state a, Some (ap_response a))
         end.
Proof.
  unfold fsm_step, FSM_Apply, document_fsm, Apply. pose proof (len_nonneg (log_Data e)).
  destruct (Z.ltb_spec 0 (len (log_Data e))), (Z.eqb_spec (len (log_Data e)) 0); try lia; [|done].
  destruct (UnmarshalEntry _); [|done]. by destruct (applyEntry _ _).
Qed.

Lemma applyAll_app fsm es es' :
  applyAll fsm (es ++ es') =
    let! (fsm1, cs) := applyAll fsm es in
    let! (fsm2, cs') := applyAll fsm1 es' in Ok (fsm2, cs ++ cs').
Proof.
  revert fsm. induction es as [|e es IH]; intros fsm; cbn [app applyAll obind].
  - by destruct (applyAll fsm es') as [[]| | |].
  - destruct (applyEntry fsm e) as [a| | |]; cbn [obind]; try done. rewrite IH.
    destruct (applyAll (ap_state a) es) as [[f1 cs]| | |]; cbn [obind]; try done.
    destruct (applyAll f1 es') as [[f2 cs']| | |]; cbn [obind]; try done. by destruct (is_commit a).
Qed.

(** Showing a log to the state machine is applying its submissions. *)
Lemma apply_entries_applyAll fsm l :
  apply_entries fsm l = let! (fsm', _) := applyAll fsm (submissions l) in Ok fsm'.
Proof.
  revert fsm. induction l as [|e l IH]; intros fsm; [done|].
  cbn [apply_entries]. rewrite document_step, submissions_cons, applyAll_app. unfold submission.
  destruct (len (log_Data e) =? 0).
  { cbn [app applyAll obind]. rewrite IH. by destruct (applyAll fsm _) as [[]| | |]. }
  destruct (UnmarshalEntry (log_Data e)) as [x|]; cbn [app applyAll obind].
  - destruct (applyEntry fsm x) as [a| | |]; cbn [obind]; try done. rewrite IH.
    by destruct (applyAll (ap_state a) _) as [[]| | |].
  - rewrite IH. by destruct (applyAll fsm _) as [[]| | |].
Qed.

(** Every submission, when its turn comes, has been seen before or is one a
    well behaved client may send. *)
Fixpoint admissible (init : bytes) (fsm : DocumentStateMachine) (es : list RaftLogEntry) : Prop :=
  match es with
  | [] => True
  | e :: es =>
      (seen fsm e \/ ~ seen fsm e /\ entry_ok init fsm e) /\
      forall a, applyEntry fsm e = Ok a -> admissible init (ap_state a) es
  end.

Lemma applyAll_ok init fsm es :
  fsm_inv init fsm -> admissible init fsm es ->
  exists fsm' cs, applyAll fsm es = Ok (fsm', cs) /\ fsm_inv init fsm'.
Proof.
  revert fsm. induction es as [|e es IH]; intros fsm Hinv Had; [by eexists _, _|].
  destruct Had as [He Hrest].
  assert (exists a, applyEntry fsm e = Ok a /\ fsm_inv init (ap_state a)) as (a & Ea & Ha).
  { destruct He as [Hs|[Hns He]].
    - rewrite applyEntry_seen by done. by eexists.
    - destruct (applyEntry_ok _ _ _ Hinv He Hns) as (C & text & _ & _ & E & Hinv'). by eexists. }
  cbn [applyAll]. rewrite Ea. cbn [obind].
  destruct (IH (ap_state a) Ha (Hrest a Ea)) as (f & cs & -> & Hf). cbn [obind]. by eexists _, _.
Qed.

(** What the leader's handler puts into the log: no-ops, and submissions. *)
Inductive carries : list LogEntry -> list RaftLogEntry -> Prop :=
| carries_nil : carries [] []
| carries_noop e l xs : log_Data e = [] -> carries l xs -> carries (e :: l) xs
| carries_entry e l x xs :
    log_Data e = MarshalEntry x -> entry_good x -> carries l xs -> carries (e :: l) (x :: xs).

Lemma MarshalEntry_nonempty x : entry_good x -> MarshalEntry x <> [].
Proof. intros Hx E. pose proof (MarshalEntry_roundtrip x Hx) as H. by rewrite E in H. Qed.

Lemma carries_submissions l xs : carries l xs -> submissions l = xs.
Proof.
  induction 1 as [|e l xs He _ IH|e l x xs He Hx _ IH]; [done|..]; rewrite submissions_cons, IH; unfold submission.
  - by rewrite He.
  - rewrite He, MarshalEntry_roundtrip by done. pose proof (MarshalEntry_nonempty x Hx).
    by destruct (MarshalEntry x).
Qed.

(** ** Theorems *)

(** The codec of the log.  A good entry survives encoding; and whatever
    bytes decode at all, decode to a good entry, so what the leader read from
    a client is what every replica reads from the log. *)
Theorem entry_roundtrip :
  (forall e, entry_good e -> UnmarshalEntry (MarshalEntry e) = Some e) /\
  (forall data e, UnmarshalEntry data = Some e ->
     entry_good e /\ UnmarshalEntry (MarshalEntry e) = Some e).
Proof.
  split; [apply MarshalEntry_roundtrip|]. intros data e H%UnmarshalEntry_good.
  split; [done|by apply MarshalEntry_roundtrip].
Qed.

Section Document.
Context {L S : Type} `{!LogStore L} `{!StableStore S}.
Context `{!LogStoreLaws L} `{!LogStoreTruncates L} `{!StableStoreLaws S}.
Implicit Types r : RaftNode L S DocumentStateMachine (option ApplyResult).

(** C21: the replicated document.  On a node whose log carries submissions that
    are admissible when their turn comes, the document is what applying these
    in the order of the log gives: none of them fails, and the text is the
    replay of the recorded revisions. *)
Theorem document_refines init r l xs :
  len init <= MaxDoc -> fsm_applied (NewDocumentStateMachine init) r l ->
  carries (take (Z.to_nat (lastApplied r)) l) xs -> admissible init (NewDocumentStateMachine init) xs ->
  exists cs, applyAll (NewDocumentStateMachine init) xs = Ok (fsm r, cs) /\ fsm_inv init (fsm r) /\
    replay init (changesets (revisionLog (fsm r))) = Ok (headText (fsm r)).
Proof.
  intros Hi [_ Hf] Hc%carries_submissions Had. rewrite apply_entries_applyAll, Hc in Hf.
  destruct (applyAll_ok init _ xs (fsm_inv_init init Hi) Had) as (f & cs & E & Hinv).
  rewrite E in Hf. injection Hf as ->. exists cs. split; [done|]. split; [done|].
  by apply chain_replay, inv_chain.
Qed.

(** C40: a poisoned log.  Once an entry with a negative base revision is
    committed, every replica that comes to apply it panics; and so does every
    replica restarted from the log, which applies it from the start. *)
Theorem poisoned_log_panics r l pre e post x f :
  node_ok r l -> 0 <= lastApplied r -> commitIndex r <= len l ->
  between l (lastApplied r) (commitIndex r) = pre ++ e :: post ->
  apply_entries (fsm r) pre = Ok f -> 0 <= headRev f ->
  log_Data e = MarshalEntry x -> entry_good x -> ~ seen f x -> le_BaseRev x < 0 ->
  applyCommitted r = Panic.
Proof.
  intros Hok Ha Hc Hb Hpre Hrev Hd Hg Hns Hneg. eapply applyCommitted_panics; [done..|].
  rewrite Hb, apply_entries_app, Hpre. cbn [obind apply_entries].
  rewrite document_step, Hd, MarshalEntry_roundtrip by done. pose proof (MarshalEntry_nonempty x Hg).
  destruct (Z.eqb_spec (len (MarshalEntry x)) 0) as [Hz|_]; [by apply len_zero in Hz|].
  by rewrite applyEntry_negative_base.
Qed.

End Document.

(** ** A concrete replica *)

Definition wit_entry2 : RaftLogEntry :=
  mkEntry (str "u2") 1 0 (mkChangeset 2 2 [Retain 1; Delete 1; Insert (str "y")]).

(** Two clients' concurrent submissions after the leader's no-op. *)
Definition wit_log : list LogEntry :=
  [mkLog 1 1 []; mkLog 2 1 (MarshalEntry wit_e0); mkLog 3 1 (MarshalEntry wit_entry2)].

Abbreviation Replica :=
  (RaftNode Log.InmemLogStore (gmap bytes bytes) DocumentStateMachine (option ApplyResult)).

Definition replica (f : DocumentStateMachine) (applied commit : Z) (es : list LogEntry) : Replica :=
  mkNode (mkConfig A trio (150 * Millisecond) (1000 * Millisecond) (2000 * Millisecond) None None None)
    1 B (log_of es) (<[KeyVotedFor := B]> (<[KeyCurrentTerm := PutUint64 1]> ∅))
    Follower commit applied ∅ [] B (str "b:1") f ∅ [] [] false false.

(** The document after both. *)
Definition wit_text : DocumentStateMachine :=
  match applyAll (NewDocumentStateMachine (str "ab")) [wit_e0; wit_entry2] with
  | Ok (f, _) => f
  | _ => NewDocumentStateMachine []
  end.

Lemma wit_e0_good : entry_good wit_e0.
Proof. good_by_compute. Qed.

Lemma wit_entry2_good : entry_good wit_entry2.
Proof. good_by_compute. Qed.

Lemma entry_roundtrip_witness :
  entry_good wit_entry2 /\ UnmarshalEntry (MarshalEntry wit_entry2) = Some wit_entry2.
Proof. split; [exact wit_entry2_good|]. exact (proj1 entry_roundtrip wit_entry2 wit_entry2_good). Defined.

Lemma wit_carries : carries wit_log [wit_e0; wit_entry2].
Proof.
  apply carries_noop; [done|]. apply carries_entry; [done|apply wit_e0_good|].
  apply carries_entry; [done|apply wit_entry2_good|]. constructor.
Qed.

Lemma wit_admissible : admissible (str "ab") (NewDocumentStateMachine (str "ab")) [wit_e0; wit_entry2].
Proof.
  cbn [admissible]. split.
  - right. split; [intros (last & E & _); vm_compute in E; discriminate|].
    split; [by vm_compute| |by vm_compute|by vm_compute].
    intros d [= <-]. split; [wf_by_compute|by vm_compute; intuition congruence|by vm_compute].
  - intros a Ha.
    assert (applyEntry (NewDocumentStateMachine (str "ab")) wit_e0 =
      Ok (committed (NewDocumentStateMachine (str "ab")) wit_e0 wit_c0 (str "axb"))) as E by reflexivity.
    rewrite E in Ha. injection Ha as <-.
    split; [|done]. right. split; [apply wit_not_seen|apply wit_entry_ok].
Qed.

Lemma document_refines_witness :
  exists cs,
    applyAll (NewDocumentStateMachine (str "ab")) [wit_e0; wit_entry2] = Ok (wit_text, cs) /\
    fsm_inv (str "ab") wit_text /\ replay (str "ab") (changesets (revisionLog wit_text)) = Ok (headText wit_text).
Proof.
  refine (document_refines (str "ab") (replica wit_text 3 3 wit_log) wit_log [wit_e0; wit_entry2] _ _ _ _).
  - vm_compute. discriminate.
  - split; [vm_compute; split; discriminate|]. vm_compute. reflexivity.
  - exact wit_carries.
  - exact wit_admissible.
Defined.

Definition poison : RaftLogEntry := mkEntry (str "u3") 1 (-1) wit_c0.
Definition poisoned : list LogEntry := [mkLog 1 1 []; mkLog 2 1 (MarshalEntry poison)].

(** A replica just restarted panics. *)
Lemma poisoned_log_panics_witness :
  applyCommitted (replica (NewDocumentStateMachine (str "ab")) 0 2 poisoned) = Panic.
Proof.
  apply (poisoned_log_panics _ poisoned [mkLog 1 1 []] (mkLog 2 1 (MarshalEntry poison)) [] poison
           (NewDocumentStateMachine (str "ab"))).
  - split; [by apply log_of_repr|by eexists|vm_compute; split; discriminate].
  - vm_compute. discriminate.
  - vm_compute. discriminate.
  - reflexivity.
  - reflexivity.
  - vm_compute. discriminate.
  - reflexivity.
  - good_by_compute.
  - intros (last & E & _). vm_compute in E. discriminate.
  - reflexivity.
Defined.
