(* ===== verification/Setup.v ===== *)
(** * Setting up a node ([internal/server/cluster.go])

    [SetupRaft]: the database, the transport, the configuration of Raft, and
    the node, each closed again when a later one fails.  What the operating
    system answers is a parameter.

    The program hands one bbolt store to Raft as its log store and as its
    stable store; the node of [Node] keeps the two separately, which is the
    same because a write to one half leaves the other alone ([bolt_refines]). *)

From S2P Require Import Prelude Utf8 Edit Changeset Apply Cursor Follow Fsm Json Base64 Codec Wire.
From S2P Require Import Binary Store RaftTypes RaftWire Transport Bolt Node Election Logs Replication Append Leader Loops Machine.

(** ** Data *)

Record RaftConfig : Type := mkRaftConfig {
  rc_NodeID : bytes;
  rc_BindAddr : bytes;
  rc_DataDir : bytes;
  rc_Peers : list bytes;
  rc_Bootstrap : bool;
  rc_InitialText : bytes;
  rc_ElectionTimeoutMin : Z;
  rc_ElectionTimeoutMax : Z;
  rc_HeartbeatInterval : Z
}.

(** What the operating system says to making a directory, to opening the
    database [raft.db] in it, and to listening on an address. *)
Record system (DB : Type) : Type := mkSystem {
  os_MkdirAll : bytes -> option error;
  os_open : bytes -> DB + error;
  os_listens : bytes -> bool
}.
Arguments mkSystem {DB}.
Arguments os_MkdirAll {DB}.
Arguments os_open {DB}.
Arguments os_listens {DB}.

(** The resources the process holds: the open database, the listener. *)
Record handles : Type := mkHandles {
  h_store : bool;
  h_listener : bool
}.

Definition no_handles : handles := mkHandles false false.
Definition all_handles : handles := mkHandles true true.
Definition close_store (h : handles) : handles := mkHandles false (h_listener h).
Definition close_listener (h : handles) : handles := mkHandles (h_store h) false.

Inductive SetupErr : Type :=
| SetupMkdir (e : error)
| SetupBolt (e : error)
| SetupTransport
| SetupNewRaft (e : NewErr).

(** [or0 value default]: a duration that is not given is zero. *)
Definition or0 (d default : Z) : Z := if d =? 0 then default else d.

Section Setup.
Context {DB Tx Cursor : Type} `{!Bolt DB Tx Cursor}.
Abbreviation Store := (BoltStore DB Tx Cursor).
Abbreviation Raft := (Node.RaftNode Store Store DocumentStateMachine (option ApplyResult)).

(** The state machine is the one inside the node, which points to it. *)
Record RaftNode : Type := mkRaftNode {
  rn_Raft : Raft;
  rn_Transport : TCPTransport;
  rn_LogStore : Store
}.

Definition setup_peers (cfg : RaftConfig) : list PeerConfig := map (fun p => mkPeer p p) (rc_Peers cfg).

Definition setup_config (cfg : RaftConfig) (boltStore : Store) (stateMachine : DocumentStateMachine)
    : Config Store Store DocumentStateMachine :=
  let defaults := @DefaultConfig Store Store DocumentStateMachine in
  mkConfig (rc_BindAddr cfg) (setup_peers cfg)
    (or0 (rc_HeartbeatInterval cfg) (HeartbeatInterval defaults))
    (or0 (rc_ElectionTimeoutMin cfg) (ElectionTimeoutMin defaults))
    (or0 (rc_ElectionTimeoutMax cfg) (ElectionTimeoutMax defaults))
    (Some boltStore) (Some boltStore) (Some stateMachine).

(** The result and the resources held at the end. *)
Definition SetupRaft (os : system DB) (cfg : RaftConfig) (stateMachine : DocumentStateMachine)
    : outcome Empty_set (RaftNode + SetupErr) * handles :=
  match os_MkdirAll os (rc_DataDir cfg) with
  | Some err => (Ok (inr (SetupMkdir err)), no_handles)
  | None =>
      match os_open os (rc_DataDir cfg) with
      | inr err => (Ok (inr (SetupBolt err)), no_handles)
      | inl db =>
          let h := mkHandles true false in
          match NewBoltStore db with
          | Ok (inr err) => (Ok (inr (SetupBolt err)), close_store h)
          | Ok (inl boltStore) =>
              match NewTCPTransport (os_listens os) (rc_BindAddr cfg) with
              | None => (Ok (inr SetupTransport), close_store h)
              | Some transport =>
                  let h := mkHandles (h_store h) true in
                  match NewRaftNode (setup_config cfg boltStore stateMachine) with
                  | Ok r => (Ok (inl (mkRaftNode r transport boltStore)), h)
                  | Err err => (Ok (inr (SetupNewRaft err)), close_listener (close_store h))
                  | Panic => (Panic, h)
                  | Diverge => (Diverge, h)
                  end
              end
          | Err e => match e with end
          | Panic => (Panic, h)
          | Diverge => (Diverge, h)
          end
      end
  end.

Definition Shutdown (n : RaftNode) (h : handles) : RaftNode * handles :=
  (mkRaftNode (Loops.Shutdown (rn_Raft n)) (Transport.Shutdown (rn_Transport n)) (rn_LogStore n),
   close_store (close_listener h)).

Definition IsLeader (n : RaftNode) : bool := Loops.IsLeader (rn_Raft n).
Definition LeaderAddr (n : RaftNode) : bytes := Loops.LeaderAddr (rn_Raft n).

(** ** Specification *)

(** A configuration Raft accepts. *)
Record config_ok (cfg : RaftConfig) : Prop := {
  ck_addr : rc_BindAddr cfg <> [];
  ck_peer : rc_BindAddr cfg ∈ rc_Peers cfg;
  ck_heartbeat : 0 <= rc_HeartbeatInterval cfg;
  ck_min : 0 < or0 (rc_ElectionTimeoutMin cfg) (1000 * Millisecond);
  ck_max : or0 (rc_ElectionTimeoutMin cfg) (1000 * Millisecond) <
           or0 (rc_ElectionTimeoutMax cfg) (2000 * Millisecond)
}.

#[export] Instance config_ok_dec cfg : Decision (config_ok cfg).
Proof.
  refine (cast_if (decide (rc_BindAddr cfg <> [] /\ rc_BindAddr cfg ∈ rc_Peers cfg /\ 0 <= rc_HeartbeatInterval cfg /\
    0 < or0 (rc_ElectionTimeoutMin cfg) (1000 * Millisecond) /\
    or0 (rc_ElectionTimeoutMin cfg) (1000 * Millisecond) < or0 (rc_ElectionTimeoutMax cfg) (2000 * Millisecond))));
    abstract (first [intros []; tauto|split; tauto]).
Defined.

(** * Lemmas *)

Lemma setup_validate cfg s sm : validate (setup_config cfg s sm) = Ok tt <-> config_ok cfg.
Proof.
  rewrite validate_Ok. unfold setup_config. cbn [ServerID Peers HeartbeatInterval ElectionTimeoutMin
    ElectionTimeoutMax cfg_LogStore cfg_StableStore cfg_FSM DefaultConfig].
  assert ((exists p, p ∈ setup_peers cfg /\ pc_ID p = rc_BindAddr cfg) <-> rc_BindAddr cfg ∈ rc_Peers cfg) as ->.
  { unfold setup_peers. split.
    - intros (p & Hp & E). apply list_elem_of_fmap in Hp as (x & -> & Hx). simpl in E. by subst.
    - intros Hp. exists (mkPeer (rc_BindAddr cfg) (rc_BindAddr cfg)). split; [|done].
      by apply (list_elem_of_fmap_2 (fun p => mkPeer p p)). }
  unfold or0, Millisecond.
  assert (0 < (if rc_HeartbeatInterval cfg =? 0 then 150 * 1000000 else rc_HeartbeatInterval cfg) <->
    0 <= rc_HeartbeatInterval cfg) as -> by (destruct (Z.eqb_spec (rc_HeartbeatInterval cfg) 0); lia).
  split.
  - intros (? & ? & _ & _ & _ & ? & ? & ?). by split.
  - intros [? ? ? ? ?]. split_and!; eauto.
Qed.

Lemma NewRaftNode_invalid (c : Config Store Store DocumentStateMachine) :
  validate c <> Ok tt -> exists f, NewRaftNode (R := option ApplyResult) c = Err (NewConfig f).
Proof.
  intros H. unfold NewRaftNode. destruct (validate c) as [[]|f| |] eqn:E; [done|by eexists|..];
    unfold validate in E; by repeat case_match.
Qed.

Lemma restore_fresh (c : Config Store Store DocumentStateMachine) s sm t v `{!BoltLaws DB Tx Cursor} :
  validate c = Ok tt -> cfg_LogStore c = Some s -> cfg_StableStore c = Some s -> cfg_FSM c = Some sm ->
  persisted s t v -> is_uint64 t ->
  NewRaftNode (R := option ApplyResult) c =
    Ok (mkNode c t v s s Follower 0 0 ∅ [] [] [] sm ∅ [] [] false false).
Proof.
  intros Hv Hl Hs Hf Hp Ht. unfold NewRaftNode. rewrite Hv, Hl, Hs, Hf.
  by rewrite (restoreState_spec _ t v).
Qed.

(** Reading the persistent state of a bbolt store does not panic. *)
Lemma restore_total (r : Raft) : exists x, restoreState r = x /\ x <> Panic /\ x <> Diverge.
Proof.
  eexists. split; [done|]. unfold restoreState. cbn [Store.GetUint64 Store.GetKey BoltStore_stable].
  unfold Bolt.GetUint64, Bolt.Get, View. cbn [obind]. set (val := default [] _).
  destruct (len val =? 0); [done|]. destruct (Z.eqb_spec (len val) 8) as [E|E]; [|done]. cbn [negb].
  unfold bytesToUint64, Uint64. rewrite (proj2 (Z.leb_le 8 (len val))) by lia. done.
Qed.

Lemma restore_only (r r' : Raft) : restoreState r = Ok r' -> exists t v, r' = set_vote r t v.
Proof.
  intros ([t [e|]] & _ & E)%obind_Ok; [done|]. apply obind_Ok in E as ([v [e|]] & _ & E); [done|].
  injection E as <-. by exists t, v.
Qed.

Lemma NewBoltStore_total (db : DB) : exists x : Store + error, NewBoltStore db = Ok x.
Proof.
  unfold NewBoltStore, Update. destruct (tx_CreateBucketIfNotExists _ bucketLog); cbn [obind]; [|by eexists].
  destruct (tx_CreateBucketIfNotExists _ bucketStable); cbn [obind]; [|by eexists].
  destruct (db_Commit _ _); cbn [obind]; by eexists.
Qed.

Lemma NewRaftNode_total (c : Config Store Store DocumentStateMachine) :
  (exists e, NewRaftNode (R := option ApplyResult) c = Err e) \/
  (exists r t v, NewRaftNode (R := option ApplyResult) c = Ok r /\ validate c = Ok tt /\
     cfg_FSM c = Some (fsm r) /\
     r = mkNode c t v (logStore r) (stableStore r) Follower 0 0 ∅ [] [] [] (fsm r) ∅ [] [] false false).
Proof.
  unfold NewRaftNode. destruct (validate c) as [[]|f| |] eqn:E; [|left; by eexists|..];
    [|unfold validate in E; by repeat case_match..].
  pose proof E as (_ & _ & [l ->] & [s ->] & [f ->] & _)%validate_Ok.
  set (r0 := mkNode _ _ _ _ _ _ _ _ _ _ _ _ _ _ _ _ _ _).
  destruct (restore_total r0) as (x & Ex & Hp & Hd).
  destruct x as [r|e| |]; [right|left; by eexists|done..].
  rewrite Ex. apply restore_only in Ex as (t & v & ->). by exists (set_vote r0 t v), t, v.
Qed.

(** The node set up when nothing fails. *)
Definition set_up (cfg : RaftConfig) (s : Store) (sm : DocumentStateMachine) t v : Raft :=
  mkNode (setup_config cfg s sm) t v s s Follower 0 0 ∅ [] [] [] sm ∅ [] [] false false.

(** The operating system grants everything. *)
Record granted (os : system DB) (cfg : RaftConfig) (db : DB) (s : Store) : Prop := {
  gr_dir : os_MkdirAll os (rc_DataDir cfg) = None;
  gr_db : os_open os (rc_DataDir cfg) = inl db;
  gr_listen : os_listens os (rc_BindAddr cfg) = true;
  gr_buckets : NewBoltStore db = Ok (inl s)
}.

Lemma SetupRaft_ok os cfg sm db s t v `{!BoltLaws DB Tx Cursor} :
  granted os cfg db s -> config_ok cfg -> persisted s t v -> is_uint64 t ->
  SetupRaft os cfg sm =
    (Ok (inl (mkRaftNode (set_up cfg s sm t v) (mkTransport (rc_BindAddr cfg) false) s)), all_handles).
Proof.
  intros [Hd Ho Hl Hn] Hc Hp Ht. unfold SetupRaft. rewrite Hd, Ho, Hn. unfold NewTCPTransport. rewrite Hl.
  by rewrite (restore_fresh _ s sm t v) by (done || by apply setup_validate).
Qed.

Lemma SetupRaft_refused os cfg sm db s :
  granted os cfg db s -> ~ config_ok cfg ->
  exists f, SetupRaft os cfg sm = (Ok (inr (SetupNewRaft (NewConfig f))), no_handles).
Proof.
  intros [Hd Ho Hl Hn] Hc. unfold SetupRaft. rewrite Hd, Ho, Hn. unfold NewTCPTransport. rewrite Hl.
  destruct (NewRaftNode_invalid (setup_config cfg s sm)) as [f ->]; [by rewrite setup_validate|].
  by exists f.
Qed.

(** What a database holds: nothing yet, or what a node left in it. *)
Definition database_holds `{!BoltLaws DB Tx Cursor} (db : DB) (l : list LogEntry) (t : Z) (v : bytes) : Prop :=
  buckets db = ∅ /\ l = [] /\ t = 0 /\ v = [] \/
  exists m, bolt_repr (mkBolt db) l /\ bolt_stable (mkBolt db) m /\ is_uint64 t /\
    m !! KeyCurrentTerm = Some (PutUint64 t) /\ default [] (m !! KeyVotedFor) = v.

Lemma opened_holds `{!BoltLaws DB Tx Cursor} db s l t v :
  database_holds db l t v -> NewBoltStore db = Ok (inl s) -> bolt_repr s l /\ persisted s t v /\ is_uint64 t.
Proof.
  intros [(Hb & -> & -> & ->)|(m & Hr & Hm & Ht & Hk & Hv)] Hn.
  - destruct (bolt_new db s Hb Hn) as [? ?]. split; [done|]. split; [|done]. exists ∅. split; [done|].
    rewrite !lookup_empty. split; [by right|done].
  - destruct (bolt_reopen (mkBolt db) l m s Hr Hm Hn) as [? ?]. split; [done|]. split; [|done].
    exists m. split; [done|]. split; [by left|done].
Qed.

Lemma set_up_ok `{!BoltLaws DB Tx Cursor} cfg s sm t v l :
  bolt_repr s l -> persisted s t v -> is_uint64 t -> node_ok (set_up cfg s sm t v) l.
Proof. intros Hr (m & Hm & _) Ht. split; [done|by exists m|done]. Qed.

(** ** Theorems *)

(** Setting up never panics, and leaves nothing open behind an error.
    When it succeeds the node is a follower without commits, for the
    configuration given, whose own address is among the peers and whose
    timeouts are in order; and only the database and the listener are open. *)
Theorem SetupRaft_spec os cfg sm :
  exists res h, SetupRaft os cfg sm = (Ok res, h) /\
    match res with
    | inr err => h = no_handles
    | inl n =>
        h = all_handles /\ config_ok cfg /\ IsLeader n = false /\
        config (rn_Raft n) = setup_config cfg (rn_LogStore n) sm /\
        fsm (rn_Raft n) = sm /\ commitIndex (rn_Raft n) = 0 /\ lastApplied (rn_Raft n) = 0 /\
        rn_Transport n = mkTransport (rc_BindAddr cfg) false
    end.
Proof.
  unfold SetupRaft. destruct (os_MkdirAll os _); [by eexists _, _|].
  destruct (os_open os _) as [db|]; [|by eexists _, _].
  destruct (NewBoltStore_total db) as [[s|err] ->]; [|by eexists _, _].
  unfold NewTCPTransport. destruct (os_listens os _); [|by eexists _, _].
  destruct (NewRaftNode_total (setup_config cfg s sm)) as [[e ->]|(r & t & v & -> & Hv & Hf & Hr)];
    [by eexists _, _|].
  eexists (inl _), _. split; [done|]. apply setup_validate in Hv. injection Hf as ->. by rewrite Hr.
Qed.

(** A node is set up from what its database holds: its term, its vote and
    its log, whenever the resources can be had and the configuration is one
    that Raft accepts.  A new database holds term 0, no vote, and no log. *)
Theorem SetupRaft_restores `{!BoltLaws DB Tx Cursor} os cfg sm db s l t v :
  granted os cfg db s -> config_ok cfg -> database_holds db l t v ->
  exists n, SetupRaft os cfg sm = (Ok (inl n), all_handles) /\ node_ok (rn_Raft n) l /\
    currentTerm (rn_Raft n) = t /\ votedFor (rn_Raft n) = v /\ persisted (stableStore (rn_Raft n)) t v.
Proof.
  intros Hg Hc Hdb. destruct (opened_holds db s l t v Hdb (gr_buckets _ _ _ _ Hg)) as (Hr & Hp & Ht).
  eexists. split; [by apply (SetupRaft_ok os cfg sm db s t v)|]. split; [by apply set_up_ok|by split].
Qed.

End Setup.
Arguments RaftNode DB Tx Cursor : clear implicits.

(** ** A node on a database in memory *)

#[local] Existing Instances Bolt.Mem.Mem_bolt Bolt.Mem.Mem_laws.

Definition wit_config : RaftConfig :=
  mkRaftConfig (str "node-1") (str "a:1") (str "./data") [str "a:1"; str "b:1"; str "c:1"] false [] 0 0 0.

(** Every directory holds the database [db]. *)
Definition wit_system (db : Bolt.Mem.db) : system Bolt.Mem.db :=
  mkSystem (fun _ => None) (fun _ => inl db) (fun _ => true).

Abbreviation mem_setup := (SetupRaft (DB := Bolt.Mem.db) (Tx := Bolt.Mem.db) (Cursor := bytes * bytes)).

Lemma wit_config_ok : config_ok wit_config.
Proof. split; [done|left|done|done|done]. Qed.

Lemma SetupRaft_restores_witness :
  exists n, mem_setup (wit_system ∅) wit_config (NewDocumentStateMachine []) = (Ok (inl n), all_handles) /\
    currentTerm (rn_Raft n) = 0.
Proof.
  destruct (NewBoltStore_total (Tx := Bolt.Mem.db) (Cursor := bytes * bytes) (∅ : Bolt.Mem.db))
    as [[s|err] Es]; [|discriminate Es].
  destruct (SetupRaft_restores (wit_system ∅) wit_config (NewDocumentStateMachine []) ∅ s [] 0 [])
    as (n & E & _ & Ht & _); [by split|exact wit_config_ok| |].
  - left. repeat split; reflexivity.
  - exists n. split; [exact E|exact Ht].
Defined.

(** One of the two bounds of the election timeout alone may leave the other
    one, the default, on the wrong side. *)
Example one_bound_refused :
  let cfg := mkRaftConfig (str "node-1") (str "a:1") (str "./data") [str "a:1"] false []
               (3000 * Millisecond) 0 0 in
  mem_setup (wit_system ∅) cfg (NewDocumentStateMachine []) =
    (Ok (inr (SetupNewRaft (NewConfig FElectionTimeout))), no_handles).
Proof. reflexivity. Qed.
