(* ===== verification/Flags.v ===== *)
(** * Texts of the command line ([strings], [time])

    What [cmd/server/main.go] uses of Go's packages to read its flags and its
    configuration: [strings.Split], [strings.TrimSpace], [time.ParseDuration]
    with the floating point arithmetic of its fractions. *)

From Stdlib Require Import SpecFloat.
From S2P Require Import Prelude Utf8 Json.

(** ** [strings] *)

(** [Split] by a separator of one byte. *)
Fixpoint Split (s : bytes) (sep : Byte.byte) : list bytes :=
  match s with
  | [] => [[]]
  | b :: s =>
      if bool_decide (b = sep) then [] :: Split s sep
      else match Split s sep with p :: ps => (b :: p) :: ps | [] => [[b]] end
  end.

(** The encodings of the characters [unicode.IsSpace] accepts, of one to
    three bytes.  No encoding begins within another character, so looking at
    the bytes is looking at the character. *)
Definition spaces : list bytes :=
  map of_rune ([9; 10; 11; 12; 13; 32; 133; 160; 5760] ++ map (Z.add 8192) [0; 1; 2; 3; 4; 5; 6; 7; 8; 9; 10] ++
    [8232; 8233; 8239; 8287; 12288]).

Definition is_space (sp : list bytes) (c : bytes) : bool := bool_decide (c ∈ sp).

Fixpoint trim_left (sp : list bytes) (s : bytes) : bytes :=
  match s with
  | [] => []
  | b0 :: s1 =>
      if is_space sp [b0] then trim_left sp s1
      else match s1 with
           | [] => s
           | b1 :: s2 =>
               if is_space sp [b0; b1] then trim_left sp s2
               else match s2 with
                    | [] => s
                    | b2 :: s3 => if is_space sp [b0; b1; b2] then trim_left sp s3 else s
                    end
           end
  end.

Definition trim_right (sp : list bytes) (s : bytes) : bytes := rev (trim_left (map (@rev _) sp) (rev s)).

Definition TrimSpace (s : bytes) : bytes := trim_right spaces (trim_left spaces s).

(** ** [time.ParseDuration] *)

Definition digit_byte (b : Byte.byte) : bool := digit (byteZ b).

(** [leadingInt]: [None] when it does not fit; the [uint64] stays below. *)
Fixpoint leadingInt (x : Z) (s : bytes) : option (Z * bytes) :=
  match s with
  | [] => Some (x, [])
  | c :: s' =>
      if digit_byte c then
        if two64 / 2 / 10 <? x then None
        else
          let x := uint64 (x * 10 + (byteZ c - 48)) in
          if two64 / 2 <? x then None else leadingInt x s'
      else Some (x, s)
  end.

(** [float64] values. *)
Definition float_of (z : Z) : spec_float := binary_normalize 53 1024 z 0 false.
Definition float_mul : spec_float -> spec_float -> spec_float := SFmul 53 1024.
Definition float_div : spec_float -> spec_float -> spec_float := SFdiv 53 1024.

(** The conversion to [uint64] of what is not negative. *)
Definition uint64_of_float (f : spec_float) : Z :=
  match f with
  | S754_finite false m e => uint64 (Z.shiftl (Z.pos m) e)
  | _ => 0
  end.

(** [leadingFraction]: digits that do not fit are skipped. *)
Fixpoint leadingFraction (x : Z) (scale : spec_float) (overflow : bool) (s : bytes)
    : Z * spec_float * bytes :=
  match s with
  | [] => (x, scale, [])
  | c :: s' =>
      if digit_byte c then
        if overflow then leadingFraction x scale true s'
        else if MaxInt / 10 <? x then leadingFraction x scale true s'
        else
          let y := uint64 (x * 10 + (byteZ c - 48)) in
          if two64 / 2 <? y then leadingFraction x scale true s'
          else leadingFraction y (float_mul scale (float_of 10)) false s'
      else (x, scale, s)
  end.

(** The unit: up to the next digit or period. *)
Fixpoint take_unit (s : bytes) : bytes * bytes :=
  match s with
  | [] => ([], [])
  | c :: s' =>
      if digit_byte c || (byteZ c =? 46) then ([], s)
      else let (u, r) := take_unit s' in (c :: u, r)
  end.

(** [unitMap]; the micro sign and the Greek letter both stand for micro. *)
Definition unitMap (u : bytes) : option Z :=
  if bool_decide (u = str "ns") then Some 1
  else if bool_decide (u = str "us") then Some 1000
  else if bool_decide (u = of_rune 181 ++ str "s") then Some 1000
  else if bool_decide (u = of_rune 956 ++ str "s") then Some 1000
  else if bool_decide (u = str "ms") then Some 1000000
  else if bool_decide (u = str "s") then Some 1000000000
  else if bool_decide (u = str "m") then Some 60000000000
  else if bool_decide (u = str "h") then Some 3600000000000
  else None.

(** One number with its unit: its nanoseconds and what is left. *)
Definition duration_term (s : bytes) : option (Z * bytes) :=
  match s with
  | [] => None
  | c :: _ =>
      if negb (digit_byte c || (byteZ c =? 46)) then None
      else
        '(v, s1) ← leadingInt 0 s;
        let pre := negb (len s1 =? len s) in
        let '(f, scale, s2, post) :=
          match s1 with
          | p :: s1' =>
              if byteZ p =? 46 then
                let '(f, scale, s2) := leadingFraction 0 (float_of 1) false s1' in
                (f, scale, s2, negb (len s2 =? len s1'))
              else (0, float_of 1, s1, false)
          | [] => (0, float_of 1, s1, false)
          end in
        if negb pre && negb post then None
        else
          let (u, s3) := take_unit s2 in
          unit ← (if len u =? 0 then None else unitMap u);
          if two64 / 2 / unit <? v then None
          else
            let v := uint64 (v * unit) in
            if 0 <? f then
              let v := uint64 (v + uint64_of_float (float_mul (float_of f) (float_div (float_of unit) scale))) in
              if two64 / 2 <? v then None else Some (v, s3)
            else Some (v, s3)
  end.

(** The sum of the terms; every turn consumes a byte at least. *)
Fixpoint duration_sum (fuel : nat) (d : Z) (s : bytes) : option Z :=
  match s with
  | [] => Some d
  | _ =>
      match fuel with
      | O => None
      | S fuel =>
          '(v, s) ← duration_term s;
          let d := uint64 (d + v) in
          if two64 / 2 <? d then None else duration_sum fuel d s
      end
  end.

(** [None] is an error. *)
Definition ParseDuration (s : bytes) : option Z :=
  let (neg, s) :=
    match s with
    | c :: s' => if (byteZ c =? 45) || (byteZ c =? 43) then (byteZ c =? 45, s') else (false, s)
    | [] => (false, s)
    end in
  if bool_decide (s = str "0") then Some 0
  else if len s =? 0 then None
  else
    d ← duration_sum (length s) 0 s;
    if neg then Some (int64 (- int64 d))
    else if MaxInt <? d then None
    else Some (int64 d).

(** * Lemmas *)

(** Joining with the separator undoes splitting. *)
Fixpoint join (sep : Byte.byte) (ps : list bytes) : bytes :=
  match ps with
  | [] => []
  | [p] => p
  | p :: ps => p ++ sep :: join sep ps
  end.

Lemma Split_app sep p s : sep ∉ p -> Split (p ++ sep :: s) sep = p :: Split s sep.
Proof.
  induction p as [|b p IH]; intros Hp; cbn [app Split].
  - by rewrite bool_decide_true.
  - apply not_elem_of_cons in Hp as [Hb Hp]. rewrite bool_decide_false by done. by rewrite IH.
Qed.

Lemma Split_single sep p : sep ∉ p -> Split p sep = [p].
Proof.
  induction p as [|b p IH]; intros Hp; cbn [Split]; [done|].
  apply not_elem_of_cons in Hp as [Hb Hp]. rewrite bool_decide_false by done. by rewrite IH.
Qed.

Lemma Split_join sep ps : ps <> [] -> Forall (fun p => sep ∉ p) ps -> Split (join sep ps) sep = ps.
Proof.
  intros Hne Hps. induction Hps as [|p ps Hp Hps IH]; [done|]. destruct ps as [|q ps].
  - by apply Split_single.
  - cbn [join]. rewrite Split_app by done. f_equal. by apply IH.
Qed.

Lemma Split_nonempty s sep : Split s sep <> [].
Proof. destruct s as [|b s]; cbn [Split]; [done|]. case_bool_decide; [done|]. by destruct (Split s sep). Qed.

(** Fuel: a term consumes something. *)
Lemma leadingInt_len x s v r : leadingInt x s = Some (v, r) -> (length r <= length s)%nat.
Proof.
  revert x. induction s as [|c s IH]; intros x; cbn [leadingInt]; [by intros [= _ <-]|].
  destruct (digit_byte c); [|by intros [= _ <-]]. destruct (_ <? x); [done|].
  destruct (_ <? uint64 _); [done|]. intros H%IH. cbn [length]. lia.
Qed.

Lemma leadingFraction_len s x sc o f sc' r :
  leadingFraction x sc o s = (f, sc', r) -> (length r <= length s)%nat.
Proof.
  revert x sc o. induction s as [|c s IH]; intros x sc o; cbn [leadingFraction]; [by intros [= _ _ <-]|].
  destruct (digit_byte c); [|by intros [= _ _ <-]]. cbn [length].
  destruct o; [intros H%IH; lia|]. destruct (_ <? x); [intros H%IH; lia|].
  destruct (_ <? uint64 _); intros H%IH; lia.
Qed.

Lemma take_unit_len s u r : take_unit s = (u, r) -> (length u + length r = length s)%nat.
Proof.
  revert u r. induction s as [|c s IH]; intros u r; cbn [take_unit]; [by intros [= <- <-]|].
  destruct (digit_byte c || (byteZ c =? 46)); [by intros [= <- <-]|].
  destruct (take_unit s) as [u' r']. intros [= <- <-]. cbn [length]. by rewrite <-(IH u' r').
Qed.

Lemma duration_term_len s v r : duration_term s = Some (v, r) -> (length r < length s)%nat.
Proof.
  unfold duration_term. destruct s as [|c s]; [done|]. destruct (negb _); [done|].
  intros ([v0 s1] & Hi%leadingInt_len & H)%bind_Some.
  set (mid := match s1 with [] => _ | _ => _ end) in H.
  assert (exists f sc s2 post, mid = (f, sc, s2, post) /\ (length s2 <= length s1)%nat) as (f & sc & s2 & post & E & Hl).
  { unfold mid. destruct s1 as [|p s1']; [by exists 0, (float_of 1), [], false|].
      destruct (byteZ p =? 46); [|by exists 0, (float_of 1), (p :: s1'), false].
    destruct (leadingFraction 0 (float_of 1) false s1') as [[f sc] s2] eqn:Ef.
    apply leadingFraction_len in Ef. eexists _, _, _, _. split; [done|]. cbn [length]. lia. }
  rewrite E in H. destruct (_ && _); [done|]. destruct (take_unit s2) as [u s3] eqn:Eu.
  apply take_unit_len in Eu. apply bind_Some in H as (unit & Hu & H).
  destruct (Z.eqb_spec (len u) 0) as [|Hne]; [done|].
  assert (length u <> 0%nat) by (unfold len in Hne; lia).
  destruct (_ <? v0); [done|]. destruct (0 <? f); [destruct (_ <? uint64 _); [done|]|]; injection H as _ <-; lia.
Qed.

(** More fuel than bytes does not matter. *)
Lemma duration_sum_fuel fuel fuel' d s :
  (length s <= fuel)%nat -> (length s <= fuel')%nat -> duration_sum fuel d s = duration_sum fuel' d s.
Proof.
  revert fuel' d s. induction fuel as [|fuel IH]; intros fuel' d s Hf Hf'.
  { destruct s; [|cbn [length] in Hf; lia]. by destruct fuel'. }
  destruct fuel' as [|fuel']; [destruct s; [done|cbn [length] in Hf'; lia]|].
  destruct s as [|c s]; [done|]. cbn [duration_sum].
  destruct (duration_term (c :: s)) as [[v r]|] eqn:E; [|done]. cbn [mbind option_bind].
  apply duration_term_len in E. cbn [length] in *. destruct (_ <? uint64 _); [done|]. apply IH; lia.
Qed.

(** Concrete durations; the fraction of an hour is exact to the nanosecond. *)
Example durations :
  map ParseDuration (map str ["150ms"; "1.5s"; "-2h45m"; "0"; "1.000000001h"; ".5ms"; "10"; "1 s"; "9223372036854775807ns";
    "9223372036854775808ns"; "-9223372036854775808ns"]%string) =
  [Some 150000000; Some 1500000000; Some (-9900000000000); Some 0; Some 3600000003600; Some 500000; None; None;
   Some MaxInt; None; Some MinInt].
Proof. by vm_compute. Qed.

Example trimmed : TrimSpace (str " a:1	" ++ of_rune 8195) = str "a:1".
Proof. by vm_compute. Qed.
