(* ===== verification/Main.v ===== *)
(** * The program ([cmd/server/main.go])

    From flags and configuration file to a running node, and the proposal of
    the initial text.  Parsing the flags, the HTTP server and the signals are
    left out. *)

From S2P Require Import Prelude Utf8 Edit Changeset Apply Cursor Follow Fsm Json Base64 Codec Wire.
From S2P Require Import Binary Store RaftTypes RaftWire Transport Bolt Node Election Logs Replication Append Leader.
From S2P Require Import Loops Cluster Runs Moves Turns ElectionSafety Machine Setup Flags.

(** ** Data *)

(** The configuration file. *)
Record Config : Type := mkConfig {
  NodeID : bytes;
  GRPCAddr : bytes;
  WSAddr : bytes;
  DataDir : bytes;
  Peers : list bytes;
  Bootstrap : bool;
  ElectionMin : bytes;
  ElectionMax : bytes;
  Heartbeat : bytes
}.

Definition config_codec : Codec Config :=
  struct_codec
    (fun c => [(key "node_id", enc string_codec (NodeID c)); (key "grpc_addr", enc string_codec (GRPCAddr c));
               (key "ws_addr", enc string_codec (WSAddr c)); (key "data_dir", enc string_codec (DataDir c));
               (key "peers", enc (slice_codec string_codec) (Peers c)); (key "bootstrap", enc bool_codec (Bootstrap c));
               (key "election_min", enc string_codec (ElectionMin c));
               (key "election_max", enc string_codec (ElectionMax c));
               (key "heartbeat", enc string_codec (Heartbeat c))])
    [(key "node_id", ok string_codec); (key "grpc_addr", ok string_codec); (key "ws_addr", ok string_codec);
     (key "data_dir", ok string_codec); (key "peers", ok (slice_codec string_codec)); (key "bootstrap", ok bool_codec);
     (key "election_min", ok string_codec); (key "election_max", ok string_codec); (key "heartbeat", ok string_codec)]
    (fun ms => mkConfig (field string_codec (key "node_id") ms) (field string_codec (key "grpc_addr") ms)
       (field string_codec (key "ws_addr") ms) (field string_codec (key "data_dir") ms)
       (field (slice_codec string_codec) (key "peers") ms) (field bool_codec (key "bootstrap") ms)
       (field string_codec (key "election_min") ms) (field string_codec (key "election_max") ms)
       (field string_codec (key "heartbeat") ms)).

(** The variables of the flags; the durations are nanoseconds. *)
Record Flags : Type := mkFlags {
  configPath : bytes;
  nodeID : bytes;
  grpcAddr : bytes;
  wsAddr : bytes;
  dataDir : bytes;
  peersFlag : bytes;
  bootstrap : bool;
  initText : bytes;
  electionMin : Z;
  electionMax : Z;
  heartbeat : Z
}.

Definition default_flags : Flags :=
  mkFlags [] (str "node-1") (str "localhost:12000") (str "localhost:8080") (str "./data/node-1")
    (str "localhost:12000") false [] 0 0 0.

(** [log.Fatalf], or the end after an error of [SetupRaft]. *)
Inductive Fatal : Type :=
| FatalOpen
| FatalDecode
| FatalSetup (e : SetupErr).

(** ** The settings *)

(** [json.NewDecoder(file).Decode]: the first value of the text; an object,
    as a configuration is, ends with its brace. *)
Definition first_value (data : bytes) : option json :=
  head (omap (fun n => parse (take n data)) (seq 0 (S (length data)))).

Definition Decode {A} (c : Codec A) (data : bytes) : option A :=
  j ← first_value data; if ok c j then Some (dec c [j]) else None.

Definition override (s new : bytes) : bytes := if bool_decide (new = []) then s else new.

(** A duration that does not parse is ignored. *)
Definition override_duration (d : Z) (s : bytes) : Z :=
  if bool_decide (s = []) then d else default d (ParseDuration s).

(** The file takes precedence over the flags. *)
Definition apply_config (f : Flags) (cfg : Config) : Flags * list bytes :=
  (mkFlags (configPath f) (override (nodeID f) (NodeID cfg)) (override (grpcAddr f) (GRPCAddr cfg))
     (override (wsAddr f) (WSAddr cfg)) (override (dataDir f) (DataDir cfg)) (peersFlag f)
     (bootstrap f || Bootstrap cfg) (initText f)
     (override_duration (electionMin f) (ElectionMin cfg))
     (override_duration (electionMax f) (ElectionMax cfg))
     (override_duration (heartbeat f) (Heartbeat cfg)),
   Peers cfg).

(** [open] is the content of a file, if it can be opened. *)
Definition read_config (open : bytes -> option bytes) (f : Flags) : Flags * list bytes + Fatal :=
  if bool_decide (configPath f = []) then inl (f, [])
  else match open (configPath f) with
       | None => inr FatalOpen
       | Some data =>
           match Decode config_codec data with
           | None => inr FatalDecode
           | Some cfg => inl (apply_config f cfg)
           end
       end.

Definition comma : Byte.byte := Byte.x2c.

Definition peer_list (f : Flags) (peers : list bytes) : list bytes :=
  if len peers =? 0 then map TrimSpace (Split (peersFlag f) comma) else peers.

Definition raft_config (f : Flags) (peers : list bytes) : RaftConfig :=
  mkRaftConfig (nodeID f) (grpcAddr f) (dataDir f) peers (bootstrap f) []
    (electionMin f) (electionMax f) (heartbeat f).

(** ** Starting *)

Section Start.
Context {DB Tx Cursor : Type} `{!Bolt DB Tx Cursor}.

(** [main] up to the running node. *)
Definition start (os : system DB) (open : bytes -> option bytes) (f : Flags)
    : outcome Empty_set (Setup.RaftNode DB Tx Cursor * Flags + Fatal) * handles :=
  match read_config open f with
  | inr e => (Ok (inr e), no_handles)
  | inl (f, peers) =>
      let cfg := raft_config f (peer_list f peers) in
      let (res, h) := SetupRaft os cfg (NewDocumentStateMachine []) in
      (obind res (fun res => Ok (match res with inl n => inl (n, f) | inr e => inr (FatalSetup e) end)), h)
  end.

End Start.

(** What the goroutine of a bootstrap proposes once the node leads. *)
Definition bootstrap_entry (text : bytes) : RaftLogEntry :=
  mkEntry (str "system-bootstrap") 1 0 (MakeInsert 0 0 text).

Definition proposal (f : Flags) : option bytes :=
  if bootstrap f && negb (bool_decide (initText f = [])) then Some (MarshalEntry (bootstrap_entry (initText f)))
  else None.

(** [raft_state] in the answer of [/health]. *)
Definition health_state (leader : bool) : bytes := if leader then str "leader" else str "follower".

(** ** Specification *)

Record config_good (c : Config) : Prop := {
  kg_id : utf8_valid (NodeID c);
  kg_grpc : utf8_valid (GRPCAddr c);
  kg_ws : utf8_valid (WSAddr c);
  kg_dir : utf8_valid (DataDir c);
  kg_peers : Forall utf8_valid (Peers c);
  kg_min : utf8_valid (ElectionMin c);
  kg_max : utf8_valid (ElectionMax c);
  kg_heartbeat : utf8_valid (Heartbeat c)
}.

(** An address as it may stand in the list of peers. *)
Definition plain (p : bytes) : Prop := (comma ∉ p) /\ TrimSpace p = p.

(** * Lemmas *)

Definition strings_law := slice_law _ _ _ string_law.

Lemma config_law : codec_law config_codec config_good 2.
Proof.
  apply struct_law.
  - intros c []. write_members; first [member string_law|member bool_law|member strings_law].
  - intros c []. look_up.
    by rewrite !(law_ok _ _ _ string_law), (law_ok _ _ _ bool_law), (law_ok _ _ _ strings_law).
  - intros [] []. cbn [NodeID GRPCAddr WSAddr DataDir Peers Bootstrap ElectionMin ElectionMax Heartbeat] in *. look_up.
    by rewrite !(law_dec _ _ _ string_law), (law_dec _ _ _ bool_law), (law_dec _ _ _ strings_law).
  - intros ms Hc Hok. split; cbn [NodeID GRPCAddr WSAddr DataDir Peers ElectionMin ElectionMax Heartbeat];
      first [read_field string_law Hc Hok|read_field strings_law Hc Hok].
Qed.

(** The peers of the flag. *)
Lemma peer_list_flag f ps :
  ps <> [] -> Forall plain ps -> peersFlag f = join comma ps -> peer_list f [] = ps.
Proof.
  intros Hne Hps E. unfold peer_list. rewrite E, Split_join; [|done|].
  - simpl. clear -Hps. induction Hps as [|p ps [_ Hp] _ IH]; [done|]. cbn [map]. by rewrite Hp, IH.
  - eapply Forall_impl; [exact Hps|]. by intros p [? _].
Qed.

Lemma peer_list_nonempty f peers : peer_list f peers <> [].
Proof.
  unfold peer_list. destruct (Z.eqb_spec (len peers) 0) as [E|E]; [|by intros ->].
  pose proof (Split_nonempty (peersFlag f) comma). by destruct (Split _ _).
Qed.

(** What a client has submitted stays submitted. *)
Lemma applyAll_seen fsm es fsm' cs e : seen fsm e -> applyAll fsm es = Ok (fsm', cs) -> seen fsm' e.
Proof.
  revert fsm cs. induction es as [|e1 es IH]; intros fsm cs Hs H; cbn [applyAll] in H; [by injection H as <- _|].
  apply obind_Ok in H as (a & Ha & H). apply obind_Ok in H as ([f1 cs1] & H1 & H). injection H as <- _.
  apply (IH (ap_state a) cs1); [|done].
  destruct (applyEntry_cases _ _ _ Ha) as [[_ ->]|(_ & Hns & Et)]; [done|].
  destruct Hs as (last & El & Hle). destruct (decide (le_ClientID e1 = le_ClientID e)) as [Heq|Hne].
  - exists (le_SubmissionID e1). rewrite Et, Heq, lookup_insert_eq. split; [done|].
    destruct (Z.le_gt_cases (le_SubmissionID e1) last) as [Hl|]; [|lia]. destruct Hns. exists last. by rewrite Heq.
  - exists last. by rewrite Et, lookup_insert_ne.
Qed.

Lemma proposal_Some f data :
  proposal f = Some data -> bootstrap f = true /\ initText f <> [] /\ data = MarshalEntry (bootstrap_entry (initText f)).
Proof.
  unfold proposal. destruct (bootstrap f); [|done]. case_bool_decide as E; [done|]. cbn [negb andb].
  intros [= <-]. done.
Qed.

Lemma make_insert text : len text <= MaxDoc -> MakeInsert 0 0 text = mkChangeset 0 (len text) [Insert text].
Proof.
  intros Hl. unfold MakeInsert. change (0 <? 0) with false. change (0 <? int64 (0 - 0)) with false.
  cbn [app]. pose proof (len_nonneg text). unfold MaxDoc in Hl.
  by rewrite Z.add_0_l, int64_id by (unfold is_int, MinInt, MaxInt; lia).
Qed.

Lemma bootstrap_good text : utf8_valid text -> len text <= MaxDoc -> entry_good (bootstrap_entry text).
Proof.
  intros Ht Hl. unfold bootstrap_entry. rewrite make_insert by done. pose proof (len_nonneg text).
  unfold MaxDoc in Hl. split; cbn [le_ClientID le_SubmissionID le_BaseRev le_Changeset].
  - apply ascii_valid. by repeat constructor.
  - done.
  - done.
  - split; cbn [cs_OldLen cs_NewLen cs_Ops]; [done|unfold is_int, MinInt, MaxInt; lia|]. constructor; [|done].
    split; [|done..|done]. apply ascii_valid. by repeat constructor.
Qed.

Lemma insert_applies text : ApplyChangeset [] (mkChangeset 0 (len text) [Insert text]) = Ok text.
Proof.
  pose proof (len_nonneg text). unfold ApplyChangeset. cbn [cs_OldLen cs_NewLen cs_Ops].
  rewrite (proj2 (Z.ltb_ge _ _)) by done. reflexivity.
Qed.

(** On the empty document the initial text becomes the text. *)
Lemma bootstrap_applies text :
  text <> [] -> len text <= MaxDoc ->
  exists a, applyEntry (NewDocumentStateMachine []) (bootstrap_entry text) = Ok a /\
    headText (ap_state a) = text /\ headRev (ap_state a) = 1 /\
    forall other, seen (ap_state a) (bootstrap_entry other).
Proof.
  intros Hne Hl. unfold applyEntry, bootstrap_entry. rewrite make_insert by done.
  cbn [le_ClientID le_SubmissionID le_BaseRev le_Changeset clientLastSubmission NewDocumentStateMachine].
  rewrite lookup_empty. cbn [rebase_loop]. change (headRev (NewDocumentStateMachine [])) with 0.
  change (headText (NewDocumentStateMachine [])) with (@nil Byte.byte). change (0 <? 0) with false.
  cbn [obind]. rewrite insert_applies. eexists. split; [reflexivity|]. split; [done|]. split; [done|].
  intros other. exists 1. split; [apply lookup_insert_eq|done].
Qed.

(** ** Theorems *)

Section Starting.
Context {DB Tx Cursor : Type} `{!Bolt DB Tx Cursor} `{!BoltLaws DB Tx Cursor}.

(** C25: starting the program.  With the settings that the flags and the
    configuration file give, and all that it asks of the system granted, the
    program has a running node exactly if Raft accepts the settings; it then
    goes on from what its database holds, with an empty document; otherwise it
    names the setting and leaves nothing open. *)
Theorem start_spec os open f f' peers db s l t v :
  read_config open f = inl (f', peers) ->
  let cfg := raft_config f' (peer_list f' peers) in
  granted os cfg db s -> database_holds db l t v ->
  (config_ok cfg -> exists n, start os open f = (Ok (inl (n, f')), all_handles) /\ node_ok (rn_Raft n) l /\
     currentTerm (rn_Raft n) = t /\ votedFor (rn_Raft n) = v /\ fsm (rn_Raft n) = NewDocumentStateMachine []) /\
  (~ config_ok cfg -> exists field,
     start os open f = (Ok (inr (FatalSetup (SetupNewRaft (NewConfig field)))), no_handles)).
Proof.
  intros Hf cfg Hg Hdb. destruct (opened_holds db s l t v Hdb (gr_buckets _ _ _ _ Hg)) as (Hr & Hp & Ht).
  unfold start. rewrite Hf. fold cfg. split; intros Hc.
  - rewrite (SetupRaft_ok os cfg _ db s t v) by done. cbn [obind]. eexists. split; [done|].
    split; [by apply set_up_ok|by split].
  - destruct (SetupRaft_refused os cfg (NewDocumentStateMachine []) db s Hg Hc) as [field ->]. by exists field.
Qed.

(** Every server of the list [ps] was started with the list as its peers and
    its own address as its name, on a database with log [l]. *)
Definition started_on (ps : list bytes) (l : list LogEntry) (id : bytes) (n : Setup.RaftNode DB Tx Cursor) : Prop :=
  exists os f db s t v,
    configPath f = [] /\ peersFlag f = join comma ps /\ grpcAddr f = id /\ id ∈ ps /\
    granted os (raft_config f ps) db s /\ database_holds db l t v /\
    start os (fun _ => None) f = (Ok (inl (n, f)), all_handles).

Definition started ps id n : Prop := exists l, started_on ps l id n.

(** The list as a configuration, and the servers as a cluster. *)
Definition members_of (ps : list bytes) : list PeerConfig := map (fun p => mkPeer p p) ps.

Definition cluster_of (nodes : gmap bytes (Setup.RaftNode DB Tx Cursor)) :
    cluster (L := BoltStore DB Tx Cursor) (S := BoltStore DB Tx Cursor) (F := DocumentStateMachine) (R := option ApplyResult) :=
  mkCluster ((fun n => mkSv (rn_Raft n) AtRun) <$> nodes) [] [] [].

Section Started.
Context (ps : list bytes) (Hne : ps <> []) (Hnd : NoDup ps) (Hplain : Forall plain ps) (Hnil : ~ ([] ∈ ps)).

Lemma started_node l id n :
  started_on ps l id n ->
  exists f s t v, id ∈ ps /\ rn_Raft n = set_up (raft_config f ps) s (NewDocumentStateMachine []) t v /\
    rc_BindAddr (raft_config f ps) = id /\ bolt_repr s l /\ persisted s t v /\ is_uint64 t.
Proof.
  intros (os & f & db & s & t & v & Hcp & Hpf & Hga & Hin & Hg & Hdb & Es).
  destruct (opened_holds db s l t v Hdb (gr_buckets _ _ _ _ Hg)) as (Hr & Hp & Ht).
  exists f, s, t, v. split; [done|]. split; [|done].
  unfold start, read_config in Es. rewrite (bool_decide_true _ Hcp), (peer_list_flag f ps) in Es by done.
  destruct (decide (config_ok (raft_config f ps))) as [Hc|Hc].
  - rewrite (SetupRaft_ok os _ _ db s t v) in Es by done. by injection Es as <-.
  - destruct (SetupRaft_refused os _ (NewDocumentStateMachine []) db s Hg Hc) as [field E]. by rewrite E in Es.
Qed.

Lemma members_of_ids : map pc_ID (members_of ps) = ps.
Proof. unfold members_of. rewrite map_map. apply map_id. Qed.

Lemma members_of_ok : members_ok (members_of ps).
Proof.
  split; [by rewrite members_of_ids| |];
    intros p Hp; apply list_elem_of_fmap in Hp as (x & -> & Hx); cbn [pc_ID pc_Address]; [by intros ->|].
  clear -Hx. unfold server_at, members_of. induction ps as [|q qs IH]; [by apply elem_of_nil in Hx|].
  cbn [map List.find pc_Address]. case_bool_decide as E; [by subst|].
  apply elem_of_cons in Hx as [->|Hx]; [done|by apply IH].
Qed.

Lemma started_initial nodes :
  (forall id n, nodes !! id = Some n -> started ps id n) -> initial (members_of ps) (cluster_of nodes).
Proof.
  intros Hn. split; [|done|done]. intros id sv Hsv. cbn [servers cluster_of] in Hsv. rewrite lookup_fmap in Hsv.
  destruct (nodes !! id) as [n|] eqn:En; [|done]. injection Hsv as <-.
  destruct (Hn id n En) as [l Hon].
  destruct (started_node l id n Hon) as (f & s & t & v & Hin & E & Hid & Hr & Hp & Ht).
  rewrite members_of_ids. split; [done|]. cbn [sv_node sv_pos]. rewrite E.
  split; [|done]. split; [split; [|split]| | | |]; cbn [sv_node sv_pos]; try done.
  exists l. by apply set_up_ok.
Qed.

End Started.

(** The cluster the program makes.  Servers started with one list of
    distinct, plain addresses, each with its own among them, on whatever their
    databases hold, form the start of a cluster for which election safety is
    proved. *)
Theorem started_cluster (ps : list bytes) (nodes : gmap bytes (Setup.RaftNode DB Tx Cursor)) :
  ps <> [] -> NoDup ps -> Forall plain ps -> ~ ([] ∈ ps) ->
  (forall id n, nodes !! id = Some n -> started ps id n) ->
  members_ok (members_of ps) /\ initial (members_of ps) (cluster_of nodes).
Proof. intros. split; [by apply members_of_ok|by apply started_initial]. Qed.

End Starting.

(** The initial text.  On an empty document the proposal of a bootstrap
    makes the initial text the document; proposed again later, by a server
    that is started with the same flags or with another initial text, it
    changes nothing, whatever has been committed in between. *)
Theorem bootstrap_once f data es fsm cs :
  proposal f = Some data -> utf8_valid (initText f) -> len (initText f) <= MaxDoc ->
  (exists a, Machine.Apply (NewDocumentStateMachine []) data = Ok a /\
     headText (ap_state a) = initText f /\ headRev (ap_state a) = 1) /\
  (applyAll (NewDocumentStateMachine []) (bootstrap_entry (initText f) :: es) = Ok (fsm, cs) ->
   forall f2 data2, proposal f2 = Some data2 -> utf8_valid (initText f2) -> len (initText f2) <= MaxDoc ->
     exists a, Machine.Apply fsm data2 = Ok a /\ ap_state a = fsm /\
       exists res, ap_response a = Some res /\ ar_IsDuplicate res = true).
Proof.
  intros (_ & Hne & ->)%proposal_Some Ht Hl.
  destruct (bootstrap_applies (initText f) Hne Hl) as (a & Ea & Hhead & Hrev & Hseen). split.
  - exists a. unfold Machine.Apply. rewrite MarshalEntry_roundtrip by by apply bootstrap_good. done.
  - cbn [applyAll]. rewrite Ea. cbn [obind]. intros H f2 data2 (_ & _ & ->)%proposal_Some Ht2 Hl2.
    apply obind_Ok in H as ([fsm1 cs1] & H & E). injection E as -> _.
    unfold Machine.Apply. rewrite MarshalEntry_roundtrip by by apply bootstrap_good.
    pose proof (applyAll_seen _ _ _ _ _ (Hseen (initText f2)) H) as Hs.
    rewrite applyEntry_seen by done. eexists. split; [done|]. split; [done|]. by eexists.
Qed.

(** ** Witnesses *)

#[local] Existing Instances Bolt.Mem.Mem_bolt Bolt.Mem.Mem_laws.

Abbreviation MemNode := (Setup.RaftNode Bolt.Mem.db Bolt.Mem.db (bytes * bytes)).

(** No flags at all. *)
Definition default_config : RaftConfig := raft_config default_flags (peer_list default_flags []).

Lemma default_ok : config_ok default_config.
Proof. apply (bool_decide_unpack _). by vm_compute. Qed.

Lemma mem_opens : exists s : BoltStore Bolt.Mem.db Bolt.Mem.db (bytes * bytes),
  granted (wit_system ∅) default_config ∅ s.
Proof.
  destruct (NewBoltStore_total (Tx := Bolt.Mem.db) (Cursor := bytes * bytes) (∅ : Bolt.Mem.db))
    as [[s|err] Es]; [|discriminate Es]. by exists s.
Qed.

Lemma mem_new : database_holds (Tx := Bolt.Mem.db) (Cursor := bytes * bytes) (∅ : Bolt.Mem.db) [] 0 [].
Proof. left. repeat split; reflexivity. Qed.

Lemma start_spec_witness :
  exists n : MemNode, start (wit_system ∅) (fun _ => None) default_flags = (Ok (inl (n, default_flags)), all_handles) /\
    fsm (rn_Raft n) = NewDocumentStateMachine [].
Proof.
  destruct mem_opens as [s Hg].
  destruct (start_spec (wit_system ∅) (fun _ => None) default_flags default_flags [] ∅ s [] 0 []) as [H _];
    [reflexivity|exact Hg|exact mem_new|].
  destruct (H default_ok) as (n & E & _ & _ & _ & Hf). exists n. split; [exact E|exact Hf].
Defined.

Definition solo : list bytes := [str "localhost:12000"].

Lemma solo_started : exists n : MemNode, started_on solo [] (str "localhost:12000") n.
Proof.
  destruct mem_opens as [s Hg].
  exists (mkRaftNode (set_up default_config s (NewDocumentStateMachine []) 0 []) (mkTransport (rc_BindAddr default_config) false) s).
  destruct (opened_holds (∅ : Bolt.Mem.db) s [] 0 [] mem_new (gr_buckets _ _ _ _ Hg)) as (Hr & Hp & Ht).
  exists (wit_system ∅), default_flags, ∅, s, 0, []. split_and!; [done..|left|exact Hg|exact mem_new|].
  unfold start. change (read_config (fun _ => None) default_flags) with (inl (B := Fatal) (default_flags, @nil bytes)).
  cbv iota. fold default_config. by rewrite (SetupRaft_ok _ _ _ ∅ s 0 []) by (done || apply default_ok).
Qed.

Lemma started_cluster_witness :
  exists n : MemNode, initial (members_of solo) (cluster_of {[str "localhost:12000" := n]}).
Proof.
  destruct solo_started as [n Hn]. exists n.
  refine (proj2 (started_cluster solo {[str "localhost:12000" := n]} _ _ _ _ _)).
  - discriminate.
  - apply (bool_decide_unpack _). by vm_compute.
  - constructor; [|constructor]. split; [apply (bool_decide_unpack _); by vm_compute|by vm_compute].
  - apply (bool_decide_unpack _). by vm_compute.
  - intros id m H. apply lookup_singleton_Some in H as [<- <-]. exists []. exact Hn.
Defined.

Definition bootstrap_flags : Flags :=
  mkFlags [] (str "node-1") (str "localhost:12000") (str "localhost:8080") (str "./data/node-1")
    (str "localhost:12000") true (str "hello") 0 0 0.

Lemma bootstrap_once_witness :
  exists a, Machine.Apply (NewDocumentStateMachine []) (MarshalEntry (bootstrap_entry (str "hello"))) = Ok a /\
    headText (ap_state a) = str "hello".
Proof.
  destruct (bootstrap_once bootstrap_flags (MarshalEntry (bootstrap_entry (str "hello"))) []
    (NewDocumentStateMachine []) []) as [(a & E & Ht & _) _].
  - reflexivity.
  - apply ascii_valid. repeat constructor.
  - vm_compute. discriminate.
  - exists a. split; [exact E|exact Ht].
Defined.

(** A configuration file, followed by what the decoder does not look at. *)
Definition wit_file : bytes :=
  MarshalAs config_codec (mkConfig (str "node-2") (str "b:1") [] (str "./b") [str "a:1"; str "b:1"] true
    (str "2s") (str "oops") []) ++ str " etc.".

Example configured :
  let f := mkFlags (str "config.json") (str "node-1") (str "localhost:12000") (str "localhost:8080")
             (str "./data/node-1") (str "localhost:12000") false [] 0 (3000 * Millisecond) 0 in
  read_config (fun _ => Some wit_file) f =
    inl (mkFlags (str "config.json") (str "node-2") (str "b:1") (str "localhost:8080") (str "./b")
           (str "localhost:12000") true [] (2000 * Millisecond) (3000 * Millisecond) 0,
         [str "a:1"; str "b:1"]).
Proof. by vm_compute. Qed.
