(* ===== verification/System.v ===== *)
(** * The system: the documents of a cluster

    Raft, its stores, the document state machine and the program that puts them
    together, composed: what the servers that the program starts show their
    clients.  The safety of the logs ([LogAgreement]) is applied to the state
    machine of the documents ([Machine]) and to the servers of [Main]. *)

From S2P Require Import Prelude Utf8 Edit Changeset Apply Cursor Follow Fsm Json Base64 Codec Wire.
From S2P Require Import Binary Store RaftTypes RaftWire Transport Bolt Node Election Logs Replication Append Leader.
From S2P Require Import Loops Cluster Runs Candidate Moves Turns ElectionSafety Committed.
From S2P Require Import History LogSafety LogSteps LogEvents LogAgreement Checked Lone Machine Setup Flags Main.

(** ** A document grows *)

(** [d'] is [d] after more revisions; without any the text is the same. *)
Definition grown (d d' : DocumentStateMachine) : Prop :=
  exists revs, revisionLog d' = revisionLog d ++ revs /\
    (revs = [] -> headText d' = headText d /\ headRev d' = headRev d).

(** The text is what the recorded revisions make of the initial one. *)
Definition replayed (init : bytes) (d : DocumentStateMachine) : Prop :=
  replay init (changesets (revisionLog d)) = Ok (headText d).

#[export] Instance grown_preorder : PreOrder grown.
Proof.
  split.
  - intros d. exists []. by rewrite app_nil_r.
  - intros d1 d2 d3 (r1 & E1 & H1) (r2 & E2 & H2). exists (r1 ++ r2). split; [by rewrite E2, E1, app_assoc|].
    intros [-> ->]%app_nil. destruct H1 as [<- <-]; [done|]. by apply H2.
Qed.

Lemma replay_snoc init cs C d : replay init cs = Ok d -> replay init (cs ++ [C]) = ApplyChangeset d C.
Proof.
  revert init. induction cs as [|c cs IH]; intros init E; cbn [app replay] in *.
  - injection E as ->. by destruct (ApplyChangeset d C).
  - apply obind_Ok in E as (d1 & -> & E). cbn [obind]. by apply IH.
Qed.

Lemma applyEntry_grown init d e a :
  applyEntry d e = Ok a -> replayed init d -> grown d (Fsm.ap_state a) /\ replayed init (Fsm.ap_state a).
Proof.
  unfold applyEntry. case_match; [by intros [= <-]|].
  intros (C & _ & E)%obind_Ok Hr. destruct (ApplyChangeset (headText d) C) as [newText| | |] eqn:Ea; try done;
    injection E as <-; [|done].
  split.
  - by exists [mkRevision (headRev d) C (le_ClientID e)].
  - unfold replayed, changesets in *. cbn [Fsm.ap_state revisionLog headText]. rewrite map_app. cbn [map rr_Changeset].
    by rewrite (replay_snoc _ _ _ _ Hr).
Qed.

Lemma applyAll_grown init d es d' cs :
  applyAll d es = Ok (d', cs) -> replayed init d -> grown d d' /\ replayed init d'.
Proof.
  revert d cs. induction es as [|e es IH]; intros d cs E Hr; cbn [applyAll] in E; [by injection E as <- _|].
  apply obind_Ok in E as (a & Ea & E). apply obind_Ok in E as ([d1 cs1] & E1 & E). injection E as <- _.
  destruct (applyEntry_grown init d e a Ea Hr) as [Hg Hr1]. destruct (IH _ _ E1 Hr1) as [Hg' ?].
  split; [by etrans|done].
Qed.

Lemma entries_grown init d l d' :
  apply_entries d l = Ok d' -> replayed init d -> grown d d' /\ replayed init d'.
Proof.
  rewrite apply_entries_applyAll. intros ([d1 cs] & E & [= <-])%obind_Ok. by eapply applyAll_grown.
Qed.

(** Revisions of one number are one revision, and as many of them make one text. *)
Definition one_history (d d' : DocumentStateMachine) : Prop :=
  (forall k rev rev', revisionLog d !! k = Some rev -> revisionLog d' !! k = Some rev' -> rev = rev') /\
  (len (revisionLog d) = len (revisionLog d') -> headText d = headText d' /\ headRev d = headRev d').

#[export] Instance one_history_symm : Symmetric one_history.
Proof. intros d d' [H1 H2]. split; [intros; symmetry; eauto|]. intros E. by destruct H2. Qed.

Lemma grown_one_history d d' : grown d d' -> one_history d d'.
Proof.
  intros (revs & E & H). unfold one_history. rewrite E. split.
  - intros k rev rev' Hk Hk'. rewrite lookup_app_l in Hk' by by apply lookup_lt_Some in Hk. congruence.
  - rewrite len_app. intros Hlen. destruct H as [-> ->]; [|done].
    destruct revs; [done|]. rewrite len_cons in Hlen. pose proof (len_nonneg revs). lia.
Qed.

(** ** The documents of a cluster, on any stores *)

Section Documents.
Context {L S : Type} `{!LogStore L} `{!StableStore S} `{!LogStoreLaws L} `{!LogStoreTruncates L} `{!StableStoreLaws S}.
Context (members : list PeerConfig) (init : bytes).
Abbreviation Cluster := (cluster (L := L) (S := S) (F := DocumentStateMachine) (R := option ApplyResult)).
Abbreviation document s := (fsm (sv_node s)).
Implicit Types c : Cluster.

Lemma cluster_documents c0 c c' x y sx sy :
  StableStoreReliable S -> LogStoreReliable L -> members_ok members ->
  brand_new members (NewDocumentStateMachine init) c0 ->
  rtc (careful_step members (NewDocumentStateMachine init)) c0 c ->
  rtc (careful_step members (NewDocumentStateMachine init)) c c' ->
  servers c !! x = Some sx -> servers c' !! y = Some sy ->
  replayed init (document sx) /\ one_history (document sx) (document sy).
Proof.
  intros Hrel Hlrel Hm Hnew Hrun Hrun' Hx Hy.
  destruct (reachable_safe members (NewDocumentStateMachine init) c0 c) as (Hc & h & Hsafe); [done..|].
  destruct (reachable_safe members (NewDocumentStateMachine init) c0 c') as (Hc' & h' & Hsafe'); [done..|by etrans|].
  destruct (sa_servers _ _ _ _ Hsafe _ _ Hx) as [lx Sx]. destruct (sa_servers _ _ _ _ Hsafe' _ _ Hy) as [ly Sy].
  destruct (applied_agree members (NewDocumentStateMachine init) c0 c c' x y sx sy lx ly) as (Hxy & Hyx & _); try done.
  { by apply (ss_log _ _ _ _ _ _ _ Sx). }
  { by apply (ss_log _ _ _ _ _ _ _ Sy). }
  assert (replayed init (NewDocumentStateMachine init)) as H0 by done.
  destruct (ss_applied _ _ _ _ _ _ _ Sx) as [_ Ax]. destruct (ss_applied _ _ _ _ _ _ _ Sy) as [_ Ay].
  destruct (entries_grown init _ _ _ Ax H0) as [_ Rx]. destruct (entries_grown init _ _ _ Ay H0) as [_ Ry].
  split; [done|]. destruct (Z.le_ge_cases (lastApplied (sv_node sx)) (lastApplied (sv_node sy))) as [Hle|Hle].
  - apply grown_one_history. by eapply entries_grown; [apply Hxy|].
  - symmetry. apply grown_one_history. by eapply entries_grown; [apply Hyx|].
Qed.

End Documents.

(** ** The program's servers *)

Section Program.
Context {DB Tx Cursor : Type} `{!Bolt DB Tx Cursor} `{!BoltLaws DB Tx Cursor}.
Context (ps : list bytes) (Hne : ps <> []) (Hnd : NoDup ps) (Hplain : Forall plain ps) (Hnil : ~ ([] ∈ ps)).

(** Started on empty logs they are brand new. *)
Lemma started_new nodes :
  (forall id n, nodes !! id = Some n -> started_on (Tx := Tx) (Cursor := Cursor) ps [] id n) ->
  brand_new (members_of ps) (NewDocumentStateMachine []) (cluster_of nodes).
Proof.
  intros Hn. split; [apply started_initial; try done; intros id n Hi; exists []; by apply Hn|].
  intros id sv Hsv. cbn [servers cluster_of] in Hsv. rewrite lookup_fmap in Hsv.
  destruct (nodes !! id) as [n|] eqn:En; [|done]. injection Hsv as <-.
  pose proof (Hn id n En) as Hon. apply started_node in Hon as (f & s & t & v & _ & E & _ & Hr & _); [|done..].
  cbn [sv_node]. by rewrite E.
Qed.

End Program.

(** C4: the documents of a cluster.  Start servers of one cluster, with one
    initial text, on stores without a log that keep their promises and grant
    every write, and let anything happen with the care [careful] asks for.
    The text a server shows is always what its revisions make of the initial
    one; the revision of one number is the same at every server at all times;
    and servers with equally many revisions show the same text. *)
Theorem documents_agree {L S : Type} `{!LogStore L} `{!StableStore S} `{!LogStoreLaws L} `{!LogStoreTruncates L}
    `{!StableStoreLaws S} (members : list PeerConfig) (init : bytes)
    (c0 c c' : cluster (L := L) (S := S) (F := DocumentStateMachine) (R := option ApplyResult)) x y sx sy :
  StableStoreReliable S -> LogStoreReliable L -> members_ok members ->
  brand_new members (NewDocumentStateMachine init) c0 ->
  rtc (careful_step members (NewDocumentStateMachine init)) c0 c ->
  rtc (careful_step members (NewDocumentStateMachine init)) c c' ->
  servers c !! x = Some sx -> servers c' !! y = Some sy ->
  let d := fsm (sv_node sx) in let d' := fsm (sv_node sy) in
  replay init (changesets (revisionLog d)) = Ok (HeadText d) /\
  (forall k rev rev', revisionLog d !! k = Some rev -> revisionLog d' !! k = Some rev' -> rev = rev') /\
  (len (revisionLog d) = len (revisionLog d') -> HeadText d = HeadText d' /\ HeadRev d = HeadRev d').
Proof. intros. by eapply (cluster_documents members init c0). Qed.

(** C36: a cluster of one commits nothing.  Start the program with itself as
    the only peer, which is what its default flags say, whatever its database
    holds, and let anything happen, crashes, restarts and failed writes
    included.  It still wins every campaign at once, asking nobody, and as
    leader puts every submission at the end of its log or answers it with the
    store's error; but nothing is ever committed or applied, the document is
    empty, and there is no revision. *)
Theorem lone_program_commits_nothing {DB Tx Cursor : Type} `{!Bolt DB Tx Cursor} `{!BoltLaws DB Tx Cursor}
    (a : bytes) (n : Setup.RaftNode DB Tx Cursor) c s :
  plain a -> started [a] a n ->
  rtc (any_turn (mkPeer a a) (NewDocumentStateMachine [])) (cluster_of {[a := n]}) c ->
  servers c !! a = Some s ->
  let r := sv_node s in
  (exists x req, runCandidate r [] = Ok (x, req, []) /\ run_returned x = true /\ state (run_node x) = Leader) /\
  (exists l, log_repr (logStore r) l /\
     forall req, state r = Leader -> log_room r ->
       exists r' err, handleApplyRequest r req = Ok r' /\
         match err with
         | None => log_repr (logStore r') (l ++ [mkLog (len l + 1) (currentTerm r) (rq_data req)]) /\
             pendingFutures r' !! (len l + 1) = Some (rq_future req)
         | Some e => log_repr (logStore r') l /\
             r' = respondTo (set_log r (logStore r')) (rq_future req) (Some (ErrStoreLog e)) None
         end) /\
  commitIndex r = 0 /\ lastApplied r = 0 /\ HeadText (fsm r) = [] /\ revisionLog (fsm r) = [].
Proof.
  intros Hpl [l Hon] Hrun Hs r.
  apply started_node in Hon as (f & st & t & v & _ & E & Ha & Hr & Hp & Hu); [|done|by constructor].
  assert (idle (mkPeer a a) (NewDocumentStateMachine []) r) as Hi.
  { apply (lone_run _ _ (cluster_of {[a := n]}) c a s); [|done..].
    split; [|done]. intros id sv Hsv. cbn [servers cluster_of] in Hsv. rewrite lookup_fmap in Hsv.
    destruct ({[a := n]} !! id) as [n'|] eqn:En; [|done]. injection Hsv as <-.
    apply lookup_singleton_Some in En as [<- <-]. cbn [sv_node]. rewrite E.
    split; try done; [by exists l|by exists t, v]. }
  destruct (id_log _ _ _ Hi) as [l' Hl']. split; [|split].
  - destruct (idle_elects _ _ _ Hi) as (x & req & E' & _ & Hx & Hlead & _). by exists x, req.
  - exists l'. split; [done|]. intros req. by apply (idle_appends (mkPeer a a) (NewDocumentStateMachine [])).
  - destruct Hi as [_ _ Hc Hla Hf _ _ _]. by rewrite Hf.
Qed.

(** ** Servers on databases in memory *)

#[local] Existing Instances Bolt.Mem.Mem_bolt Bolt.Mem.Mem_laws Bolt.Mem.Mem_resumes
  Bolt.Mem.Mem_log_reliable Bolt.Mem.Mem_stable_reliable.

Abbreviation MemEvent := (event (F := DocumentStateMachine)).
Abbreviation MemCluster := (cluster (L := BoltStore Bolt.Mem.db Bolt.Mem.db (bytes * bytes))
  (S := BoltStore Bolt.Mem.db Bolt.Mem.db (bytes * bytes)) (F := DocumentStateMachine) (R := option ApplyResult)).

Definition mem_store : BoltStore Bolt.Mem.db Bolt.Mem.db (bytes * bytes) :=
  match NewBoltStore (Tx := Bolt.Mem.db) (Cursor := bytes * bytes) (∅ : Bolt.Mem.db) with
  | Ok (inl s) => s
  | _ => mkBolt ∅
  end.

Lemma mem_store_new : NewBoltStore (Tx := Bolt.Mem.db) (Cursor := bytes * bytes) (∅ : Bolt.Mem.db) = Ok (inl mem_store).
Proof. reflexivity. Qed.

(** [-grpc=id -peers=ps], on an empty database. *)
Definition mem_flags (ps : list bytes) (id : bytes) : Flags :=
  mkFlags [] (str "node") id (str "localhost:8080") (str "./data") (join comma ps) false [] 0 0 0.

Definition mem_node (ps : list bytes) (id : bytes) : MemNode :=
  let cfg := raft_config (mem_flags ps id) ps in
  mkRaftNode (set_up cfg mem_store (NewDocumentStateMachine []) 0 []) (mkTransport (rc_BindAddr cfg) false) mem_store.

Lemma mem_node_started ps id :
  ps <> [] -> Forall plain ps -> id ∈ ps -> config_ok (raft_config (mem_flags ps id) ps) ->
  started_on ps [] id (mem_node ps id).
Proof.
  intros Hne Hpl Hid Hok. exists (wit_system ∅), (mem_flags ps id), ∅, mem_store, 0, [].
  split_and!; [done..| |exact mem_new|].
  - split; [done..|exact mem_store_new].
  - unfold start, read_config. rewrite bool_decide_true by done. cbv iota.
    rewrite (peer_list_flag (mem_flags ps id) ps) by done.
    rewrite (SetupRaft_ok (wit_system ∅) (raft_config (mem_flags ps id) ps) _ ∅ mem_store 0 []); try done.
    by apply (opened_holds (∅ : Bolt.Mem.db) mem_store [] 0 []); [exact mem_new|exact mem_store_new].
Qed.

(** [id] is elected by the answer to vote call number [vote]. *)
Definition stands (id : bytes) : list MemEvent := [EvDispatch id; EvTimeout id; EvDispatch id; EvElect id].
Definition takes_office (id : bytes) : list MemEvent := [EvDispatch id; EvTakeOffice id; EvAnnounce id].
Definition is_elected (id : bytes) (vote : nat) : list MemEvent :=
  stands id ++ [EvVoteRequest vote; EvVote vote] ++ takes_office id.
Definition exchange (id : bytes) (peer k : nat) : list MemEvent :=
  [EvReplicate id peer; EvAppendRequest k; EvAppendResponse k].
Definition submits (id : bytes) : list MemEvent :=
  [EvClient id (MarshalEntry (bootstrap_entry (str "hello"))) Sent; EvApplyRequest id].

Definition server_of (c : MemCluster) (id : bytes) : server :=
  default (mkSv (rn_Raft (mem_node [] id)) AtRun) (servers c !! id).

Lemma server_there c id : is_nil (servers c !! id) = false -> servers c !! id = Some (server_of c id).
Proof. unfold server_of. by destruct (servers c !! id). Qed.

(** ** Witness: two servers *)

Definition left_addr : bytes := str "a:1".
Definition right_addr : bytes := str "b:1".
Definition pair : list bytes := [left_addr; right_addr].

Definition pair_nodes : gmap bytes MemNode :=
  <[left_addr := mem_node pair left_addr]> (<[right_addr := mem_node pair right_addr]> ∅).

Lemma pair_plain : Forall plain pair.
Proof. repeat constructor; try (apply (bool_decide_unpack _); by vm_compute); by vm_compute. Qed.

Lemma pair_node_started id : id ∈ pair -> started_on pair [] id (mem_node pair id).
Proof.
  intros Hid. apply mem_node_started; [done|apply pair_plain|done|].
  repeat (apply elem_of_cons in Hid as [->|Hid]; [apply (bool_decide_unpack _); by vm_compute|]).
  by apply elem_of_nil in Hid.
Qed.

Lemma pair_nodes_started id n : pair_nodes !! id = Some n -> started_on pair [] id n.
Proof.
  unfold pair_nodes. intros [[<- <-]|[_ [[<- <-]|[_ H]]%lookup_insert_Some]]%lookup_insert_Some;
    [apply pair_node_started..|by rewrite lookup_empty in H].
  - left.
  - right. left.
Qed.

(** [a:1] is elected and commits the text [hello]; it crashes and starts
    again, and [b:1], which knew of no commit, is elected and commits it. *)
Definition left_commits : list MemEvent :=
  EvDispatch right_addr :: is_elected left_addr 0 ++ submits left_addr ++ exchange left_addr 0 0 ++
  [EvApplied left_addr; EvApplied left_addr].

Definition right_commits : list MemEvent :=
  [EvRestart left_addr (NewDocumentStateMachine []); EvDispatch left_addr] ++ is_elected right_addr 1 ++
  exchange right_addr 0 1 ++ exchange right_addr 0 2 ++
  [EvApplied right_addr; EvApplied right_addr; EvApplied right_addr].

Definition no_document (d : DocumentStateMachine) : bool :=
  match d with mkFsm [] 0 [] m => bool_decide (m = ∅) | _ => false end.

Lemma no_document_ok d : no_document d = true -> d = NewDocumentStateMachine [].
Proof. destruct d as [[] [] [] m]; try done. by intros ->%bool_decide_eq_true. Qed.

Definition pair_start : MemCluster := cluster_of pair_nodes.
Definition pair_first : MemCluster :=
  default pair_start (careful_turns (members_of pair) no_document pair_start left_commits).
Definition pair_later : MemCluster :=
  default pair_start (careful_turns (members_of pair) no_document pair_first right_commits).

Lemma pair_start_new : brand_new (members_of pair) (NewDocumentStateMachine []) pair_start.
Proof.
  apply (started_new (Tx := Bolt.Mem.db) (Cursor := bytes * bytes) pair);
    [discriminate|exact pair_plain|exact pair_nodes_started].
Qed.

Lemma documents_agree_witness :
  let d := fsm (sv_node (server_of pair_first left_addr)) in
  let d' := fsm (sv_node (server_of pair_later right_addr)) in
  HeadText d = str "hello" /\ replay [] (changesets (revisionLog d)) = Ok (str "hello") /\
  HeadText d = HeadText d' /\ revisionLog d !! 0%nat = revisionLog d' !! 0%nat.
Proof.
  intros d d'. assert (HeadText d = str "hello") as Ht by (by vm_compute).
  destruct (documents_agree (members_of pair) [] pair_start pair_first pair_later left_addr right_addr
    (server_of pair_first left_addr) (server_of pair_later right_addr)) as (Hr & Hk & Hl).
  - apply _.
  - apply _.
  - apply members_of_ok; apply (bool_decide_unpack _); by vm_compute.
  - exact pair_start_new.
  - refine (proj1 (runs_to _ no_document _ no_document_ok pair_start pair_start left_commits _)). by vm_compute.
  - refine (proj1 (runs_to _ no_document _ no_document_ok pair_start pair_first right_commits _)). by vm_compute.
  - apply server_there. by vm_compute.
  - apply server_there. by vm_compute.
  - split; [exact Ht|]. split; [rewrite <-Ht; exact Hr|]. split; [apply Hl; by vm_compute|].
    destruct (revisionLog d !! 0%nat) as [rev|] eqn:E; [|exfalso; revert E; by vm_compute].
    destruct (revisionLog d' !! 0%nat) as [rev'|] eqn:E'; [|exfalso; revert E'; by vm_compute].
    f_equal. exact (Hk 0%nat rev rev' E E').
Defined.

(** ** Witness: the default flags *)

Definition solo_addr : bytes := str "localhost:12000".
Definition solo_start : MemCluster := cluster_of {[solo_addr := mem_node [solo_addr] solo_addr]}.
Definition solo_submits : list MemEvent := stands solo_addr ++ takes_office solo_addr ++ submits solo_addr.

Definition solo_check (c : MemCluster) (e : MemEvent) : bool :=
  orderly_b c e && match e with EvRestart _ _ => false | _ => true end.

Definition solo_later : MemCluster :=
  default solo_start (checked_turns [mkPeer solo_addr solo_addr] solo_check solo_start solo_submits).

(** The server leads, has the submission in its log, and would take another. *)
Lemma lone_program_commits_nothing_witness :
  let s := server_of solo_later solo_addr in
  state (sv_node s) = Leader /\ LastIndex (logStore (sv_node s)) = Ok (2, None) /\
  (exists x req, runCandidate (sv_node s) [] = Ok (x, req, []) /\ state (run_node x) = Leader) /\
  (exists r', handleApplyRequest (sv_node s) (mkApplyReq [] 0) = Ok r') /\
  commitIndex (sv_node s) = 0 /\ HeadText (fsm (sv_node s)) = [].
Proof.
  intros s. assert (state (sv_node s) = Leader) as Hlead by (by vm_compute).
  destruct (lone_program_commits_nothing solo_addr (mem_node [solo_addr] solo_addr) solo_later s)
    as ((x & req & Hx & _ & Hlx) & (l & Hl & Happ) & Hc & _ & Ht & _).
  - split; [apply (bool_decide_unpack _); by vm_compute|by vm_compute].
  - exists []. apply mem_node_started; [discriminate| |left|apply (bool_decide_unpack _); by vm_compute].
    constructor; [|constructor]. split; [apply (bool_decide_unpack _); by vm_compute|by vm_compute].
  - apply (checked_turns_ok [mkPeer solo_addr solo_addr] solo_check _ solo_start solo_submits).
    + intros c e c' [He He']%andb_true_iff E. apply (any_event _ _ c e); [|done]. apply orderly_b_ok in He. by destruct e.
    + assert (is_nil (checked_turns [mkPeer solo_addr solo_addr] solo_check solo_start solo_submits) = false) as H
        by (by vm_compute).
      unfold solo_later. by destruct (checked_turns _ _ _ _).
  - apply server_there. by vm_compute.
  - split; [exact Hlead|]. split; [by vm_compute|]. split; [exists x, req; exact (conj Hx Hlx)|].
    split; [|split; [exact Hc|exact Ht]].
    destruct (Happ (mkApplyReq [] 0) Hlead) as (r' & err & E & _); [|exists r'; exact E].
    apply has_room_ok. by vm_compute.
Defined.
