(* ===== verification/TwoLeaders.v ===== *)
(** * Raft: a cluster of three

    Runs of the servers [A], [B] and [C] on in-memory stores, from their
    start: one in which a leader is elected, replicates and commits a command;
    and the one that [ElectionSafety.orderly] excludes, in which an answer to an
    old replicator interrupts a campaign, two servers lead the same term, and
    their state machines are given different commands. *)

From S2P Require Import Prelude Binary Store Inmem RaftTypes Node Election Logs Replication Append Leader Loops Cluster Runs Candidate Moves Turns ElectionSafety Committed History LogSafety LogSteps LogEvents LogAgreement Checked TestNode.

Abbreviation TestCluster :=
  (cluster (L := Log.InmemLogStore) (S := gmap bytes bytes) (F := testFSM) (R := Z)).
Abbreviation TestEvent := (event (F := testFSM)).

Definition fresh (id : bytes) : TestNode :=
  mkNode
    (mkConfig id trio (150 * Millisecond) (1000 * Millisecond) (2000 * Millisecond) None None None)
    0 [] Log.NewInmemLogStore ∅ Follower 0 0 ∅ [] [] [] [] ∅ [] [] false false.

Definition start : TestCluster :=
  mkCluster (<[A := mkSv (fresh A) AtRun]> (<[B := mkSv (fresh B) AtRun]> (<[C := mkSv (fresh C) AtRun]> ∅)))
    [] [] [].

Lemma trio_ok : members_ok trio.
Proof.
  split.
  - apply (bool_decide_unpack _). by vm_compute.
  - intros p Hp. repeat (apply elem_of_cons in Hp as [->|Hp]; [by vm_compute|]). by apply elem_of_nil in Hp.
  - intros p Hp. repeat (apply elem_of_cons in Hp as [->|Hp]; [by vm_compute|]). by apply elem_of_nil in Hp.
Qed.

Lemma fresh_ok id : node_inv (fresh id).
Proof.
  split; [|split].
  - exists []. split; [apply Log.repr_new|by exists ∅|]. vm_compute. by split.
  - intros i loc H. simpl in H. by rewrite lookup_empty in H.
  - intros _. exists ∅. split; [done|]. split; [by right|done].
Qed.

Lemma start_ok : initial trio start.
Proof.
  split; [|done|done]. intros id s Hs. simpl in Hs.
  repeat (apply lookup_insert_Some in Hs as [[<- <-]|[_ Hs]];
    [split; [by vm_compute; repeat constructor|]; split; [|done]; split; [apply fresh_ok|intros ? ? [=]|done..]|]).
  by rewrite lookup_empty in Hs.
Qed.

(** ** An election, and a command *)

Definition wake (ids : list bytes) : list TestEvent := map EvDispatch ids.
Definition campaign (id : bytes) : list TestEvent := [EvTimeout id; EvDispatch id; EvElect id].
Definition take_office (id : bytes) : list TestEvent := [EvDispatch id; EvTakeOffice id; EvAnnounce id].
(** Append call number [k], of the replicator [peer] of [id]. *)
Definition exchanged (id : bytes) (peer k : nat) : list TestEvent :=
  [EvReplicate id peer; EvAppendRequest k; EvAppendResponse k].

Definition first_command : list TestEvent :=
  wake [A; B; C] ++ campaign A ++ [EvVoteRequest 0; EvVote 0] ++ take_office A ++
  [EvClient A (str "x") Sent; EvApplyRequest A] ++ exchanged A 0 0 ++
  [EvApplied A; EvApplied A] ++ exchanged A 0 1 ++ [EvApplied B; EvApplied B].

Definition elected_cluster : TestCluster := default start (orderly_turns trio start first_command).

Definition view (c : TestCluster) (id : bytes) : option (ServerState * Z * testFSM) :=
  (fun s => (state (sv_node s), currentTerm (sv_node s), fsm (sv_node s))) <$> servers c !! id.

(** ** Two leaders *)

(** [A] leads term 1 and has an entry request for [B] under way.  [C] stands
    for terms up to 2, which makes [A] step down; [A] stands for term 3 and is
    given the vote of [B], whose answer is slow; [C] is elected in term 4 by
    [B]; only now [B] answers the old entry request. *)
Definition split_vote : list TestEvent :=
  wake [A; B; C] ++ campaign A ++ [EvVoteRequest 0; EvVote 0] ++
  [EvDispatch A; EvTakeOffice A; EvReplicate A 0; EvAnnounce A] ++
  campaign C ++ campaign C ++ [EvVoteRequest 4] ++
  wake [A] ++ campaign A ++ [EvVoteRequest 6] ++
  campaign C ++ campaign C ++ [EvVoteRequest 11; EvVote 11] ++
  [EvAppendRequest 0; EvAppendResponse 0; EvVote 6].

(** Both take a command, and get it to [B]. *)
Definition split_commands : list TestEvent :=
  take_office C ++ [EvClient C (str "c") Sent; EvApplyRequest C] ++ exchanged C 1 1 ++
  take_office A ++ [EvClient A (str "a") Sent; EvApplyRequest A] ++
  exchanged A 2 2 ++ exchanged A 2 3 ++ exchanged A 2 4 ++
  [EvApplied C; EvApplied C; EvApplied A; EvApplied A; EvApplied A].

(** C38: two leaders in a term.  Without the condition of election safety it
    fails: the cluster goes from its start to a state in which [A] and [C]
    both lead term 4, and each has applied the command of its own client
    first. *)
Theorem replicas_diverge :
  match turns trio start (split_vote ++ split_commands) with
  | Ok c =>
      view c A = Some (Leader, 4, [str "a"]) /\ view c C = Some (Leader, 4, [str "c"]) /\
      (4, A) ∈ elected c /\ (4, C) ∈ elected c
  | _ => False
  end.
Proof. vm_compute. split; [done|]. split; [done|]. split; repeat constructor. Qed.

(** ** Witness *)

Lemma first_command_runs : orderly_turns trio start first_command = Some elected_cluster.
Proof.
  assert (is_nil (orderly_turns trio start first_command) = false) as H by (by vm_compute).
  unfold elected_cluster. by destruct (orderly_turns trio start first_command).
Qed.

Lemma election_safety_witness :
  (1, A) ∈ elected elected_cluster /\
  forall y, (1, y) ∈ elected elected_cluster -> A = y.
Proof.
  assert ((1, A) ∈ elected elected_cluster) as H by (vm_compute; repeat constructor).
  split; [exact H|]. intros y Hy.
  exact (proj1 (election_safety trio start elected_cluster _ trio_ok start_ok
    (orderly_turns_ok trio _ _ _ first_command_runs)) 1 A y H Hy).
Defined.
