(* ===== verification/Deposed.v ===== *)
(** * Raft: a leader deposed before its no-op

    [runLeader] starts the replicators and then calls [appendNoOp], which takes
    the lock and appends an entry of the current term without asking whether the
    server still leads.  A replicator that is quicker may have met a higher term
    and made the server step down: the entry then carries a term that another
    server leads, which gives different entries with one index and one term.
    [LogAgreement.careful] excludes this; here is the run in which it happens. *)

From S2P Require Import Prelude Binary Store Inmem RaftTypes Node Election Logs Replication Append Leader Loops Cluster Runs Candidate Moves Turns ElectionSafety Committed History LogSafety LogSteps LogEvents LogAgreement Checked TestNode TwoLeaders.

(** [A] leads term 1 with the command of a client that it does not replicate.
    [C] stands for terms up to 2, [A] steps down, is elected in term 3 by [B]
    and starts its replicators; before it announces itself [C] is elected in
    term 4 by [B], [B] turns [A]'s heartbeat down, and [A] steps down to term 4. *)
Definition deposed : list TestEvent :=
  wake [A; B; C] ++ campaign A ++ [EvVoteRequest 0; EvVote 0] ++ take_office A ++
  [EvClient A (str "x") Sent; EvApplyRequest A] ++
  campaign C ++ campaign C ++ [EvVoteRequest 4] ++
  wake [A] ++ campaign A ++ [EvVoteRequest 6; EvVote 6; EvDispatch A; EvTakeOffice A; EvReplicate A 2] ++
  campaign C ++ campaign C ++ [EvVoteRequest 11; EvVote 11] ++
  [EvAppendRequest 0; EvAppendResponse 0].

(** [A] announces itself all the same: its third entry is of term 4.  [C] takes
    two commands, gets them to [B] and applies them, with its own third entry of
    term 4.  To [B] the log of [A] now looks like its own: [A] is elected in
    term 5 and commits its log. *)
Definition announced : list TestEvent :=
  [EvAnnounce A] ++
  take_office C ++ [EvClient C (str "c1") Sent; EvApplyRequest C; EvClient C (str "c2") Sent; EvApplyRequest C] ++
  exchanged C 1 1 ++ [EvApplied C; EvApplied C; EvApplied C] ++
  wake [A] ++ campaign A ++ [EvVoteRequest 12; EvVote 12] ++ take_office A ++
  exchanged A 4 2 ++ [EvApplied A; EvApplied A; EvApplied A].

Definition applied_by (c : TestCluster) (id : bytes) : option (Z * Z * testFSM) :=
  (fun s => (currentTerm (sv_node s), lastApplied (sv_node s), fsm (sv_node s))) <$> servers c !! id.

Definition term_of (c : TestCluster) (id : bytes) (i : Z) : option Z :=
  s ← servers c !! id; match GetLog (logStore (sv_node s)) i with Ok (Some e, None) => Some (log_Term e) | _ => None end.

(** C37: a no-op after the office.  No term has two leaders, and yet the
    replicas diverge: a server that follows in term 4 appends an entry of term
    4, so that its log and that of the leader of term 4 have entries of equal
    index and term above different ones; and a majority takes the one log for
    the other.  Both servers have applied three entries, one the command [x],
    the other the commands [c1] and [c2]. *)
Theorem deposed_leader_appends :
  match orderly_turns trio start deposed with
  | Some c =>
      view c A = Some (Follower, 4, []) /\ term_of c A 3 = None /\
      match orderly_turns trio c announced with
      | Some c' =>
          NoDup (fst <$> elected c') /\ (4, C) ∈ elected c' /\ (5, A) ∈ elected c' /\
          term_of c' A 3 = Some 4 /\ term_of c' C 3 = Some 4 /\
          applied_by c' A = Some (5, 3, [str "x"]) /\ applied_by c' C = Some (4, 3, [str "c1"; str "c2"])
      | None => False
      end
  | None => False
  end.
Proof.
  vm_compute. split_and!; try done.
  - apply (bool_decide_unpack _). by vm_compute.
  - repeat constructor.
  - repeat constructor.
Qed.
