(* ===== verification/CarefulRun.v ===== *)
(** * Raft: state machine safety at work

    A careful run of three servers, computed: [A] is elected and commits a
    command; [A] crashes and starts again; [B] is elected in term 2 and commits
    a command of its own.  The theorems of [LogAgreement] are applied to it. *)

From S2P Require Import Prelude Binary Store Inmem RaftTypes Node Election Logs Replication Append Leader Loops Cluster Runs Candidate Moves Turns ElectionSafety Committed History LogSafety LogSteps LogEvents LogAgreement Checked TestNode TwoLeaders.

(** The initial state machine has been given nothing. *)
Definition no_commands (f : testFSM) : bool := bool_decide (f = []).

Lemma no_commands_ok f : no_commands f = true -> f = [].
Proof. by intros ?%bool_decide_eq_true. Qed.

Lemma start_new : brand_new trio ([] : testFSM) start.
Proof.
  split; [apply start_ok|]. intros id s Hs. simpl in Hs.
  repeat (apply lookup_insert_Some in Hs as [[<- <-]|[_ Hs]];
    [split; [apply Log.repr_new|]; by split|]).
  by rewrite lookup_empty in Hs.
Qed.

(** ** The run *)

Definition second_command : list TestEvent :=
  [EvRestart A []] ++ wake [A] ++ campaign B ++ [EvVoteRequest 2; EvVote 2] ++ take_office B ++
  [EvClient B (str "y") Sent; EvApplyRequest B] ++ exchanged B 0 2 ++ exchanged B 0 3 ++
  [EvApplied B; EvApplied B] ++ exchanged B 0 4 ++ [EvApplied A; EvApplied A; EvApplied A; EvApplied A].

Definition later_cluster : TestCluster := default start (careful_turns trio no_commands elected_cluster second_command).

Lemma first_careful : rtc (careful_step trio ([] : testFSM)) start elected_cluster.
Proof. refine (proj2 (runs_to trio no_commands [] no_commands_ok start start first_command _)). by vm_compute. Qed.

Lemma second_careful : rtc (careful_step trio ([] : testFSM)) elected_cluster later_cluster.
Proof. refine (proj1 (runs_to trio no_commands [] no_commands_ok start elected_cluster second_command _)). by vm_compute. Qed.

Definition replica (c : TestCluster) (id : bytes) : server :=
  default (mkSv (fresh id) AtRun) (servers c !! id).

Lemma replica_there c id : is_nil (servers c !! id) = false -> servers c !! id = Some (replica c id).
Proof. unfold replica. by destruct (servers c !! id). Qed.

Lemma replica_log c id es :
  logStore (sv_node (replica c id)) = log_of es -> map log_Index es = seqZ 1 (len es) -> len es < MaxUint64 ->
  small_terms es = true -> log_repr (logStore (sv_node (replica c id))) es.
Proof. intros -> ? ? ?. by apply log_of_repr. Qed.

(** What the logs have at the two moments. *)
Definition first_log : list LogEntry := [mkLog 1 1 []; mkLog 2 1 (str "x")].
Definition second_log : list LogEntry := first_log ++ [mkLog 3 2 []; mkLog 4 2 (str "y")].

Lemma first_replica : log_repr (logStore (sv_node (replica elected_cluster A))) first_log.
Proof. apply replica_log; by vm_compute. Qed.

Lemma second_replica id : id = A \/ id = B -> log_repr (logStore (sv_node (replica later_cluster id))) second_log.
Proof. intros [->| ->]; apply replica_log; by vm_compute. Qed.

(** ** The theorems applied *)

Lemma both_careful : rtc (careful_step trio ([] : testFSM)) start later_cluster.
Proof. etrans; [apply first_careful|apply second_careful]. Qed.

Ltac careful_facts :=
  lazymatch goal with
  | |- StableStoreReliable _ => apply Stable.InmemStableStore_reliable
  | |- LogStoreReliable _ => apply Log.InmemLogStore_reliable
  | |- members_ok _ => apply trio_ok
  | |- brand_new _ _ _ => apply start_new
  | |- rtc _ start elected_cluster => apply first_careful
  | |- rtc _ start later_cluster => apply both_careful
  | |- rtc _ elected_cluster _ => apply second_careful
  | |- log_repr _ first_log => apply first_replica
  | |- log_repr _ second_log => apply second_replica; auto
  | |- servers _ !! _ = _ => apply replica_there; by vm_compute
  | |- log_repr _ [] => apply replica_log; by vm_compute
  | |- _ => by vm_compute
  end.

(** What [A] had committed before the crash is what [B] has committed since. *)
Lemma committed_forever_witness : take 2 first_log = take 2 second_log.
Proof.
  apply (committed_forever trio ([] : testFSM) start elected_cluster later_cluster A B
    (replica elected_cluster A) (replica later_cluster B) first_log second_log 2); careful_facts.
Defined.

(** [B] leads with what [A] had committed. *)
Lemma leader_completeness_witness :
  let n := commitIndex (sv_node (replica elected_cluster A)) in
  n = 2 /\ n <= len second_log /\ take (Z.to_nat n) second_log = take (Z.to_nat n) first_log.
Proof.
  split; [by vm_compute|].
  apply (leader_completeness trio ([] : testFSM) start elected_cluster later_cluster A B
    (replica elected_cluster A) (replica later_cluster B) first_log second_log); careful_facts.
Defined.

(** [C] has heard of nothing, and agrees. *)
Lemma state_machines_agree_witness :
  log_matching [] second_log /\ apply_entries (R := Z) ([] : testFSM) (between second_log 0 4) = Ok [str "x"; str "y"].
Proof.
  destruct (state_machines_agree trio ([] : testFSM) start later_cluster C A
    (replica later_cluster C) (replica later_cluster A) [] second_log) as (Hm & H & _); [careful_facts..|].
  split; [exact Hm|]. apply H. by vm_compute.
Defined.
