(* ===== verification/Stale.v ===== *)
(** * Raft: an acceptance from an earlier leadership

    [replicateOnce] processes a successful response without asking whether the
    server still leads, and in the term of the request.  [LogAgreement.careful]
    asks for it; here is a careful run of five servers, up to two responses, in
    which a follower commits what no majority has. *)

From S2P Require Import Prelude Binary Store Inmem RaftTypes Node Election Logs Replication Append Leader Loops Cluster Runs Moves Turns ElectionSafety LogAgreement Checked TestNode TwoLeaders Deposed CarefulRun.

Definition D : bytes := str "D".
Definition E : bytes := str "E".

Definition five : list PeerConfig := trio ++ [mkPeer D (str "d:1"); mkPeer E (str "e:1")].

Definition one_of_five (id : bytes) : TestNode :=
  mkNode
    (mkConfig id five (150 * Millisecond) (1000 * Millisecond) (2000 * Millisecond) None None None)
    0 [] Log.NewInmemLogStore ∅ Follower 0 0 ∅ [] [] [] [] ∅ [] [] false false.

Definition start_five : TestCluster :=
  mkCluster (list_to_map ((fun id => (id, mkSv (one_of_five id) AtRun)) <$> [A; B; C; D; E])) [] [] [].

(** Vote call [k] is made, and answered. *)
Definition vote (k : nat) : list TestEvent := [EvVoteRequest k; EvVote k].

(** [A] leads term 1 and keeps two commands to itself; [C] leads term 2 and
    keeps its no-op to itself. *)
Definition two_minorities : list TestEvent :=
  wake [A; B; C; D; E] ++ campaign A ++ vote 0 ++ vote 2 ++ take_office A ++
  [EvClient A (str "x1") Sent; EvApplyRequest A; EvClient A (str "x2") Sent; EvApplyRequest A] ++
  campaign C ++ campaign C ++ [EvVoteRequest 8] ++ vote 9 ++ vote 11 ++ take_office C.

(** [A] leads term 3 and sends its entries of term 1 to [B] and [D], which
    accept them. *)
Definition accepted_by_majority : list TestEvent :=
  wake [A] ++ campaign A ++ [EvVoteRequest 13] ++ vote 12 ++ vote 14 ++ [EvDispatch A; EvTakeOffice A] ++
  exchanged A 4 0 ++ exchanged A 6 1 ++ [EvReplicate A 4; EvReplicate A 6; EvAnnounce A; EvAppendRequest 2; EvAppendRequest 3].

(** [C] leads term 4, with a command, and replaces the log of [A]. *)
Definition replaced : list TestEvent :=
  wake [C] ++ campaign C ++ vote 17 ++ vote 19 ++ take_office C ++
  [EvClient C (str "c") Sent; EvApplyRequest C] ++ exchanged C 4 4 ++ wake [A] ++ exchanged C 4 5.

(** [A], a follower now, takes the answers of [B] and [D]. *)
Definition late_answers : list TestEvent := [EvAppendResponse 2; EvAppendResponse 3].

(** [B] leads term 5 and replaces everybody's log with its own. *)
Definition others_commit : list TestEvent :=
  [EvApplied A; EvApplied A; EvApplied A] ++
  campaign B ++ vote 22 ++ vote 23 ++ take_office B ++
  exchanged B 2 6 ++ exchanged B 3 7 ++ exchanged B 3 8 ++ [EvApplied B; EvApplied B; EvApplied B].

(** Every event but the two late answers is careful.  They make [A], which
    follows, commit three entries that only [A] and [C] have, and their state
    machines are given different commands. *)
Theorem stale_acceptance_commits :
  match careful_turns five no_commands start_five (two_minorities ++ accepted_by_majority ++ replaced) with
  | Some c =>
      careful_b no_commands c (EvAppendResponse 2) = false /\ view c A = Some (Follower, 4, []) /\
      match turns five c late_answers with
      | Ok c1 =>
          commitIndex <$> (sv_node <$> servers c1 !! A) = Some 3 /\
          term_of c1 A 3 = Some 4 /\ term_of c1 B 3 = Some 1 /\ term_of c1 D 3 = Some 1 /\ term_of c1 E 3 = None /\
          match careful_turns five no_commands c1 others_commit with
          | Some c2 =>
              applied_by c2 A = Some (4, 3, [str "c"]) /\ applied_by c2 B = Some (5, 3, [str "x1"; str "x2"])
          | None => False
          end
      | _ => False
      end
  | None => False
  end.
Proof. vm_compute. by split_and!. Qed.
