(* ===== verification/Scenarios.v ===== *)
(** * Raft: schedules that break a promise

    Runs of one node, computed from the definitions on the in-memory stores,
    in which the code does what a reader of Raft would not expect.  Each is a
    sequence of critical sections the goroutines of the node can take in this
    order. *)

From S2P Require Import Prelude Binary Store Inmem RaftTypes Node Election Logs Replication Append Loops TestNode.

(** ** The nodes *)

(** About to campaign for term 6, with a replicator left over. *)
Definition campaigner : TestNode :=
  node_a 5 [] Candidate [] ∅ [mkPeerState B (str "b:1") 1 0 false] ∅ [].

(** A candidate of term 1. *)
Definition self_voter : TestNode := node_a 1 A Candidate [] ∅ [] ∅ [].

(** Leader of term 1 with a client's command that is not replicated. *)
Definition lone_leader : TestNode :=
  node_a 1 A Leader [mkLog 1 1 (str "mine")] ∅ [] (<[1 := 0%nat]> ∅) [newApplyFuture].

(** Formerly leader, with the peer records of that time; its log has since
    been replaced by the leader of term 5. *)
Definition deposed : TestNode :=
  node_a 5 [] Follower [mkLog 1 5 (str "new")] (<[B := 0%nat]> (<[C := 1%nat]> ∅))
    [mkPeerState B (str "b:1") 1 0 false; mkPeerState C (str "c:1") 1 0 false] ∅ [].

(** ** The schedules *)

(** Leader of a term nobody elected it in.  [A] campaigns for term 6
    while a replicator of an earlier leadership still waits for its RPC.  The
    answer of that RPC, of term 9, makes [A] a follower of term 9; the next
    vote of term 6 makes it leader all the same: of term 9, for which it
    asked no votes and gave none. *)
Theorem stale_replicator_makes_leader :
  match runCandidate campaigner
          [CeReplicator 0 [] (Some (mkAppendResp 9 false 0 0)); CeVote (mkVoteResp 6 true)] with
  | Ok (x, req, _) =>
      rv_Term req = 6 /\ run_returned x = true /\ state (run_node x) = Leader /\
      currentTerm (run_node x) = 9 /\ votedFor (run_node x) = []
  | _ => False
  end.
Proof. by vm_compute. Qed.

(** Two votes in one term.  [A] is a candidate of term 1 and has voted
    for itself, on disk; an entry request of the leader [B] of term 1 makes
    it a follower and clears the vote; [C], a candidate of term 1, gets it. *)
Theorem candidate_votes_twice :
  let r := self_voter in
  durable r /\
  match (let! (r1, _, _) := handleAppendEntries r (mkAppendReq 1 B 0 0 [] 0) in
         handleRequestVote r1 (mkVoteReq 1 C 0 0)) with
  | Ok (r2, resp, _) =>
      resp = mkVoteResp 1 true /\ currentTerm r2 = currentTerm r /\
      votedFor r = A /\ votedFor r2 = C
  | _ => False
  end.
Proof.
  split; [|by vm_compute].
  eexists. split; [reflexivity|]. split; [left|]; by vm_compute.
Qed.

(** A success for a command that was discarded.  [A], leader of term 1,
    has a client's command at index 1, not replicated.  [B], leader of term
    2, replaces it and commits its own entry; if the apply loop runs before
    [failPendingFutures], the client's future, found under the index alone,
    is resolved without an error and with the answer to [B]'s command. *)
Theorem discarded_command_reported_applied :
  let r := lone_leader in
  match (let! (r1, _, _) := handleAppendEntries r (mkAppendReq 2 B 0 0 [mkLog 1 2 (str "other")] 1) in
         applyCommitted r1) with
  | Ok r2 =>
      fsm r2 = [str "other"] /\
      futures (failPendingFutures r2) = [mkFuture (Some None) (Some 1)]
  | _ => False
  end.
Proof. by vm_compute. Qed.

(** A follower that commits by counting.  [A] led term 4 and sent [B]
    the entry it had at index 1; it now follows term 5, whose leader has
    replaced that entry.  The late acceptance, which nothing ties to the
    term it was asked in, lets [A] count [B] as having the new entry too. *)
Theorem late_acceptance_commits :
  let r := deposed in
  match replicate_response r 0 [mkLog 1 2 (str "old")] (Some (mkAppendResp 4 true 0 0)) with
  | Ok r' => state r' = Follower /\ commitIndex r = 0 /\ commitIndex r' = 1
  | _ => False
  end.
Proof. by vm_compute. Qed.
