(* ===== verification/Witnesses.v ===== *)
(** * Raft: the theorems at work

    Each theorem of the Raft files that has hypotheses, applied to a concrete
    node on the in-memory stores where they hold. *)

From S2P Require Import Prelude Binary Store Inmem RaftTypes Node Election Logs Replication Append Leader Loops Runs Candidate Committed ApplyLoop ReplicatorLoop TestNode.

(** ** Concrete logs and requests *)

Definition log1 : list LogEntry := [mkLog 1 1 (str "x"); mkLog 2 1 (str "z")].
Definition log2 : list LogEntry := [mkLog 1 1 (str "x"); mkLog 2 2 []; mkLog 3 2 (str "y")].

Definition follower : TestNode := node_a 1 B Follower log1 ∅ [] ∅ [].
Definition peer_b : peerState := mkPeerState B (str "b:1") 4 0 false.
Definition leader : TestNode :=
  node_a 2 A Leader log2 {[B := 0%nat]} [peer_b] {[3 := 0%nat]} [newApplyFuture].

(** What [leader] sends after [B] has turned down the end of its log. *)
Definition ae2 : AppendEntriesRequest := mkAppendReq 2 A 1 1 (drop 1 log2) 2.

Lemma follower_ok : node_ok follower log1.
Proof. apply node_a_ok; node_compute. Qed.

Lemma leader_ok : node_ok leader log2.
Proof. apply node_a_ok; node_compute. Qed.

Lemma leader_peers : peers_ok leader.
Proof. apply one_peer. node_compute. Qed.

Lemma follower_inv : node_inv follower.
Proof. apply node_a_inv; [node_compute..|apply no_peers]. Qed.

Lemma ae2_ok : req_ok ae2.
Proof.
  split; [node_compute..| |node_compute|repeat (apply Forall_cons_2; [node_compute|]); apply Forall_nil_2].
  intros [|[|i]] e E; simpl in E; [injection E as <-|injection E as <-|done]; reflexivity.
Qed.

Lemma ae2_from : from_leader log2 ae2.
Proof. by split. Qed.

Lemma logs_coherent : coherent log2 log1.
Proof.
  intros i j t Hi Hj. pose proof (term_at_Some _ _ _ Hi) as Bi. pose proof (term_at_Some _ _ _ Hj) as Bj.
  change (len log2) with 3 in Bi. change (len log1) with 2 in Bj.
  assert (i = 1 \/ i = 2 \/ i = 3) as [-> |[-> | ->]] by lia;
    assert (j = 1 \/ j = 2) as [-> | ->] by lia; vm_compute in Hi, Hj; try congruence; reflexivity.
Qed.

(** ** Witnesses *)

Lemma handleRequestVote_witness :
  let req := mkVoteReq 2 C 2 1 in
  exists r' g,
    handleRequestVote follower req = Ok (r', mkVoteResp 2 g, g) /\
    (g = true <-> grants 1 B log1 req) /\ durable r'.
Proof.
  destruct (handleRequestVote_spec follower log1 (mkVoteReq 2 C 2 1) follower_ok ltac:(node_compute))
    as (r' & g & E & Hg & _ & _ & _ & _ & _ & Hd).
  exists r', g. split; [exact E|]. split; [exact Hg|]. apply Hd; [apply _|apply node_a_durable].
Defined.

Lemma handleAppendEntries_witness :
  exists r' resp l',
    handleAppendEntries follower ae2 = Ok (r', resp, true) /\ node_ok r' l' /\
    currentTerm r' = 2 /\ state r' = Follower.
Proof.
  destruct (handleAppendEntries_spec follower log1 ae2 follower_ok ae2_ok)
    as (r' & resp & b & l' & E & Hok & _ & Hge & _).
  destruct (Hge ltac:(node_compute)) as (-> & Ht & _ & Hs & _).
  exists r', resp, l'. split; [exact E|]. split; [exact Hok|]. split; [exact Ht|exact Hs].
Defined.

Lemma handleAppendEntries_log_matching_witness :
  match handleAppendEntries follower ae2 with
  | Ok (r', resp, _) =>
      ar_Success resp = true /\
      exists l', node_ok r' l' /\ log_matching log2 l' /\ take 3 l' = take 3 log2
  | _ => False
  end.
Proof.
  destruct (handleAppendEntries follower ae2) as [[[r' resp] b]| | |] eqn:E.
  - assert (ar_Success resp = true) as Hs.
    { assert (match handleAppendEntries follower ae2 with
              | Ok (_, resp, _) => ar_Success resp = true | _ => False end) as H by (vm_compute; reflexivity).
      by rewrite E in H. }
    split; [exact Hs|].
    destruct (handleAppendEntries_log_matching follower log1 log2 ae2 r' resp b follower_ok ae2_ok ae2_from
      (coherent_matching _ _ logs_coherent) E) as (l' & Hok & Hm & _ & H).
    exists l'. split; [exact Hok|]. split; [exact Hm|]. exact (proj1 (H Hs)).
  - destruct e.
  - assert (match handleAppendEntries follower ae2 with Ok _ => True | _ => False end) as H by (vm_compute; exact I).
    by rewrite E in H.
  - assert (match handleAppendEntries follower ae2 with Ok _ => True | _ => False end) as H by (vm_compute; exact I).
    by rewrite E in H.
Defined.

Lemma advanceCommitIndex_witness :
  exists n, quorum_index (3 :: matchIndexes leader) n /\
    advanceCommitIndex leader =
      Ok (if decide (may_commit leader log2 n) then notifyCommit (set_commit leader n) else leader).
Proof. exact (advanceCommitIndex_spec leader log2 leader_ok leader_peers). Defined.

Lemma exchange_converges_witness :
  exists r' f' l',
    exchange 4 leader follower 0 = Ok (r', f', true) /\ node_ok f' l' /\ take 3 l' = log2.
Proof.
  destruct (exchange_converges leader log2 follower log1 0 peer_b _ leader_ok follower_ok eq_refl
    ltac:(node_compute) leader_peers eq_refl ltac:(node_compute) ltac:(node_compute) logs_coherent)
    as (r' & f' & l' & p' & E & _ & _ & Hok & Hl & _).
  exists r', f', l'. split; [exact E|]. split; [exact Hok|exact Hl].
Defined.

(** The follower times out. *)
Lemma timeout_run : rtc step follower (set_state follower Candidate).
Proof. eapply rtc_once, step_timeout. reflexivity. Qed.

Lemma run_invariant_witness :
  node_inv (set_state follower Candidate) /\ 1 <= currentTerm (set_state follower Candidate) /\
  futures_final (futures follower) (futures (set_state follower Candidate)).
Proof. exact (run_invariant _ _ follower_inv timeout_run). Defined.

Lemma restart_after_run_witness :
  let c := mkConfig A trio (150 * Millisecond) (1000 * Millisecond) (2000 * Millisecond)
             (Some (logStore follower)) (Some (stableStore follower)) (Some ([] : testFSM)) in
  exists n, NewRaftNode (R := Z) c = Ok n /\ currentTerm n = 1 /\ votedFor n = B /\ state n = Follower.
Proof.
  intros c. destruct (restart_after_run follower (set_state follower Candidate) c _ follower_inv timeout_run
    eq_refl eq_refl eq_refl) as (n & l & E & _ & _ & _ & Ht & Hv & Hs & _).
  exists n. split; [exact E|]. split; [exact Ht|]. split; [exact Hv|exact Hs].
Defined.

(** A client knocks; the follower's vote stays. *)
Lemma follower_votes_once_witness :
  votedFor (Apply follower (str "cmd") TimedOut).1 = votedFor follower.
Proof.
  apply (follower_votes_once follower); [exact follower_inv| |reflexivity|discriminate].
  eapply rtc_once. split; [reflexivity|]. apply step_client. exact I.
Defined.

Definition candidate : TestNode := node_a 1 B Candidate log1 ∅ [] ∅ [].

Lemma candidate_ok : node_ok candidate log1.
Proof. apply node_a_ok; node_compute. Qed.

Lemma runCandidate_wins_witness :
  let evs := [CeVote (mkVoteResp 1 false); CeVote (mkVoteResp 2 true)] in
  match runCandidate candidate evs with
  | Ok (x, req, _) => currentTerm (run_node x) = 2 /\ 3 < 2 * (1 + granted evs)
  | _ => False
  end.
Proof.
  intros evs. destruct (runCandidate candidate evs) as [[[x req] addrs]| | |] eqn:E.
  2-4: assert (match runCandidate candidate evs with Ok _ => True | _ => False end) as H
    by (vm_compute; exact I); rewrite E in H; destruct H.
  assert (match runCandidate candidate evs with Ok (x, _, _) => state (run_node x) = Leader | _ => False end) as H
    by (vm_compute; reflexivity).
  rewrite E in H.
  destruct (runCandidate_wins candidate log1 evs x req addrs candidate_ok eq_refl ltac:(discriminate)
    ltac:(node_compute) ltac:(repeat constructor; vm_compute; discriminate) E H) as (Ht & _ & _ & _ & _ & Hq).
  split; [exact Ht|exact Hq].
Defined.

Lemma runCandidate_elected_witness :
  exists x req addrs, runCandidate candidate (map CeVote [mkVoteResp 2 true]) = Ok (x, req, addrs) /\
    run_returned x = true /\ state (run_node x) = Leader /\ currentTerm (run_node x) = 1 + 1.
Proof.
  apply (runCandidate_elected candidate log1); [exact candidate_ok|reflexivity|node_compute| |vm_compute; discriminate].
  repeat constructor. vm_compute. discriminate.
Defined.

Lemma leader_init_witness :
  exists r' loc, leader_init leader = Ok r' /\ peers r' !! C = Some loc /\
    heap r' !! loc = Some (mkPeerState C (str "c:1") 4 0 false).
Proof.
  destruct (leader_init_spec leader log2 leader_ok) as (r' & E & _ & H & _).
  { vm_compute. repeat (constructor; [intros X; repeat (inversion X as [|? ? ? X']; clear X; rename X' into X; try discriminate)|]).
    constructor. }
  destruct (H (mkPeer C (str "c:1"))) as (loc & Hl & Hh); [|discriminate|].
  { right. right. left. }
  exists r', loc. split; [exact E|]. split; [exact Hl|exact Hh].
Defined.

Lemma leader_room : log_room leader.
Proof. intros l Hl. rewrite <-(Log.repr_high _ _ Hl). node_compute. Qed.

Lemma handleApplyRequest_witness :
  exists (s : Log.InmemLogStore) (err : option error) l', log_repr s l' /\
    match err with
    | None => l' = log2 ++ [mkLog 4 2 (str "new")]
    | Some _ => l' = log2
    end.
Proof.
  destruct (proj2 (handleApplyRequest_spec leader log2 (mkApplyReq (str "new") 0) leader_ok
    leader_room) eq_refl)
    as (s & err & l' & Hs & H).
  exists s, err, l'. split; [exact Hs|]. destruct err; [exact (proj1 H)|exact (proj1 H)].
Defined.

(** The leader with its log committed. *)
Definition ready : TestNode := set_commit leader 3.

Lemma ready_ok : node_ok ready log2.
Proof. destruct leader_ok. by split. Qed.

Lemma applyCommitted_witness :
  exists r', applyCommitted ready = Ok r' /\ fsm r' = [str "x"; str "y"] /\ lastApplied r' = 3.
Proof.
  destruct (applyCommitted_spec ready log2 [str "x"; str "y"] ready_ok ltac:(node_compute)
    ltac:(vm_compute; discriminate) eq_refl) as (r' & E & Hf & Ha & _).
  exists r'. split; [exact E|]. split; [exact Hf|exact Ha].
Defined.

Lemma ready_applied : fsm_applied [] ready log2.
Proof. by split. Qed.

Lemma applyCommitted_refines_witness :
  match applyCommitted ready with
  | Ok r' => fsm_applied [] r' log2 /\ lastApplied r' = 3
  | _ => False
  end.
Proof.
  destruct (applyCommitted ready) as [r'| | |] eqn:E.
  2-4: assert (match applyCommitted ready with Ok _ => True | _ => False end) as H
    by (vm_compute; exact I); rewrite E in H; destruct H.
  destruct (applyCommitted_refines [] ready log2 r' ready_ok ready_applied ltac:(node_compute) E)
    as (Hf & Ha & _).
  split; [exact Hf|exact Ha].
Defined.

(** [B] has accepted everything; the goroutine of the apply loop has been told
    and is about to apply the second entry. *)
Definition accepted : TestNode :=
  match replicate_response leader 0 (drop 1 log2) (Some (mkAppendResp 2 true 0 0)) with Ok r => r | _ => leader end.

Definition half_way : TestNode :=
  match apply_one (set_notify accepted false) 1 with Ok r => r | _ => leader end.

Lemma half_way_reached : rtc busy_step (mkWorker leader Waiting) (mkWorker half_way (Applying 2 3)).
Proof.
  eapply rtc_l; [apply (busy_other leader accepted)|].
  - apply (step_response leader 0 (drop 1 log2) (Some (mkAppendResp 2 true 0 0))); [| |reflexivity].
    + intros e He. simpl in He. repeat (apply elem_of_cons in He as [->|He]; [vm_compute; split; discriminate|]).
      by apply elem_of_nil in He.
    + intros x [= <-]. vm_compute. split; discriminate.
  - reflexivity.
  - vm_compute. split; [discriminate|reflexivity].
  - eapply rtc_l; [apply (busy_loop _ (mkWorker (set_notify accepted false) Woken)); [by apply loop_notified|done]|].
    eapply rtc_l; [apply (busy_loop _ (mkWorker (set_notify accepted false) (Applying 1 3))); [apply (loop_indexes (set_notify accepted false))|done]|].
    eapply rtc_once, busy_loop; [apply (loop_entry _ 1 3 half_way); [done|reflexivity]|].
    intros idx c [= <- <-] _. reflexivity.
Qed.

Lemma apply_loop_catches_up_witness :
  exists w', rtc applyLoop_step (mkWorker half_way (Applying 2 3)) w' /\
    lastApplied (wk_node w') = 3 /\ fsm (wk_node w') = [str "x"; str "y"].
Proof.
  destruct (apply_loop_catches_up leader (mkWorker half_way (Applying 2 3)) log2 [str "x"; str "y"])
    as (w' & Hrun & _ & Hf & Ha & Hc & _).
  - reflexivity.
  - vm_compute. split; [discriminate|reflexivity].
  - exact half_way_reached.
  - discriminate.
  - apply log_of_repr; by vm_compute.
  - vm_compute. discriminate.
  - reflexivity.
  - exists w'. split; [exact Hrun|]. split; [rewrite Ha; exact Hc|exact Hf].
Defined.

(** The replicator of [B] has sent all there is when a command arrives; then
    its call fails. *)
Definition empty_ae : AppendEntriesRequest := mkAppendReq 2 A 3 2 [] 0.
Definition commanded : TestNode :=
  match handleApplyRequest leader (mkApplyReq (str "new") 0) with Ok r => r | _ => leader end.

Lemma leader_inv : node_inv leader.
Proof. apply node_a_inv; [node_compute..|apply leader_peers]. Qed.

Lemma commanded_reached : rtc (reign_step 0) (mkReplicator leader AtTop) (mkReplicator commanded (Asked empty_ae 3)).
Proof.
  eapply rtc_l; [apply (reign_own 0 false _ (mkReplicator leader (Asked empty_ae 3)))|].
  - by apply (repl_asks 0 false false leader empty_ae 3 None).
  - reflexivity.
  - apply rtc_once, reign_other; [|reflexivity|reflexivity].
    apply (step_append leader (mkApplyReq (str "new") 0)); [apply leader_room|reflexivity].
Qed.

Lemma replicator_not_stuck_witness :
  exists r', rtc (runReplicator_step 0 false false) (mkReplicator commanded (Asked empty_ae 3)) (mkReplicator r' AtTop) /\
    forall p, heap r' !! 0%nat = Some p -> nextIndex p = 4 ->
      ae_Entries (request_for r' (log2 ++ [mkLog 4 2 (str "new")]) p) = [mkLog 4 2 (str "new")].
Proof.
  destruct (replicator_not_stuck 0 B leader (mkReplicator commanded (Asked empty_ae 3)) (log2 ++ [mkLog 4 2 (str "new")]) None)
    as (r' & Hrun & _ & H).
  - exact leader_inv.
  - reflexivity.
  - reflexivity.
  - exact commanded_reached.
  - discriminate.
  - change (Log.repr (logStore commanded) (log2 ++ [mkLog 4 2 (str "new")])).
    assert (logStore commanded = log_of (log2 ++ [mkLog 4 2 (str "new")])) as -> by reflexivity. apply log_of_repr; by vm_compute.
  - discriminate.
  - intros req n [= <- <-]. split; [reflexivity|]. split; [intros e He; by apply elem_of_nil in He|]. split; [discriminate|].
    exists commanded. split; reflexivity.
  - exists r'. split; [exact Hrun|]. intros p Hp Hn.
    destruct (H p Hp) as [_ E]; [rewrite Hn; vm_compute; split; discriminate|]. rewrite E, Hn. reflexivity.
Defined.
